(** * GEDCOM family-tree editor: line parser, layout engine and mutation operations

    A shallow embedding of [js/gedcom.js] (FamilyRow, formatLine, parseLine,
    parse, updateMapsForDisplay, findParentOfParent, display,
    calculateDisplayPositions), [js/gedcom_edit.js] (findRoot, the add-relative
    operations, the deletion cascade, the field editors, the date and age
    helpers), [js/gedcom_export.js] (createFileContent, sanitizeFileName),
    [js/undo_state.js] (the undo and redo stacks) and the generation distance
    of the graph filter, followed by the properties established about them.

    Conventions.
    - A JavaScript string is a [string] of UTF-8 bytes.  Splitting a line
      inspects only the ASCII space and the at sign, so the byte view is
      exact for it; where the code counts characters or strips, skips or
      matches white space, which in JavaScript includes characters outside
      ASCII, the model decodes the bytes ([jsLength], [Str.whiteChar]).
    - [undefined]/[null] fields are [None].
    - A JavaScript [Map] is an insertion-ordered association list ([JSMap]).
    - Level-0 INDI and FAM records are shared between the root's arrays and
      the two Maps, so they live in a store and are referred to by address;
      the records nested below them are owned by exactly one parent and are
      plain values.
    - Code that can raise a TypeError returns [Throw]; loops whose termination
      is not structural take a fuel argument and return [OutOfFuel] when it
      runs out. *)

From Stdlib Require Import ZArith Lia Ascii String List FinFun.
From stdpp Require Import base option list strings pretty.

Open Scope Z_scope.

Set Warnings "-register-all".

(** ** JavaScript strings *)

Module Str.

(** The ASCII white space: TAB, LF, VT, FF, CR and SPACE. *)
Definition is_space (c : ascii) : bool :=
  let n := nat_of_ascii c in
  ((9 <=? n)%nat && (n <=? 13)%nat) || (n =? 32)%nat.

(** One white-space character at the head of a text: what [trim] strips,
    what [\s] of a regular expression matches and what [parseInt] and the
    string-to-number conversion skip.  Texts are held in UTF-8; beside the
    ASCII ones the white-space characters are U+00A0, U+1680, U+2000 to
    U+200A, U+2028, U+2029, U+202F, U+205F, U+3000 and U+FEFF. *)
Definition whiteChar (s : string) : option string :=
  match s with
  | EmptyString => None
  | String c s1 =>
      if is_space c then Some s1
      else
        let n := nat_of_ascii c in
        match s1 with
        | String d s2 =>
            let d := nat_of_ascii d in
            if (n =? 194)%nat && (d =? 160)%nat then Some s2
            else
              match s2 with
              | String e s3 =>
                  let e := nat_of_ascii e in
                  if ((n =? 225)%nat && (d =? 154)%nat && (e =? 128)%nat)
                     || ((n =? 226)%nat && (d =? 128)%nat
                         && (((128 <=? e)%nat && (e <=? 138)%nat)
                             || (e =? 168)%nat || (e =? 169)%nat || (e =? 175)%nat))
                     || ((n =? 226)%nat && (d =? 129)%nat && (e =? 159)%nat)
                     || ((n =? 227)%nat && (d =? 128)%nat && (e =? 128)%nat)
                     || ((n =? 239)%nat && (d =? 187)%nat && (e =? 191)%nat)
                  then Some s3 else None
              | EmptyString => None
              end
        | EmptyString => None
        end
  end.

(** White space skipped as long as there is some; every step removes at
    least one byte, so the length of the text is fuel enough. *)
Fixpoint skipWhite (fuel : nat) (s : string) : string :=
  match fuel with
  | O => s
  | S fuel' =>
      match whiteChar s with
      | Some rest => skipWhite fuel' rest
      | None => s
      end
  end.

(** [s.trimStart()]. *)
Definition trimStart (s : string) : string := skipWhite (String.length s) s.

(** A text of white space only, the empty text included. *)
Definition blank (s : string) : bool :=
  match trimStart s with EmptyString => true | _ => false end.

(** [s.trimEnd()]: the text up to where the white space it ends with
    starts.  In UTF-8 no white-space character starts inside another
    character, so the first byte from which the text is blank starts that
    white space. *)
Fixpoint trimEnd (s : string) : string :=
  match s with
  | EmptyString => EmptyString
  | String c s' => if blank s then EmptyString else String c (trimEnd s')
  end.

(** [s.trim()]. *)
Definition trim (s : string) : string := trimEnd (trimStart s).

(** [s.split(' ')]: cut at every space; consecutive spaces give empty
    tokens and the result always has at least one element. *)
Fixpoint split (s : string) : list string :=
  match s with
  | EmptyString => [EmptyString]
  | String c s' =>
      if Ascii.eqb c " " then EmptyString :: split s'
      else match split s' with
           | [] => [String c EmptyString]
           | t :: ts => String c t :: ts
           end
  end.

(** [tokens.join(' ')]. *)
Definition join (l : list string) : string := String.concat " " l.

(** [tmp.charAt(0) === '@']. *)
Definition startsWithAt (s : string) : bool :=
  match s with
  | String c _ => Ascii.eqb c "@"
  | EmptyString => false
  end.

(** [value.match(/@[^@]+@/)]: the pattern is not anchored, so it succeeds as
    soon as some at sign is followed by one or more other characters and
    another at sign.  The scan remembers whether an at sign has been seen
    ([seenAt]) and whether a character other than the at sign followed it
    ([seenBody]). *)
Fixpoint matchFrom (seenAt seenBody : bool) (s : string) : bool :=
  match s with
  | EmptyString => false
  | String c s' =>
      if Ascii.eqb c "@" then
        if seenAt && seenBody then true else matchFrom true false s'
      else matchFrom seenAt seenAt s'
  end.

Definition matchesIdRef (s : string) : bool := matchFrom false false s.

Definition is_digit (c : ascii) : bool :=
  let n := nat_of_ascii c in (48 <=? n)%nat && (n <=? 57)%nat.

Fixpoint digits (acc : Z) (s : string) : option Z :=
  match s with
  | EmptyString => Some acc
  | String c s' =>
      if is_digit c
      then digits (10 * acc + Z.of_nat (nat_of_ascii c) - 48) s'
      else None
  end.

(** The string-to-number conversion applied by [-], [>] and [==].  The model
    covers the literals a level or an ORDER value is written with: white
    space around an optionally signed run of decimal digits, the empty string
    being 0.  [None] stands for NaN; fractional, exponent and radix-prefixed
    literals, which JavaScript also accepts, are outside the model and read
    as NaN here. *)
Definition toNumber (s : string) : option Z :=
  match trim s with
  | EmptyString => Some 0
  | String c s' =>
      if Ascii.eqb c "-" then
        match s' with EmptyString => None | _ => option_map Z.opp (digits 0 s') end
      else if Ascii.eqb c "+" then
        match s' with EmptyString => None | _ => digits 0 s' end
      else digits 0 (String c s')
  end.

End Str.

(** ** Records *)

(** A level is the token read from a line (a string) or the number 0 or 1
    given by the mutation operations. *)
Inductive Level := LStr (s : string) | LNum (n : Z).

(** A field slot of a record: a single child or an array of children. *)
Inductive Slot (A : Type) := One (r : A) | Many (rs : list A).
Arguments One {A} r.
Arguments Many {A} rs.

Definition NOT_SET : Z := -1.
Definition INIT_LEVEL : Z := -10.

(** [class FamilyRow]: the four optional fields set by the constructor, the
    traversal fields [visited] and [rowLevel], and the children added
    dynamically under their tag, in property insertion order.  The two Maps
    the constructor also creates are only ever used on the root and are kept
    in the program state below. *)
Inductive FamilyRow := mkRow {
  level : option Level;
  id : option string;
  tag : option string;
  value : option string;
  visited : bool;
  rowLevel : Z;
  props : list (string * Slot FamilyRow)
}.

(** [new FamilyRow(level, id, tag, value)]. *)
Definition newFamilyRow (level : option Level) (id tag value : option string) : FamilyRow :=
  mkRow level id tag value false NOT_SET [].

(** The number a level converts to ([None] is NaN). *)
Definition levelNum (l : option Level) : option Z :=
  match l with
  | None => None
  | Some (LStr s) => Str.toNumber s
  | Some (LNum n) => Some n
  end.

(** [this.level == 0]. *)
Definition levelIsZero (l : option Level) : bool :=
  match l with
  | None => false
  | _ => match levelNum l with Some n => n =? 0 | None => false end
  end.

(** The text a level contributes to a string concatenation. *)
Definition levelText (l : option Level) : string :=
  match l with
  | None => ""
  | Some (LStr s) => s
  | Some (LNum n) => pretty n
  end.

(** [FamilyRow.prototype.toString]. *)
Definition toString (r : FamilyRow) : string :=
  levelText (level r)
  +:+ match id r with
      | Some i => if levelIsZero (level r) then " " +:+ i else ""
      | None => ""
      end
  +:+ match tag r with Some t => " " +:+ t | None => "" end
  +:+ match id r with
      | Some i => if negb (levelIsZero (level r)) then " " +:+ i else ""
      | None => ""
      end
  +:+ match value r with Some v => " " +:+ v | None => "" end.

(** [formatLine(line)].  With fewer than two tokens [tmp] is undefined,
    [tmp.charAt] raises, the handler logs the line and the record keeps only
    its level.  [split.shift()] on an empty array gives [undefined]. *)
Definition formatLine (line : string) : FamilyRow :=
  match Str.split line with
  | [] => newFamilyRow None None None None
  | lvl :: [] => newFamilyRow (Some (LStr lvl)) None None None
  | lvl :: tmp :: rest =>
      let '(id0, tag0, rest') :=
        if Str.startsWithAt tmp then (Some tmp, head rest, tail rest)
        else (None, Some tmp, rest) in
      match rest' with
      | [] => newFamilyRow (Some (LStr lvl)) id0 tag0 None
      | _ =>
          let v := Str.join rest' in
          if Str.matchesIdRef v
          then newFamilyRow (Some (LStr lvl)) (Some v) tag0 None
          else newFamilyRow (Some (LStr lvl)) id0 tag0 (Some v)
      end
  end.


(** ** Outcomes *)

(** What a run of a JavaScript function ends in: a value, an uncaught
    exception, the end of the fuel given to a loop of the model, or an input
    outside the model (a tag that names a built-in property). *)
Inductive Res (A : Type) :=
| Ok (a : A)
| Throw (msg : string)
| OutOfFuel
| Unmodelled.
Arguments Ok {A} a.
Arguments Throw {A} msg.
Arguments OutOfFuel {A}.
Arguments Unmodelled {A}.

Definition bindRes {A B : Type} (m : Res A) (f : A -> Res B) : Res B :=
  match m with
  | Ok a => f a
  | Throw e => Throw e
  | OutOfFuel => OutOfFuel
  | Unmodelled => Unmodelled
  end.

Notation "'let*' x ':=' m 'in' k" := (bindRes m (fun x => k))
  (at level 10, x pattern, m at level 100, k at level 200).

(** ** Property access on a record *)

Fixpoint getProp {A : Type} (k : string) (ps : list (string * A)) : option A :=
  match ps with
  | [] => None
  | (k', v) :: ps' => if String.eqb k k' then Some v else getProp k ps'
  end.

(** [obj[k] = v]: an existing key keeps its place, a new key goes last. *)
Fixpoint setProp {A : Type} (k : string) (v : A) (ps : list (string * A)) : list (string * A) :=
  match ps with
  | [] => [(k, v)]
  | (k', v') :: ps' =>
      if String.eqb k k' then (k, v) :: ps' else (k', v') :: setProp k v ps'
  end.

(** [delete obj[k]]. *)
Fixpoint delProp {A : Type} (k : string) (ps : list (string * A)) : list (string * A) :=
  match ps with
  | [] => []
  | (k', v') :: ps' =>
      if String.eqb k k' then ps' else (k', v') :: delProp k ps'
  end.

Definition withProps (r : FamilyRow) (ps : list (string * Slot FamilyRow)) : FamilyRow :=
  mkRow (level r) (id r) (tag r) (value r) (visited r) (rowLevel r) ps.

(** The property key a tag is used as ([undefined] converts to its name). *)
Definition tagKey (t : option string) : string :=
  match t with Some s => s | None => "undefined" end.

(** Keys under which a FamilyRow already answers with something that is not a
    child record (its own fields, the inherited members of Object.prototype)
    and keys that are array indices, which property enumeration moves to the
    front.  Lines with such a tag are outside the model. *)
Definition ownFields : list string :=
  ["level"; "id"; "tag"; "value"; "indviduals"; "families"; "visited";
   "rowLevel"; "parent"].

Definition inheritedMembers : list string :=
  ["constructor"; "toString"; "toLocaleString"; "valueOf"; "hasOwnProperty";
   "isPrototypeOf"; "propertyIsEnumerable"; "__proto__"; "__defineGetter__";
   "__defineSetter__"; "__lookupGetter__"; "__lookupSetter__"].

Fixpoint allDigits (s : string) : bool :=
  match s with
  | EmptyString => true
  | String c s' => Str.is_digit c && allDigits s'
  end.

Definition reservedKey (k : string) : bool :=
  existsb (String.eqb k) ownFields || existsb (String.eqb k) inheritedMembers
  || (allDigits k && negb (String.eqb k "")).

(** ** The line parser *)

Definition isRelationTag (t : option string) : bool :=
  match t with
  | Some s => existsb (String.eqb s) ["FAMS"; "FAMC"; "CHIL"; "HUSB"; "WIFE"]
  | None => false
  end.

(** The second half of [parseLine]: store [element] under its tag in
    [parent_elem].  An array is appended to, a single record becomes a
    two-element array, a relationship tag starts an array, anything else is
    stored as a single record. *)
Definition attach (parent_elem element : FamilyRow) : Res FamilyRow :=
  let k := tagKey (tag element) in
  if reservedKey k then Unmodelled
  else
    let slot :=
      match getProp k (props parent_elem) with
      | Some (Many rs) => Many (rs ++ [element])
      | Some (One r) => Many [r; element]
      | None => if isRelationTag (tag element) then Many [element] else One element
      end in
    Ok (withProps parent_elem (setProp k slot (props parent_elem))).

(** [a > b] on numbers; a comparison with NaN is false. *)
Definition gtNum (a b : option Z) : bool :=
  match a, b with
  | Some x, Some y => y <? x
  | _, _ => false
  end.

(** The first half of [parseLine]:
    [while (parent_elem.level > element.level - 1) parent_elem = parent_elem.parent].
    The parser's position is the chain from [lastElement] up to the root:
    [cur] with the records [above] it, nearest first.  A record is written
    into its parent's slot when the walk leaves it: every later line starts
    its walk at or below it, so nothing reads or writes the parent's slot in
    between.  Walking past the root reads [level] of [undefined]. *)
Fixpoint climb (cur : FamilyRow) (above : list FamilyRow) (lvl : option Z)
  : Res (FamilyRow * list FamilyRow) :=
  if gtNum (levelNum (level cur)) (option_map (fun n => n - 1) lvl) then
    match above with
    | [] => Throw "TypeError: parent_elem is undefined"
    | p :: above' => let* p' := attach p cur in climb p' above' lvl
    end
  else Ok (cur, above).

(** [parseLine(element, lastElement)]: the new record becomes [lastElement],
    with the parent found by the walk first in the chain above it. *)
Definition parseLine (element : FamilyRow) (last : FamilyRow * list FamilyRow)
  : Res (FamilyRow * list FamilyRow) :=
  let* (p, above) := climb (fst last) (snd last) (levelNum (level element)) in
  Ok (element, p :: above).

(** The root as seen once parsing is over: every record still open on the
    chain is in its parent's slot. *)
Fixpoint closeAll (cur : FamilyRow) (above : list FamilyRow) : Res FamilyRow :=
  match above with
  | [] => Ok cur
  | p :: above' => let* p' := attach p cur in closeAll p' above'
  end.

(** The lines [parse] falls back on.  The repository holds two copies of
    [gedcom.js] that differ in this literal only: the older copy, the one
    the graph code is appended to, has a header, one unnamed individual and
    a trailer ([defaultLines]); the current copy has "You", "Your Father"
    and "Your Mother" linked by one family ([defaultLinesFamily]). *)
Definition defaultLines : list string :=
  ["0 HEAD"; "1 SOUR Amal's gedcom editor JS"; "2 WWW "; "1 FILE Family Init";
   "1 DATE 08 Mar 2025"; "1 DEST ANSTFILE"; "1 GEDC"; "2 VERS 5.5.1";
   "2 FORM LINEAGE-LINKED"; "0 @I1@ INDI"; "1 NAME "; "0 TRLR"].

Definition defaultLinesFamily : list string :=
  ["0 HEAD"; "1 SOUR GEDCOM Family Tree Editor"; "2 WWW https://github.com";
   "1 FILE Family Tree"; "1 DATE 01 Feb 2026"; "1 DEST ANSTFILE"; "1 GEDC";
   "2 VERS 5.5.1"; "2 FORM LINEAGE-LINKED";
   "0 @I1@ INDI"; "1 NAME You"; "1 SEX M"; "1 FAMC @F1@";
   "0 @I2@ INDI"; "1 NAME Your Father"; "1 SEX M"; "1 FAMS @F1@";
   "0 @I3@ INDI"; "1 NAME Your Mother"; "1 SEX F"; "1 FAMS @F1@";
   "0 @F1@ FAM"; "1 HUSB @I2@"; "1 WIFE @I3@"; "1 CHIL @I1@";
   "0 TRLR"].

Definition nonEmpty (s : string) : bool := negb (String.eqb s "").

Fixpoint parseLines (lines : list string) (last : FamilyRow * list FamilyRow)
  : Res (FamilyRow * list FamilyRow) :=
  match lines with
  | [] => Ok last
  | line :: lines' =>
      let* last' := parseLine (formatLine (Str.trim line)) last in
      parseLines lines' last'
  end.

(** [parse()], with [document.dataUnparsed] as its argument ([None] when it
    is not set) and the lines used when there are none.  The result is
    [element_top]. *)
Definition parseWith (fallback : list string) (dataUnparsed : option (list string))
  : Res FamilyRow :=
  let element_top := formatLine "-1 TOP" in
  let lines :=
    match dataUnparsed with
    | None | Some [] => fallback
    | Some ls => ls
    end in
  let* (cur, above) :=
    parseLines (filter (fun l => nonEmpty l = true) (map Str.trim lines))
               (element_top, []) in
  closeAll cur above.

Definition parse (dataUnparsed : option (list string)) : Res FamilyRow :=
  parseWith defaultLines dataUnparsed.

(** ** Export *)

Definition nl : string := String (ascii_of_nat 10) EmptyString.

(** [createFileContentOne(familyRow)] on a record: its line, then the
    children found under its enumerable keys, in key order (the scalar
    fields, the Maps and [parent] contribute nothing). *)
Fixpoint createFileContentOne (r : FamilyRow) : string :=
  toString r +:+ nl +:+
  (fix overProps (ps : list (string * Slot FamilyRow)) : string :=
     match ps with
     | [] => ""
     | (_, One c) :: ps' => createFileContentOne c +:+ overProps ps'
     | (_, Many cs) :: ps' =>
         (fix overArray (cs : list FamilyRow) : string :=
            match cs with
            | [] => ""
            | c :: cs' => createFileContentOne c +:+ overArray cs'
            end) cs +:+ overProps ps'
     end) (props r).

(** [createFileContentOne(array)]. *)
Definition createFileContentArray (cs : list FamilyRow) : string :=
  String.concat "" (map createFileContentOne cs).

(** [createFileContent(familyRowHead)]: a single HEAD record goes first, a
    single TRLR record last, everything else in between in key order. *)
Definition createFileContent (familyRowHead : FamilyRow) : string :=
  let part (want : string -> Slot FamilyRow -> bool) :=
    String.concat ""
      (map (fun '(k, sl) =>
              if want k sl then
                match sl with
                | One c => createFileContentOne c
                | Many cs => createFileContentArray cs
                end
              else "")
           (props familyRowHead)) in
  let isOne (sl : Slot FamilyRow) := match sl with One _ => true | Many _ => false end in
  let first := part (fun k sl => isOne sl && String.eqb k "HEAD") in
  let last := part (fun k sl => isOne sl && String.eqb k "TRLR") in
  let middle := part (fun k sl => negb (isOne sl && (String.eqb k "HEAD" || String.eqb k "TRLR"))) in
  first +:+ middle +:+ last.

(** [text.split('\n')], as [importGedComText] prepares the lines. *)
Fixpoint splitLines (s : string) : list string :=
  match s with
  | EmptyString => [EmptyString]
  | String c s' =>
      if Ascii.eqb c (ascii_of_nat 10) then EmptyString :: splitLines s'
      else match splitLines s' with
           | [] => [String c EmptyString]
           | t :: ts => String c t :: ts
           end
  end.

Definition importGedComText (text : string) : list string := splitLines text.

Definition scenarioA : list string :=
  ["0 @I1@ INDI"; "1 NAME You"; "1 SEX M"; "1 FAMC @F1@";
   "0 @I2@ INDI"; "1 NAME Father"; "1 SEX M"; "1 FAMS @F1@";
   "0 @I3@ INDI"; "1 NAME Mother"; "1 SEX F"; "1 FAMS @F1@";
   "0 @F1@ FAM"; "1 HUSB @I2@"; "1 WIFE @I3@"; "1 CHIL @I1@"].


(** ** The object graph of a parsed tree *)

(** The address of a level-0 record in the store. *)
Definition addr := nat.

(** A JavaScript [Map] keyed by record ids, in insertion order. *)
Definition JSMap := list (option string * addr).

Definition optEqb (a b : option string) : bool :=
  match a, b with
  | Some x, Some y => String.eqb x y
  | None, None => true
  | _, _ => false
  end.

Fixpoint mapGet (k : option string) (m : JSMap) : option addr :=
  match m with
  | [] => None
  | (k', v) :: m' => if optEqb k k' then Some v else mapGet k m'
  end.

Definition mapHas (k : option string) (m : JSMap) : bool :=
  match mapGet k m with Some _ => true | None => false end.

Fixpoint mapSet (k : option string) (v : addr) (m : JSMap) : JSMap :=
  match m with
  | [] => [(k, v)]
  | (k', v') :: m' => if optEqb k k' then (k, v) :: m' else (k', v') :: mapSet k v m'
  end.

Fixpoint mapDelete (k : option string) (m : JSMap) : JSMap :=
  match m with
  | [] => []
  | (k', v') :: m' => if optEqb k k' then m' else (k', v') :: mapDelete k m'
  end.

(** The root record ([element_top]) with what hangs off it, and the
    module-level variables of the layout.  [store] holds the level-0 INDI and
    FAM records; [INDI] and [FAM] are the root's two slots, a single record
    or an array as the parser left them; [indviduals] and [families] are the
    root's Maps (spelt as in the source); [queueForNext] and [orderInLevel]
    are the layout's queue and row table, a row being its [order] array;
    [alerts] collects the messages passed to [alert]. *)
Record State := mkState {
  store : list FamilyRow;
  INDI : option (Slot addr);
  FAM : option (Slot addr);
  indviduals : JSMap;
  families : JSMap;
  queueForNext : list addr;
  orderInLevel : list (Z * list addr);
  alerts : list string
}.

Definition emptyRow : FamilyRow := newFamilyRow None None None None.

(** The record at an address. *)
Definition deref (s : State) (a : addr) : FamilyRow :=
  default emptyRow (store s !! a).

Definition setStore (s : State) (st : list FamilyRow) : State :=
  mkState st (INDI s) (FAM s) (indviduals s) (families s)
          (queueForNext s) (orderInLevel s) (alerts s).
Definition setINDI (s : State) (v : option (Slot addr)) : State :=
  mkState (store s) v (FAM s) (indviduals s) (families s)
          (queueForNext s) (orderInLevel s) (alerts s).
Definition setFAM (s : State) (v : option (Slot addr)) : State :=
  mkState (store s) (INDI s) v (indviduals s) (families s)
          (queueForNext s) (orderInLevel s) (alerts s).
Definition setIndviduals (s : State) (m : JSMap) : State :=
  mkState (store s) (INDI s) (FAM s) m (families s)
          (queueForNext s) (orderInLevel s) (alerts s).
Definition setFamilies (s : State) (m : JSMap) : State :=
  mkState (store s) (INDI s) (FAM s) (indviduals s) m
          (queueForNext s) (orderInLevel s) (alerts s).
Definition setQueue (s : State) (q : list addr) : State :=
  mkState (store s) (INDI s) (FAM s) (indviduals s) (families s)
          q (orderInLevel s) (alerts s).
Definition setOrder (s : State) (o : list (Z * list addr)) : State :=
  mkState (store s) (INDI s) (FAM s) (indviduals s) (families s)
          (queueForNext s) o (alerts s).
Definition alert (s : State) (msg : string) : State :=
  mkState (store s) (INDI s) (FAM s) (indviduals s) (families s)
          (queueForNext s) (orderInLevel s) (alerts s ++ [msg]).

(** Overwrite the record at an address. *)
Definition update (s : State) (a : addr) (f : FamilyRow -> FamilyRow) : State :=
  setStore s (<[a := f (deref s a)]> (store s)).

(** Allocate a record. *)
Definition alloc (s : State) (r : FamilyRow) : State * addr :=
  (setStore s (store s ++ [r]), length (store s)).

Definition slotList {A : Type} (sl : Slot A) : list A :=
  match sl with One r => [r] | Many rs => rs end.

(** The addresses given to the records of a slot when they are put in the
    store from address [n] on. *)
Definition slotAddrs (n : nat) (sl : Slot FamilyRow) : Slot addr :=
  match sl with
  | One _ => One n
  | Many rs => Many (seq n (length rs))
  end.

(** The state a parsed root stands for: its INDI records, then its FAM
    records, in the store; fresh Maps, an empty queue and row table. *)
Definition load (top : FamilyRow) : State :=
  let indi := getProp "INDI" (props top) in
  let fam := getProp "FAM" (props top) in
  let indis := from_option slotList [] indi in
  let fams := from_option slotList [] fam in
  mkState (indis ++ fams)
          (option_map (slotAddrs 0) indi)
          (option_map (slotAddrs (length indis)) fam)
          [] [] [] [] [].

(** [updateMapsForDisplay(top)]. *)
Definition updateMapsForDisplay (s : State) : State :=
  let fill (sl : option (Slot addr)) : JSMap :=
    match sl with
    | Some (Many rs) => fold_left (fun m a => mapSet (id (deref s a)) a m) rs []
    | Some (One a) => mapSet (id (deref s a)) a []
    | None => []
    end in
  setFamilies (setIndviduals s (fill (INDI s))) (fill (FAM s)).

(** ** Root discovery *)

(** Whether an id is truthy: defined and not the empty string. *)
Definition truthyId (i : option string) : bool :=
  match i with Some s => nonEmpty s | None => false end.

(** [getIdFromNode(currentNode, tagName)]; [currentNode] may be undefined,
    and the first element of an empty array is. *)
Definition getIdFromNode (currentNode : option FamilyRow) (tagName : string)
  : Res (option string) :=
  match currentNode with
  | None => Throw "TypeError: cannot read properties of undefined"
  | Some r =>
      match getProp tagName (props r) with
      | None => Ok None
      | Some (Many []) => Throw "TypeError: cannot read properties of undefined (reading 'id')"
      | Some (Many (c :: _)) => Ok (id c)
      | Some (One c) => Ok (id c)
      end
  end.

Definition tagIs (r : FamilyRow) (t : string) : bool :=
  match tag r with Some t' => String.eqb t' t | None => false end.

(** One call of [findParentOfParent]: either it returns ([inl]) or it calls
    itself on the father ([inr]). *)
Definition findParentOfParent_step (s : State) (currentNode : option addr)
  : Res (option addr + addr) :=
  match currentNode with
  | None => Ok (inl None)
  | Some a =>
      if tagIs (deref s a) "INDI" then
        let* parentFamily := getIdFromNode (Some (deref s a)) "FAMC" in
        let* currentNodeParent :=
          (if truthyId parentFamily then
             let fam := mapGet parentFamily (families s) in
             let* parentId := getIdFromNode (option_map (deref s) fam) "HUSB" in
             if truthyId parentId then Ok (mapGet parentId (indviduals s)) else Ok None
           else Ok None) in
        match currentNodeParent with
        | Some p => Ok (inr p)
        | None => Ok (inl (Some a))
        end
      else Ok (inl None)
  end.

(** [findParentOfParent(gedcomParsedObject, currentNode)].  The source has no
    bound on the recursion; [fuel] bounds the number of calls in the model. *)
Fixpoint findParentOfParent (fuel : nat) (s : State) (currentNode : option addr)
  : Res (option addr) :=
  match fuel with
  | O => OutOfFuel
  | S fuel' =>
      let* r := findParentOfParent_step s currentNode in
      match r with
      | inl result => Ok result
      | inr p => findParentOfParent fuel' s (Some p)
      end
  end.

(** [iterator.level === -1]: strict equality with the number. *)
Definition levelIsMinusOne (l : option Level) : bool :=
  match l with
  | Some (LNum n) => n =? -1
  | _ => false
  end.

(** What [findRoot] returns: a record or the string "ERROR". *)
Inductive RootResult := RootFound (r : FamilyRow) | RootError.

(** The loop of [findRoot]; [iterator] is undefined once the chain of
    [parent] links ([above], nearest first) is exhausted.  The counter is
    tested before it is decremented. *)
Fixpoint findRoot_loop (maxStep : nat) (iterator : option FamilyRow) (above : list FamilyRow)
  : Res RootResult :=
  match iterator with
  | None => Throw "TypeError: cannot read properties of undefined (reading 'level')"
  | Some r =>
      if levelIsMinusOne (level r) then
        match maxStep with
        | O => Ok RootError
        | S maxStep' => findRoot_loop maxStep' (head above) (tail above)
        end
      else Ok (RootFound r)
  end.

(** [findRoot(currentFamilyRow)], the record given with its chain of parents. *)
Definition findRoot (currentFamilyRow : FamilyRow) (above : list FamilyRow) : Res RootResult :=
  findRoot_loop 100 (Some currentFamilyRow) above.


(** ** The layout engine *)

Definition setVisited (b : bool) (r : FamilyRow) : FamilyRow :=
  mkRow (level r) (id r) (tag r) (value r) b (rowLevel r) (props r).

Definition setRowLevel (z : Z) (r : FamilyRow) : FamilyRow :=
  mkRow (level r) (id r) (tag r) (value r) (visited r) z (props r).

(** The Map an id is looked up in: [top.families] for tagType 'FAM',
    [top.indviduals] for 'INDI'. *)
Inductive TagType := tFAM | tINDI.

Definition resolve (s : State) (tagType : TagType) (i : option string) : option addr :=
  match tagType with
  | tFAM => mapGet i (families s)
  | tINDI => mapGet i (indviduals s)
  end.

(** The loop of [addElementsToQueue]: every entry that resolves to a record
    not yet visited gets [level] as its row and joins [elementsToAdd]. *)
Fixpoint collectElements (s : State) (elements : list FamilyRow) (level : Z)
  (tagType : TagType) (elementsToAdd : list addr) : State * list addr :=
  match elements with
  | [] => (s, elementsToAdd)
  | e :: es =>
      match resolve s tagType (id e) with
      | Some a =>
          if visited (deref s a) then collectElements s es level tagType elementsToAdd
          else collectElements (update s a (setRowLevel level)) es level tagType
                               (elementsToAdd ++ [a])
      | None => collectElements s es level tagType elementsToAdd
      end
  end.

(** [x.ORDER.value] as a number ([None] is NaN; an array has no [value]). *)
Definition orderNumber (sl : Slot FamilyRow) : option Z :=
  match sl with
  | One r => match value r with Some v => Str.toNumber v | None => None end
  | Many _ => None
  end.

(** The comparator of the sort; a NaN result counts as 0. *)
Definition compareOrder (a b : FamilyRow) : Z :=
  match getProp "ORDER" (props a), getProp "ORDER" (props b) with
  | Some oa, Some ob =>
      match orderNumber oa, orderNumber ob with
      | Some x, Some y => x - y
      | _, _ => 0
      end
  | _, _ => 0
  end.

(** [Array.prototype.sort] as a stable insertion sort.  The comparator is
    consistent when every element of the batch has an ORDER or none has, and
    the result is then the one every engine gives; for a mixed batch the
    language leaves the order to the engine. *)
Fixpoint insertSorted (cmp : addr -> addr -> Z) (x : addr) (l : list addr) : list addr :=
  match l with
  | [] => [x]
  | y :: l' => if cmp x y <? 0 then x :: y :: l' else y :: insertSorted cmp x l'
  end.

Definition sortBy (cmp : addr -> addr -> Z) (l : list addr) : list addr :=
  fold_left (fun acc x => insertSorted cmp x acc) l [].

(** [addElementsToQueue(elements, level, tagType, top)]. *)
Definition addElementsToQueue (elements : option (Slot FamilyRow)) (level : Z)
  (tagType : TagType) (s : State) : State :=
  match elements with
  | None => s
  | Some sl =>
      let '(s1, elementsToAdd) := collectElements s (slotList sl) level tagType [] in
      let sorted := sortBy (fun a b => compareOrder (deref s1 a) (deref s1 b)) elementsToAdd in
      setQueue s1 (queueForNext s1 ++ sorted)
  end.

(** [addNextElements(element, top)]. *)
Definition addNextElements (element : addr) (s : State) : State :=
  let r := deref s element in
  let level := rowLevel r in
  if tagIs r "FAM" then
    let s1 := addElementsToQueue (getProp "HUSB" (props r)) level tINDI s in
    let s2 := addElementsToQueue (getProp "WIFE" (props r)) level tINDI s1 in
    addElementsToQueue (getProp "CHIL" (props r)) (level + 1) tINDI s2
  else if tagIs r "INDI" then
    let s1 := addElementsToQueue (getProp "FAMS" (props r)) level tFAM s in
    addElementsToQueue (getProp "FAMC" (props r)) (level - 1) tFAM s1
  else s.

(** The loop of [getVisitedElement]; [top.indviduals.get(elem.id).visited]
    raises when the id is not in the Map. *)
Fixpoint firstVisited (s : State) (elementList : list FamilyRow) : Res (option addr) :=
  match elementList with
  | [] => Ok None
  | elem :: rest =>
      match mapGet (id elem) (indviduals s) with
      | None => Throw "TypeError: cannot read properties of undefined (reading 'visited')"
      | Some a => if visited (deref s a) then Ok (Some a) else firstVisited s rest
      end
  end.

(** [getVisitedElement(elementList, top)]; a single record has no [length]. *)
Definition getVisitedElement (elementList : option (Slot FamilyRow)) (s : State)
  : Res (option addr) :=
  match elementList with
  | Some (Many l) => firstVisited s l
  | _ => Ok None
  end.

(** [idInList(id, elemList)]. *)
Definition idInList (i : option string) (elemList : option (Slot FamilyRow)) : bool :=
  match elemList with
  | Some (Many l) => existsb (fun elem => optEqb (id elem) i) l
  | _ => false
  end.

Definition idText (i : option string) : string :=
  match i with Some x => x | None => "undefined" end.

Definition missingFamilyMsg (i : option string) : string :=
  "Error in loaded data: No family node found in level 0 with id" +:+ idText i.

(** The loop over [element.FAMS] in [calculateDisplayPositions]: the pair
    (prevElement, nextElement) and the state with the alerts raised. *)
Fixpoint scanFAMS (s : State) (elementId : option string) (fams : list FamilyRow)
  : State * option addr * option addr :=
  match fams with
  | [] => (s, None, None)
  | elem :: rest =>
      match mapGet (id elem) (families s) with
      | Some f =>
          let originalElem := deref s f in
          if visited originalElem then
            if idInList elementId (getProp "HUSB" (props originalElem)) then (s, None, Some f)
            else if idInList elementId (getProp "WIFE" (props originalElem)) then (s, Some f, None)
            else scanFAMS s elementId rest
          else scanFAMS s elementId rest
      | None => scanFAMS (alert s (missingFamilyMsg (id elem))) elementId rest
      end
  end.

(** The index of the first occurrence of an element of a row. *)
Fixpoint indexOf (x : addr) (l : list addr) : option nat :=
  match l with
  | [] => None
  | y :: l' => if Nat.eqb x y then Some O else option_map S (indexOf x l')
  end.

(** [order.splice(i, 0, x)]. *)
Definition spliceIn (i : nat) (x : addr) (l : list addr) : list addr :=
  take i l ++ x :: drop i l.

(** [RowInGraph.addAfter] and [RowInGraph.addBefore]; the reference element
    may be [null]. *)
Definition addAfter (newElement : addr) (existing : option addr) (order : list addr) : list addr :=
  match existing with
  | Some e =>
      match indexOf e order with
      | Some i => spliceIn (S i) newElement order
      | None => order ++ [newElement]
      end
  | None => order ++ [newElement]
  end.

Definition addBefore (newElement : addr) (existing : option addr) (order : list addr) : list addr :=
  match existing with
  | Some e =>
      match indexOf e order with
      | Some i => spliceIn i newElement order
      | None => order ++ [newElement]
      end
  | None => order ++ [newElement]
  end.

Fixpoint rowGet (level : Z) (o : list (Z * list addr)) : option (list addr) :=
  match o with
  | [] => None
  | (k, row) :: o' => if k =? level then Some row else rowGet level o'
  end.

Fixpoint rowSet (level : Z) (row : list addr) (o : list (Z * list addr)) : list (Z * list addr) :=
  match o with
  | [] => [(level, row)]
  | (k, r) :: o' => if k =? level then (k, row) :: o' else (k, r) :: rowSet level row o'
  end.

(** The placement part of one turn of the loop: the anchors, then the
    insertion into the row of [level]. *)
Definition placeElement (element : addr) (level : Z) (s : State) : Res State :=
  let r := deref s element in
  let* (s1, prevElement, nextElement) :=
    (if tagIs r "FAM" then
       let* p := getVisitedElement (getProp "HUSB" (props r)) s in
       let* n := getVisitedElement (getProp "WIFE" (props r)) s in
       Ok (s, p, n)
     else if tagIs r "INDI" then
       match getProp "FAMS" (props r) with
       | None => Ok (s, None, None)
       | Some (One _) => Throw "TypeError: element.FAMS is not iterable"
       | Some (Many l) => Ok (scanFAMS s (id r) l)
       end
     else Ok (s, None, None)) in
  let row := default [] (rowGet level (orderInLevel s1)) in
  let row' :=
    match prevElement with
    | Some _ => addAfter element prevElement row
    | None => addBefore element nextElement row
    end in
  Ok (setOrder s1 (rowSet level row' (orderInLevel s1))).

(** [resetRowLevel()]: the smallest key is subtracted from the row of every
    placed element and from every key. *)
Definition minKey (o : list (Z * list addr)) : option Z :=
  match o with
  | [] => None
  | (k, _) :: o' => Some (fold_left (fun m kr => Z.min m (fst kr)) o' k)
  end.

Definition resetRowLevel (s : State) : State :=
  match minKey (orderInLevel s) with
  | None => s
  | Some min =>
      let shift (s : State) (a : addr) := update s a (fun r => setRowLevel (rowLevel r - min) r) in
      let s1 := fold_left (fun s kr => fold_left shift (snd kr) s) (orderInLevel s) s in
      setOrder s1 (fold_left (fun m kr => rowSet (fst kr - min) (snd kr) m) (orderInLevel s) [])
  end.

(** [resetAndInitAll(top)]. *)
Definition resetAndInitAll (s : State) : State :=
  let clear (s : State) (ka : option string * addr) := update s (snd ka) (setVisited false) in
  let s1 := setOrder s [] in
  let s2 := fold_left clear (indviduals s1) s1 in
  fold_left clear (families s2) s2.

(** The [while (queueForNext.length > 0)] loop, one turn per unit of fuel. *)
Fixpoint drainQueue (fuel : nat) (s : State) : Res State :=
  match queueForNext s with
  | [] => Ok s
  | element :: rest =>
      match fuel with
      | O => OutOfFuel
      | S fuel' =>
          let s0 := setQueue s rest in
          if visited (deref s0 element) then drainQueue fuel' s0
          else
            let s1 := update s0 element (setVisited true) in
            let level := rowLevel (deref s1 element) in
            let s2 := addNextElements element s1 in
            let* s3 := placeElement element level s2 in
            drainQueue fuel' s3
      end
  end.

(** [calculateDisplayPositions(top)]; the result is [orderInLevel], read off
    the final state. *)
Definition calculateDisplayPositions (fuel : nat) (s : State) : Res State :=
  let* s1 := drainQueue fuel (resetAndInitAll s) in
  Ok (resetRowLevel s1).

(** The first half of [display()], up to the call of
    [calculateDisplayPositions]: the Maps are rebuilt and the anchor found by
    the ancestor walk from the first individual is given the initial row and
    queued; without an anchor, "Nothing to display" is alerted. *)
Definition startLayout (fuelWalk : nat) (s : State) : Res State :=
  let s1 := updateMapsForDisplay s in
  let* firstOne := findParentOfParent fuelWalk s1 (option_map snd (head (indviduals s1))) in
  Ok match firstOne with
     | Some a => let s' := update s1 a (setRowLevel INIT_LEVEL) in
                 setQueue s' (queueForNext s' ++ [a])
     | None => alert s1 "Nothing to display"
     end.

(** [display()] once [document.dataParsed] is set: [fuelWalk] bounds the
    ancestor walk and [fuel] the turns of the queue loop. *)
Definition display (fuelWalk fuel : nat) (s : State) : Res State :=
  let* s2 := startLayout fuelWalk s in
  calculateDisplayPositions fuel s2.

(** [display()] on a fresh page holding the given lines. *)
Definition displayLines (fuelWalk fuel : nat) (dataUnparsed : option (list string)) : Res State :=
  let* top := parse dataUnparsed in
  display fuelWalk fuel (load top).

(** The rows of the result with the id of each placed record. *)
Definition rowsById (s : State) : list (Z * list (option string)) :=
  map (fun kr => (fst kr, map (fun a => id (deref s a)) (snd kr))) (orderInLevel s).


(** ** Mutation operations *)

(** A mutation runs on the state and leaves the state it reached even when
    it ends in an exception. *)
Definition Mut (A : Type) := State -> State * Res A.

Definition ret {A : Type} (a : A) : Mut A := fun s => (s, Ok a).
Definition throw {A : Type} (msg : string) : Mut A := fun s => (s, Throw msg).
Definition modify (f : State -> State) : Mut unit := fun s => (f s, Ok tt).

Definition bindMut {A B : Type} (m : Mut A) (f : A -> Mut B) : Mut B :=
  fun s =>
    match m s with
    | (s', Ok a) => f a s'
    | (s', Throw e) => (s', Throw e)
    | (s', OutOfFuel) => (s', OutOfFuel)
    | (s', Unmodelled) => (s', Unmodelled)
    end.

Notation "'do*' x ':=' m 'in' k" := (bindMut m (fun x => k))
  (at level 10, x pattern, m at level 100, k at level 200).

(** *** Deletion *)

(** [arrayWithId.findIndex((element) => element.id === id)] on the entries
    of a relationship array. *)
Fixpoint findIndexFromArray (arrayWithId : list FamilyRow) (i : option string) : option nat :=
  match arrayWithId with
  | [] => None
  | e :: rest =>
      if optEqb (id e) i then Some O else option_map S (findIndexFromArray rest i)
  end.

(** The same on an array of level-0 records. *)
Fixpoint findIndexFromRefs (s : State) (arrayWithId : list addr) (i : option string) : option nat :=
  match arrayWithId with
  | [] => None
  | a :: rest =>
      if optEqb (id (deref s a)) i then Some O
      else option_map S (findIndexFromRefs s rest i)
  end.

(** [deleteIDFromArray(record[tagName], id)] together with the tests around
    it in [clearFromFam] and [clearFromIndi]: the first entry with the id is
    spliced out of an array, a single record with the id is deleted from its
    parent; the flag tells whether anything was removed. *)
Definition clearTag (tagName : string) (i : option string) (r : FamilyRow) : FamilyRow * bool :=
  match getProp tagName (props r) with
  | Some (Many l) =>
      match findIndexFromArray l i with
      | Some k => (withProps r (setProp tagName (Many (delete k l)) (props r)), true)
      | None => (r, false)
      end
  | Some (One c) =>
      if optEqb (id c) i then (withProps r (delProp tagName (props r)), true)
      else (r, false)
  | None => (r, false)
  end.

(** [x && x.length > 0] on a slot. *)
Definition nonEmptyArray {A : Type} (sl : option (Slot A)) : bool :=
  match sl with
  | Some (Many (_ :: _)) => true
  | _ => false
  end.

(** [isEmptyFamily(familyRow)]. *)
Definition isEmptyFamily (familyRow : FamilyRow) : bool :=
  negb (nonEmptyArray (getProp "CHIL" (props familyRow)))
  && negb (nonEmptyArray (getProp "HUSB" (props familyRow)))
  && negb (nonEmptyArray (getProp "WIFE" (props familyRow))).

(** [array.forEach(callback)] on one of the root's arrays ([sel] reads it):
    the indices below the length at the call are visited in order, and an
    index the array no longer has when its turn comes is skipped, which is
    what happens after the callback splices the array. *)
Fixpoint forEachFrom (sel : State -> option (Slot addr)) (callback : addr -> Mut unit)
  (count k : nat) : Mut unit :=
  match count with
  | O => ret tt
  | S count' =>
      fun s =>
        match sel s with
        | Some (Many arr) =>
            match arr !! k with
            | Some a => (do* _ := callback a in forEachFrom sel callback count' (S k)) s
            | None => forEachFrom sel callback count' (S k) s
            end
        | _ => (s, Ok tt)
        end
  end.

Definition forEachRoot (what : string) (sel : State -> option (Slot addr))
  (callback : addr -> Mut unit) : Mut unit :=
  fun s =>
    match sel s with
    | Some (Many arr) => forEachFrom sel callback (length arr) 0 s
    | Some (One _) => (s, Throw ("TypeError: rootFamilyRow." +:+ what +:+ ".forEach is not a function"))
    | None => (s, Throw "TypeError: cannot read properties of undefined (reading 'forEach')")
    end.

(** [deleteIDFromArray(rootFamilyRow.INDI, id)] and the same for FAM. *)
Definition deleteIDFromRoot (sel : State -> option (Slot addr))
  (put : State -> option (Slot addr) -> State) (i : option string) : Mut unit :=
  fun s =>
    match sel s with
    | Some (Many arr) =>
        match findIndexFromRefs s arr i with
        | Some k => (put s (Some (Many (delete k arr))), Ok tt)
        | None => (s, Ok tt)
        end
    | Some (One _) => (s, Throw "TypeError: arrayWithId.findIndex is not a function")
    | None => (s, Throw "TypeError: cannot read properties of undefined (reading 'findIndex')")
    end.

(** [clearFromIndi(id, rootFamilyRow)]. *)
Definition clearFromIndi (i : option string) : Mut unit :=
  forEachRoot "INDI" INDI
    (fun indiRow =>
       modify (fun s =>
         update s indiRow (fun r => fst (clearTag "FAMS" i (fst (clearTag "FAMC" i r)))))).

(** [deleteFam(familyRow, rootFamilyRow)]. *)
Definition deleteFam (familyRow : addr) : Mut unit :=
  fun s =>
    let i := id (deref s familyRow) in
    (do* _ := modify (fun s => setFamilies s (mapDelete i (families s))) in
     do* _ := deleteIDFromRoot FAM setFAM i in
     clearFromIndi i) s.

(** [clearFromFam(id, rootFamilyRow)]. *)
Definition clearFromFam (i : option string) : Mut unit :=
  forEachRoot "FAM" FAM
    (fun familyRow s =>
       let r := deref s familyRow in
       let '(r1, u1) := clearTag "CHIL" i r in
       let '(r2, u2) := clearTag "HUSB" i r1 in
       let '(r3, u3) := clearTag "WIFE" i r2 in
       let s' := update s familyRow (fun _ => r3) in
       if (u1 || u2 || u3) && isEmptyFamily r3 then deleteFam familyRow s'
       else (s', Ok tt)).

(** [deleteIndi(indiRow, rootFamilyRow)]. *)
Definition deleteIndi (indiRow : addr) : Mut unit :=
  fun s =>
    let i := id (deref s indiRow) in
    (do* _ := modify (fun s => setIndviduals s (mapDelete i (indviduals s))) in
     do* _ := deleteIDFromRoot INDI setINDI i in
     clearFromFam i) s.

(** The ids a family record still refers to. *)
Definition memberIds (familyRow : FamilyRow) : list (option string) :=
  flat_map (fun t => map id (from_option slotList [] (getProp t (props familyRow))))
           ["HUSB"; "WIFE"; "CHIL"].

(** The addresses of the root's FAM records. *)
Definition famRefs (s : State) : list addr := from_option slotList [] (FAM s).
Definition indiRefs (s : State) : list addr := from_option slotList [] (INDI s).


(** *** Adding relatives *)

(** What the operations read from the page: the text of the input
    [newNodeNameValue] and the value of the checked [newNodeGender] radio
    button ([None] when none is checked). *)
Record Dom := mkDom {
  newNodeNameValue : string;
  newNodeGender : option string
}.

(** [s.replace(/\s+/g, ' ')]: every run of white-space characters becomes
    one space.  [inRun] tells that the character before was white space;
    every step takes at least one byte, so the length of the text is fuel
    enough. *)
Fixpoint collapseSpaces (fuel : nat) (inRun : bool) (s : string) : string :=
  match fuel with
  | O => EmptyString
  | S fuel' =>
      match Str.whiteChar s with
      | Some rest =>
          if inRun then collapseSpaces fuel' true rest
          else String " " (collapseSpaces fuel' true rest)
      | None =>
          match s with
          | EmptyString => EmptyString
          | String c s' => String c (collapseSpaces fuel' false s')
          end
      end
  end.

(** [formatGedcomName(fullName)]. *)
Definition formatGedcomName (fullName : string) : string :=
  if nonEmpty fullName
  then collapseSpaces (String.length (Str.trim fullName)) false (Str.trim fullName)
  else "".

(** [getIndividualId(idNumber)] and [getFamilyId(idNumber)]. *)
Definition getIndividualId (idNumber : nat) : string := "@I" +:+ pretty idNumber +:+ "@".
Definition getFamilyId (idNumber : nat) : string := "@F" +:+ pretty idNumber +:+ "@".

(** [while (map.has(mk(nextId))) nextId++], one test per unit of fuel. *)
Fixpoint nextFreeId (mk : nat -> string) (m : JSMap) (fuel nextId : nat) : Res string :=
  match fuel with
  | O => OutOfFuel
  | S fuel' =>
      if mapHas (Some (mk nextId)) m then nextFreeId mk m fuel' (S nextId)
      else Ok (mk nextId)
  end.

(** [nextIndividualID(rootFamilyRow)] and [nextFamilyID(rootFamilyRow)]: the
    search starts at the size of the Map plus one; a Map of n entries cannot
    hold n + 1 different ids, so n + 1 tests are enough. *)
Definition nextIndividualID (s : State) : Res string :=
  nextFreeId getIndividualId (indviduals s) (S (length (indviduals s))) (S (length (indviduals s))).
Definition nextFamilyID (s : State) : Res string :=
  nextFreeId getFamilyId (families s) (S (length (families s))) (S (length (families s))).

Definition liftRes {A : Type} (f : State -> Res A) : Mut A := fun s => (s, f s).

(** [new FamilyRow(1, id, tag, undefined)]. *)
Definition link (tagName : string) (i : option string) : FamilyRow :=
  newFamilyRow (Some (LNum 1)) i (Some tagName) None.

(** [array.push(x)] on a root slot holding an array, [[x]] otherwise, with a
    single record first wrapped in an array. *)
Definition pushRoot (sl : option (Slot addr)) (a : addr) : option (Slot addr) :=
  match sl with
  | Some (Many rs) => Some (Many (rs ++ [a]))
  | Some (One r) => Some (Many [r; a])
  | None => Some (Many [a])
  end.

(** [addIndiToRoot(rootFamilyRow, newNode)] and
    [addFamToRoot(rootFamilyRow, newFamily)]. *)
Definition addIndiToRoot (newNode : addr) : Mut unit :=
  modify (fun s =>
    setIndviduals (setINDI s (pushRoot (INDI s) newNode))
                  (mapSet (id (deref s newNode)) newNode (indviduals s))).

Definition addFamToRoot (newFamily : addr) : Mut unit :=
  modify (fun s =>
    setFamilies (setFAM s (pushRoot (FAM s) newFamily))
                (mapSet (id (deref s newFamily)) newFamily (families s))).

Definition allocM (r : FamilyRow) : Mut addr :=
  fun s => let '(s', a) := alloc s r in (s', Ok a).

(** [createNewNode(rootFamilyRow, genderIp)]. *)
Definition createNewNode (dom : Dom) (genderIp : option string) : Mut addr :=
  do* newId := liftRes nextIndividualID in
  let formattedName := formatGedcomName (newNodeNameValue dom) in
  let name := newFamilyRow (Some (LNum 1)) None (Some "NAME") (Some formattedName) in
  let gender := if truthyId genderIp then genderIp else newNodeGender dom in
  let fields :=
    [("NAME", One name)] ++
    (if truthyId gender
     then [("SEX", One (newFamilyRow (Some (LNum 1)) None (Some "SEX") gender))]
     else []) in
  do* newNode := allocM (withProps (newFamilyRow (Some (LNum 0)) (Some newId) (Some "INDI") None) fields) in
  do* _ := addIndiToRoot newNode in
  ret newNode.

Definition setField (a : addr) (k : string) (sl : Slot FamilyRow) : Mut unit :=
  modify (fun s => update s a (fun r => withProps r (setProp k sl (props r)))).

(** [x.SEX && x.SEX.value === 'M']. *)
Definition sexIsM (r : FamilyRow) : bool :=
  match getProp "SEX" (props r) with
  | Some (One c) => match value c with Some v => String.eqb v "M" | None => false end
  | _ => false
  end.

(** [createOrGetFamilyOfPartner(currentFamilyRow, rootFamilyRow)]; the
    result is undefined when the first FAMS id is not in the Map. *)
Definition createOrGetFamilyOfPartner (currentFamilyRow : addr) : Mut (option addr) :=
  fun s =>
    match getProp "FAMS" (props (deref s currentFamilyRow)) with
    | Some (Many (f :: _)) => (s, Ok (mapGet (id f) (families s)))
    | _ =>
        (do* newId := liftRes nextFamilyID in
         do* familyRow := allocM (newFamilyRow (Some (LNum 0)) (Some newId) (Some "FAM") None) in
         do* _ := addFamToRoot familyRow in
         do* _ := setField currentFamilyRow "FAMS" (Many [link "FAMS" (Some newId)]) in
         do* _ := (fun s =>
                     let cur := deref s currentFamilyRow in
                     if sexIsM cur
                     then setField familyRow "HUSB" (Many [link "HUSB" (id cur)]) s
                     else setField familyRow "WIFE" (Many [link "WIFE" (id cur)]) s) in
         ret (Some familyRow)) s
    end.

(** [if (f[k] && f[k].length > 0) f[k].push(x) else f[k] = [x]]. *)
Definition pushInto (k : string) (x : FamilyRow) (r : FamilyRow) : FamilyRow :=
  match getProp k (props r) with
  | Some (Many (y :: ys)) => withProps r (setProp k (Many ((y :: ys) ++ [x])) (props r))
  | _ => withProps r (setProp k (Many [x]) (props r))
  end.

Definition pushField (a : addr) (k : string) (x : FamilyRow) : Mut unit :=
  modify (fun s => update s a (pushInto k x)).

(** [addPartner(currentFamilyRow, rootFamilyRow)]. *)
Definition addPartner (dom : Dom) (currentFamilyRow : addr) : Mut unit :=
  do* familyRow := createOrGetFamilyOfPartner currentFamilyRow in
  do* newPartner := createNewNode dom None in
  match familyRow with
  | None => throw "TypeError: cannot read properties of undefined (reading 'id')"
  | Some fam =>
      do* _ := (fun s => setField newPartner "FAMS" (Many [link "FAMS" (id (deref s fam))]) s) in
      fun s =>
        let np := deref s newPartner in
        match getProp "SEX" (props np) with
        | None => (s, Throw "TypeError: cannot read properties of undefined (reading 'value')")
        | Some _ =>
            if sexIsM np then pushField fam "HUSB" (link "HUSB" (id np)) s
            else pushField fam "WIFE" (link "WIFE" (id np)) s
        end
  end.

Definition scenarioAState : Res State :=
  let* top := parse (Some scenarioA) in Ok (updateMapsForDisplay (load top)).


(** The rows of the result with the tag and id of each placed record. *)
Definition rowsByTagAndId (s : State) : list (Z * list (option string * option string)) :=
  map (fun kr => (fst kr, map (fun a => (tag (deref s a), id (deref s a))) (snd kr)))
      (orderInLevel s).

(** The row each record of the store ends with. *)
Definition rowLevels (s : State) : list (option string * Z) :=
  map (fun r => (id r, rowLevel r)) (store s).

(** A man with two marriages and no other member in either family. *)
Definition twoMarriages : list string :=
  ["0 @I1@ INDI"; "1 FAMS @F1@"; "1 FAMS @F2@"; "0 @I2@ INDI";
   "0 @F1@ FAM"; "1 HUSB @I1@"; "0 @F2@ FAM"; "1 HUSB @I1@"].

(** The tokens of a line that make up its value: those after the tag, the
    tag being the third token when the second one is an id. *)
Definition valueTokens (tmp : string) (rest : list string) : list string :=
  if Str.startsWithAt tmp then tail rest else rest.

Definition notNil {A : Type} (l : list A) : bool :=
  match l with [] => false | _ :: _ => true end.

(** The state the page holds once the given lines are parsed and the Maps
    are built (the empty state if parsing fails). *)
Definition emptyState : State := mkState [] None None [] [] [] [] [].

Definition stateOf (lines : list string) : State :=
  match parse (Some lines) with
  | Ok top => updateMapsForDisplay (load top)
  | _ => emptyState
  end.



(** A run that came to an end, with a value or an exception. *)
Definition finished {A : Type} (r : Res A) : Prop :=
  match r with
  | Ok _ | Throw _ => True
  | OutOfFuel | Unmodelled => False
  end.


(** The first record of a chain whose level is not the number -1. *)
Fixpoint firstOtherLevel (chain : list FamilyRow) : option FamilyRow :=
  match chain with
  | [] => None
  | r :: chain' => if levelIsMinusOne (level r) then firstOtherLevel chain' else Some r
  end.

(** The root end of the parser's chain. *)
Fixpoint bottom (cur : FamilyRow) (above : list FamilyRow) : FamilyRow :=
  match above with
  | [] => cur
  | p :: above' => bottom p above'
  end.

(** A relationship field as the operations leave it: absent, or an array. *)
Definition slotOf (l : list FamilyRow) : option (Slot FamilyRow) :=
  match l with [] => None | _ => Some (Many l) end.

(** The family record [createOrGetFamilyOfPartner] creates for an individual:
    the individual is its husband when his SEX is M and its wife otherwise. *)
Definition partnerFamily (famId : string) (cur : FamilyRow) : FamilyRow :=
  withProps (newFamilyRow (Some (LNum 0)) (Some famId) (Some "FAM") None)
    (if sexIsM cur then [("HUSB", Many [link "HUSB" (id cur)])]
     else [("WIFE", Many [link "WIFE" (id cur)])]).

Definition withField (k : string) (sl : Slot FamilyRow) (r : FamilyRow) : FamilyRow :=
  withProps r (setProp k sl (props r)).

(** The record [createNewNode] creates when a gender is chosen. *)
Definition newPerson (newId name gender : string) : FamilyRow :=
  withProps (newFamilyRow (Some (LNum 0)) (Some newId) (Some "INDI") None)
    [("NAME", One (newFamilyRow (Some (LNum 1)) None (Some "NAME") (Some name)));
     ("SEX", One (newFamilyRow (Some (LNum 1)) None (Some "SEX") (Some gender)))].

(** The slot a person of the given gender is put in. *)
Definition spouseSlot (gender : string) : string :=
  if String.eqb gender "M" then "HUSB" else "WIFE".

(** A FAMS entry at which the scan of [calculateDisplayPositions] stops: it
    resolves to a visited family that lists the individual as husband or
    wife. *)
Definition isAnchorEntry (s : State) (i : option string) (e : FamilyRow) : bool :=
  match mapGet (id e) (families s) with
  | Some f =>
      visited (deref s f)
      && (idInList i (getProp "HUSB" (props (deref s f)))
          || idInList i (getProp "WIFE" (props (deref s f))))
  | None => false
  end.

(** The FAMS entries the scan looks at: all of them up to the first anchor. *)
Fixpoint scannedEntries (s : State) (i : option string) (fams : list FamilyRow)
  : list FamilyRow :=
  match fams with
  | [] => []
  | e :: rest => if isAnchorEntry s i e then [e] else e :: scannedEntries s i rest
  end.

(** An entry whose id is not a key of [families]. *)
Definition danglingFamily (s : State) (e : FamilyRow) : bool :=
  match mapGet (id e) (families s) with Some _ => false | None => true end.

(** A family whose CHIL entry names nobody, one whose WIFE entry names
    nobody, and an individual whose second FAMS entry names no family. *)
Definition danglingChild : list string :=
  ["0 @I1@ INDI"; "1 FAMS @F1@"; "0 @F1@ FAM"; "1 HUSB @I1@"; "1 CHIL @I9@"].
Definition danglingWife : list string :=
  ["0 @I1@ INDI"; "1 FAMS @F1@"; "0 @F1@ FAM"; "1 HUSB @I1@"; "1 WIFE @I9@"].
Definition danglingSpouseFamily : list string :=
  ["0 @I1@ INDI"; "1 FAMS @F1@"; "1 FAMS @F7@"; "0 @F1@ FAM"; "1 HUSB @I1@"].

(** The records a batch of entries leads to: those the entries resolve to
    that are not visited yet, in the order of the entries. *)
Fixpoint targets (s : State) (tagType : TagType) (elements : list FamilyRow) : list addr :=
  match elements with
  | [] => []
  | e :: es =>
      match resolve s tagType (id e) with
      | Some a => if visited (deref s a) then targets s tagType es
                  else a :: targets s tagType es
      | None => targets s tagType es
      end
  end.

Definition targetsOf (s : State) (tagType : TagType) (elements : option (Slot FamilyRow))
  : list addr :=
  match elements with
  | Some sl => targets s tagType (slotList sl)
  | None => []
  end.

(** Every value of the two Maps is the address of a record of the store. *)
Definition mapsInStore (s : State) : Prop :=
  forall (tagType : TagType) (k : option string) (a : addr),
    resolve s tagType k = Some a -> (a < length (store s))%nat.

(** Two states that differ in traversal fields only: the same Maps and, at
    every address, a record with the same tag, id and children. *)
Definition sameGraph (s s' : State) : Prop :=
  indviduals s' = indviduals s
  /\ families s' = families s
  /\ length (store s') = length (store s)
  /\ forall a, tag (deref s' a) = tag (deref s a)
               /\ id (deref s' a) = id (deref s a)
               /\ props (deref s' a) = props (deref s a).

(** A man who is the husband both of his wife's family and of the family in
    which their child is the wife. *)
Definition crossGeneration : list string :=
  ["0 @M@ INDI"; "1 FAMS @F1@"; "1 FAMS @F2@";
   "0 @W@ INDI"; "1 FAMS @F1@";
   "0 @C@ INDI"; "1 FAMC @F1@"; "1 FAMS @F2@";
   "0 @F1@ FAM"; "1 HUSB @M@"; "1 WIFE @W@"; "1 CHIL @C@";
   "0 @F2@ FAM"; "1 HUSB @M@"; "1 WIFE @C@"].

(** The entries a record holds under a tag. *)
Definition entries (k : string) (r : FamilyRow) : list FamilyRow :=
  from_option slotList [] (getProp k (props r)).

(** The fields [addNextElements] follows from a record, each with the Map
    its ids are looked up in and the row offset its targets are given. *)
Definition links (r : FamilyRow) : list (string * TagType * Z) :=
  if tagIs r "FAM" then [("HUSB", tINDI, 0); ("WIFE", tINDI, 0); ("CHIL", tINDI, 1)]
  else if tagIs r "INDI" then [("FAMS", tFAM, 0); ("FAMC", tFAM, -1)]
  else [].

(** Record [e] refers to record [a] through a field followed by the
    layout, with row offset [d]. *)
Definition refersTo (s : State) (e a : addr) (d : Z) : Prop :=
  exists (k : string) (tagType : TagType) (x : FamilyRow),
    In (k, tagType, d) (links (deref s e))
    /\ In x (entries k (deref s e))
    /\ resolve s tagType (id x) = Some a.

(** A record one of the two Maps holds under some id. *)
Definition held (s : State) (a : addr) : Prop :=
  exists (tagType : TagType) (k : option string), resolve s tagType k = Some a.

(** A record the run from the anchor [root] has visited: it is marked, and
    it is the anchor or a record of the Maps.  A record that was marked by
    an earlier run and has left the Maps since keeps its mark; the run does
    not reach it. *)
Definition seen (root : addr) (s : State) (a : addr) : Prop :=
  visited (deref s a) = true /\ (a = root \/ held s a).

(** The row of [a] is the one a record the run has visited and that refers
    to it gives it. *)
Definition rowJustified (root : addr) (s : State) (a : addr) : Prop :=
  exists (e : addr) (d : Z),
    seen root s e
    /\ refersTo s e a d
    /\ rowLevel (deref s a) = rowLevel (deref s e) + d.

(** The records placed in the row table. *)
Definition placed (s : State) : list addr := flat_map snd (orderInLevel s).

(** What holds of the layout state during the queue loop; [pending] is the
    record taken from the queue and marked visited but not yet placed, if
    any. *)
Definition layoutInv (root : addr) (pending : list addr) (s : State) : Prop :=
  mapsInStore s
  /\ (forall a, In a (queueForNext s) -> (a < length (store s))%nat)
  /\ (forall a, In a (queueForNext s) \/ seen root s a ->
                a = root \/ rowJustified root s a)
  /\ List.NoDup (pending ++ placed s)
  /\ List.NoDup (map fst (orderInLevel s))
  /\ (forall a, In a (pending ++ placed s) <-> seen root s a).

(** The anchor of a [display] call, [firstOne] in the source: where the
    ancestor walk from the first individual of the rebuilt Map ends. *)
Definition firstOne (fuelWalk : nat) (s : State) : Res (option addr) :=
  let s1 := updateMapsForDisplay s in
  findParentOfParent fuelWalk s1 (option_map snd (head (indviduals s1))).

(** The state [display] hands to [calculateDisplayPositions] for the given
    lines, and the state it gets back (the empty state if a step fails). *)
Definition layoutStart (lines : list string) : State :=
  match parse (Some lines) with
  | Ok top => match startLayout 16 (load top) with Ok s => s | _ => emptyState end
  | _ => emptyState
  end.

Definition layoutEnd (lines : list string) : State :=
  match calculateDisplayPositions 32 (layoutStart lines) with
  | Ok s => s
  | _ => emptyState
  end.

(** ** Well-formed lines *)

Fixpoint noChar (c : ascii) (s : string) : bool :=
  match s with
  | EmptyString => true
  | String d s' => negb (Ascii.eqb d c) && noChar c s'
  end.

(** The text is not empty and does not end in white space: [trimEnd]
    leaves it as it is. *)
Definition endsWithInk (s : string) : bool :=
  nonEmpty s && String.eqb (Str.trimEnd s) s.

(** A text that survives [trim] at its end and holds no line break. *)
Definition cleanText (s : string) : bool :=
  endsWithInk s && noChar (ascii_of_nat 10) s.

Definition isUpper (c : ascii) : bool :=
  let n := nat_of_ascii c in (65 <=? n)%nat && (n <=? 90)%nat.

Definition isTagChar (c : ascii) : bool :=
  isUpper c || Str.is_digit c || Ascii.eqb c "_".

Fixpoint allTagChars (s : string) : bool :=
  match s with
  | EmptyString => true
  | String c s' => isTagChar c && allTagChars s'
  end.

(** A tag: an upper-case mnemonic, possibly with digits and underscores,
    that starts with a letter or an underscore. *)
Definition wfTag (t : string) : bool :=
  match t with
  | EmptyString => false
  | String c _ => (isUpper c || Ascii.eqb c "_") && allTagChars t
  end.

(** A level: a non-negative integer as text. *)
Definition wfLevel (l : string) : bool := allDigits l && nonEmpty l.

Definition isNil {A : Type} (l : list A) : bool :=
  match l with [] => true | _ :: _ => false end.

Definition isNone {A : Type} (o : option A) : bool :=
  match o with None => true | Some _ => false end.

(** A record read from a line of the shape level, optional id, tag,
    optional value.  No field holds a line break; the value does not end in
    white space, nor does the id of a record below level 0, which is written
    last on its line. *)
Definition wellFormedRecord (r : FamilyRow) : bool :=
  match level r, tag r with
  | Some (LStr l), Some t =>
      wfLevel l && wfTag t
      && match id r with
         | Some i => noChar (ascii_of_nat 10) i
                     && (levelIsZero (level r) || endsWithInk i)
         | None => true
         end
      && match value r with
         | Some v => cleanText v && negb (Str.matchesIdRef v)
         | None => true
         end
  | _, _ => false
  end
  && negb (visited r) && (rowLevel r =? NOT_SET) && isNil (props r).

(** The levels of consecutive lines: never negative, and at most one more
    than the level of the line before.  A level of such a sequence is below
    the number of lines, where the numbers of JavaScript are exact. *)
Fixpoint nested (prev : Z) (levels : list (option Z)) : bool :=
  match levels with
  | [] => true
  | Some n :: rest => (0 <=? n) && (n <=? prev + 1) && nested n rest
  | None :: _ => false
  end.

(** The records the parser reads from the lines. *)
Definition records (lines : list string) : list FamilyRow :=
  map (fun l => formatLine (Str.trim l)) lines.

(** A well-formed line sequence: at least one line, every line a
    well-formed record, the first at level 0 and the levels nested. *)
Definition wellFormedLines (lines : list string) : bool :=
  notNil lines
  && forallb wellFormedRecord (records lines)
  && nested (-1) (map (fun r => levelNum (level r)) (records lines)).

(** A record whose line [toString] writes back in a form [formatLine] reads
    the same: at level 0 the id is a single token starting with an at sign
    (it is written second); at other levels the id is written after the tag,
    where only a text matching the id pattern, with no value after it, is
    read as an id again. *)
Definition exportable (r : FamilyRow) : bool :=
  match id r with
  | None => true
  | Some i =>
      if levelIsZero (level r) then Str.startsWithAt i && noChar " " i
      else isNone (value r) && Str.matchesIdRef i
  end.

Definition exportableLines (lines : list string) : bool :=
  forallb exportable (records lines).

(** A record without its children. *)
Definition strip (r : FamilyRow) : FamilyRow := withProps r [].

(** The children held by the slots of a record, in key order. *)
Definition slotChildren (ps : list (string * Slot FamilyRow)) : list FamilyRow :=
  flat_map (fun kv => slotList (snd kv)) ps.

(** The records of a tree in the order [createFileContentOne] writes them. *)
Fixpoint flatten (r : FamilyRow) : list FamilyRow :=
  strip r ::
  (fix overProps (ps : list (string * Slot FamilyRow)) : list FamilyRow :=
     match ps with
     | [] => []
     | (_, One c) :: ps' => flatten c ++ overProps ps'
     | (_, Many cs) :: ps' =>
         (fix overArray (cs : list FamilyRow) : list FamilyRow :=
            match cs with
            | [] => []
            | c :: cs' => flatten c ++ overArray cs'
            end) cs ++ overProps ps'
     end) (props r).

Definition isOne {A : Type} (sl : Slot A) : bool :=
  match sl with One _ => true | Many _ => false end.

(** The order in which [createFileContent] writes the root's slots: a
    single HEAD record, then the others, then a single TRLR record. *)
Definition exportFirst (kv : string * Slot FamilyRow) : bool :=
  isOne (snd kv) && String.eqb (fst kv) "HEAD".
Definition exportLast (kv : string * Slot FamilyRow) : bool :=
  isOne (snd kv) && String.eqb (fst kv) "TRLR".
Definition exportMiddle (kv : string * Slot FamilyRow) : bool :=
  negb (isOne (snd kv) && (String.eqb (fst kv) "HEAD" || String.eqb (fst kv) "TRLR")).

Definition exportOrder (ps : list (string * Slot FamilyRow)) : list (string * Slot FamilyRow) :=
  List.filter exportFirst ps ++ List.filter exportMiddle ps ++ List.filter exportLast ps.

(** A note whose line has both an id and a value. *)
Definition noteWithIdAndValue : list string :=
  ["0 @I1@ INDI"; "1 @X@ NOTE foo"].

(** ** The parser on records, and canonical trees *)

(** [parseLines] once every line has been read into its record. *)
Fixpoint parseRecs (rs : list FamilyRow) (last : FamilyRow * list FamilyRow)
  : Res (FamilyRow * list FamilyRow) :=
  match rs with
  | [] => Ok last
  | r :: rs' => let* last' := parseLine r last in parseRecs rs' last'
  end.

(** The record [attach] returns when the tag is a key of the model. *)
Definition graft (parent_elem element : FamilyRow) : FamilyRow :=
  let k := tagKey (tag element) in
  let slot :=
    match getProp k (props parent_elem) with
    | Some (Many rs) => Many (rs ++ [element])
    | Some (One r) => Many [r; element]
    | None => if isRelationTag (tag element) then Many [element] else One element
    end in
  withProps parent_elem (setProp k slot (props parent_elem)).

(** The text [createFileContentOne] writes for a list of records. *)
Definition text (rs : list FamilyRow) : string :=
  String.concat "" (map (fun r => toString r +:+ nl) rs).

(** Every record of a tree, with its children, in the order of [flatten]. *)
Fixpoint nodes (r : FamilyRow) : list FamilyRow :=
  r ::
  (fix overProps (ps : list (string * Slot FamilyRow)) : list FamilyRow :=
     match ps with
     | [] => []
     | (_, One c) :: ps' => nodes c ++ overProps ps'
     | (_, Many cs) :: ps' =>
         (fix overArray (cs : list FamilyRow) : list FamilyRow :=
            match cs with
            | [] => []
            | c :: cs' => nodes c ++ overArray cs'
            end) cs ++ overProps ps'
     end) (props r).

(** A record read from a well-formed line that [toString] writes back
    readably. *)
Definition recOK (r : FamilyRow) : Prop :=
  wellFormedRecord r = true /\ exportable r = true.

(** The slot the parser builds for the children [cs] with tag [k]: an array
    for a relationship tag or for several children, a single record
    otherwise. *)
Definition canonSlot (k : string) (cs : list FamilyRow) : Slot FamilyRow :=
  if isRelationTag (Some k) then Many cs
  else match cs with
       | [c] => One c
       | _ => Many cs
       end.

(** A slot as the parser leaves it under a record of level [n]: not empty, of
    the shape [canonSlot] gives, holding records tagged with its key, one
    level down. *)
Definition slotOK (n : Z) (kv : string * Slot FamilyRow) : Prop :=
  slotList (snd kv) <> []
  /\ snd kv = canonSlot (fst kv) (slotList (snd kv))
  /\ Forall (fun c => tag c = Some (fst kv) /\ reservedKey (fst kv) = false
                      /\ levelNum (level c) = Some (n + 1))
            (slotList (snd kv)).

(** The slots of a record as the parser leaves them. *)
Definition canon (r : FamilyRow) : Prop :=
  List.NoDup (map fst (props r))
  /\ exists n, levelNum (level r) = Some n /\ Forall (slotOK n) (props r).

(** A tree all of whose records are exportable and hold canonical slots. *)
Definition good (r : FamilyRow) : Prop :=
  Forall (fun x => recOK (strip x) /\ canon x) (nodes r).

(** A record with canonical slots whose children are good trees. *)
Definition sound (r : FamilyRow) : Prop :=
  canon r /\ Forall good (slotChildren (props r)).

(** The parser's chain while it reads well-formed lines: the record at
    distance [i] from the root has level [i - 1], the root is the record of
    the line "-1 TOP", and the children already stored are good trees. *)
Fixpoint chainOK (cur : FamilyRow) (above : list FamilyRow) : Prop :=
  levelNum (level cur) = Some (Z.of_nat (length above) - 1)
  /\ sound cur
  /\ match above with
     | [] => strip cur = formatLine "-1 TOP"
     | p :: above' => recOK (strip cur) /\ chainOK p above'
     end.

(** ** What the parser reads and holds *)

(** The lines [parse] reads: the fallback when there are none. *)
Definition linesRead (fallback : list string) (dataUnparsed : option (list string))
  : list string :=
  match dataUnparsed with
  | None | Some [] => fallback
  | Some ls => ls
  end.

(** The lines left by [.map(line => line.trim()).filter(line => line.length > 0)]. *)
Definition nonBlank (lines : list string) : list string :=
  filter (fun l => nonEmpty l = true) (map Str.trim lines).


(** A record whose tag is a key of the model: not the name of a property
    every record already has, and not an array index. *)
Definition plainTag (r : FamilyRow) : bool :=
  negb (reservedKey (tagKey (tag r))).


(** The records held by the parser's chain. *)
Definition chainRecs (cur : FamilyRow) (above : list FamilyRow) : list FamilyRow :=
  flat_map flatten (cur :: above).

(** ** A bound on the turns of the layout loop *)

(** The entries of the five relationship fields of a record. *)
Definition linkCount (r : FamilyRow) : nat :=
  (length (entries "HUSB" r) + length (entries "WIFE" r) + length (entries "CHIL" r)
   + length (entries "FAMS" r) + length (entries "FAMC" r))%nat.

(** What a record can still cost the loop: nothing once it is visited, one
    turn of its own and one queue entry for each of its relationship entries
    before. *)
Definition cost (r : FamilyRow) : nat :=
  if visited r then O else S (linkCount r).

(** A bound on the turns the loop has left: the queue entries, and the cost
    of every record of the store. *)
Definition turnsLeft (s : State) : nat :=
  (length (queueForNext s) + list_sum (map cost (store s)))%nat.

(** The turns a [display] call can take: one for each queue entry at the
    call, one for the anchor, and for every record of the store one turn of
    its own and one for each of its relationship entries. *)
Definition turnBound (s : State) : nat :=
  (S (length (queueForNext s)) + list_sum (map (fun r => S (linkCount r)) (store s)))%nat.

(** The root's INDI and FAM records and the queue entries are records of the
    store. *)
Definition refsInStore (s : State) : bool :=
  forallb (fun a => (a <? length (store s))%nat)
          (indiRefs s ++ famRefs s ++ queueForNext s).

(** Every record in a row of the table has the key of the row as its
    [rowLevel]. *)
Definition rowsAgree (s : State) : Prop :=
  forall (k : Z) (row : list addr) (a : addr),
    In (k, row) (orderInLevel s) -> In a row -> rowLevel (deref s a) = k.

(** ** Roles in a family after a change of gender *)

(** [removePersonFromRole(family, role, personId)]: the first entry with the
    id leaves the array, and an array left empty is deleted; a single record
    with the id is deleted. *)
Definition removePersonFromRole (role : string) (personId : option string)
  (family : FamilyRow) : FamilyRow :=
  match getProp role (props family) with
  | Some (Many l) =>
      match findIndexFromArray l personId with
      | Some k =>
          match delete k l with
          | [] => withProps family (delProp role (props family))
          | l' => withProps family (setProp role (Many l') (props family))
          end
      | None => family
      end
  | Some (One c) =>
      if optEqb (id c) personId then withProps family (delProp role (props family))
      else family
  | None => family
  end.

(** [addPersonToRole(family, role, personId)]: nothing when an entry of the
    role has the id already; otherwise a new entry goes last, a single
    record first becoming an array. *)
Definition addPersonToRole (role : string) (personId : option string)
  (family : FamilyRow) : FamilyRow :=
  match getProp role (props family) with
  | Some sl =>
      if existsb (fun r => optEqb (id r) personId) (slotList sl) then family
      else withProps family
             (setProp role (Many (slotList sl ++ [link role personId])) (props family))
  | None => withProps family (setProp role (Many [link role personId]) (props family))
  end.

(** The loop of [updateFamilyRolesOnGenderChange(person, newGender)] on one
    FAMS entry: an entry without an id or naming no family is passed over;
    the others move the person to HUSB for "M" and to WIFE for "F". *)
Definition moveRole (personId : option string) (newGender : string) (s : State)
  (famsRef : FamilyRow) : State :=
  if truthyId (id famsRef) then
    match mapGet (id famsRef) (families s) with
    | Some f =>
        if String.eqb newGender "M" then
          update s f (fun fam => addPersonToRole "HUSB" personId
                                   (removePersonFromRole "WIFE" personId fam))
        else if String.eqb newGender "F" then
          update s f (fun fam => addPersonToRole "WIFE" personId
                                   (removePersonFromRole "HUSB" personId fam))
        else s
    | None => s
    end
  else s.

(** [updateFamilyRolesOnGenderChange(person, newGender)], the root being the
    one the state stands for. *)
Definition updateFamilyRolesOnGenderChange (person : addr) (newGender : string)
  (s : State) : State :=
  fold_left (moveRole (id (deref s person)) newGender)
            (entries "FAMS" (deref s person)) s.

(** Whether an entry of the role names the person. *)
Definition listed (personId : option string) (role : string) (family : FamilyRow) : bool :=
  existsb (fun r => optEqb (id r) personId) (entries role family).



(** The root holds its INDI records and its FAM records in arrays. *)
Definition rootArrays (s : State) : bool :=
  match INDI s, FAM s with
  | Some (Many _), Some (Many _) => true
  | _, _ => false
  end.

(** ** The name of the exported file *)

(** [s.endsWith(suffix)]: some tail of [s] is [suffix]. *)
Fixpoint endsWith (s suffix : string) : bool :=
  String.eqb s suffix
  || match s with
     | EmptyString => false
     | String _ s' => endsWith s' suffix
     end.

(** [sanitizeFileName(fileName)]; [None] is an argument left out, and the
    empty name is falsy like it. *)
Definition sanitizeFileName (fileName : option string) : string :=
  let fileName :=
    match fileName with
    | Some f => if nonEmpty f then f else "sample.gedcom"
    | None => "sample.gedcom"
    end in
  if endsWith fileName ".gedcom" then fileName else fileName +:+ ".gedcom".

(** ** Undo and redo (undo_state.js)

    The two stacks are arrays whose last element is the top.  The module
    keeps two callbacks, set by [initStateManager]: one reads the GEDCOM text
    of the document, one imports a text into it.  Both run inside [try]: a
    reader that raises is [None], an importer that raises returns [false]
    beside the document it leaves.  [Date.now()] is the argument [now].  The
    listeners are told the counts after a change; they are taken to return
    normally and are left out. *)

Module UndoState.

(** [s.length] of a text: UTF-16 units, counted on the UTF-8 bytes. *)
Definition utf16Units (c : ascii) : nat :=
  let n := nat_of_ascii c in
  if (n <? 128)%nat then 1%nat
  else if (n <? 192)%nat then 0%nat
  else if (n <? 240)%nat then 1%nat
  else 2%nat.

Fixpoint jsLength (s : string) : nat :=
  match s with
  | EmptyString => 0%nat
  | String c s' => (utf16Units c + jsLength s')%nat
  end.

Record Snapshot : Type := mkSnapshot {
  description : string;
  text : string;
  timestamp : Z
}.

Section WithDocument.

Variable Doc : Type.

Record Manager : Type := mkManager {
  undoStack : list Snapshot;
  redoStack : list Snapshot;
  getGedcomTextFn : option (Doc -> option string);
  importGedcomTextFn : option (string -> Doc -> Doc * bool)
}.

Definition MAX_HISTORY : nat := 30.

(** The module as it is loaded. *)
Definition loaded : Manager := mkManager [] [] None None.

Definition initStateManager (getTextFn : option (Doc -> option string))
    (importTextFn : option (string -> Doc -> Doc * bool)) (m : Manager) : Manager :=
  mkManager (undoStack m) (redoStack m) getTextFn importTextFn.

(** [while (undoStack.length > MAX_HISTORY) undoStack.shift()]. *)
Fixpoint limitHistory (stack : list Snapshot) : list Snapshot :=
  match stack with
  | [] => []
  | _ :: rest =>
      if (MAX_HISTORY <? length stack)%nat then limitHistory rest else stack
  end.

Definition saveSnapshot (descr : string) (now : Z) (m : Manager) (d : Doc) : Manager :=
  match getGedcomTextFn m with
  | None => m
  | Some getText =>
      match getText d with
      | None => m
      | Some gedcomText =>
          if (jsLength gedcomText <? 10)%nat then m
          else if match last (undoStack m) with
                  | Some top => String.eqb (text top) gedcomText
                  | None => false
                  end then m
          else mkManager
                 (limitHistory (undoStack m ++ [mkSnapshot descr gedcomText now]))
                 []
                 (getGedcomTextFn m) (importGedcomTextFn m)
      end
  end.

(** [undo()]: the manager, the document and the value returned. *)
Definition undo (now : Z) (m : Manager) (d : Doc) : Manager * Doc * bool :=
  match last (undoStack m), importGedcomTextFn m, getGedcomTextFn m with
  | Some action, Some importText, Some getText =>
      match getText d with
      | None => (m, d, false)
      | Some currentText =>
          let m' := mkManager (removelast (undoStack m))
                      (redoStack m ++ [mkSnapshot (description action) currentText now])
                      (getGedcomTextFn m) (importGedcomTextFn m) in
          let (d', ok) := importText (text action) d in
          (m', d', ok)
      end
  | _, _, _ => (m, d, false)
  end.

Definition redo (now : Z) (m : Manager) (d : Doc) : Manager * Doc * bool :=
  match last (redoStack m), importGedcomTextFn m, getGedcomTextFn m with
  | Some action, Some importText, Some getText =>
      match getText d with
      | None => (m, d, false)
      | Some currentText =>
          let m' := mkManager
                      (undoStack m ++ [mkSnapshot (description action) currentText now])
                      (removelast (redoStack m))
                      (getGedcomTextFn m) (importGedcomTextFn m) in
          let (d', ok) := importText (text action) d in
          (m', d', ok)
      end
  | _, _, _ => (m, d, false)
  end.

Definition canUndo (m : Manager) : bool := (0 <? length (undoStack m))%nat.
Definition canRedo (m : Manager) : bool := (0 <? length (redoStack m))%nat.

Definition clearHistory (m : Manager) : Manager :=
  mkManager [] [] (getGedcomTextFn m) (importGedcomTextFn m).

(** What the page can do to the module, and to the document between two
    calls. *)
Inductive Call : Type :=
  | CallInit (getTextFn : option (Doc -> option string))
             (importTextFn : option (string -> Doc -> Doc * bool))
  | CallSaveSnapshot (descr : string) (now : Z)
  | CallUndo (now : Z)
  | CallRedo (now : Z)
  | CallClearHistory
  | Edit (change : Doc -> Doc).

Definition call (c : Call) (md : Manager * Doc) : Manager * Doc :=
  let (m, d) := md in
  match c with
  | CallInit g i => (initStateManager g i m, d)
  | CallSaveSnapshot descr now => (saveSnapshot descr now m d, d)
  | CallUndo now => fst (undo now m d)
  | CallRedo now => fst (redo now m d)
  | CallClearHistory => (clearHistory m, d)
  | Edit change => (m, change d)
  end.

Definition calls (cs : list Call) (md : Manager * Doc) : Manager * Doc :=
  fold_left (fun md c => call c md) cs md.

(** A snapshot without its time. *)
Definition untimed (a : Snapshot) : string * string := (description a, text a).

End WithDocument.

Arguments mkManager {Doc}.
Arguments undoStack {Doc}.
Arguments redoStack {Doc}.
Arguments getGedcomTextFn {Doc}.
Arguments importGedcomTextFn {Doc}.
Arguments loaded {Doc}.
Arguments initStateManager {Doc}.
Arguments saveSnapshot {Doc}.
Arguments undo {Doc}.
Arguments redo {Doc}.
Arguments canUndo {Doc}.
Arguments canRedo {Doc}.
Arguments clearHistory {Doc}.
Arguments call {Doc}.
Arguments calls {Doc}.
Arguments CallInit {Doc}.
Arguments CallSaveSnapshot {Doc}.
Arguments CallUndo {Doc}.
Arguments CallRedo {Doc}.
Arguments CallClearHistory {Doc}.
Arguments Edit {Doc}.

End UndoState.

(** ** Dates between the GEDCOM text and the date input (gedcom_edit.js) *)

(** [\s+] at the head of a text: all the white space there, at least one
    character.  What follows [\s+] in the patterns below is a letter or a
    digit, so giving white space back never makes a match succeed. *)
Definition white1 (s : string) : option string :=
  match Str.whiteChar s with
  | Some rest => Some (Str.skipWhite (String.length rest) rest)
  | None => None
  end.

(** [n] characters of a class at the head of a text, and the rest. *)
Fixpoint takeN (p : ascii -> bool) (n : nat) (s : string) : option (string * string) :=
  match n with
  | O => Some (EmptyString, s)
  | S n' =>
      match s with
      | String c s' =>
          if p c then
            match takeN p n' s' with
            | Some (a, rest) => Some (String c a, rest)
            | None => None
            end
          else None
      | EmptyString => None
      end
  end.

(** [[A-Z]] under the flag [i]: the ASCII letters of both cases. *)
Definition isLetter (c : ascii) : bool :=
  let n := nat_of_ascii c in
  ((65 <=? n)%nat && (n <=? 90)%nat) || ((97 <=? n)%nat && (n <=? 122)%nat).

(** [toUpperCase] on a text of ASCII letters. *)
Definition upperChar (c : ascii) : ascii :=
  let n := nat_of_ascii c in
  if (97 <=? n)%nat && (n <=? 122)%nat then ascii_of_nat (n - 32) else c.

Fixpoint toUpperCase (s : string) : string :=
  match s with
  | EmptyString => EmptyString
  | String c s' => String (upperChar c) (toUpperCase s')
  end.

(** [([A-Z]{3})\s+(\d{4})] at the head of a text: the month and the year. *)
Definition monthYearAt (s : string) : option (string * string) :=
  match takeN isLetter 3 s with
  | Some (mon, r1) =>
      match white1 r1 with
      | Some r2 =>
          match takeN Str.is_digit 4 r2 with
          | Some (year, _) => Some (mon, year)
          | None => None
          end
      | None => None
      end
  | None => None
  end.

(** [(\d{1,2})\s+([A-Z]{3})\s+(\d{4})] at the head of a text: two digits are
    tried before one. *)
Definition dayMonthYearAt (s : string) : option (string * string * string) :=
  let withDay (n : nat) :=
    match takeN Str.is_digit n s with
    | Some (day, r1) =>
        match white1 r1 with
        | Some r2 =>
            match monthYearAt r2 with
            | Some (mon, year) => Some (day, mon, year)
            | None => None
            end
        | None => None
        end
    | None => None
    end in
  match withDay 2%nat with
  | Some r => Some r
  | None => withDay 1%nat
  end.

(** [(\d{4})] at the head of a text. *)
Definition yearAt (s : string) : option string :=
  option_map fst (takeN Str.is_digit 4 s).

(** [text.match(pattern)] for a pattern that is not anchored: the first
    position, from the left, where it matches. *)
Fixpoint search {A : Type} (here : string -> option A) (s : string) : option A :=
  match here s with
  | Some r => Some r
  | None =>
      match s with
      | EmptyString => None
      | String _ s' => search here s'
      end
  end.

Definition monthNumbers : list (string * string) :=
  [("JAN", "01"); ("FEB", "02"); ("MAR", "03"); ("APR", "04");
   ("MAY", "05"); ("JUN", "06"); ("JUL", "07"); ("AUG", "08");
   ("SEP", "09"); ("OCT", "10"); ("NOV", "11"); ("DEC", "12")].

(** [months[name.toUpperCase()] || '01']. *)
Definition monthNumber (name : string) : string :=
  default "01" (getProp (toUpperCase name) monthNumbers).

(** [day.padStart(2, '0')] on the one or two digits of a day. *)
Definition padStart2 (s : string) : string :=
  match s with
  | EmptyString => "00"
  | String c EmptyString => String "0" s
  | _ => s
  end.

(** [convertToDateInput(gedcomDate)]. *)
Definition convertToDateInput (gedcomDate : string) : string :=
  if negb (nonEmpty gedcomDate) then EmptyString
  else
    match search dayMonthYearAt gedcomDate with
    | Some (day, mon, year) => year +:+ "-" +:+ monthNumber mon +:+ "-" +:+ padStart2 day
    | None =>
        match search monthYearAt gedcomDate with
        | Some (mon, year) => year +:+ "-" +:+ monthNumber mon +:+ "-01"
        | None =>
            match search yearAt gedcomDate with
            | Some year => year +:+ "-01-01"
            | None => EmptyString
            end
        end
    end.

(** [s.split(sep)] for a separator of one character. *)
Fixpoint splitOn (sep : ascii) (s : string) : list string :=
  match s with
  | EmptyString => [EmptyString]
  | String c s' =>
      if Ascii.eqb c sep then EmptyString :: splitOn sep s'
      else match splitOn sep s' with
           | [] => [String c EmptyString]
           | t :: ts => String c t :: ts
           end
  end.

(** The digits at the head of a text. *)
Fixpoint digitRun (s : string) : string :=
  match s with
  | String c s' => if Str.is_digit c then String c (digitRun s') else EmptyString
  | EmptyString => EmptyString
  end.

(** [parseInt(s, 10)]: white space, a sign, then the digits there are;
    [None] is NaN.  A run of more than fifteen digits, which a JavaScript
    number may hold only rounded, is outside the model. *)
Definition parseInt10 (s : string) : Res (option Z) :=
  let t := Str.skipWhite (String.length s) s in
  let '(negative, u) :=
    match t with
    | String c u =>
        if Ascii.eqb c "-" then (true, u)
        else if Ascii.eqb c "+" then (false, u)
        else (false, t)
    | EmptyString => (false, t)
    end in
  let run := digitRun u in
  if (15 <? String.length run)%nat then Unmodelled
  else
    match run with
    | EmptyString => Ok None
    | _ => Ok (option_map (fun z => if negative : bool then - z else z) (Str.digits 0 run))
    end.

(** A number inside a template literal. *)
Definition numberText (n : option Z) : string :=
  match n with
  | Some z => pretty z
  | None => "NaN"
  end.

Definition monthNames : list string :=
  ["JAN"; "FEB"; "MAR"; "APR"; "MAY"; "JUN"; "JUL"; "AUG"; "SEP"; "OCT"; "NOV"; "DEC"].

(** [months[monthIndex]] inside a template literal. *)
Definition monthName (monthIndex : option Z) : string :=
  match monthIndex with
  | Some z =>
      if (0 <=? z) && (z <? 12) then nth (Z.to_nat z) monthNames "undefined"
      else "undefined"
  | None => "undefined"
  end.

(** [convertFromDateInput(htmlDate)]. *)
Definition convertFromDateInput (htmlDate : string) : Res string :=
  if negb (nonEmpty htmlDate) then Ok EmptyString
  else
    match splitOn "-" htmlDate with
    | [year; p1; p2] =>
        let* month := parseInt10 p1 in
        let* day := parseInt10 p2 in
        Ok (numberText day +:+ " " +:+ monthName (option_map (fun z => z - 1) month)
            +:+ " " +:+ year)
    | _ => Ok htmlDate
    end.

(** A date as the date input gives it. *)
Definition isoDate (year month day : string) : string :=
  year +:+ "-" +:+ month +:+ "-" +:+ day.

(** ** Adding a sibling, a child and parents (gedcom_edit.js) *)

(** [createOrGetFamilyOfChild(childObject, rootFamilyRow)]; the result is
    undefined when the first FAMC id is not in the Map. *)
Definition createOrGetFamilyOfChild (childObject : addr) : Mut (option addr) :=
  fun s =>
    match getProp "FAMC" (props (deref s childObject)) with
    | Some (Many (f :: _)) => (s, Ok (mapGet (id f) (families s)))
    | _ =>
        (do* newId := liftRes nextFamilyID in
         do* familyRow := allocM (newFamilyRow (Some (LNum 0)) (Some newId) (Some "FAM") None) in
         do* _ := addFamToRoot familyRow in
         do* _ := setField childObject "FAMC" (Many [link "FAMC" (Some newId)]) in
         do* _ := (fun s =>
                     setField familyRow "CHIL"
                              (Many [link "CHIL" (id (deref s childObject))]) s) in
         ret (Some familyRow)) s
    end.

(** [addParentsIfNotAvailable(currentFamilyRow, rootFamilyRow)]. *)
Definition addParentsIfNotAvailable (dom : Dom) (currentFamilyRow : addr) : Mut unit :=
  do* familyRow := createOrGetFamilyOfChild currentFamilyRow in
  match familyRow with
  | None => throw "TypeError: cannot read properties of undefined (reading 'HUSB')"
  | Some fam =>
      do* _ := (fun s =>
                  if nonEmptyArray (getProp "HUSB" (props (deref s fam))) then ret tt s
                  else
                    (do* newFather := createNewNode dom (Some "M") in
                     do* _ := (fun s =>
                                 setField newFather "FAMS"
                                          (Many [link "FAMS" (id (deref s fam))]) s) in
                     fun s =>
                       setField fam "HUSB" (Many [link "HUSB" (id (deref s newFather))]) s)
                      s) in
      fun s =>
        if nonEmptyArray (getProp "WIFE" (props (deref s fam))) then ret tt s
        else
          (do* newMother := createNewNode dom (Some "F") in
           do* _ := (fun s =>
                       setField newMother "FAMS"
                                (Many [link "FAMS" (id (deref s fam))]) s) in
           fun s =>
             setField fam "WIFE" (Many [link "WIFE" (id (deref s newMother))]) s)
            s
  end.

(** [addSibling(currentFamilyRow, rootFamilyRow)]: the new individual is
    created before [familyRow.CHIL.push] is evaluated. *)
Definition addSibling (dom : Dom) (currentFamilyRow : addr) : Mut unit :=
  do* familyRow := createOrGetFamilyOfChild currentFamilyRow in
  do* newSibling := createNewNode dom None in
  match familyRow with
  | None => throw "TypeError: cannot read properties of undefined (reading 'CHIL')"
  | Some fam =>
      fun s =>
        match getProp "CHIL" (props (deref s fam)) with
        | Some (Many l) =>
            (do* _ := setField fam "CHIL"
                               (Many (l ++ [link "CHIL" (id (deref s newSibling))])) in
             fun s =>
               setField newSibling "FAMC" (Many [link "FAMC" (id (deref s fam))]) s) s
        | Some (One _) => (s, Throw "TypeError: familyRow.CHIL.push is not a function")
        | None => (s, Throw "TypeError: cannot read properties of undefined (reading 'push')")
        end
  end.

(** [addChildToFamily(currentFamilyRow, rootFamilyRow)]; the family is
    undefined when [createOrGetFamilyOfPartner] found none. *)
Definition addChildToFamily (dom : Dom) (currentFamilyRow : option addr) : Mut unit :=
  do* newNode := createNewNode dom None in
  match currentFamilyRow with
  | None => throw "TypeError: cannot read properties of undefined (reading 'id')"
  | Some fam =>
      do* _ := (fun s =>
                  setField newNode "FAMC" (Many [link "FAMC" (id (deref s fam))]) s) in
      fun s => pushField fam "CHIL" (link "CHIL" (id (deref s newNode))) s
  end.

Definition partner : string := "partner".
Definition sibling : string := "sibling".
Definition child : string := "child_fam".
Definition child_from_parent : string := "child_from_parent".
Definition parent : string := "parent".

Definition selectGenderMsg : string :=
  "‚ö†Ô∏è Please select a gender (Male, Female, or Other) before adding a relative.".

(** [addNewNode(typeOfNewNode)] on the selected record, the root being the
    one [findRoot] returns for the parsed document. *)
Definition addNewNode (typeOfNewNode : string) (dom : Dom) (currentFamilyRow : addr)
    : Mut unit :=
  if negb (String.eqb typeOfNewNode parent) && isNone (newNodeGender dom)
  then modify (fun s => alert s selectGenderMsg)
  else if String.eqb typeOfNewNode partner then addPartner dom currentFamilyRow
  else if String.eqb typeOfNewNode sibling then addSibling dom currentFamilyRow
  else if String.eqb typeOfNewNode child_from_parent then
    do* getFamilyRow := createOrGetFamilyOfPartner currentFamilyRow in
    addChildToFamily dom getFamilyRow
  else if String.eqb typeOfNewNode child then addChildToFamily dom (Some currentFamilyRow)
  else if String.eqb typeOfNewNode parent then addParentsIfNotAvailable dom currentFamilyRow
  else ret tt.

(** The family of an individual as a child is known: the first FAMC entry
    names a family of the Map. *)
Definition childFamilyFound (s : State) (cur fam : addr) : Prop :=
  exists e rest,
    getProp "FAMC" (props (deref s cur)) = Some (Many (e :: rest))
    /\ mapGet (id e) (families s) = Some fam
    /\ (fam < length (store s))%nat.

(** The record [createNewNode] creates: a NAME, and a SEX when a gender is
    given or chosen. *)
Definition createdPerson (newId name : string) (gender : option string) : FamilyRow :=
  withProps (newFamilyRow (Some (LNum 0)) (Some newId) (Some "INDI") None)
    ([("NAME", One (newFamilyRow (Some (LNum 1)) None (Some "NAME") (Some name)))]
     ++ (if truthyId gender
         then [("SEX", One (newFamilyRow (Some (LNum 1)) None (Some "SEX") gender))]
         else [])).

(** The gender [createNewNode] uses. *)
Definition genderUsed (dom : Dom) (genderIp : option string) : option string :=
  if truthyId genderIp then genderIp else newNodeGender dom.

(** The family record [createOrGetFamilyOfChild] creates for an individual. *)
Definition childFamily (famId : string) (cur : FamilyRow) : FamilyRow :=
  withProps (newFamilyRow (Some (LNum 0)) (Some famId) (Some "FAM") None)
    [("CHIL", Many [link "CHIL" (id cur)])].

(** What [addParentsIfNotAvailable] does for one role when the family has
    nobody in it: a new individual of the given gender, its FAMS entry, and
    the role of the family. *)
Definition parentBlock (dom : Dom) (fam : addr) (gender role : string) : Mut unit :=
  do* newParent := createNewNode dom (Some gender) in
  do* _ := (fun s =>
              setField newParent "FAMS" (Many [link "FAMS" (id (deref s fam))]) s) in
  fun s => setField fam role (Many [link role (id (deref s newParent))]) s.

Definition ensureRole (dom : Dom) (fam : addr) (gender role : string) : Mut unit :=
  fun s =>
    if nonEmptyArray (getProp role (props (deref s fam))) then ret tt s
    else parentBlock dom fam gender role s.

(** Between two states an individual was created for a role of a family: a
    record the store did not hold, under an id the Map did not hold. *)
Definition parentCreated (s s' : State) (fam : addr) (gender role : string) : Prop :=
  exists (newId : string) (p : addr),
    (length (store s) <= p < length (store s'))%nat
    /\ mapGet (Some newId) (indviduals s) = None
    /\ mapGet (Some newId) (indviduals s') = Some p
    /\ id (deref s' p) = Some newId
    /\ getProp role (props (deref s' fam)) = Some (Many [link role (Some newId)])
    /\ getProp "FAMS" (props (deref s' p)) = Some (Many [link "FAMS" (id (deref s fam))])
    /\ getProp "SEX" (props (deref s' p))
       = Some (One (newFamilyRow (Some (LNum 1)) None (Some "SEX") (Some gender))).

(** The elements of a slot that [x && x.length > 0] accepts as an array to
    push on; any other slot is replaced. *)
Definition arrayToPushOn (sl : option (Slot FamilyRow)) : list FamilyRow :=
  match sl with
  | Some (Many (y :: ys)) => y :: ys
  | _ => []
  end.

(** ** Editing the fields of the selected record (gedcom_edit.js) *)

(** [getFieldValue(familyRow, ...path)] for a record and a path of tags.  An
    array met on the path is truthy, but it has no property named by a tag
    and no value, so the result is the empty string.  A key that names a
    property every record has is outside the model. *)
Fixpoint getFieldValueFrom (current : FamilyRow) (path : list string) : string :=
  match path with
  | [] => default EmptyString (value current)
  | key :: rest =>
      match getProp key (props current) with
      | Some (One c) => getFieldValueFrom c rest
      | Some (Many _) => EmptyString
      | None => EmptyString
      end
  end.

Definition getFieldValue (familyRow : FamilyRow) (path : list string) : Res string :=
  if existsb reservedKey path then Unmodelled
  else Ok (getFieldValueFrom familyRow path).

(** [r.value = v]. *)
Definition setValue (v : string) (r : FamilyRow) : FamilyRow :=
  mkRow (level r) (id r) (tag r) (Some v) (visited r) (rowLevel r) (props r).

Definition unmodelled {A : Type} : Mut A := fun s => (s, Unmodelled).

(** [updatePersonField(input, tag)]: [inputValue] is [input.value] and
    [selected] is [document.currentlySelectedFamilyRow[0]].  Setting the
    value of a field that holds an array puts a property on the array
    object, which is outside the model.  The graph refresh and the
    auto-save that follow do not touch the records. *)
Definition updatePersonField (inputValue tagName : string) (selected : option addr)
    : Mut unit :=
  match selected with
  | None => ret tt
  | Some familyRow =>
      if reservedKey tagName then unmodelled
      else
        let newValue :=
          if String.eqb tagName "NAME" then formatGedcomName inputValue
          else inputValue in
        do* _ := (fun s =>
                    match getProp tagName (props (deref s familyRow)) with
                    | Some (One c) =>
                        setField familyRow tagName (One (setValue newValue c)) s
                    | Some (Many _) => unmodelled s
                    | None =>
                        setField familyRow tagName
                          (One (newFamilyRow (Some (LNum 1)) None (Some tagName)
                                             (Some newValue))) s
                    end) in
        fun s =>
          if String.eqb tagName "SEX"
             && negb (isNone (getProp "FAMS" (props (deref s familyRow))))
          then (updateFamilyRolesOnGenderChange familyRow newValue s, Ok tt)
          else (s, Ok tt)
  end.

(** The update of [familyRow[parentTag][childTag]] shared by
    [updateNestedField] and [updateFamilyNestedField]. *)
Definition setNested (familyRow : addr) (parentTag childTag newValue : string) : Mut unit :=
  fun s =>
    match getProp parentTag (props (deref s familyRow)) with
    | Some (Many _) => unmodelled s
    | parentSlot =>
        let p := match parentSlot with
                 | Some (One p) => p
                 | _ => newFamilyRow (Some (LNum 1)) None (Some parentTag) None
                 end in
        match getProp childTag (props p) with
        | Some (Many _) => unmodelled s
        | Some (One c) =>
            setField familyRow parentTag
              (One (withProps p (setProp childTag (One (setValue newValue c)) (props p)))) s
        | None =>
            setField familyRow parentTag
              (One (withProps p
                      (setProp childTag
                         (One (newFamilyRow (Some (LNum 2)) None (Some childTag)
                                            (Some newValue)))
                         (props p)))) s
        end
    end.

(** The value [updateNestedField] stores: the text of the input, converted
    when the field is a date field and the input a date input that is not
    empty. *)
Definition storedValue (inputValue inputType : string) (isDateField : bool) : Res string :=
  if isDateField && String.eqb inputType "date" && nonEmpty inputValue
  then convertFromDateInput inputValue
  else Ok inputValue.

(** [updateNestedField(input, parentTag, childTag, isDateField)]. *)
Definition updateNestedField (inputValue inputType parentTag childTag : string)
    (isDateField : bool) (selected : option addr) : Mut unit :=
  match selected with
  | None => ret tt
  | Some familyRow =>
      if reservedKey parentTag || reservedKey childTag then unmodelled
      else
        do* newValue := liftRes (fun _ => storedValue inputValue inputType isDateField) in
        setNested familyRow parentTag childTag newValue
  end.

(** [updateFamilyNestedField(input, parentTag, childTag)]. *)
Definition updateFamilyNestedField (inputValue parentTag childTag : string)
    (selected : option addr) : Mut unit :=
  match selected with
  | None => ret tt
  | Some familyRow =>
      fun s =>
        if negb (tagIs (deref s familyRow) "FAM") then (s, Ok tt)
        else if reservedKey parentTag || reservedKey childTag then unmodelled s
        else setNested familyRow parentTag childTag inputValue s
  end.

(** A field that can be edited in place: absent, or a single record. *)
Definition editable (sl : option (Slot FamilyRow)) : bool :=
  match sl with
  | Some (Many _) => false
  | _ => true
  end.

(** The record under a tag when it is a single one. *)
Definition single (k : string) (r : FamilyRow) : option FamilyRow :=
  match getProp k (props r) with
  | Some (One c) => Some c
  | _ => None
  end.

(** ** Ages (gedcom_edit.js) *)

(** [\w]: an ASCII letter, a digit or the underscore. *)
Definition isWordChar (c : ascii) : bool :=
  isLetter c || Str.is_digit c || Ascii.eqb c "_".

(** [\b(\d{4})\b] at the head of a text: four digits, and no word character
    after them.  The boundary before them is the caller's business. *)
Definition yearWordAt (s : string) : option string :=
  match takeN Str.is_digit 4 s with
  | Some (year, String c _) => if isWordChar c then None else Some year
  | Some (year, EmptyString) => Some year
  | None => None
  end.

(** [dateStr.match(/\b(\d{4})\b/)]: the first position, from the left, that
    does not follow a word character and where the four digits match. *)
Fixpoint yearWordFrom (prevWord : bool) (s : string) : option string :=
  match (if prevWord then None else yearWordAt s) with
  | Some year => Some year
  | None =>
      match s with
      | EmptyString => None
      | String c s' => yearWordFrom (isWordChar c) s'
      end
  end.

(** [extractYearFromDate(dateStr)]; [None] is null. *)
Definition extractYearFromDate (dateStr : string) : option Z :=
  if negb (nonEmpty dateStr) then None
  else
    match yearWordFrom false dateStr with
    | Some year => Str.digits 0 year
    | None => None
    end.

(** [calculateAge(birthDate, eventDate)]: a year 0 is falsy, like null. *)
Definition calculateAge (birthDate eventDate : string) : option Z :=
  match extractYearFromDate birthDate, extractYearFromDate eventDate with
  | Some birthYear, Some eventYear =>
      if (birthYear =? 0) || (eventYear =? 0) then None
      else Some (eventYear - birthYear)
  | _, _ => None
  end.

(** [formatDateWithAge(familyRow, eventDate)]. *)
Definition formatDateWithAge (familyRow : FamilyRow) (eventDate : string) : string :=
  let birth := getFieldValueFrom familyRow ["BIRT"; "DATE"] in
  if negb (nonEmpty birth) then eventDate
  else
    match calculateAge birth eventDate with
    | Some age =>
        if (0 <=? age) && (age <? 120)
        then eventDate +:+ " (age " +:+ pretty age +:+ ")"
        else eventDate
    | None => eventDate
    end.

(** ** The generation distance of the filter (graph code of gedcom_import.js) *)

(** A distance: a number of generations or [Infinity]. *)
Inductive Distance := Finite (d : Z) | Infinity.

(** What one turn of the loop of [calculateGenerationDistance] pushes for the
    person taken from the queue, in the order of the pushes: the husbands
    and wives of the FAMC families one generation away, the children of the
    FAMS families one generation away, then the husbands and wives of the
    FAMS families, the person apart, at the same distance. *)
Definition pushedFor (s : State) (currentId : option string) (distance : Z)
    (person : FamilyRow) : list (option string * Z) :=
  let familyOf (e : FamilyRow) := mapGet (id e) (families s) in
  flat_map (fun famc =>
              match familyOf famc with
              | Some f =>
                  map (fun h => (id h, distance + 1)) (entries "HUSB" (deref s f))
                  ++ map (fun w => (id w, distance + 1)) (entries "WIFE" (deref s f))
              | None => []
              end) (entries "FAMC" person)
  ++ flat_map (fun fams =>
                 match familyOf fams with
                 | Some f => map (fun c => (id c, distance + 1)) (entries "CHIL" (deref s f))
                 | None => []
                 end) (entries "FAMS" person)
  ++ flat_map (fun fams =>
                 match familyOf fams with
                 | Some f =>
                     map (fun h => (id h, distance))
                         (List.filter (fun h => negb (optEqb (id h) currentId))
                                      (entries "HUSB" (deref s f)))
                     ++ map (fun w => (id w, distance))
                            (List.filter (fun w => negb (optEqb (id w) currentId))
                                         (entries "WIFE" (deref s f)))
                 | None => []
                 end) (entries "FAMS" person).

(** The loop over the queue, one turn per unit of fuel. *)
Fixpoint searchQueue (fuel : nat) (s : State) (targetId : option string)
    (visitedIds : list (option string)) (queue : list (option string * Z))
    : Res Distance :=
  match fuel with
  | O => OutOfFuel
  | S fuel' =>
      match queue with
      | [] => Ok Infinity
      | (currentId, distance) :: rest =>
          if optEqb currentId targetId then Ok (Finite distance)
          else if existsb (optEqb currentId) visitedIds
          then searchQueue fuel' s targetId visitedIds rest
          else
            match mapGet currentId (indviduals s) with
            | None => searchQueue fuel' s targetId (currentId :: visitedIds) rest
            | Some person =>
                searchQueue fuel' s targetId (currentId :: visitedIds)
                            (rest ++ pushedFor s currentId distance (deref s person))
            end
      end
  end.

(** [calculateGenerationDistance(startId, targetId, gedcomData)] on the
    root, which always holds its two Maps. *)
Definition calculateGenerationDistance (fuel : nat) (startId targetId : option string)
    (s : State) : Res Distance :=
  if negb (truthyId startId) || negb (truthyId targetId) || optEqb startId targetId
  then Ok (Finite 0)
  else searchQueue fuel s targetId [] [(startId, 0)].

(** A family of the Map that an entry of a field of the person names. *)
Definition familyOf (s : State) (person : FamilyRow) (field : string) (f : addr) : Prop :=
  exists e, In e (entries field person) /\ mapGet (id e) (families s) = Some f.

(** An id that an entry of a role of the family carries. *)
Definition listedAs (s : State) (f : addr) (role : string) (b : option string) : Prop :=
  exists e, In e (entries role (deref s f)) /\ id e = b.

(** One link between relatives, with the generations it counts: from a
    person of the Map to a parent (the husband or wife of a family the
    person is a child of) one generation, to a child (of a family the person
    is a spouse of) one generation, and to a spouse (the husband or wife of
    such a family under another id) none. *)
Definition linkedTo (s : State) (a b : option string) (w : Z) : Prop :=
  exists (person f : addr),
    mapGet a (indviduals s) = Some person
    /\ ((w = 1 /\ familyOf s (deref s person) "FAMC" f
         /\ (listedAs s f "HUSB" b \/ listedAs s f "WIFE" b))
        \/ (w = 1 /\ familyOf s (deref s person) "FAMS" f /\ listedAs s f "CHIL" b)
        \/ (w = 0 /\ familyOf s (deref s person) "FAMS" f
            /\ (listedAs s f "HUSB" b \/ listedAs s f "WIFE" b) /\ b <> a)).

(** A chain of links from a person, with the generations it adds up. *)
Inductive chainTo (s : State) (a : option string) : option string -> Z -> Prop :=
  | chain_here : chainTo s a a 0
  | chain_link (b c : option string) (d w : Z) :
      chainTo s a b d -> linkedTo s b c w -> chainTo s a c (d + w).

(** The pushes a person of the Map stands for while it is not visited. *)
Definition pushesLeft (s : State) (visitedIds : list (option string)) : nat :=
  list_sum (map (fun kv : option string * addr =>
                   if existsb (optEqb (fst kv)) visitedIds then 0%nat
                   else match mapGet (fst kv) (indviduals s) with
                        | Some person =>
                            length (pushedFor s (fst kv) 0 (deref s person))
                        | None => 0%nat
                        end)
                (indviduals s)).

(** What the search has established when it takes its next turn: the start
    is visited or waiting, every id pushed for a visited person is visited or
    waiting, and the target is not visited. *)
Definition searchInv (s : State) (startId targetId : option string)
    (visitedIds : list (option string)) (queue : list (option string * Z)) : Prop :=
  (In startId visitedIds \/ In startId (map fst queue))
  /\ (forall a b w, In a visitedIds -> linkedTo s a b w ->
                    In b visitedIds \/ In b (map fst queue))
  /\ ~ In targetId visitedIds.

(** A family with a step through a child and a shorter one through the
    wife. *)
Definition stepFamily : list string :=
  ["0 @S@ INDI"; "1 FAMS @F1@";
   "0 @W@ INDI"; "1 FAMS @F1@"; "1 FAMC @F3@";
   "0 @C@ INDI"; "1 FAMC @F1@"; "1 FAMS @F2@";
   "0 @T@ INDI"; "1 FAMC @F2@"; "1 FAMS @F3@";
   "0 @F1@ FAM"; "1 HUSB @S@"; "1 WIFE @W@"; "1 CHIL @C@";
   "0 @F2@ FAM"; "1 HUSB @C@"; "1 CHIL @T@";
   "0 @F3@ FAM"; "1 HUSB @T@"; "1 CHIL @W@"].

(** * Properties *)

(** ** Scenario A: the layout of a three-person family *)

(** C1.  Parsing the sixteen lines of Scenario A and running [display]
    returns a row table whose row 0 holds the father @I2@, the family @F1@
    and the mother @I3@ (in that order) and whose row 1 holds @I1@; the
    [rowLevel] of each record agrees with the row it is in. *)
Theorem scenarioA_rows :
  exists s,
    displayLines 16 16 (Some scenarioA) = Ok s
    /\ rowsByTagAndId s =
         [(0, [(Some "INDI", Some "@I2@"); (Some "FAM", Some "@F1@");
               (Some "INDI", Some "@I3@")]);
          (1, [(Some "INDI", Some "@I1@")])]
    /\ rowLevels s =
         [(Some "@I1@", 1); (Some "@I2@", 0); (Some "@I3@", 0); (Some "@F1@", 0)]
    /\ alerts s = [].
Proof.
  eexists. split; [vm_compute; reflexivity|].
  repeat split; vm_compute; reflexivity.
Qed.

(** ** Parsing without input *)

(** The repository holds two copies of [gedcom.js]; the older one, without
    the header, falls back on a tree with a single unnamed individual and no
    family. *)
Lemma parse_default_single_individual :
  exists top,
    parse None = Ok top
    /\ map (fun ka => fst ka) (indviduals (updateMapsForDisplay (load top))) = [Some "@I1@"]
    /\ families (updateMapsForDisplay (load top)) = [].
Proof. eexists. split; [vm_compute; reflexivity|]. split; vm_compute; reflexivity. Qed.

(** C9.  With no lines, missing or empty, [parse] with the fallback lines of
    the current [gedcom.js] ("Default family tree: You, Your Father, Your
    Mother") builds the default starter tree: three individuals, @I1@ named
    You with its parents @I2@ named Your Father and @I3@ named Your Mother,
    linked by the one family @F1@, which lists @I2@ as HUSB, @I3@ as WIFE
    and @I1@ as CHIL, while @I1@ names it in FAMC and the parents name it in
    FAMS.  The tree is one the layout displays: [display] returns on it
    without an alert, with the parents and the family on row 0 and the
    child on row 1. *)
Theorem parse_without_input :
  parseWith defaultLinesFamily (Some []) = parseWith defaultLinesFamily None
  /\ exists top s s',
       parseWith defaultLinesFamily None = Ok top
       /\ s = updateMapsForDisplay (load top)
       /\ map (fun a => (id (deref s a), map value (entries "NAME" (deref s a)),
                          map id (entries "FAMC" (deref s a)),
                          map id (entries "FAMS" (deref s a)))) (indiRefs s)
          = [(Some "@I1@", [Some "You"], [Some "@F1@"], []);
             (Some "@I2@", [Some "Your Father"], [], [Some "@F1@"]);
             (Some "@I3@", [Some "Your Mother"], [], [Some "@F1@"])]
       /\ map (fun a => (id (deref s a), map id (entries "HUSB" (deref s a)),
                          map id (entries "WIFE" (deref s a)),
                          map id (entries "CHIL" (deref s a)))) (famRefs s)
          = [(Some "@F1@", [Some "@I2@"], [Some "@I3@"], [Some "@I1@"])]
       /\ map (fun ka => fst ka) (indviduals s) = [Some "@I1@"; Some "@I2@"; Some "@I3@"]
       /\ map (fun ka => fst ka) (families s) = [Some "@F1@"]
       /\ display 16 32 (load top) = Ok s'
       /\ rowsById s' = [(0, [Some "@I2@"; Some "@F1@"; Some "@I3@"]); (1, [Some "@I1@"])]
       /\ alerts s' = [].
Proof.
  split; [vm_compute; reflexivity|].
  do 3 eexists. split; [vm_compute; reflexivity|]. split; [reflexivity|].
  do 6 (split; [vm_compute; reflexivity|]). vm_compute. reflexivity.
Qed.

(** ** Deletion on a freshly parsed tree *)

(** C3 (the code at the failing input).  Scenario C: in the state parsed from
    Scenario A, where the root's FAM slot holds the single family record and
    no array, [deleteIndi] on @I2@ removes @I2@ from the Map and from the
    root's INDI array and then raises on [rootFamilyRow.FAM.forEach]; the
    family @F1@ is left with @I2@ still in its HUSB array. *)
Theorem scenarioC_deleteIndi :
  exists s s',
    scenarioAState = Ok s
    /\ id (deref s 1%nat) = Some "@I2@"
    /\ FAM s = Some (One 3%nat)
    /\ deleteIndi 1%nat s = (s', Throw "TypeError: rootFamilyRow.FAM.forEach is not a function")
    /\ mapGet (Some "@I2@") (indviduals s') = None
    /\ INDI s' = Some (Many [0%nat; 2%nat])
    /\ mapGet (Some "@F1@") (families s') = Some 3%nat
    /\ memberIds (deref s' 3%nat) = [Some "@I2@"; Some "@I3@"; Some "@I1@"].
Proof.
  do 2 eexists. split; [vm_compute; reflexivity|].
  split; [vm_compute; reflexivity|]. split; [vm_compute; reflexivity|].
  split; [vm_compute; reflexivity|].
  repeat split; vm_compute; reflexivity.
Qed.

(** The cascade also misses families when the root's FAM slot is an array:
    deleting the first family from inside [forEach] shifts the second one
    into the index just visited, so it is never looked at and keeps its
    reference to the deleted individual. *)
Lemma deleteIndi_skips_family :
  exists top s',
    parse (Some twoMarriages) = Ok top
    /\ deleteIndi 0%nat (updateMapsForDisplay (load top)) = (s', Ok tt)
    /\ map (fun ka => fst ka) (families s') = [Some "@F2@"]
    /\ map (fun a => memberIds (deref s' a)) (famRefs s') = [[Some "@I1@"]].
Proof.
  do 2 eexists. split; [vm_compute; reflexivity|].
  split; [vm_compute; reflexivity|]. split; vm_compute; reflexivity.
Qed.

(** C8 (the code at the failing inputs).  Deletion raises on trees the parser
    produces.  On the fallback tree, whose root holds a single INDI record
    and no FAM, [deleteIndi] raises on [findIndex] after it has removed the
    individual from the Map, so the Map and the root disagree.  On the tree
    of Scenario A, whose root holds a single FAM record, [deleteFam] raises
    the same way after it has removed the family from the Map, while the
    root and the three individuals still refer to it. *)
Theorem delete_throws_on_single_records :
  (exists top s',
     parse None = Ok top
     /\ deleteIndi 0%nat (updateMapsForDisplay (load top))
        = (s', Throw "TypeError: arrayWithId.findIndex is not a function")
     /\ indviduals s' = []
     /\ INDI s' = Some (One 0%nat))
  /\ (exists s s',
        scenarioAState = Ok s
        /\ deleteFam 3%nat s = (s', Throw "TypeError: arrayWithId.findIndex is not a function")
        /\ families s' = []
        /\ FAM s' = Some (One 3%nat)
        /\ map (fun a => getIdFromNode (Some (deref s' a)) "FAMC") (indiRefs s')
           = [Ok (Some "@F1@"); Ok None; Ok None]
        /\ map (fun a => getIdFromNode (Some (deref s' a)) "FAMS") (indiRefs s')
           = [Ok None; Ok (Some "@F1@"); Ok (Some "@F1@")]).
Proof.
  split.
  - do 2 eexists. split; [vm_compute; reflexivity|].
    split; [vm_compute; reflexivity|]. split; vm_compute; reflexivity.
  - do 2 eexists. split; [vm_compute; reflexivity|].
    split; [vm_compute; reflexivity|]. repeat split; vm_compute; reflexivity.
Qed.

(** ** The id and the value of a line *)

(** The second token is not always the id when it starts with an at sign: a
    value that matches the id pattern replaces it. *)
Lemma formatLine_value_replaces_id :
  Str.split "0 @I1@ INDI @X@" = ["0"; "@I1@"; "INDI"; "@X@"]
  /\ Str.startsWithAt "@I1@" = true
  /\ id (formatLine "0 @I1@ INDI @X@") = Some "@X@"
  /\ id (formatLine "0 @I1@ INDI @X@") <> Some "@I1@"
  /\ value (formatLine "0 @I1@ INDI @X@") = None.
Proof. repeat split; try (vm_compute; reflexivity). vm_compute. discriminate. Qed.

(** C10 (amended).  For a line of at least two tokens, the value is the
    tokens after the tag joined by spaces.  Whenever there is a value and it
    matches the id pattern it becomes the id and the value is left absent,
    whether or not the second token started with an at sign; otherwise the
    id is the second token when that starts with an at sign and is absent
    when it does not, and the value, if any, is kept. *)
Theorem formatLine_id_precedence (line lvl tmp : string) (rest : list string) :
  Str.split line = lvl :: tmp :: rest ->
  id (formatLine line) =
    (if notNil (valueTokens tmp rest) && Str.matchesIdRef (Str.join (valueTokens tmp rest))
     then Some (Str.join (valueTokens tmp rest))
     else if Str.startsWithAt tmp then Some tmp else None)
  /\ value (formatLine line) =
    (if notNil (valueTokens tmp rest) && negb (Str.matchesIdRef (Str.join (valueTokens tmp rest)))
     then Some (Str.join (valueTokens tmp rest))
     else None)
  /\ tag (formatLine line) = (if Str.startsWithAt tmp then head rest else Some tmp)
  /\ level (formatLine line) = Some (LStr lvl).
Proof.
  intros Hsplit. unfold formatLine, valueTokens. rewrite Hsplit.
  destruct (Str.startsWithAt tmp).
  - destruct rest as [|t [|v vs]]; simpl; try (repeat split; reflexivity).
    destruct (Str.matchesIdRef _); repeat split; reflexivity.
  - destruct rest as [|v vs]; simpl; try (repeat split; reflexivity).
    destruct (Str.matchesIdRef _); repeat split; reflexivity.
Qed.

Lemma formatLine_id_precedence_witness :
  id (formatLine "1 FAMC @F1@") = Some "@F1@"
  /\ value (formatLine "1 FAMC @F1@") = None
  /\ tag (formatLine "1 FAMC @F1@") = Some "FAMC"
  /\ level (formatLine "1 FAMC @F1@") = Some (LStr "1").
Proof.
  exact (formatLine_id_precedence "1 FAMC @F1@" "1" "FAMC" ["@F1@"] eq_refl).
Defined.

(** ** Root discovery *)


(** When a call returns an individual, it is the one it was called on. *)
Lemma findParentOfParent_step_self (s : State) (c a : addr) :
  findParentOfParent_step s (Some c) = Ok (inl (Some a)) -> a = c.
Proof.
  unfold findParentOfParent_step.
  destruct (tagIs (deref s c) "INDI"); [|discriminate].
  destruct (getIdFromNode (Some (deref s c)) "FAMC") as [pf| | |]; simpl; try discriminate.
  match goal with
  | |- context [bindRes ?m _] => destruct m as [[q|]| | |]; simpl; try discriminate
  end.
  congruence.
Qed.





(** [findRoot] is the function with the bound of 100 and the "ERROR" value;
    it follows [parent] links while the level is the number -1.  It gives
    "ERROR" exactly when the record and its first hundred ancestors all have
    that level; with fewer ancestors, all at that level, it raises on the
    missing parent; otherwise it returns the first record on the chain whose
    level is something else. *)
Lemma findRoot_loop_bound (n : nat) :
  forall (cur : FamilyRow) (above : list FamilyRow),
    match firstOtherLevel (take (S n) (cur :: above)) with
    | Some r => findRoot_loop n (Some cur) above = Ok (RootFound r)
    | None =>
        if (S n <=? length (cur :: above))%nat
        then findRoot_loop n (Some cur) above = Ok RootError
        else exists msg, findRoot_loop n (Some cur) above = Throw msg
    end.
Proof.
  induction n as [|n IH]; intros cur above.
  - cbn [take firstOtherLevel findRoot_loop].
    destruct (levelIsMinusOne (level cur)); [|reflexivity].
    rewrite take_0. reflexivity.
  - cbn [take firstOtherLevel findRoot_loop].
    destruct (levelIsMinusOne (level cur)); [|reflexivity].
    destruct above as [|a above'].
    + cbn. destruct n; eexists; reflexivity.
    + specialize (IH a above'). cbn [head tail]. exact IH.
Qed.

(** X1.  [findRoot], started on a record with the chain of its ancestors,
    returns the first record among that record and its first hundred
    ancestors whose level is not the number -1; when there is none it gives
    "ERROR" if the chain has at least a hundred ancestors and raises on the
    missing parent otherwise.  It never runs more than a hundred steps. *)
Lemma findRoot_bound (cur : FamilyRow) (above : list FamilyRow) :
  match firstOtherLevel (take 101 (cur :: above)) with
  | Some r => findRoot cur above = Ok (RootFound r)
  | None =>
      if (101 <=? length (cur :: above))%nat
      then findRoot cur above = Ok RootError
      else exists msg, findRoot cur above = Throw msg
  end.
Proof. exact (findRoot_loop_bound 100 cur above). Qed.







(** ** Fresh ids *)

Lemma append_at_inj (s t : string) : s +:+ "@" = t +:+ "@" -> s = t.
Proof.
  revert t. induction s as [|c s IH]; intros [|d t] H; simpl in H.
  - reflexivity.
  - injection H as _ H. destruct t; discriminate.
  - injection H as _ H. destruct s; discriminate.
  - injection H as -> H. f_equal. exact (IH _ H).
Qed.

Lemma getFamilyId_inj (n m : nat) : getFamilyId n = getFamilyId m -> n = m.
Proof.
  unfold getFamilyId. intros H. simpl in H. injection H as H.
  apply append_at_inj in H. exact (pretty_nat_inj _ _ H).
Qed.

Lemma getIndividualId_inj (n m : nat) : getIndividualId n = getIndividualId m -> n = m.
Proof.
  unfold getIndividualId. intros H. simpl in H. injection H as H.
  apply append_at_inj in H. exact (pretty_nat_inj _ _ H).
Qed.

Lemma optEqb_eq (a b : option string) : optEqb a b = true <-> a = b.
Proof.
  destruct a as [x|], b as [y|]; simpl; try (split; (discriminate || reflexivity)).
  rewrite String.eqb_eq. split; congruence.
Qed.

Lemma optEqb_refl (a : option string) : optEqb a a = true.
Proof. apply optEqb_eq. reflexivity. Qed.

Lemma mapGet_In (k : option string) (m : JSMap) (a : addr) :
  mapGet k m = Some a -> In k (map fst m).
Proof.
  induction m as [|[k' v] m IH]; simpl; [discriminate|].
  destruct (optEqb k k') eqn:E.
  - intros _. left. symmetry. apply optEqb_eq. exact E.
  - intros H. right. exact (IH H).
Qed.

(** Among [n + 1] consecutive candidates one is not a key of a Map of [n]
    entries. *)
Lemma free_candidate (mk : nat -> string) (m : JSMap) (start : nat) :
  (forall a b, mk a = mk b -> a = b) ->
  exists k, (k <= length m)%nat /\ mapHas (Some (mk (start + k)%nat)) m = false.
Proof.
  intros Hinj.
  assert (Hdec : forall n,
            (forall k, (k < n)%nat -> mapHas (Some (mk (start + k)%nat)) m = true)
            \/ (exists k, (k < n)%nat /\ mapHas (Some (mk (start + k)%nat)) m = false)).
  { induction n as [|n [IH|[k [Hk Hf]]]].
    - left. intros k Hk. lia.
    - destruct (mapHas (Some (mk (start + n)%nat)) m) eqn:E.
      + left. intros k Hk. destruct (Nat.eq_dec k n) as [->|]; [exact E|apply IH; lia].
      + right. exists n. split; [lia|exact E].
    - right. exists k. split; [lia|exact Hf]. }
  destruct (Hdec (S (length m))) as [Hall|[k [Hk Hf]]].
  - exfalso.
    set (keys := map (fun k => Some (mk (start + k)%nat)) (seq 0 (S (length m)))).
    assert (Hnd : List.NoDup keys).
    { apply Injective_map_NoDup; [|apply List.seq_NoDup].
      intros a b H. injection H as H. apply Hinj in H. lia. }
    assert (Hincl : incl keys (map fst m)).
    { intros x Hx. apply in_map_iff in Hx as [k [<- Hk]].
      apply in_seq in Hk. specialize (Hall k ltac:(lia)).
      unfold mapHas in Hall.
      destruct (mapGet _ m) eqn:E; [|discriminate]. exact (mapGet_In _ _ _ E). }
    pose proof (List.NoDup_incl_length Hnd Hincl) as Hlen.
    unfold keys in Hlen. rewrite !length_map, length_seq in Hlen. lia.
  - exists k. split; [lia|exact Hf].
Qed.

Lemma nextFreeId_finds (mk : nat -> string) (m : JSMap) (fuel : nat) :
  forall (start k : nat),
    (k < fuel)%nat -> mapHas (Some (mk (start + k)%nat)) m = false ->
    exists j, nextFreeId mk m fuel start = Ok (mk (start + j)%nat)
              /\ mapHas (Some (mk (start + j)%nat)) m = false.
Proof.
  induction fuel as [|fuel IH]; intros start k Hk Hf; [lia|].
  cbn [nextFreeId].
  destruct (mapHas (Some (mk start)) m) eqn:E.
  - destruct k as [|k]; [rewrite Nat.add_0_r in Hf; congruence|].
    destruct (IH (S start) k ltac:(lia)) as [j [Hj Hfree]].
    { replace (S start + k)%nat with (start + S k)%nat by lia. exact Hf. }
    exists (S j). replace (start + S j)%nat with (S start + j)%nat by lia.
    split; assumption.
  - exists 0%nat. rewrite Nat.add_0_r. split; [reflexivity|exact E].
Qed.

(** [nextFamilyID] and [nextIndividualID] return, and the id they return is
    not a key of the Map. *)
Lemma nextFamilyID_fresh (s : State) :
  exists i, nextFamilyID s = Ok i /\ mapGet (Some i) (families s) = None.
Proof.
  destruct (free_candidate getFamilyId (families s) (S (length (families s)))
              getFamilyId_inj) as [k [Hk Hf]].
  destruct (nextFreeId_finds getFamilyId (families s) (S (length (families s)))
              (S (length (families s))) k ltac:(lia) Hf) as [j [Hj Hfree]].
  eexists. split; [exact Hj|].
  unfold mapHas in Hfree. destruct (mapGet _ _); [discriminate|reflexivity].
Qed.

Lemma nextIndividualID_fresh (s : State) :
  exists i, nextIndividualID s = Ok i /\ mapGet (Some i) (indviduals s) = None.
Proof.
  destruct (free_candidate getIndividualId (indviduals s) (S (length (indviduals s)))
              getIndividualId_inj) as [k [Hk Hf]].
  destruct (nextFreeId_finds getIndividualId (indviduals s) (S (length (indviduals s)))
              (S (length (indviduals s))) k ltac:(lia) Hf) as [j [Hj Hfree]].
  eexists. split; [exact Hj|].
  unfold mapHas in Hfree. destruct (mapGet _ _); [discriminate|reflexivity].
Qed.

(** ** The store *)

Lemma store_update (s : State) (a : addr) (f : FamilyRow -> FamilyRow) :
  store (update s a f) = <[a := f (deref s a)]> (store s).
Proof. reflexivity. Qed.

Lemma deref_update_same (s : State) (a : addr) (f : FamilyRow -> FamilyRow) :
  (a < length (store s))%nat -> deref (update s a f) a = f (deref s a).
Proof.
  intros H. unfold deref at 1. rewrite store_update.
  rewrite list_lookup_insert_eq by exact H. reflexivity.
Qed.

Lemma deref_update_other (s : State) (a b : addr) (f : FamilyRow -> FamilyRow) :
  a <> b -> deref (update s a f) b = deref s b.
Proof.
  intros H. unfold deref. rewrite store_update.
  rewrite list_lookup_insert_ne by exact H. reflexivity.
Qed.

Lemma length_store_update (s : State) (a : addr) (f : FamilyRow -> FamilyRow) :
  length (store (update s a f)) = length (store s).
Proof. rewrite store_update. apply length_insert. Qed.

Lemma mapGet_mapSet_same (k : option string) (v : addr) (m : JSMap) :
  mapGet k (mapSet k v m) = Some v.
Proof.
  induction m as [|[k' v'] m IH]; simpl.
  - rewrite optEqb_refl. reflexivity.
  - destruct (optEqb k k') eqn:E; simpl; rewrite ?optEqb_refl, ?E; auto.
Qed.

Lemma lookup_default_insert_same (st : list FamilyRow) (a : addr) (x : FamilyRow) :
  (a < length st)%nat -> default emptyRow (<[a := x]> st !! a) = x.
Proof. intros H. rewrite list_lookup_insert_eq by exact H. reflexivity. Qed.

Lemma lookup_default_insert_other (st : list FamilyRow) (a b : addr) (x : FamilyRow) :
  a <> b -> default emptyRow (<[a := x]> st !! b) = default emptyRow (st !! b).
Proof. intros H. rewrite list_lookup_insert_ne by exact H. reflexivity. Qed.

Lemma lookup_default_app_new (st : list FamilyRow) (x : FamilyRow) (n : nat) :
  n = length st -> default emptyRow ((st ++ [x]) !! n) = x.
Proof. intros ->. rewrite lookup_app_r by lia. rewrite Nat.sub_diag. reflexivity. Qed.

Lemma lookup_default_app_old (st : list FamilyRow) (a : addr) (x : FamilyRow) :
  (a < length st)%nat -> default emptyRow ((st ++ [x]) !! a) = default emptyRow (st !! a).
Proof. intros H. rewrite lookup_app_l by exact H. reflexivity. Qed.

Lemma getProp_setProp_same {A : Type} (k : string) (v : A) (ps : list (string * A)) :
  getProp k (setProp k v ps) = Some v.
Proof.
  induction ps as [|[k' v'] ps IH]; simpl.
  - rewrite String.eqb_refl. reflexivity.
  - destruct (String.eqb k k') eqn:E; simpl; rewrite ?String.eqb_refl, ?E; auto.
Qed.

Lemma getProp_setProp_other {A : Type} (k k0 : string) (v : A) (ps : list (string * A)) :
  k0 <> k -> getProp k0 (setProp k v ps) = getProp k0 ps.
Proof.
  intros Hne. induction ps as [|[k' v'] ps IH]; simpl.
  - destruct (String.eqb k0 k) eqn:E; [apply String.eqb_eq in E; contradiction|reflexivity].
  - destruct (String.eqb k k') eqn:E; simpl.
    + apply String.eqb_eq in E. subst k'.
      destruct (String.eqb k0 k) eqn:E'; [apply String.eqb_eq in E'; contradiction|reflexivity].
    + destruct (String.eqb k0 k'); [reflexivity|exact IH].
Qed.

Lemma sexIsM_withField (k : string) (sl : Slot FamilyRow) (r : FamilyRow) :
  k <> "SEX" -> sexIsM (withField k sl r) = sexIsM r.
Proof.
  intros H. unfold sexIsM, withField, withProps. cbn [props].
  rewrite getProp_setProp_other by (intros E; apply H; symmetry; exact E). reflexivity.
Qed.

Lemma insert_last {A : Type} (l : list A) (x y : A) (n : nat) :
  n = length l -> <[n := x]> (l ++ [y]) = l ++ [x].
Proof.
  intros ->. rewrite insert_app_r_alt by lia. rewrite Nat.sub_diag. reflexivity.
Qed.

Ltac len_side := rewrite ?length_insert, ?length_app; simpl; lia.

Ltac store_norm :=
  repeat first
    [ rewrite lookup_default_app_new by len_side
    | rewrite lookup_default_insert_same by len_side
    | rewrite lookup_default_insert_other by lia
    | rewrite lookup_default_app_old by len_side
    | rewrite insert_app_l by len_side ].

Ltac unfold_state :=
  cbv beta iota delta
    [deref update setStore setINDI setFAM setIndviduals setFamilies
     store INDI FAM indviduals families queueForNext orderInLevel alerts] in *.

Lemma createOrGetFamilyOfPartner_creates (s : State) (cur : addr) (famId : string) :
  (cur < length (store s))%nat ->
  nonEmptyArray (getProp "FAMS" (props (deref s cur))) = false ->
  nextFamilyID s = Ok famId ->
  createOrGetFamilyOfPartner cur s =
    (mkState (<[cur := withField "FAMS" (Many [link "FAMS" (Some famId)]) (deref s cur)]> (store s)
                ++ [partnerFamily famId (deref s cur)])
             (INDI s) (pushRoot (FAM s) (length (store s)))
             (indviduals s) (mapSet (Some famId) (length (store s)) (families s))
             (queueForNext s) (orderInLevel s) (alerts s),
     Ok (Some (length (store s)))).
Proof.
  intros Hcur Hfams Hfam.
  unfold createOrGetFamilyOfPartner.
  destruct (getProp "FAMS" (props (deref s cur))) as [[c|[|f fs]]|] eqn:EF;
    try discriminate.
  all: cbv beta iota delta [bindMut liftRes allocM alloc addFamToRoot modify setField ret];
    rewrite Hfam; cbv beta iota.
  all: clear EF Hfams Hfam; destruct s as [st indi fam ind fams q o al];
    unfold_state.
  all: store_norm.
  all: rewrite !insert_last by len_side.
  all: fold (withField "FAMS" (Many [link "FAMS" (Some famId)]) (default emptyRow (st !! cur))).
  all: rewrite sexIsM_withField by discriminate.
  all: unfold partnerFamily; destruct (sexIsM _); reflexivity.
Qed.

Lemma createNewNode_creates (s : State) (dom : Dom) (g newId : string) :
  newNodeGender dom = Some g ->
  g <> "" ->
  nextIndividualID s = Ok newId ->
  createNewNode dom None s =
    (mkState (store s ++ [newPerson newId (formatGedcomName (newNodeNameValue dom)) g])
             (pushRoot (INDI s) (length (store s))) (FAM s)
             (mapSet (Some newId) (length (store s)) (indviduals s)) (families s)
             (queueForNext s) (orderInLevel s) (alerts s),
     Ok (length (store s))).
Proof.
  intros Hg Hne Hnew.
  unfold createNewNode.
  cbv beta iota delta [bindMut liftRes allocM alloc addIndiToRoot modify ret].
  rewrite Hnew, Hg. cbv beta iota.
  assert (Ht : truthyId (Some g) = true).
  { unfold truthyId, nonEmpty. destruct (String.eqb g "") eqn:E; [|reflexivity].
    apply String.eqb_eq in E. contradiction. }
  cbn [truthyId] in Ht |- *. rewrite Ht.
  destruct s as [st indi fam ind fams q o al]. unfold_state. store_norm.
  reflexivity.
Qed.

(** ** Adding a partner *)

(** With a male selected individual and "M" chosen for the new partner, both
    end up in the HUSB array of the new family and the WIFE slot stays
    absent: the partner is not put on the opposite slot. *)
Lemma addPartner_same_slot :
  exists s',
    sexIsM (deref (stateOf scenarioA) 0%nat) = true
    /\ getProp "FAMS" (props (deref (stateOf scenarioA) 0%nat)) = None
    /\ addPartner (mkDom "Partner" (Some "M")) 0%nat (stateOf scenarioA) = (s', Ok tt)
    /\ map (fun ka => fst ka) (families s') = [Some "@F1@"; Some "@F2@"]
    /\ map id (from_option slotList [] (getProp "HUSB" (props (deref s' 4%nat))))
       = [Some "@I1@"; Some "@I4@"]
    /\ getProp "WIFE" (props (deref s' 4%nat)) = None.
Proof.
  eexists. split; [vm_compute; reflexivity|]. split; [vm_compute; reflexivity|].
  split; [vm_compute; reflexivity|]. repeat split; vm_compute; reflexivity.
Qed.

(** C6 (amended).  On an individual in the store that has no FAMS entry, with
    a gender chosen for the new partner, [addPartner] runs to the end and
    creates a family record under a fresh id, appends it to the root's FAM
    array and enters it in [families]; sets the individual's FAMS to a
    single entry naming that family; creates the partner under a fresh id
    with its own FAMS entry for the family.  The individual is in HUSB when
    its SEX is M and in WIFE otherwise; the partner is in HUSB when the
    gender chosen for it is M and in WIFE otherwise, whatever the
    individual's SEX: the two share a slot when both or neither are M. *)
Theorem addPartner_new_family (s : State) (dom : Dom) (cur : addr) (g : string) :
  (cur < length (store s))%nat ->
  nonEmptyArray (getProp "FAMS" (props (deref s cur))) = false ->
  newNodeGender dom = Some g ->
  g <> "" ->
  exists (famId newId : string),
    mapGet (Some famId) (families s) = None
    /\ mapGet (Some newId) (indviduals s) = None
    /\ addPartner dom cur s =
         (mkState
            (<[cur := withField "FAMS" (Many [link "FAMS" (Some famId)]) (deref s cur)]> (store s)
             ++ [pushInto (spouseSlot g) (link (spouseSlot g) (Some newId))
                          (partnerFamily famId (deref s cur));
                 withField "FAMS" (Many [link "FAMS" (Some famId)])
                           (newPerson newId (formatGedcomName (newNodeNameValue dom)) g)])
            (pushRoot (INDI s) (S (length (store s))))
            (pushRoot (FAM s) (length (store s)))
            (mapSet (Some newId) (S (length (store s))) (indviduals s))
            (mapSet (Some famId) (length (store s)) (families s))
            (queueForNext s) (orderInLevel s) (alerts s),
          Ok tt)
    /\ props (pushInto (spouseSlot g) (link (spouseSlot g) (Some newId))
                       (partnerFamily famId (deref s cur)))
       = match sexIsM (deref s cur), String.eqb g "M" with
         | true, true =>
             [("HUSB", Many [link "HUSB" (id (deref s cur)); link "HUSB" (Some newId)])]
         | true, false =>
             [("HUSB", Many [link "HUSB" (id (deref s cur))]);
              ("WIFE", Many [link "WIFE" (Some newId)])]
         | false, true =>
             [("WIFE", Many [link "WIFE" (id (deref s cur))]);
              ("HUSB", Many [link "HUSB" (Some newId)])]
         | false, false =>
             [("WIFE", Many [link "WIFE" (id (deref s cur)); link "WIFE" (Some newId)])]
         end.
Proof.
  intros Hcur Hfams Hg Hne.
  destruct (nextFamilyID_fresh s) as [famId [Hfam Hfresh]].
  destruct (nextIndividualID_fresh s) as [newId [Hnew Hfresh']].
  exists famId, newId. split; [exact Hfresh|]. split; [exact Hfresh'|]. split.
  - unfold addPartner. unfold bindMut at 1.
    rewrite (createOrGetFamilyOfPartner_creates s cur famId Hcur Hfams Hfam).
    unfold bindMut at 1.
    erewrite (createNewNode_creates _ dom g newId Hg Hne); [|exact Hnew].
    cbv beta iota delta [bindMut setField pushField modify].
    destruct s as [st indi fam ind fams q o al]. unfold_state.
    rewrite !length_app, !length_insert. cbn [length].
    replace (length st + 1)%nat with (S (length st)) by lia.
    set (A := <[cur := _]> st).
    set (f1 := partnerFamily famId _).
    set (n0 := newPerson newId _ g).
    assert (HA : length A = length st) by apply length_insert.
    assert (E1 : forall x, default emptyRow (((A ++ [f1]) ++ [x]) !! S (length st)) = x).
    { intros x. apply lookup_default_app_new. len_side. }
    assert (E2 : forall x, default emptyRow (((A ++ [f1]) ++ [x]) !! length st) = f1).
    { intros x. rewrite lookup_default_app_old by len_side.
      apply lookup_default_app_new. len_side. }
    rewrite !E1, !E2.
    rewrite (insert_last (A ++ [f1]) _ n0 (S (length st))) by len_side.
    rewrite !E1, !E2.
    assert (Hid : id f1 = Some famId) by reflexivity.
    rewrite !Hid.
    fold (withField "FAMS" (Many [link "FAMS" (Some famId)]) n0).
    set (n1 := withField "FAMS" _ n0).
    assert (Hsex : getProp "SEX" (props n1)
                   = Some (One (newFamilyRow (Some (LNum 1)) None (Some "SEX") (Some g))))
      by reflexivity.
    assert (HsexM : sexIsM n1 = String.eqb g "M").
    { unfold sexIsM. rewrite Hsex. reflexivity. }
    assert (Hidn : id n1 = Some newId) by reflexivity.
    rewrite Hsex, HsexM, !Hidn.
    assert (E3 : forall x, <[length st := x]> ((A ++ [f1]) ++ [n1]) = A ++ [x; n1]).
    { intros x. rewrite insert_app_l by len_side.
      rewrite (insert_last A x f1 (length st)) by len_side.
      rewrite <- app_assoc. reflexivity. }
    rewrite !E3. unfold spouseSlot.
    destruct (String.eqb g "M"); reflexivity.
  - unfold spouseSlot, pushInto, partnerFamily.
    destruct (sexIsM (deref s cur)), (String.eqb g "M"); reflexivity.
Qed.

Lemma addPartner_new_family_witness :
  exists (famId newId : string),
    mapGet (Some famId) (families (stateOf scenarioA)) = None
    /\ mapGet (Some newId) (indviduals (stateOf scenarioA)) = None
    /\ addPartner (mkDom "Partner" (Some "F")) 0%nat (stateOf scenarioA) =
         (mkState
            (<[0%nat := withField "FAMS" (Many [link "FAMS" (Some famId)])
                                  (deref (stateOf scenarioA) 0%nat)]> (store (stateOf scenarioA))
             ++ [pushInto (spouseSlot "F") (link (spouseSlot "F") (Some newId))
                          (partnerFamily famId (deref (stateOf scenarioA) 0%nat));
                 withField "FAMS" (Many [link "FAMS" (Some famId)])
                           (newPerson newId (formatGedcomName "Partner") "F")])
            (pushRoot (INDI (stateOf scenarioA)) (S (length (store (stateOf scenarioA)))))
            (pushRoot (FAM (stateOf scenarioA)) (length (store (stateOf scenarioA))))
            (mapSet (Some newId) (S (length (store (stateOf scenarioA))))
                    (indviduals (stateOf scenarioA)))
            (mapSet (Some famId) (length (store (stateOf scenarioA)))
                    (families (stateOf scenarioA)))
            (queueForNext (stateOf scenarioA)) (orderInLevel (stateOf scenarioA))
            (alerts (stateOf scenarioA)),
          Ok tt)
    /\ props (pushInto (spouseSlot "F") (link (spouseSlot "F") (Some newId))
                       (partnerFamily famId (deref (stateOf scenarioA) 0%nat)))
       = match sexIsM (deref (stateOf scenarioA) 0%nat), String.eqb "F" "M" with
         | true, true =>
             [("HUSB", Many [link "HUSB" (id (deref (stateOf scenarioA) 0%nat));
                             link "HUSB" (Some newId)])]
         | true, false =>
             [("HUSB", Many [link "HUSB" (id (deref (stateOf scenarioA) 0%nat))]);
              ("WIFE", Many [link "WIFE" (Some newId)])]
         | false, true =>
             [("WIFE", Many [link "WIFE" (id (deref (stateOf scenarioA) 0%nat))]);
              ("HUSB", Many [link "HUSB" (Some newId)])]
         | false, false =>
             [("WIFE", Many [link "WIFE" (id (deref (stateOf scenarioA) 0%nat));
                             link "WIFE" (Some newId)])]
         end.
Proof.
  apply (addPartner_new_family (stateOf scenarioA) (mkDom "Partner" (Some "F")) 0%nat "F").
  - vm_compute. lia.
  - vm_compute. reflexivity.
  - reflexivity.
  - discriminate.
Defined.

(** ** Ids that do not resolve during the layout *)

(** A CHIL id that names nobody is passed over in silence: the layout ends
    normally and no alert is raised.  A WIFE id that names nobody makes the
    layout raise a TypeError.  A FAMS id that names no family raises an
    alert that quotes the missing id and not the individual referring to it,
    and the layout goes on. *)
Lemma dangling_ids_in_layout :
  (exists s, displayLines 8 8 (Some danglingChild) = Ok s
             /\ alerts s = []
             /\ rowsById s = [(0, [Some "@I1@"; Some "@F1@"])])
  /\ displayLines 8 8 (Some danglingWife)
     = Throw "TypeError: cannot read properties of undefined (reading 'visited')"
  /\ (exists s, displayLines 8 8 (Some danglingSpouseFamily) = Ok s
                /\ alerts s
                   = ["Error in loaded data: No family node found in level 0 with id@F7@"]
                /\ rowsById s = [(0, [Some "@I1@"; Some "@F1@"])]).
Proof.
  split; [eexists; split; [vm_compute; reflexivity|split; vm_compute; reflexivity]|].
  split; [vm_compute; reflexivity|].
  eexists; split; [vm_compute; reflexivity|split; vm_compute; reflexivity].
Qed.

Lemma scannedEntries_alert (s : State) (msg : string) (i : option string)
  (fams : list FamilyRow) :
  scannedEntries (alert s msg) i fams = scannedEntries s i fams.
Proof.
  induction fams as [|e rest IH]; cbn [scannedEntries]; [reflexivity|].
  change (isAnchorEntry (alert s msg) i e) with (isAnchorEntry s i e).
  rewrite IH. reflexivity.
Qed.

Lemma scanFAMS_alerts (fams : list FamilyRow) :
  forall (s s' : State) (i : option string) (p n : option addr),
    scanFAMS s i fams = (s', p, n) ->
    alerts s' = alerts s ++ map (fun e => missingFamilyMsg (id e))
                                (List.filter (danglingFamily s) (scannedEntries s i fams))
    /\ store s' = store s /\ families s' = families s /\ indviduals s' = indviduals s
    /\ queueForNext s' = queueForNext s /\ orderInLevel s' = orderInLevel s.
Proof.
  induction fams as [|e rest IH]; intros s s' i p n H; cbn [scanFAMS] in H.
  - injection H as <- _ _. cbn. rewrite app_nil_r. repeat split; reflexivity.
  - cbn [scannedEntries]. unfold isAnchorEntry.
    destruct (mapGet (id e) (families s)) as [f|] eqn:Hget.
    + assert (Hd : danglingFamily s e = false)
        by (unfold danglingFamily; rewrite Hget; reflexivity).
      destruct (visited (deref s f)); cbn [andb].
      * destruct (idInList i (getProp "HUSB" (props (deref s f)))); cbn [orb].
        { injection H as <- _ _. cbn [List.filter]. rewrite Hd. cbn [map].
          rewrite app_nil_r. repeat split; reflexivity. }
        destruct (idInList i (getProp "WIFE" (props (deref s f)))).
        { injection H as <- _ _. cbn [List.filter]. rewrite Hd. cbn [map].
          rewrite app_nil_r. repeat split; reflexivity. }
        cbn [List.filter]. rewrite Hd. exact (IH _ _ _ _ _ H).
      * cbn [List.filter]. rewrite Hd. exact (IH _ _ _ _ _ H).
    + assert (Hd : danglingFamily s e = true)
        by (unfold danglingFamily; rewrite Hget; reflexivity).
      cbn [List.filter]. rewrite Hd. cbn [map].
      destruct (IH _ _ _ _ _ H) as (Ha & Hs & Hf & Hi & Hq & Ho).
      rewrite Ha, scannedEntries_alert.
      change (danglingFamily (alert s (missingFamilyMsg (id e)))) with (danglingFamily s).
      cbn [alert alerts]. rewrite <- app_assoc.
      repeat split; assumption.
Qed.

Lemma collectElements_alerts (elements : list FamilyRow) :
  forall (s : State) (level : Z) (tagType : TagType) (acc : list addr),
    alerts (fst (collectElements s elements level tagType acc)) = alerts s.
Proof.
  induction elements as [|e es IH]; intros s level tagType acc; cbn [collectElements].
  - reflexivity.
  - destruct (resolve s tagType (id e)) as [a|]; [|apply IH].
    destruct (visited (deref s a)); [apply IH|].
    rewrite IH. reflexivity.
Qed.

Lemma addElementsToQueue_alerts (elements : option (Slot FamilyRow)) (level : Z)
  (tagType : TagType) (s : State) :
  alerts (addElementsToQueue elements level tagType s) = alerts s.
Proof.
  unfold addElementsToQueue. destruct elements as [sl|]; [|reflexivity].
  pose proof (collectElements_alerts (slotList sl) s level tagType []) as H.
  destruct (collectElements s (slotList sl) level tagType []) as [s1 els].
  exact H.
Qed.

Lemma addNextElements_alerts (element : addr) (s : State) :
  alerts (addNextElements element s) = alerts s.
Proof.
  unfold addNextElements.
  destruct (tagIs (deref s element) "FAM");
    [|destruct (tagIs (deref s element) "INDI")];
    rewrite ?addElementsToQueue_alerts; reflexivity.
Qed.

Lemma tagIs_INDI_not_FAM (r : FamilyRow) :
  tagIs r "INDI" = true -> tagIs r "FAM" = false.
Proof.
  unfold tagIs. destruct (tag r) as [t|]; [|discriminate].
  intros H. apply String.eqb_eq in H. subst t. reflexivity.
Qed.

(** C7 (amended).  In the turn of the layout loop that places an individual
    whose FAMS is an array: enqueueing its neighbours raises no alert, ids
    that do not resolve being skipped there without a report; placing it
    never raises an exception, and alerts, for every FAMS entry looked at
    whose id is not a key of [families], the message "Error in loaded data:
    No family node found in level 0 with id" followed by the missing id (the
    referring individual is not named), in the order of the entries; the
    scan goes on after an alert, and nothing but the alerts and the row
    table changes. *)
Theorem dangling_FAMS_alerted (s : State) (element : addr) (level : Z)
  (fams : list FamilyRow) :
  tagIs (deref s element) "INDI" = true ->
  getProp "FAMS" (props (deref s element)) = Some (Many fams) ->
  alerts (addNextElements element s) = alerts s
  /\ exists s',
       placeElement element level s = Ok s'
       /\ alerts s' =
            alerts s ++ map (fun e => missingFamilyMsg (id e))
                            (List.filter (danglingFamily s)
                                         (scannedEntries s (id (deref s element)) fams))
       /\ store s' = store s /\ families s' = families s /\ indviduals s' = indviduals s
       /\ queueForNext s' = queueForNext s.
Proof.
  intros Htag Hfams. split; [apply addNextElements_alerts|].
  unfold placeElement. rewrite (tagIs_INDI_not_FAM _ Htag), Htag, Hfams.
  destruct (scanFAMS s (id (deref s element)) fams) as [[s1 p] n] eqn:Hscan.
  destruct (scanFAMS_alerts _ _ _ _ _ _ Hscan) as (Ha & Hs & Hf & Hi & Hq & Ho).
  cbn [bindRes]. eexists. split; [reflexivity|].
  cbn [alerts store families indviduals queueForNext setOrder].
  repeat split; assumption.
Qed.

Lemma dangling_FAMS_alerted_witness :
  alerts (addNextElements 0%nat (stateOf danglingSpouseFamily))
  = alerts (stateOf danglingSpouseFamily)
  /\ exists s',
       placeElement 0%nat INIT_LEVEL (stateOf danglingSpouseFamily) = Ok s'
       /\ alerts s' =
            alerts (stateOf danglingSpouseFamily)
            ++ map (fun e => missingFamilyMsg (id e))
                   (List.filter (danglingFamily (stateOf danglingSpouseFamily))
                      (scannedEntries (stateOf danglingSpouseFamily)
                         (id (deref (stateOf danglingSpouseFamily) 0%nat))
                         [newFamilyRow (Some (LStr "1")) (Some "@F1@") (Some "FAMS") None;
                          newFamilyRow (Some (LStr "1")) (Some "@F7@") (Some "FAMS") None]))
       /\ store s' = store (stateOf danglingSpouseFamily)
       /\ families s' = families (stateOf danglingSpouseFamily)
       /\ indviduals s' = indviduals (stateOf danglingSpouseFamily)
       /\ queueForNext s' = queueForNext (stateOf danglingSpouseFamily).
Proof.
  apply (dangling_FAMS_alerted (stateOf danglingSpouseFamily) 0%nat INIT_LEVEL).
  - vm_compute. reflexivity.
  - vm_compute. reflexivity.
Defined.

(** ** Rows of parents and children *)


Lemma sameGraph_refl (s : State) : sameGraph s s.
Proof. repeat split; reflexivity. Qed.

Lemma sameGraph_trans (s1 s2 s3 : State) :
  sameGraph s1 s2 -> sameGraph s2 s3 -> sameGraph s1 s3.
Proof.
  intros (Hi & Hf & Hl & Hr) (Hi' & Hf' & Hl' & Hr').
  split; [congruence|]. split; [congruence|]. split; [congruence|].
  intros a. destruct (Hr a) as (H1 & H2 & H3), (Hr' a) as (H1' & H2' & H3').
  repeat split; congruence.
Qed.

Lemma deref_update (s : State) (a b : addr) (f : FamilyRow -> FamilyRow) :
  (a < length (store s))%nat ->
  deref (update s a f) b = if Nat.eqb a b then f (deref s a) else deref s b.
Proof.
  intros Hlt. destruct (Nat.eqb a b) eqn:E.
  - apply Nat.eqb_eq in E. subst b. apply deref_update_same. exact Hlt.
  - apply Nat.eqb_neq in E. apply deref_update_other. exact E.
Qed.

Lemma sameGraph_update (s : State) (a : addr) (f : FamilyRow -> FamilyRow) :
  (forall r, tag (f r) = tag r /\ id (f r) = id r /\ props (f r) = props r) ->
  sameGraph s (update s a f).
Proof.
  intros Hf. split; [reflexivity|]. split; [reflexivity|].
  split; [apply length_store_update|].
  intros b. destruct (Nat.eq_dec a b) as [->|Hne].
  - destruct (Nat.lt_ge_cases b (length (store s))) as [Hlt|Hge].
    + rewrite deref_update_same by exact Hlt. apply Hf.
    + unfold deref, update. cbn [store setStore].
      rewrite list_insert_ge by exact Hge. repeat split; reflexivity.
  - rewrite deref_update_other by exact Hne. repeat split; reflexivity.
Qed.

Lemma resolve_sameGraph (s s' : State) (tagType : TagType) (k : option string) :
  sameGraph s s' -> resolve s' tagType k = resolve s tagType k.
Proof.
  intros (Hi & Hf & _). unfold resolve. rewrite Hi, Hf. reflexivity.
Qed.

(** What [collectElements] does: every target gets the level as its row,
    every other record keeps its row, no visited flag changes, and the
    targets are appended to [elementsToAdd]. *)
Lemma collectElements_spec (elements : list FamilyRow) :
  forall (s : State) (level : Z) (tagType : TagType) (acc : list addr),
    mapsInStore s ->
    sameGraph s (fst (collectElements s elements level tagType acc))
    /\ snd (collectElements s elements level tagType acc)
       = acc ++ targets s tagType elements
    /\ queueForNext (fst (collectElements s elements level tagType acc)) = queueForNext s
    /\ orderInLevel (fst (collectElements s elements level tagType acc)) = orderInLevel s
    /\ forall a,
         visited (deref (fst (collectElements s elements level tagType acc)) a)
         = visited (deref s a)
         /\ (In a (targets s tagType elements) ->
             rowLevel (deref (fst (collectElements s elements level tagType acc)) a) = level)
         /\ (~ In a (targets s tagType elements) ->
             rowLevel (deref (fst (collectElements s elements level tagType acc)) a)
             = rowLevel (deref s a)).
Proof.
  induction elements as [|e es IH]; intros s level tagType acc Hwf;
    cbn [collectElements targets].
  - rewrite app_nil_r. split; [apply sameGraph_refl|]. repeat split; try reflexivity.
    intros [].
  - destruct (resolve s tagType (id e)) as [b|] eqn:Hres; [|apply IH; exact Hwf].
    destruct (visited (deref s b)) eqn:Hvis; [apply IH; exact Hwf|].
    pose proof (Hwf _ _ _ Hres) as Hb.
    set (s1 := update s b (setRowLevel level)).
    assert (Hg1 : sameGraph s s1).
    { apply sameGraph_update. intros r. repeat split; reflexivity. }
    assert (Hwf1 : mapsInStore s1).
    { intros tt k a Hr. rewrite (resolve_sameGraph _ _ _ _ Hg1) in Hr.
      unfold s1. rewrite length_store_update. exact (Hwf _ _ _ Hr). }
    assert (Hvis1 : forall a, visited (deref s1 a) = visited (deref s a)).
    { intros a. unfold s1. rewrite deref_update by exact Hb.
      destruct (Nat.eqb b a) eqn:E; [|reflexivity].
      apply Nat.eqb_eq in E. subst a. reflexivity. }
    assert (Ht : targets s1 tagType es = targets s tagType es).
    { clear IH. induction es as [|x xs IHx]; cbn [targets]; [reflexivity|].
      rewrite (resolve_sameGraph _ _ _ _ Hg1).
      destruct (resolve s tagType (id x)) as [c|]; [|exact IHx].
      rewrite Hvis1, IHx. reflexivity. }
    destruct (IH s1 level tagType (acc ++ [b]) Hwf1) as (Hg & Hacc & Hq & Ho & Hrec).
    rewrite Ht in Hacc, Hrec.
    split; [exact (sameGraph_trans _ _ _ Hg1 Hg)|].
    split; [rewrite Hacc, <- app_assoc; reflexivity|].
    split; [exact Hq|]. split; [exact Ho|].
    intros a. destruct (Hrec a) as (Hv & Hin & Hout).
    split; [rewrite Hv; apply Hvis1|]. split.
    + intros [<-|Ha]; [|exact (Hin Ha)].
      destruct (in_dec Nat.eq_dec b (targets s tagType es)) as [Hi|Hn]; [exact (Hin Hi)|].
      rewrite (Hout Hn). unfold s1. rewrite deref_update_same by exact Hb. reflexivity.
    + intros Hn. rewrite Hout by (intros Hi; apply Hn; right; exact Hi).
      unfold s1. rewrite deref_update_other; [reflexivity|].
      intros ->. apply Hn. left. reflexivity.
Qed.

Lemma insertSorted_In (cmp : addr -> addr -> Z) (x y : addr) (l : list addr) :
  In y (insertSorted cmp x l) <-> y = x \/ In y l.
Proof.
  induction l as [|z l IH]; cbn [insertSorted].
  - cbn. intuition.
  - destruct (cmp x z <? 0); cbn [In]; [intuition|]. rewrite IH. intuition.
Qed.

Lemma sortBy_In (cmp : addr -> addr -> Z) (y : addr) (l : list addr) :
  In y (sortBy cmp l) <-> In y l.
Proof.
  unfold sortBy.
  assert (H : forall acc, In y (fold_left (fun acc x => insertSorted cmp x acc) l acc)
                          <-> In y acc \/ In y l).
  { induction l as [|x l IH]; intros acc; cbn [fold_left].
    - cbn. intuition.
    - rewrite IH, insertSorted_In. cbn [In]. intuition. }
  rewrite H. cbn. intuition.
Qed.

Lemma targets_In (s : State) (tagType : TagType) (elements : list FamilyRow) (a : addr) :
  In a (targets s tagType elements) ->
  visited (deref s a) = false
  /\ exists x, In x elements /\ resolve s tagType (id x) = Some a.
Proof.
  induction elements as [|e es IH]; cbn [targets]; [intros []|].
  destruct (resolve s tagType (id e)) as [b|] eqn:Hres.
  - destruct (visited (deref s b)) eqn:Hvis.
    + intros H. destruct (IH H) as (Hv & x & Hx & Hr).
      split; [exact Hv|]. exists x. split; [right; exact Hx|exact Hr].
    + intros [<-|H].
      * split; [exact Hvis|]. exists e. split; [left; reflexivity|exact Hres].
      * destruct (IH H) as (Hv & x & Hx & Hr).
        split; [exact Hv|]. exists x. split; [right; exact Hx|exact Hr].
  - intros H. destruct (IH H) as (Hv & x & Hx & Hr).
    split; [exact Hv|]. exists x. split; [right; exact Hx|exact Hr].
Qed.

(** What [addElementsToQueue] does. *)
Lemma addElementsToQueue_spec (elements : option (Slot FamilyRow)) (level : Z)
  (tagType : TagType) (s : State) :
  mapsInStore s ->
  sameGraph s (addElementsToQueue elements level tagType s)
  /\ orderInLevel (addElementsToQueue elements level tagType s) = orderInLevel s
  /\ (forall a, In a (queueForNext (addElementsToQueue elements level tagType s))
                <-> In a (queueForNext s) \/ In a (targetsOf s tagType elements))
  /\ forall a,
       visited (deref (addElementsToQueue elements level tagType s) a) = visited (deref s a)
       /\ (In a (targetsOf s tagType elements) ->
           rowLevel (deref (addElementsToQueue elements level tagType s) a) = level)
       /\ (~ In a (targetsOf s tagType elements) ->
           rowLevel (deref (addElementsToQueue elements level tagType s) a)
           = rowLevel (deref s a)).
Proof.
  intros Hwf. unfold addElementsToQueue, targetsOf.
  destruct elements as [sl|].
  - pose proof (collectElements_spec (slotList sl) s level tagType [] Hwf) as H.
    destruct (collectElements s (slotList sl) level tagType []) as [s1 els].
    cbn [fst snd] in H. destruct H as (Hg & Hels & Hq & Ho & Hrec).
    split; [exact Hg|]. split; [exact Ho|]. split.
    + intros a. cbn [queueForNext setQueue]. rewrite in_app_iff, sortBy_In, Hq, Hels.
      cbn [app]. reflexivity.
    + exact Hrec.
  - split; [apply sameGraph_refl|]. split; [reflexivity|]. split.
    + intros a. cbn [In]. intuition.
    + intros a. split; [reflexivity|]. split; [intros []|reflexivity].
Qed.

(** [addNextElements] follows the links of the record one after the other. *)
Lemma addNextElements_links (element : addr) (s : State) :
  addNextElements element s
  = fold_left (fun st l =>
                 addElementsToQueue (getProp (fst (fst l)) (props (deref s element)))
                                    (rowLevel (deref s element) + snd l) (snd (fst l)) st)
              (links (deref s element)) s.
Proof.
  unfold addNextElements, links.
  destruct (tagIs (deref s element) "FAM"); [|destruct (tagIs (deref s element) "INDI")];
    cbn [fold_left fst snd]; rewrite ?Z.add_0_r; reflexivity.
Qed.

Lemma refersTo_sameGraph (s s' : State) (e a : addr) (d : Z) :
  sameGraph s s' -> refersTo s e a d -> refersTo s' e a d.
Proof.
  intros Hg (k & tt & x & Hl & Hx & Hr).
  pose proof Hg as (_ & _ & _ & Hrec). destruct (Hrec e) as (Ht & _ & Hp).
  exists k, tt, x. unfold links, entries, tagIs in *. rewrite Ht, Hp.
  split; [exact Hl|]. split; [exact Hx|].
  rewrite (resolve_sameGraph _ _ _ _ Hg). exact Hr.
Qed.

Lemma spliceIn_perm (i : nat) (x : addr) (l : list addr) :
  Permutation (spliceIn i x l) (x :: l).
Proof.
  unfold spliceIn. rewrite <- (take_drop i l) at 3.
  symmetry. apply Permutation_middle.
Qed.

Lemma addAfter_perm (x : addr) (e : option addr) (l : list addr) :
  Permutation (addAfter x e l) (x :: l).
Proof.
  unfold addAfter. destruct e as [e|]; [destruct (indexOf e l)|];
    [apply spliceIn_perm| |]; symmetry; apply Permutation_cons_append.
Qed.

Lemma addBefore_perm (x : addr) (e : option addr) (l : list addr) :
  Permutation (addBefore x e l) (x :: l).
Proof.
  unfold addBefore. destruct e as [e|]; [destruct (indexOf e l)|];
    [apply spliceIn_perm| |]; symmetry; apply Permutation_cons_append.
Qed.

Lemma rowSet_placed (x : addr) (k : Z) (row' : list addr) (o : list (Z * list addr)) :
  Permutation row' (x :: default [] (rowGet k o)) ->
  Permutation (flat_map snd (rowSet k row' o)) (x :: flat_map snd o).
Proof.
  induction o as [|[k0 r] o IH]; cbn [rowSet rowGet flat_map snd]; intros H.
  - rewrite app_nil_r. exact H.
  - destruct (k0 =? k).
    + cbn [flat_map snd default from_option] in *. rewrite H. reflexivity.
    + cbn [flat_map snd]. rewrite (IH H). symmetry. apply Permutation_middle.
Qed.

Lemma rowSet_keys (k : Z) (row' : list addr) (o : list (Z * list addr)) :
  List.NoDup (map fst o) -> List.NoDup (map fst (rowSet k row' o))
  /\ forall j, In j (map fst (rowSet k row' o)) <-> j = k \/ In j (map fst o).
Proof.
  induction o as [|[k0 r] o IH]; cbn [rowSet map fst]; intros Hnd.
  - split; [repeat constructor; intros []|]. intros j. cbn. intuition.
  - inversion Hnd as [|? ? Hnin Hnd']; subst.
    destruct (k0 =? k) eqn:E.
    + apply Z.eqb_eq in E. subst k0. cbn [map fst]. split; [exact Hnd|].
      intros j. cbn [In]. intuition.
    + apply Z.eqb_neq in E. destruct (IH Hnd') as (IHnd & IHin).
      cbn [map fst]. split.
      * constructor; [|exact IHnd]. rewrite IHin. intros [->|Hin]; contradiction.
      * intros j. cbn [In]. rewrite IHin. intuition.
Qed.

(** What [placeElement] changes: the alerts, and the row table, where the
    element joins the row of its level. *)
Lemma placeElement_spec (element : addr) (level : Z) (s s' : State) :
  placeElement element level s = Ok s' ->
  store s' = store s /\ indviduals s' = indviduals s /\ families s' = families s
  /\ queueForNext s' = queueForNext s
  /\ exists row',
       orderInLevel s' = rowSet level row' (orderInLevel s)
       /\ Permutation row' (element :: default [] (rowGet level (orderInLevel s))).
Proof.
  unfold placeElement.
  set (anchors := if tagIs (deref s element) "FAM" then _ else _).
  assert (Hanchors : forall s1 p n, anchors = Ok (s1, p, n) ->
            store s1 = store s /\ indviduals s1 = indviduals s /\ families s1 = families s
            /\ queueForNext s1 = queueForNext s /\ orderInLevel s1 = orderInLevel s).
  { unfold anchors. intros s1 p n H.
    destruct (tagIs (deref s element) "FAM").
    - destruct (getVisitedElement _ s) as [p0| | |]; cbn [bindRes] in H; try discriminate.
      destruct (getVisitedElement _ s) as [n0| | |]; cbn [bindRes] in H; try discriminate.
      injection H as <- _ _. repeat split; reflexivity.
    - destruct (tagIs (deref s element) "INDI").
      + destruct (getProp "FAMS" (props (deref s element))) as [[c|l]|].
        * discriminate.
        * injection H as H.
          destruct (scanFAMS_alerts _ _ _ _ _ _ H) as (_ & Hs & Hf & Hi & Hq & Ho).
          repeat split; assumption.
        * injection H as <- _ _. repeat split; reflexivity.
      + injection H as <- _ _. repeat split; reflexivity. }
  destruct anchors as [[[s1 p] n]| | |]; cbn [bindRes]; try discriminate.
  intros H. injection H as <-.
  destruct (Hanchors s1 p n eq_refl) as (Hs & Hi & Hf & Hq & Ho).
  cbn [store indviduals families queueForNext orderInLevel setOrder].
  split; [exact Hs|]. split; [exact Hi|]. split; [exact Hf|]. split; [exact Hq|].
  rewrite Ho. eexists. split; [reflexivity|].
  destruct p; [apply addAfter_perm|apply addBefore_perm].
Qed.

Lemma mapsInStore_sameGraph (s s' : State) :
  sameGraph s s' -> mapsInStore s -> mapsInStore s'.
Proof.
  intros Hg Hwf tt k a Hr. rewrite (resolve_sameGraph _ _ _ _ Hg) in Hr.
  destruct Hg as (_ & _ & Hl & _). rewrite Hl. exact (Hwf _ _ _ Hr).
Qed.

Lemma held_sameGraph (s s' : State) (a : addr) :
  sameGraph s s' -> held s a <-> held s' a.
Proof.
  intros Hg. unfold held. split; intros (tt & k & H); exists tt, k.
  - rewrite (resolve_sameGraph _ _ _ _ Hg). exact H.
  - rewrite (resolve_sameGraph _ _ _ _ Hg) in H. exact H.
Qed.

Lemma seen_sameGraph (root : addr) (s s' : State) (a : addr) :
  sameGraph s s' -> visited (deref s' a) = visited (deref s a) ->
  seen root s a <-> seen root s' a.
Proof.
  intros Hg Hv. unfold seen. rewrite Hv.
  pose proof (held_sameGraph s s' a Hg). tauto.
Qed.

Lemma refersTo_held (s : State) (e a : addr) (d : Z) :
  refersTo s e a d -> held s a.
Proof. intros (k & tt & x & _ & _ & Hr). exists tt, (id x). exact Hr. Qed.

(** Enqueueing the targets of one link of a visited record keeps the
    invariant. *)
Lemma enqueue_inv (root element : addr) (pending : list addr)
  (els : option (Slot FamilyRow)) (tagType : TagType) (d : Z) (s : State) :
  layoutInv root pending s ->
  seen root s element ->
  (forall a, In a (targetsOf s tagType els) -> refersTo s element a d) ->
  layoutInv root pending
    (addElementsToQueue els (rowLevel (deref s element) + d) tagType s)
  /\ sameGraph s (addElementsToQueue els (rowLevel (deref s element) + d) tagType s)
  /\ (forall a, visited (deref (addElementsToQueue els (rowLevel (deref s element) + d)
                                                   tagType s) a)
                = visited (deref s a))
  /\ rowLevel (deref (addElementsToQueue els (rowLevel (deref s element) + d) tagType s)
                     element)
     = rowLevel (deref s element).
Proof.
  intros (Hwf & Hq & Hj & Hnd & Hkeys & Hpl) Hseen Href.
  pose proof Hseen as (Hvis & _).
  destruct (addElementsToQueue_spec els (rowLevel (deref s element) + d) tagType s Hwf)
    as (Hg & Ho & Hqueue & Hrec).
  set (s' := addElementsToQueue els (rowLevel (deref s element) + d) tagType s) in *.
  assert (Hunv : forall a, In a (targetsOf s tagType els) -> visited (deref s a) = false).
  { intros a Ha. unfold targetsOf in Ha. destruct els as [sl|]; [|destruct Ha].
    exact (proj1 (targets_In _ _ _ _ Ha)). }
  assert (Hkeep : forall a, visited (deref s a) = true ->
            rowLevel (deref s' a) = rowLevel (deref s a)).
  { intros a Ha. apply (Hrec a). intros Hin. rewrite (Hunv _ Hin) in Ha. discriminate. }
  assert (Hvs : forall a, visited (deref s' a) = visited (deref s a))
    by (intros a; apply (Hrec a)).
  assert (Hsn : forall a, seen root s a <-> seen root s' a)
    by (intros a; apply (seen_sameGraph root s s' a Hg), Hvs).
  split; [|split; [exact Hg|split; [exact Hvs|exact (Hkeep _ Hvis)]]].
  unfold layoutInv, placed. rewrite Ho.
  split; [exact (mapsInStore_sameGraph _ _ Hg Hwf)|].
  pose proof Hg as (_ & _ & Hlen & _).
  split.
  { intros a Ha. rewrite Hlen. apply Hqueue in Ha as [Ha|Ha]; [exact (Hq _ Ha)|].
    unfold targetsOf in Ha. destruct els as [sl|]; [|destruct Ha].
    destruct (targets_In _ _ _ _ Ha) as (_ & x & _ & Hr). exact (Hwf _ _ _ Hr). }
  split.
  { intros a Ha.
    destruct (in_dec Nat.eq_dec a (targetsOf s tagType els)) as [Hin|Hnin].
    - right. exists element, d. split; [apply Hsn; exact Hseen|].
      split; [exact (refersTo_sameGraph _ _ _ _ _ Hg (Href _ Hin))|].
      rewrite (Hkeep _ Hvis). apply (Hrec a). exact Hin.
    - assert (Ha' : In a (queueForNext s) \/ seen root s a).
      { destruct Ha as [Ha|Ha]; [|right; apply Hsn; exact Ha].
        apply Hqueue in Ha as [Ha|Ha]; [left; exact Ha|contradiction]. }
      destruct (Hj _ Ha') as [->|(e & d0 & He & Hre & Hrow)]; [left; reflexivity|].
      right. exists e, d0. split; [apply Hsn; exact He|].
      split; [exact (refersTo_sameGraph _ _ _ _ _ Hg Hre)|].
      rewrite (Hkeep _ (proj1 He)). rewrite (proj2 (proj2 (Hrec a)) Hnin). exact Hrow. }
  split; [exact Hnd|]. split; [exact Hkeys|].
  intros a. rewrite <- (Hsn a). apply Hpl.
Qed.

Lemma links_sameGraph (s s' : State) (e : addr) :
  sameGraph s s' -> links (deref s' e) = links (deref s e).
Proof.
  intros (_ & _ & _ & Hrec). destruct (Hrec e) as (Ht & _ & _).
  unfold links, tagIs. rewrite Ht. reflexivity.
Qed.

Lemma addNextElements_inv (root element : addr) (pending : list addr) (s : State) :
  layoutInv root pending s ->
  seen root s element ->
  layoutInv root pending (addNextElements element s)
  /\ sameGraph s (addNextElements element s)
  /\ (forall a, visited (deref (addNextElements element s) a) = visited (deref s a))
  /\ rowLevel (deref (addNextElements element s) element) = rowLevel (deref s element).
Proof.
  intros Hinv Hvis. rewrite addNextElements_links.
  assert (H : forall ls st,
             (forall l, In l ls -> In l (links (deref s element))) ->
             layoutInv root pending st -> sameGraph s st ->
             (forall a, visited (deref st a) = visited (deref s a)) ->
             rowLevel (deref st element) = rowLevel (deref s element) ->
             let st' :=
               fold_left (fun st l =>
                   addElementsToQueue (getProp (fst (fst l)) (props (deref s element)))
                                      (rowLevel (deref s element) + snd l) (snd (fst l)) st)
                 ls st in
             layoutInv root pending st' /\ sameGraph s st'
             /\ (forall a, visited (deref st' a) = visited (deref s a))
             /\ rowLevel (deref st' element) = rowLevel (deref s element)).
  { induction ls as [|[[k tt] d] ls IH]; intros st Hls Hst Hg Hv Hr; cbn [fold_left].
    - split; [exact Hst|split; [exact Hg|split; [exact Hv|exact Hr]]].
    - cbn [fst snd].
      assert (Href : forall a,
                In a (targetsOf st tt (getProp k (props (deref s element)))) ->
                refersTo st element a d).
      { intros a Ha. unfold targetsOf in Ha.
        destruct (getProp k (props (deref s element))) as [sl|] eqn:Hsl; [|destruct Ha].
        destruct (targets_In _ _ _ _ Ha) as (_ & x & Hx & Hres).
        exists k, tt, x. rewrite (links_sameGraph _ _ _ Hg).
        split; [apply Hls; left; reflexivity|]. split; [|exact Hres].
        unfold entries. destruct Hg as (_ & _ & _ & Hrec).
        destruct (Hrec element) as (_ & _ & Hp). rewrite Hp, Hsl. exact Hx. }
      assert (Hvst : seen root st element)
        by (apply (seen_sameGraph root s st element Hg (Hv element)); exact Hvis).
      destruct (enqueue_inv root element pending
                  (getProp k (props (deref s element))) tt d st Hst Hvst Href)
        as (Hinv' & Hg' & Hv' & Hr').
      rewrite Hr in Hinv', Hg', Hv', Hr'.
      apply IH.
      + intros l Hl. apply Hls. right. exact Hl.
      + exact Hinv'.
      + exact (sameGraph_trans _ _ _ Hg Hg').
      + intros a. rewrite Hv'. apply Hv.
      + exact Hr'. }
  apply (H (links (deref s element)) s); try reflexivity; try assumption.
  - intros l Hl. exact Hl.
  - apply sameGraph_refl.
Qed.

(** One turn of the queue loop on a record not yet visited keeps the
    invariant. *)
Lemma turn_inv (root element : addr) (rest : list addr) (s s3 : State) :
  layoutInv root [] s ->
  queueForNext s = element :: rest ->
  visited (deref s element) = false ->
  placeElement element
    (rowLevel (deref (update (setQueue s rest) element (setVisited true)) element))
    (addNextElements element (update (setQueue s rest) element (setVisited true))) = Ok s3 ->
  layoutInv root [] s3 /\ sameGraph s s3.
Proof.
  intros (Hwf & Hq & Hj & Hnd & Hkeys & Hpl) Hqueue Hunv Hplace.
  set (s1 := update (setQueue s rest) element (setVisited true)) in *.
  assert (Hel : (element < length (store s))%nat).
  { apply Hq. rewrite Hqueue. left. reflexivity. }
  assert (Hg1 : sameGraph s s1).
  { apply (sameGraph_update (setQueue s rest)). intros r. repeat split; reflexivity. }
  assert (Hd1 : forall a, deref s1 a
                          = if Nat.eqb element a then setVisited true (deref s element)
                            else deref s a).
  { intros a. unfold s1. rewrite deref_update by exact Hel. reflexivity. }
  assert (Hv1 : forall a, visited (deref s1 a) = true
                          <-> a = element \/ visited (deref s a) = true).
  { intros a. rewrite Hd1. destruct (Nat.eqb element a) eqn:E.
    - apply Nat.eqb_eq in E. subst a. cbn. intuition.
    - apply Nat.eqb_neq in E. intuition. }
  assert (Hr1 : forall a, rowLevel (deref s1 a) = rowLevel (deref s a)).
  { intros a. rewrite Hd1. destruct (Nat.eqb element a) eqn:E; [|reflexivity].
    apply Nat.eqb_eq in E. subst a. reflexivity. }
  assert (Hanchored : element = root \/ held s element).
  { destruct (Hj element) as [->|(e & d & _ & Hre & _)].
    - left. rewrite Hqueue. left. reflexivity.
    - left. reflexivity.
    - right. exact (refersTo_held _ _ _ _ Hre). }
  assert (Hs1 : forall a, seen root s1 a <-> a = element \/ seen root s a).
  { intros a. unfold seen. rewrite Hv1.
    pose proof (held_sameGraph s s1 a Hg1) as Hh. split.
    - intros ([->|Hv] & Hr); [left; reflexivity|right]. split; [exact Hv|tauto].
    - intros [->|(Hv & Hr)].
      + split; [left; reflexivity|].
        destruct Hanchored as [->|Hh']; [left; reflexivity|right]. apply Hh. exact Hh'.
      + split; [right; exact Hv|tauto]. }
  assert (Hinv1 : layoutInv root [element] s1).
  { unfold layoutInv.
    split; [exact (mapsInStore_sameGraph _ _ Hg1 Hwf)|].
    split.
    { intros a Ha. unfold s1. rewrite length_store_update. apply Hq.
      rewrite Hqueue. right. exact Ha. }
    split.
    { intros a Ha.
      assert (Ha' : In a (queueForNext s) \/ seen root s a).
      { destruct Ha as [Ha|Ha].
        - left. rewrite Hqueue. right. exact Ha.
        - apply Hs1 in Ha as [->|Ha]; [left; rewrite Hqueue; left; reflexivity|right; exact Ha]. }
      destruct (Hj _ Ha') as [->|(e & d & He & Hre & Hrow)]; [left; reflexivity|].
      right. exists e, d. split; [apply Hs1; right; exact He|].
      split; [exact (refersTo_sameGraph _ _ _ _ _ Hg1 Hre)|].
      rewrite !Hr1. exact Hrow. }
    split.
    { cbn [app]. constructor; [|exact Hnd].
      intros Hin. apply Hpl in Hin. destruct Hin as (Hin & _). congruence. }
    split; [exact Hkeys|].
    intros a. rewrite Hs1. cbn [app In]. rewrite <- (Hpl a). cbn [app].
    intuition. }
  assert (Hvis1 : seen root s1 element) by (apply Hs1; left; reflexivity).
  destruct (addNextElements_inv root element [element] s1 Hinv1 Hvis1)
    as (Hinv2 & Hg2 & Hv2 & Hr2).
  set (s2 := addNextElements element s1) in *.
  destruct (placeElement_spec _ _ _ _ Hplace)
    as (Hst & Hi & Hf & Hq3 & row' & Ho & Hperm).
  assert (Hd3 : forall a, deref s3 a = deref s2 a).
  { intros a. unfold deref. rewrite Hst. reflexivity. }
  assert (Hg3 : sameGraph s2 s3).
  { split; [exact Hi|]. split; [exact Hf|]. split; [rewrite Hst; reflexivity|].
    intros a. rewrite Hd3. repeat split; reflexivity. }
  destruct Hinv2 as (Hwf2 & Hq2 & Hj2 & Hnd2 & Hkeys2 & Hpl2).
  assert (Hs3 : forall a, seen root s2 a <-> seen root s3 a).
  { intros a. apply (seen_sameGraph root s2 s3 a Hg3). rewrite Hd3. reflexivity. }
  assert (Hplaced : Permutation (placed s3) (element :: placed s2)).
  { unfold placed. rewrite Ho. apply rowSet_placed. exact Hperm. }
  split.
  - unfold layoutInv.
    split; [exact (mapsInStore_sameGraph _ _ Hg3 Hwf2)|].
    split; [intros a Ha; rewrite Hst; apply Hq2; rewrite <- Hq3; exact Ha|].
    split.
    { intros a Ha.
      assert (Ha2 : In a (queueForNext s2) \/ seen root s2 a).
      { destruct Ha as [Ha|Ha]; [left; rewrite <- Hq3; exact Ha|right; apply Hs3; exact Ha]. }
      destruct (Hj2 _ Ha2) as [->|(e & d & He & Hre & Hrow)]; [left; reflexivity|].
      right. exists e, d. rewrite !Hd3. split; [apply Hs3; exact He|].
      split; [exact (refersTo_sameGraph _ _ _ _ _ Hg3 Hre)|exact Hrow]. }
    split.
    { cbn [app]. apply (Permutation_NoDup (l := element :: placed s2));
        [symmetry; exact Hplaced|exact Hnd2]. }
    split; [rewrite Ho; apply rowSet_keys; exact Hkeys2|].
    intros a. cbn [app]. rewrite <- (Hs3 a), <- (Hpl2 a). cbn [app].
    split; intros H.
    + exact (Permutation_in _ Hplaced H).
    + exact (Permutation_in _ (Permutation_sym Hplaced) H).
  - exact (sameGraph_trans _ _ _ Hg1 (sameGraph_trans _ _ _ Hg2 Hg3)).
Qed.

(** The queue loop keeps the invariant, and ends with an empty queue. *)
Lemma drainQueue_inv (root : addr) (fuel : nat) :
  forall (s s' : State),
    layoutInv root [] s ->
    drainQueue fuel s = Ok s' ->
    layoutInv root [] s' /\ queueForNext s' = [] /\ sameGraph s s'.
Proof.
  induction fuel as [|fuel IH]; intros s s' Hinv Hrun.
  - cbn [drainQueue] in Hrun. destruct (queueForNext s) eqn:Hq; [|discriminate].
    injection Hrun as <-. split; [exact Hinv|]. split; [exact Hq|apply sameGraph_refl].
  - cbn [drainQueue] in Hrun. destruct (queueForNext s) as [|element rest] eqn:Hq.
    { injection Hrun as <-. split; [exact Hinv|]. split; [exact Hq|apply sameGraph_refl]. }
    change (deref (setQueue s rest) element) with (deref s element) in Hrun.
    destruct (visited (deref s element)) eqn:Hvis.
    + assert (Hinv0 : layoutInv root [] (setQueue s rest)).
      { destruct Hinv as (Hwf & Hqr & Hj & Hnd & Hkeys & Hpl).
        split; [exact Hwf|]. split.
        { intros a Ha. apply Hqr. rewrite Hq. right. exact Ha. }
        split; [|split; [exact Hnd|split; [exact Hkeys|exact Hpl]]].
        intros a [Ha|Ha]; apply Hj; [left; rewrite Hq; right; exact Ha|right; exact Ha]. }
      destruct (IH _ _ Hinv0 Hrun) as (Hinv' & Hq' & Hg').
      split; [exact Hinv'|]. split; [exact Hq'|exact Hg'].
    + destruct (placeElement element _ _) as [s3| | |] eqn:Hplace;
        cbn [bindRes] in Hrun; try discriminate.
      destruct (turn_inv root element rest s s3 Hinv Hq Hvis Hplace) as (Hinv3 & Hg3).
      destruct (IH _ _ Hinv3 Hrun) as (Hinv' & Hq' & Hg').
      split; [exact Hinv'|]. split; [exact Hq'|exact (sameGraph_trans _ _ _ Hg3 Hg')].
Qed.

Lemma visited_in_store (s : State) (a : addr) :
  visited (deref s a) = true -> (a < length (store s))%nat.
Proof.
  intros H. destruct (Nat.lt_ge_cases a (length (store s))) as [Hlt|Hge]; [exact Hlt|].
  unfold deref in H. rewrite lookup_ge_None_2 in H by exact Hge. discriminate.
Qed.

Lemma resetAndInitAll_sameGraph (s : State) :
  sameGraph s (resetAndInitAll s)
  /\ queueForNext (resetAndInitAll s) = queueForNext s.
Proof.
  unfold resetAndInitAll.
  assert (H : forall (m : JSMap) (st : State),
             sameGraph st (fold_left (fun s ka => update s (snd ka) (setVisited false)) m st)
             /\ queueForNext (fold_left (fun s ka => update s (snd ka) (setVisited false)) m st)
                = queueForNext st).
  { induction m as [|[k b] m IH]; intros st; cbn [fold_left snd].
    - split; [apply sameGraph_refl|reflexivity].
    - destruct (IH (update st b (setVisited false))) as [Hg Hq].
      split; [|rewrite Hq; reflexivity].
      apply (sameGraph_trans _ (update st b (setVisited false))); [|exact Hg].
      apply sameGraph_update. intros r. repeat split; reflexivity. }
  set (s1 := setOrder s []).
  destruct (H (indviduals s1) s1) as [Hg2 Hq2].
  set (s2 := fold_left _ (indviduals s1) s1) in *.
  destruct (H (families s2) s2) as [Hg3 Hq3].
  split; [|rewrite Hq3, Hq2; reflexivity].
  apply (sameGraph_trans _ s1); [repeat split; reflexivity|].
  exact (sameGraph_trans _ _ _ Hg2 Hg3).
Qed.

Lemma resetAndInitAll_order (s : State) : orderInLevel (resetAndInitAll s) = [].
Proof.
  unfold resetAndInitAll.
  assert (H : forall (m : JSMap) (st : State),
             orderInLevel (fold_left (fun s ka => update s (snd ka) (setVisited false)) m st)
             = orderInLevel st).
  { induction m as [|[k b] m IH]; intros st; cbn [fold_left snd]; [reflexivity|].
    rewrite IH. reflexivity. }
  rewrite !H. reflexivity.
Qed.

Lemma mapGet_value (k : option string) (a : addr) (m : JSMap) :
  mapGet k m = Some a -> In a (map snd m).
Proof.
  induction m as [|[k0 v0] m IH]; cbn [mapGet map snd]; [discriminate|].
  destruct (optEqb k k0); [intros [= <-]; left; reflexivity|].
  intros H. right. exact (IH H).
Qed.

(** [resetAndInitAll]: a record still marked visited afterwards was marked
    before and is not in the Map that was cleared. *)
Lemma clearVisited_fold (m : JSMap) :
  forall (s : State),
    sameGraph s (fold_left (fun s ka => update s (snd ka) (setVisited false)) m s)
    /\ (forall a, visited (deref (fold_left (fun s ka => update s (snd ka) (setVisited false))
                                            m s) a) = true ->
                  visited (deref s a) = true /\ ~ In a (map snd m))
    /\ queueForNext (fold_left (fun s ka => update s (snd ka) (setVisited false)) m s)
       = queueForNext s
    /\ orderInLevel (fold_left (fun s ka => update s (snd ka) (setVisited false)) m s)
       = orderInLevel s.
Proof.
  induction m as [|[k b] m IH]; intros s; cbn [fold_left snd map].
  - split; [apply sameGraph_refl|]. split; [|split; reflexivity].
    intros a Ha. split; [exact Ha|intros []].
  - set (s1 := update s b (setVisited false)).
    assert (Hg1 : sameGraph s s1).
    { apply sameGraph_update. intros r. repeat split; reflexivity. }
    assert (Hv1 : forall a, visited (deref s1 a) = true ->
                            visited (deref s a) = true /\ b <> a).
    { intros a Ha. destruct (Nat.lt_ge_cases b (length (store s))) as [Hlt|Hge].
      - unfold s1 in Ha. rewrite deref_update in Ha by exact Hlt.
        destruct (Nat.eqb b a) eqn:E; [discriminate Ha|].
        apply Nat.eqb_neq in E. split; [exact Ha|exact E].
      - assert (Hsame : deref s1 a = deref s a).
        { unfold s1, deref, update. cbn [store setStore].
          rewrite list_insert_ge by exact Hge. reflexivity. }
        rewrite Hsame in Ha. split; [exact Ha|]. intros <-.
        apply visited_in_store in Ha. lia. }
    destruct (IH s1) as (Hg & Hv & Hq & Ho).
    split; [exact (sameGraph_trans _ _ _ Hg1 Hg)|]. split.
    + intros a Ha. destruct (Hv a Ha) as (Ha1 & Hnin).
      destruct (Hv1 a Ha1) as (Ha0 & Hne). split; [exact Ha0|].
      cbn [In]. tauto.
    + split; [rewrite Hq; reflexivity|rewrite Ho; reflexivity].
Qed.

Lemma resetAndInitAll_clears (s : State) (a : addr) :
  visited (deref (resetAndInitAll s) a) = true ->
  visited (deref s a) = true /\ ~ held s a.
Proof.
  unfold resetAndInitAll. set (s1 := setOrder s []).
  destruct (clearVisited_fold (indviduals s1) s1) as (Hg2 & Hv2 & _ & _).
  set (s2 := fold_left _ (indviduals s1) s1) in *.
  destruct (clearVisited_fold (families s2) s2) as (_ & Hv3 & _ & _).
  intros Ha. destruct (Hv3 a Ha) as (Ha2 & Hf). destruct (Hv2 a Ha2) as (Ha1 & Hi).
  split; [exact Ha1|]. intros ([|] & k & Hr); cbn [resolve] in Hr.
  - apply Hf. destruct Hg2 as (_ & -> & _). exact (mapGet_value _ _ _ Hr).
  - apply Hi. exact (mapGet_value _ _ _ Hr).
Qed.

(** [resetAndInitAll] sets up the loop: started with the anchor alone in the
    queue, nothing has been seen.  If the anchor carries the mark of an
    earlier run it must be a record of the Maps, so that the mark is
    cleared. *)
Lemma resetAndInitAll_inv (root : addr) (s : State) :
  mapsInStore s ->
  (root < length (store s))%nat ->
  (visited (deref s root) = true -> held s root) ->
  queueForNext s = [root] ->
  layoutInv root [] (resetAndInitAll s) /\ sameGraph s (resetAndInitAll s).
Proof.
  intros Hwf Hroot Hanchor Hq.
  destruct (resetAndInitAll_sameGraph s) as (Hg & Hqueue). rewrite Hq in Hqueue.
  split; [|exact Hg].
  assert (Hnone : forall a, ~ seen root (resetAndInitAll s) a).
  { intros a (Hv & Hr). destruct (resetAndInitAll_clears s a Hv) as (Hv0 & Hnh).
    destruct Hr as [->|Hh]; [exact (Hnh (Hanchor Hv0))|].
    apply Hnh. apply (held_sameGraph s _ a Hg). exact Hh. }
  unfold layoutInv, placed. rewrite Hqueue, resetAndInitAll_order.
  cbn [flat_map app map].
  split; [exact (mapsInStore_sameGraph _ _ Hg Hwf)|].
  split.
  { intros a [<-|[]]. destruct Hg as (_ & _ & Hl & _). rewrite Hl. exact Hroot. }
  split.
  { intros a [[<-|[]]|Ha]; [left; reflexivity|]. destruct (Hnone a Ha). }
  split; [constructor|]. split; [constructor|].
  intros a. cbn [In]. split; [intros []|exact (Hnone a)].
Qed.

(** Subtracting [min] from the row of each record of a duplicate-free list. *)
Lemma shiftRows_fold (min : Z) (l : list addr) :
  forall (s : State),
    List.NoDup l ->
    (forall a, In a l -> (a < length (store s))%nat) ->
    sameGraph s (fold_left (fun s a => update s a (fun r => setRowLevel (rowLevel r - min) r))
                           l s)
    /\ orderInLevel (fold_left (fun s a => update s a (fun r => setRowLevel (rowLevel r - min) r))
                               l s) = orderInLevel s
    /\ forall a,
         (In a l ->
          rowLevel (deref (fold_left (fun s a => update s a
                                        (fun r => setRowLevel (rowLevel r - min) r)) l s) a)
          = rowLevel (deref s a) - min)
         /\ (~ In a l ->
             rowLevel (deref (fold_left (fun s a => update s a
                                           (fun r => setRowLevel (rowLevel r - min) r)) l s) a)
             = rowLevel (deref s a)).
Proof.
  induction l as [|b l IH]; intros s Hnd Hin; cbn [fold_left].
  - split; [apply sameGraph_refl|]. split; [reflexivity|].
    intros a. split; [intros []|reflexivity].
  - inversion Hnd as [|? ? Hb Hnd']; subst.
    set (s1 := update s b (fun r => setRowLevel (rowLevel r - min) r)).
    assert (Hbs : (b < length (store s))%nat) by (apply Hin; left; reflexivity).
    assert (Hg1 : sameGraph s s1).
    { apply sameGraph_update. intros r. repeat split; reflexivity. }
    assert (Hin1 : forall a, In a l -> (a < length (store s1))%nat).
    { intros a Ha. unfold s1. rewrite length_store_update. apply Hin. right. exact Ha. }
    destruct (IH s1 Hnd' Hin1) as (Hg & Ho & Hrec).
    split; [exact (sameGraph_trans _ _ _ Hg1 Hg)|]. split; [rewrite Ho; reflexivity|].
    intros a. destruct (Hrec a) as (Hi & Hn). split.
    + intros [<-|Ha].
      * rewrite (proj2 (Hrec b) Hb). unfold s1.
        rewrite deref_update_same by exact Hbs. reflexivity.
      * rewrite (Hi Ha). unfold s1. rewrite deref_update_other; [reflexivity|].
        intros ->. contradiction.
    + intros Ha. rewrite Hn by (intros H; apply Ha; right; exact H).
      unfold s1. rewrite deref_update_other; [reflexivity|].
      intros ->. apply Ha. left. reflexivity.
Qed.

Lemma fold_rows_flat {S : Type} (f : S -> addr -> S) (o : list (Z * list addr)) :
  forall (s : S),
    fold_left (fun s kr => fold_left f (snd kr) s) o s = fold_left f (flat_map snd o) s.
Proof.
  induction o as [|[k r] o IH]; intros s; cbn [fold_left flat_map snd]; [reflexivity|].
  rewrite fold_left_app. apply IH.
Qed.

Lemma rowSet_absent (k : Z) (row : list addr) (o : list (Z * list addr)) :
  ~ In k (map fst o) -> rowSet k row o = o ++ [(k, row)].
Proof.
  induction o as [|[k0 r] o IH]; cbn [rowSet map fst In app]; intros H; [reflexivity|].
  destruct (k0 =? k) eqn:E.
  - apply Z.eqb_eq in E. exfalso. apply H. left. exact E.
  - rewrite IH by (intros Hin; apply H; right; exact Hin). reflexivity.
Qed.

Lemma rebuild_rows (min : Z) (o : list (Z * list addr)) :
  forall (acc : list (Z * list addr)),
    List.NoDup (map fst acc ++ map (fun kr => fst kr - min) o) ->
    fold_left (fun m kr => rowSet (fst kr - min) (snd kr) m) o acc
    = acc ++ map (fun kr => (fst kr - min, snd kr)) o.
Proof.
  induction o as [|[k r] o IH]; intros acc Hnd; cbn [fold_left map fst snd].
  - rewrite app_nil_r. reflexivity.
  - cbn [map fst] in Hnd.
    rewrite rowSet_absent.
    + rewrite IH.
      * rewrite <- app_assoc. reflexivity.
      * rewrite map_app. cbn [map fst]. rewrite <- app_assoc. exact Hnd.
    + intros Hin. apply NoDup_remove_2 in Hnd. apply Hnd.
      apply in_or_app. left. exact Hin.
Qed.




(** ** Export and re-import *)

(** A well-formed line at a level other than 0 that has both an id and a
    value does not survive the round trip: the export writes the id after
    the tag, and the parser then reads id and value together as the id. *)
Lemma roundtrip_merges_id_and_value :
  wellFormedLines noteWithIdAndValue = true
  /\ exists top top',
       parse (Some noteWithIdAndValue) = Ok top
       /\ createFileContent top = "0 @I1@ INDI" +:+ nl +:+ "1 NOTE @X@ foo" +:+ nl
       /\ parse (Some (importGedComText (createFileContent top))) = Ok top'
       /\ map (fun c => map (fun n => (id n, value n)) (entries "NOTE" c)) (entries "INDI" top)
          = [[(Some "@X@", Some "foo")]]
       /\ map (fun c => map (fun n => (id n, value n)) (entries "NOTE" c)) (entries "INDI" top')
          = [[(Some "@X@ foo", None)]].
Proof.
  split; [vm_compute; reflexivity|].
  do 2 eexists. split; [vm_compute; reflexivity|].
  split; [vm_compute; reflexivity|]. split; [vm_compute; reflexivity|].
  split; vm_compute; reflexivity.
Qed.

(** An id token below level 0 that ends in a no-break space is not well
    formed: the export writes it last on its line, and [trim] strips the
    space when the line is read again. *)
Lemma roundtrip_strips_id_space :
  let nbsp := String (ascii_of_nat 194) (String (ascii_of_nat 160) EmptyString) in
  let lines := ["0 @I1@ INDI"; "1 @X@" +:+ nbsp +:+ " NOTE"] in
  wellFormedLines lines = false
  /\ exportableLines lines = true
  /\ exists top top',
       parse (Some lines) = Ok top
       /\ parse (Some (importGedComText (createFileContent top))) = Ok top'
       /\ map (fun c => map id (entries "NOTE" c)) (entries "INDI" top)
          = [[Some ("@X@" +:+ nbsp)]]
       /\ map (fun c => map id (entries "NOTE" c)) (entries "INDI" top') = [[Some "@X@"]].
Proof.
  cbv zeta. split; [vm_compute; reflexivity|]. split; [vm_compute; reflexivity|].
  do 2 eexists. split; [vm_compute; reflexivity|].
  split; [vm_compute; reflexivity|]. split; vm_compute; reflexivity.
Qed.

(** *** Tokens *)

Lemma append_cons (x : ascii) (a b : string) : String x a +:+ b = String x (a +:+ b).
Proof. reflexivity. Qed.

Lemma append_nil (b : string) : EmptyString +:+ b = b.
Proof. reflexivity. Qed.

Lemma append_assoc (a b c : string) : (a +:+ b) +:+ c = a +:+ (b +:+ c).
Proof.
  induction a as [|x a IH]; [reflexivity|]. rewrite !append_cons, IH. reflexivity.
Qed.

Lemma append_empty_r (a : string) : a +:+ EmptyString = a.
Proof.
  induction a as [|x a IH]; [reflexivity|]. rewrite append_cons, IH. reflexivity.
Qed.

Lemma split_not_nil (s : string) : Str.split s <> [].
Proof.
  destruct s as [|c s]; simpl; [discriminate|].
  destruct (Ascii.eqb c " "); [discriminate|].
  destruct (Str.split s); discriminate.
Qed.

Lemma concat_two (sep x y : string) (l : list string) :
  String.concat sep (x :: y :: l) = x +:+ sep +:+ String.concat sep (y :: l).
Proof. reflexivity. Qed.

Lemma join_split (s : string) : Str.join (Str.split s) = s.
Proof.
  unfold Str.join. induction s as [|c s IH]; [reflexivity|].
  cbn [Str.split]. pose proof (split_not_nil s) as Hn.
  destruct (Str.split s) as [|t ts]; [contradiction|].
  destruct (Ascii.eqb c " ") eqn:E.
  - apply Ascii.eqb_eq in E. subst c.
    rewrite concat_two, IH. reflexivity.
  - destruct ts as [|u us].
    + cbn [String.concat] in *. rewrite IH. reflexivity.
    + rewrite concat_two in *. rewrite append_cons, IH. reflexivity.
Qed.

Lemma split_no_space (a : string) :
  noChar " " a = true -> Str.split a = [a].
Proof.
  induction a as [|c a IH]; [reflexivity|].
  cbn [noChar Str.split]. intros H. apply andb_true_iff in H as [Hc Ha].
  apply negb_true_iff in Hc. rewrite Hc, (IH Ha). reflexivity.
Qed.

Lemma split_token (a b : string) :
  noChar " " a = true -> Str.split (a +:+ " " +:+ b) = a :: Str.split b.
Proof.
  induction a as [|c a IH]; [reflexivity|].
  cbn [noChar]. intros H. apply andb_true_iff in H as [Hc Ha].
  apply negb_true_iff in Hc. rewrite append_cons. cbn [Str.split].
  rewrite Hc, (IH Ha). reflexivity.
Qed.

(** *** White space *)

Lemma whiteChar_space (c : ascii) (s : string) :
  Str.is_space c = true -> Str.whiteChar (String c s) = Some s.
Proof. intros H. unfold Str.whiteChar. rewrite H. reflexivity. Qed.

(** A white-space character is one ASCII byte, or two or three bytes none of
    which is an ASCII byte; what follows it plays no part. *)
Lemma whiteChar_shape (s r : string) :
  Str.whiteChar s = Some r ->
  (exists c, s = String c r /\ Str.is_space c = true)
  \/ (exists c d,
        s = String c (String d r)
        /\ (128 <= nat_of_ascii c)%nat /\ (128 <= nat_of_ascii d)%nat
        /\ forall x, Str.whiteChar (String c (String d x)) = Some x)
  \/ (exists c d e,
        s = String c (String d (String e r))
        /\ (128 <= nat_of_ascii c)%nat /\ (128 <= nat_of_ascii d)%nat
        /\ (128 <= nat_of_ascii e)%nat
        /\ forall x, Str.whiteChar (String c (String d (String e x))) = Some x).
Proof.
  intros H. destruct s as [|c s1]; [discriminate|]. unfold Str.whiteChar in H.
  destruct (Str.is_space c) eqn:Hc.
  { injection H as <-. left. exists c. split; [reflexivity|exact Hc]. }
  destruct s1 as [|d s2]; [discriminate|]. cbv beta iota zeta in H.
  destruct ((nat_of_ascii c =? 194)%nat && (nat_of_ascii d =? 160)%nat) eqn:H2.
  { injection H as <-. right. left. exists c, d. split; [reflexivity|].
    pose proof H2 as H2'. apply andb_true_iff in H2' as [A B].
    apply Nat.eqb_eq in A. apply Nat.eqb_eq in B.
    split; [lia|]. split; [lia|]. intros x. unfold Str.whiteChar.
    rewrite Hc. cbv beta iota zeta. rewrite H2. reflexivity. }
  destruct s2 as [|e s3]; [discriminate|].
  match type of H with (if ?b then _ else _) = _ => destruct b eqn:H3 end;
    [|discriminate].
  injection H as <-. right. right. exists c, d, e. split; [reflexivity|].
  assert (Hhigh : (128 <= nat_of_ascii c)%nat /\ (128 <= nat_of_ascii d)%nat
                  /\ (128 <= nat_of_ascii e)%nat).
  { pose proof H3 as H3'.
    rewrite !orb_true_iff, !andb_true_iff, !orb_true_iff, !andb_true_iff in H3'.
    rewrite !Nat.eqb_eq, !Nat.leb_le in H3'. lia. }
  destruct Hhigh as (A & B & C). split; [exact A|]. split; [exact B|]. split; [exact C|].
  intros x. unfold Str.whiteChar. rewrite Hc. cbv beta iota zeta. rewrite H2, H3.
  reflexivity.
Qed.

Lemma whiteChar_shorter (s r : string) :
  Str.whiteChar s = Some r -> (String.length r < String.length s)%nat.
Proof.
  intros H. destruct (whiteChar_shape s r H)
    as [(c & -> & _)|[(c & d & -> & _)|(c & d & e & -> & _)]]; cbn [String.length]; lia.
Qed.

Lemma whiteChar_app (a r b : string) :
  Str.whiteChar a = Some r -> Str.whiteChar (a +:+ b) = Some (r +:+ b).
Proof.
  intros H. destruct (whiteChar_shape a r H)
    as [(c & -> & Hc)|[(c & d & -> & _ & _ & Hx)|(c & d & e & -> & _ & _ & _ & Hx)]];
    rewrite !append_cons.
  - apply whiteChar_space. exact Hc.
  - apply Hx.
  - apply Hx.
Qed.

(** A byte that is neither ASCII white space nor part of a longer
    character does not start white space. *)
Lemma whiteChar_plain (c : ascii) (s : string) :
  Str.is_space c = false -> (nat_of_ascii c < 128)%nat ->
  Str.whiteChar (String c s) = None.
Proof.
  intros Hc Hlow. destruct (Str.whiteChar (String c s)) as [r|] eqn:E; [|reflexivity].
  destruct (whiteChar_shape _ _ E)
    as [(c' & [= <- _] & Hs)|[(c' & d & [= <- _] & Hh & _)|(c' & d & e & [= <- _] & Hh & _)]].
  - rewrite Hs in Hc. discriminate.
  - lia.
  - lia.
Qed.

Lemma skipWhite_fuel (n : nat) :
  forall (m : nat) (s : string),
    (String.length s <= n)%nat -> (String.length s <= m)%nat ->
    Str.skipWhite n s = Str.skipWhite m s.
Proof.
  induction n as [|n IH]; intros m s Hn Hm.
  - destruct s; [|cbn [String.length] in Hn; lia]. destruct m; reflexivity.
  - destruct m as [|m].
    + destruct s; [reflexivity|cbn [String.length] in Hm; lia].
    + cbn [Str.skipWhite]. destruct (Str.whiteChar s) as [r|] eqn:E; [|reflexivity].
      pose proof (whiteChar_shorter _ _ E). apply IH; lia.
Qed.

Lemma trimStart_white (s r : string) :
  Str.whiteChar s = Some r -> Str.trimStart s = Str.trimStart r.
Proof.
  intros H. pose proof (whiteChar_shorter _ _ H) as Hlt. unfold Str.trimStart.
  destruct s as [|c s]; [discriminate|]. cbn [String.length] in *.
  cbn [Str.skipWhite]. rewrite H. apply skipWhite_fuel; lia.
Qed.

Lemma trimStart_none (s : string) :
  Str.whiteChar s = None -> Str.trimStart s = s.
Proof.
  intros H. unfold Str.trimStart. destruct s as [|c s]; [reflexivity|].
  cbn [String.length Str.skipWhite]. rewrite H. reflexivity.
Qed.

Lemma trimStart_fix (s : string) : Str.whiteChar (Str.trimStart s) = None.
Proof.
  assert (H : forall n s, (String.length s <= n)%nat ->
                          Str.whiteChar (Str.trimStart s) = None).
  { induction n as [|n IH]; intros t Ht.
    - destruct t; [reflexivity|cbn [String.length] in Ht; lia].
    - destruct (Str.whiteChar t) as [r|] eqn:E.
      + rewrite (trimStart_white _ _ E). apply IH.
        pose proof (whiteChar_shorter _ _ E). lia.
      + rewrite (trimStart_none _ E). exact E. }
  exact (H _ s (Nat.le_refl _)).
Qed.

Lemma blank_white (s r : string) :
  Str.whiteChar s = Some r -> Str.blank s = Str.blank r.
Proof. intros H. unfold Str.blank. rewrite (trimStart_white _ _ H). reflexivity. Qed.

Lemma blank_none (c : ascii) (s : string) :
  Str.whiteChar (String c s) = None -> Str.blank (String c s) = false.
Proof. intros H. unfold Str.blank. rewrite (trimStart_none _ H). reflexivity. Qed.

Lemma blank_cons_inv (c : ascii) (s : string) :
  Str.blank (String c s) = true ->
  exists r, Str.whiteChar (String c s) = Some r /\ Str.blank r = true.
Proof.
  intros H. destruct (Str.whiteChar (String c s)) as [r|] eqn:E.
  - exists r. split; [reflexivity|]. rewrite <- (blank_white _ _ E). exact H.
  - rewrite (blank_none _ _ E) in H. discriminate.
Qed.

Lemma blank_app (a b : string) :
  Str.blank a = true -> Str.blank b = true -> Str.blank (a +:+ b) = true.
Proof.
  intros Ha Hb.
  assert (H : forall n a, (String.length a <= n)%nat -> Str.blank a = true ->
                          Str.blank (a +:+ b) = true).
  { induction n as [|n IH]; intros x Hx Hbx.
    - destruct x; [exact Hb|cbn [String.length] in Hx; lia].
    - destruct x as [|c x]; [exact Hb|].
      destruct (blank_cons_inv _ _ Hbx) as (r & Hw & Hr).
      rewrite (blank_white _ _ (whiteChar_app _ _ b Hw)). apply IH; [|exact Hr].
      pose proof (whiteChar_shorter _ _ Hw). lia. }
  exact (H _ a (Nat.le_refl _) Ha).
Qed.

(** An ASCII byte in a blank text is a character of its own: what follows
    it is blank as well. *)
Lemma blank_split (x : string) (c : ascii) (y : string) :
  (nat_of_ascii c < 128)%nat ->
  Str.blank (x +:+ String c y) = true -> Str.blank y = true.
Proof.
  intros Hlow.
  assert (H : forall n x, (String.length x <= n)%nat ->
                          Str.blank (x +:+ String c y) = true -> Str.blank y = true).
  { induction n as [|n IH]; intros u Hu Hb.
    - destruct u; [|cbn [String.length] in Hu; lia]. rewrite append_nil in Hb.
      destruct (blank_cons_inv _ _ Hb) as (r & Hw & Hr).
      destruct (whiteChar_shape _ _ Hw)
        as [(c' & [= _ <-] & _)|[(c' & d & [= <- _] & Hh & _)
                                |(c' & d & e & [= <- _] & Hh & _)]];
        [exact Hr|lia|lia].
    - destruct u as [|u0 u].
      { rewrite append_nil in Hb.
        destruct (blank_cons_inv _ _ Hb) as (r & Hw & Hr).
        destruct (whiteChar_shape _ _ Hw)
          as [(c' & [= _ <-] & _)|[(c' & d & [= <- _] & Hh & _)
                                  |(c' & d & e & [= <- _] & Hh & _)]];
          [exact Hr|lia|lia]. }
      cbn [String.length] in Hu. rewrite append_cons in Hb.
      destruct (blank_cons_inv _ _ Hb) as (r & Hw & Hr).
      destruct (whiteChar_shape _ _ Hw)
        as [(c' & E & _)|[(c' & d & E & _ & Hd & _)|(c' & d & e & E & _ & Hd & He & _)]].
      + injection E as _ E. subst r. apply (IH u); [lia|exact Hr].
      + injection E as _ E. destruct u as [|u1 u].
        * rewrite append_nil in E. injection E as -> _. lia.
        * rewrite append_cons in E. injection E as _ E. subst r.
          cbn [String.length] in Hu. apply (IH u); [lia|exact Hr].
      + injection E as _ E. destruct u as [|u1 u].
        * rewrite append_nil in E. injection E as -> _. lia.
        * rewrite append_cons in E. injection E as _ E. destruct u as [|u2 u].
          -- rewrite append_nil in E. injection E as -> _. lia.
          -- rewrite append_cons in E. injection E as _ E. subst r.
             cbn [String.length] in Hu. apply (IH u); [lia|exact Hr]. }
  exact (H _ x (Nat.le_refl _)).
Qed.

(** *** Trimming *)

Lemma trimEnd_blank (s : string) : Str.blank s = true -> Str.trimEnd s = EmptyString.
Proof. intros H. destruct s; [reflexivity|]. cbn [Str.trimEnd]. rewrite H. reflexivity. Qed.

Lemma trimEnd_cons (c : ascii) (s : string) :
  Str.blank (String c s) = false ->
  Str.trimEnd (String c s) = String c (Str.trimEnd s).
Proof. intros H. cbn [Str.trimEnd]. rewrite H. reflexivity. Qed.

(** What [trimEnd] removes is blank. *)
Lemma trimEnd_split (s : string) :
  exists w, s = Str.trimEnd s +:+ w /\ Str.blank w = true.
Proof.
  induction s as [|c s (w & E & Hw)]; [exists EmptyString; split; reflexivity|].
  destruct (Str.blank (String c s)) eqn:B.
  - exists (String c s). rewrite (trimEnd_blank _ B). split; [reflexivity|exact B].
  - exists w. rewrite (trimEnd_cons _ _ B), append_cons, <- E. split; [reflexivity|exact Hw].
Qed.

Lemma trimEnd_nonblank (s : string) :
  Str.blank s = false -> Str.blank (Str.trimEnd s) = false.
Proof.
  intros H. destruct (Str.blank (Str.trimEnd s)) eqn:B; [|reflexivity].
  destruct (trimEnd_split s) as (w & E & Hw).
  rewrite E, (blank_app _ _ B Hw) in H. discriminate.
Qed.

Lemma trimEnd_idem (s : string) : Str.trimEnd (Str.trimEnd s) = Str.trimEnd s.
Proof.
  induction s as [|c s IH]; [reflexivity|].
  destruct (Str.blank (String c s)) eqn:B.
  - rewrite (trimEnd_blank _ B). reflexivity.
  - pose proof (trimEnd_nonblank _ B) as B'. rewrite (trimEnd_cons _ _ B) in *.
    rewrite (trimEnd_cons _ _ B'), IH. reflexivity.
Qed.

Lemma trimEnd_head (s : string) :
  Str.whiteChar s = None -> Str.whiteChar (Str.trimEnd s) = None.
Proof.
  intros H. destruct (Str.whiteChar (Str.trimEnd s)) as [r|] eqn:E; [|reflexivity].
  destruct (trimEnd_split s) as (w & Es & _).
  rewrite Es, (whiteChar_app _ _ w E) in H. discriminate.
Qed.

Lemma trim_idem (s : string) : Str.trim (Str.trim s) = Str.trim s.
Proof.
  unfold Str.trim.
  rewrite (trimStart_none (Str.trimEnd (Str.trimStart s)))
    by (apply trimEnd_head, trimStart_fix).
  apply trimEnd_idem.
Qed.

Lemma endsWithInk_spec (s : string) :
  endsWithInk s = true <-> s <> EmptyString /\ Str.trimEnd s = s.
Proof.
  unfold endsWithInk, nonEmpty.
  rewrite andb_true_iff, negb_true_iff, String.eqb_neq, String.eqb_eq. reflexivity.
Qed.

Lemma trimEnd_ink (s : string) : endsWithInk s = true -> Str.trimEnd s = s.
Proof. intros H. apply endsWithInk_spec in H. exact (proj2 H). Qed.

Lemma ink_not_blank (s : string) : endsWithInk s = true -> Str.blank s = false.
Proof.
  intros H. apply endsWithInk_spec in H as (Hne & Ht).
  destruct (Str.blank s) eqn:B; [|reflexivity].
  rewrite (trimEnd_blank _ B) in Ht. congruence.
Qed.

Lemma endsWithInk_cons (c : ascii) (s : string) :
  s = EmptyString \/ endsWithInk s = true ->
  Str.blank (String c s) = false -> endsWithInk (String c s) = true.
Proof.
  intros Hs B. apply endsWithInk_spec. split; [discriminate|].
  rewrite (trimEnd_cons _ _ B). f_equal.
  destruct Hs as [->|Hs]; [reflexivity|exact (trimEnd_ink _ Hs)].
Qed.

(** A text that ends a line after a space ends the line the same way
    whatever stands before the space. *)
Lemma endsWithInk_token (a b : string) :
  endsWithInk b = true -> endsWithInk (a +:+ " " +:+ b) = true.
Proof.
  intros Hb. pose proof (ink_not_blank _ Hb) as Bb.
  change (" " +:+ b) with (String " " b).
  assert (Hsp : endsWithInk (String " " b) = true).
  { apply endsWithInk_cons; [right; exact Hb|].
    rewrite (blank_white _ b (whiteChar_space " " b eq_refl)). exact Bb. }
  induction a as [|c a IH]; [exact Hsp|].
  rewrite append_cons. apply endsWithInk_cons; [right; exact IH|].
  destruct (Str.blank (String c (a +:+ String " " b))) eqn:B; [|reflexivity].
  rewrite <- append_cons in B.
  rewrite (blank_split (String c a) " " b) in Bb; [discriminate| |exact B].
  vm_compute. lia.
Qed.

Lemma noChar_append (c : ascii) (a b : string) :
  noChar c (a +:+ b) = noChar c a && noChar c b.
Proof.
  induction a as [|x a IH]; [reflexivity|].
  rewrite append_cons. cbn [noChar]. rewrite IH, andb_assoc. reflexivity.
Qed.

(** *** Characters of levels and tags *)

Lemma digit_facts (c : ascii) :
  Str.is_digit c = true ->
  Str.is_space c = false /\ Ascii.eqb c " " = false /\ Ascii.eqb c "@" = false
  /\ Ascii.eqb c (ascii_of_nat 10) = false /\ Ascii.eqb c "-" = false
  /\ Ascii.eqb c "+" = false.
Proof.
  destruct c as [[] [] [] [] [] [] [] []]; intros H; try discriminate H;
    repeat split; reflexivity.
Qed.

Lemma tagChar_facts (c : ascii) :
  isTagChar c = true ->
  Str.is_space c = false /\ Ascii.eqb c " " = false /\ Ascii.eqb c "@" = false
  /\ Ascii.eqb c (ascii_of_nat 10) = false.
Proof.
  destruct c as [[] [] [] [] [] [] [] []]; intros H; try discriminate H;
    repeat split; reflexivity.
Qed.

Lemma digit_low (c : ascii) : Str.is_digit c = true -> (nat_of_ascii c < 128)%nat.
Proof.
  unfold Str.is_digit. intros H. apply andb_true_iff in H as [_ H].
  apply Nat.leb_le in H. lia.
Qed.

Lemma tagChar_low (c : ascii) : isTagChar c = true -> (nat_of_ascii c < 128)%nat.
Proof.
  destruct c as [[] [] [] [] [] [] [] []]; intros H; try discriminate H;
    apply Nat.ltb_lt; reflexivity.
Qed.

Lemma allDigits_facts (l : string) :
  allDigits l = true ->
  noChar " " l = true /\ noChar (ascii_of_nat 10) l = true
  /\ (l <> "" -> endsWithInk l = true) /\ Str.trimStart l = l.
Proof.
  induction l as [|c l IH]; [intros _; repeat split; intros H; congruence|].
  cbn [allDigits]. intros H. apply andb_true_iff in H as [Hc Hl].
  destruct (digit_facts c Hc) as (Hs & Hsp & _ & Hnl & _).
  destruct (IH Hl) as (H1 & H2 & H3 & _).
  pose proof (whiteChar_plain c l Hs (digit_low c Hc)) as Hw.
  cbn [noChar]. rewrite Hsp, Hnl, H1, H2.
  split; [reflexivity|]. split; [reflexivity|]. split; [|exact (trimStart_none _ Hw)].
  intros _. apply endsWithInk_cons; [|exact (blank_none _ _ Hw)].
  destruct l; [left; reflexivity|right; apply H3; discriminate].
Qed.

Lemma allTagChars_facts (t : string) :
  allTagChars t = true ->
  noChar " " t = true /\ noChar (ascii_of_nat 10) t = true
  /\ (t <> "" -> endsWithInk t = true).
Proof.
  induction t as [|c t IH]; [intros _; repeat split; intros H; congruence|].
  cbn [allTagChars]. intros H. apply andb_true_iff in H as [Hc Ht].
  destruct (tagChar_facts c Hc) as (Hs & Hsp & _ & Hnl).
  destruct (IH Ht) as (H1 & H2 & H3).
  pose proof (whiteChar_plain c t Hs (tagChar_low c Hc)) as Hw.
  cbn [noChar]. rewrite Hsp, Hnl, H1, H2.
  split; [reflexivity|]. split; [reflexivity|].
  intros _. apply endsWithInk_cons; [|exact (blank_none _ _ Hw)].
  destruct t; [left; reflexivity|right; apply H3; discriminate].
Qed.

Lemma wfTag_facts (t : string) :
  wfTag t = true ->
  noChar " " t = true /\ noChar (ascii_of_nat 10) t = true /\ endsWithInk t = true
  /\ Str.startsWithAt t = false /\ reservedKey t = false /\ t <> "".
Proof.
  unfold wfTag. destruct t as [|c t'] eqn:Et; [discriminate|]. rewrite <- Et.
  intros H. apply andb_true_iff in H as [Hc Hall].
  destruct (allTagChars_facts t Hall) as (H1 & H2 & H3).
  split; [exact H1|]. split; [exact H2|].
  assert (Hne : t <> "") by (subst t; discriminate).
  split; [exact (H3 Hne)|]. split; [|split; [|exact Hne]].
  - subst t. cbn [allTagChars] in Hall. apply andb_true_iff in Hall as [Hc' _].
    cbn [Str.startsWithAt]. exact (proj1 (proj2 (proj2 (tagChar_facts c Hc')))).
  - unfold reservedKey.
    assert (Hd : allDigits t = false).
    { subst t. cbn [allDigits].
      destruct c as [[] [] [] [] [] [] [] []]; try discriminate Hc; reflexivity. }
    rewrite Hd. cbn [andb]. rewrite orb_false_r.
    unfold ownFields, inheritedMembers. cbn [existsb].
    repeat match goal with
           | |- context [String.eqb t ?lit] =>
               let E := fresh "E" in
               destruct (String.eqb t lit) eqn:E;
               [apply String.eqb_eq in E; rewrite E in Hall; discriminate Hall|]
           end.
    reflexivity.
Qed.

Lemma digits_value (s : string) :
  forall acc, allDigits s = true -> 0 <= acc ->
              exists n, Str.digits acc s = Some n /\ 0 <= n.
Proof.
  induction s as [|c s IH]; intros acc Hs Hacc; cbn [Str.digits].
  - exists acc. split; [reflexivity|exact Hacc].
  - cbn [allDigits] in Hs. apply andb_true_iff in Hs as [Hc Hs]. rewrite Hc.
    apply IH; [exact Hs|].
    unfold Str.is_digit in Hc. apply andb_true_iff in Hc as [Hlo _].
    apply Nat.leb_le in Hlo. lia.
Qed.

Lemma wfLevel_number (l : string) :
  wfLevel l = true -> exists n, Str.toNumber l = Some n /\ 0 <= n.
Proof.
  unfold wfLevel. intros H. apply andb_true_iff in H as [Hd Hne].
  destruct (allDigits_facts l Hd) as (_ & _ & Hink & Hts).
  assert (Hl : l <> "").
  { unfold nonEmpty in Hne. apply negb_true_iff in Hne.
    apply String.eqb_neq in Hne. exact Hne. }
  unfold Str.toNumber, Str.trim. rewrite Hts, (trimEnd_ink _ (Hink Hl)).
  destruct l as [|c l']; [contradiction|].
  pose proof Hd as Hd'. cbn [allDigits] in Hd'. apply andb_true_iff in Hd' as [Hc _].
  destruct (digit_facts c Hc) as (_ & _ & _ & _ & Hm & Hp).
  rewrite Hm, Hp. apply digits_value; [exact Hd|lia].
Qed.


Lemma trim_stable (l rest : string) :
  wfLevel l = true -> endsWithInk (l +:+ rest) = true ->
  Str.trim (l +:+ rest) = l +:+ rest.
Proof.
  intros Hl Hink. unfold Str.trim.
  unfold wfLevel in Hl. apply andb_true_iff in Hl as [Hd Hne].
  destruct l as [|c l']; [discriminate Hne|].
  cbn [allDigits] in Hd. apply andb_true_iff in Hd as [Hc _].
  destruct (digit_facts c Hc) as (Hs & _).
  rewrite append_cons in *.
  rewrite (trimStart_none _ (whiteChar_plain c _ Hs (digit_low c Hc))).
  apply trimEnd_ink. exact Hink.
Qed.


(** *** A record's line reads back as the record *)

Lemma cleanText_facts (v : string) :
  cleanText v = true -> endsWithInk v = true /\ noChar (ascii_of_nat 10) v = true.
Proof. unfold cleanText. intros H. apply andb_true_iff in H. exact H. Qed.

Ltac norm_append :=
  repeat (rewrite append_nil || rewrite append_empty_r || rewrite append_assoc).

Lemma line_facts (l body : string) :
  wfLevel l = true -> endsWithInk body = true ->
  noChar (ascii_of_nat 10) body = true ->
  Str.trim (l +:+ " " +:+ body) = l +:+ " " +:+ body
  /\ noChar (ascii_of_nat 10) (l +:+ " " +:+ body) = true
  /\ l +:+ " " +:+ body <> EmptyString
  /\ Str.split (l +:+ " " +:+ body) = l :: Str.split body.
Proof.
  intros Hl Hb Hn.
  pose proof Hl as Hl'. unfold wfLevel in Hl'. apply andb_true_iff in Hl' as [Hd Hne].
  destruct (allDigits_facts l Hd) as (Hl1 & Hl2 & _ & _).
  split; [|split; [|split]].
  - apply trim_stable; [exact Hl|]. apply endsWithInk_token. exact Hb.
  - rewrite !noChar_append, Hl2, Hn. reflexivity.
  - destruct l; [discriminate Hne|discriminate].
  - apply split_token. exact Hl1.
Qed.

Lemma recOK_line (r : FamilyRow) :
  recOK r ->
  Str.trim (toString r) = toString r
  /\ formatLine (toString r) = r
  /\ noChar (ascii_of_nat 10) (toString r) = true
  /\ toString r <> EmptyString.
Proof.
  destruct r as [l i t v vis rl ps]. unfold recOK, wellFormedRecord, exportable.
  cbn [level id tag value visited rowLevel props].
  intros [Hwf Hex].
  destruct l as [[l|]|]; try discriminate Hwf.
  destruct t as [t|]; try discriminate Hwf.
  apply andb_true_iff in Hwf as [Hwf Hps]. apply andb_true_iff in Hwf as [Hwf Hrl].
  apply andb_true_iff in Hwf as [Hwf Hvis]. apply andb_true_iff in Hwf as [Hwf Hv].
  apply andb_true_iff in Hwf as [Hwf Hi]. apply andb_true_iff in Hwf as [Hl Ht].
  destruct ps; [|discriminate]. destruct vis; [discriminate|].
  apply Z.eqb_eq in Hrl. subst rl.
  destruct (wfTag_facts t Ht) as (Ht1 & Ht2 & Ht3 & Ht4 & Ht5 & Ht6).
  assert (Hfin : forall body toks,
             toString (mkRow (Some (LStr l)) i (Some t) v false NOT_SET [])
             = l +:+ " " +:+ body ->
             endsWithInk body = true -> noChar (ascii_of_nat 10) body = true ->
             Str.split body = toks ->
             (Str.split (l +:+ " " +:+ body) = l :: toks ->
              formatLine (l +:+ " " +:+ body)
              = mkRow (Some (LStr l)) i (Some t) v false NOT_SET []) ->
             Str.trim (toString (mkRow (Some (LStr l)) i (Some t) v false NOT_SET []))
             = toString (mkRow (Some (LStr l)) i (Some t) v false NOT_SET [])
             /\ formatLine (toString (mkRow (Some (LStr l)) i (Some t) v false NOT_SET []))
                = mkRow (Some (LStr l)) i (Some t) v false NOT_SET []
             /\ noChar (ascii_of_nat 10)
                  (toString (mkRow (Some (LStr l)) i (Some t) v false NOT_SET [])) = true
             /\ toString (mkRow (Some (LStr l)) i (Some t) v false NOT_SET [])
                <> EmptyString).
  { intros body toks E Hb Hn Hs Hf. rewrite E.
    destruct (line_facts l body Hl Hb Hn) as (F1 & F2 & F3 & F4).
    split; [exact F1|]. split; [|split; [exact F2|exact F3]].
    apply Hf. rewrite F4, Hs. reflexivity. }
  assert (Hval : forall v', v = Some v' ->
             endsWithInk v' = true /\ noChar (ascii_of_nat 10) v' = true
             /\ Str.matchesIdRef v' = false
             /\ exists a b, Str.split v' = a :: b /\ Str.join (a :: b) = v').
  { intros v' ->. apply andb_true_iff in Hv as [Hc Hm].
    destruct (cleanText_facts v' Hc) as [H1 H2]. apply negb_true_iff in Hm.
    split; [exact H1|]. split; [exact H2|]. split; [exact Hm|].
    pose proof (join_split v') as J. pose proof (split_not_nil v') as Hn.
    destruct (Str.split v') as [|a b]; [contradiction|]. exists a, b. split; [reflexivity|exact J]. }
  destruct i as [i|].
  - apply andb_true_iff in Hi as [Hi2 Hi1].
    destruct (levelIsZero (Some (LStr l))) eqn:Hz; cbn [orb] in Hi1.
    + apply andb_true_iff in Hex as [Hat Hsp].
      destruct v as [v|].
      * destruct (Hval v eq_refl) as (Hv1 & Hv2 & Hv3 & a & b & Hs & Hj).
        apply (Hfin (i +:+ " " +:+ t +:+ " " +:+ v) (i :: t :: a :: b)).
        -- unfold toString. cbn [level id tag value levelText]. rewrite Hz.
           cbn [negb]. norm_append. reflexivity.
        -- do 2 apply endsWithInk_token. exact Hv1.
        -- rewrite !noChar_append, Hi2, Ht2, Hv2. reflexivity.
        -- rewrite (split_token _ _ Hsp), (split_token _ _ Ht1), Hs. reflexivity.
        -- intros E. unfold formatLine. rewrite E, Hat. cbn [head tail].
           rewrite Hj, Hv3. reflexivity.
      * apply (Hfin (i +:+ " " +:+ t) [i; t]).
        -- unfold toString. cbn [level id tag value levelText]. rewrite Hz.
           cbn [negb]. norm_append. reflexivity.
        -- apply endsWithInk_token. exact Ht3.
        -- rewrite !noChar_append, Hi2, Ht2. reflexivity.
        -- rewrite (split_token _ _ Hsp), (split_no_space _ Ht1). reflexivity.
        -- intros E. unfold formatLine. rewrite E, Hat. reflexivity.
    + apply andb_true_iff in Hex as [Hnone Hm].
      destruct v as [v|]; [discriminate Hnone|].
      pose proof (join_split i) as J. pose proof (split_not_nil i) as Hn.
      destruct (Str.split i) as [|a b] eqn:Hs; [contradiction|].
      apply (Hfin (t +:+ " " +:+ i) (t :: a :: b)).
      * unfold toString. cbn [level id tag value levelText]. rewrite Hz.
        cbn [negb]. norm_append. reflexivity.
      * apply endsWithInk_token. exact Hi1.
      * rewrite !noChar_append, Hi2, Ht2. reflexivity.
      * rewrite (split_token _ _ Ht1), Hs. reflexivity.
      * intros E. unfold formatLine. rewrite E, Ht4. rewrite J, Hm. reflexivity.
  - destruct v as [v|].
    + destruct (Hval v eq_refl) as (Hv1 & Hv2 & Hv3 & a & b & Hs & Hj).
      apply (Hfin (t +:+ " " +:+ v) (t :: a :: b)).
      * unfold toString. cbn [level id tag value levelText]. norm_append. reflexivity.
      * apply endsWithInk_token. exact Hv1.
      * rewrite !noChar_append, Ht2, Hv2. reflexivity.
      * rewrite (split_token _ _ Ht1), Hs. reflexivity.
      * intros E. unfold formatLine. rewrite E, Ht4. rewrite Hj, Hv3. reflexivity.
    + apply (Hfin t [t]).
      * unfold toString. cbn [level id tag value levelText]. norm_append. reflexivity.
      * exact Ht3.
      * exact Ht2.
      * apply split_no_space. exact Ht1.
      * intros E. unfold formatLine. rewrite E, Ht4. reflexivity.
Qed.


(** X3.  The line [toString] writes for a record read from a well-formed
    line, with its id where it is read again (at level 0 one token starting
    with an at sign; below level 0, where it is written last, a text that
    matches the id pattern, has no value beside it and does not end in
    white space, ASCII or not), is trimmed already and [formatLine] reads the
    same record from it. *)
Theorem toString_formatLine (r : FamilyRow) :
  recOK r -> formatLine (Str.trim (toString r)) = r.
Proof.
  intros H. destruct (recOK_line r H) as (Ht & Hf & _). rewrite Ht. exact Hf.
Qed.

Lemma toString_formatLine_witness :
  formatLine (Str.trim (toString (formatLine "0 @I1@ INDI"))) = formatLine "0 @I1@ INDI".
Proof. apply toString_formatLine. split; vm_compute; reflexivity. Defined.

(** *** The parser on records *)

Lemma attach_graft (p e : FamilyRow) :
  reservedKey (tagKey (tag e)) = false -> attach p e = Ok (graft p e).
Proof. intros H. unfold attach, graft. rewrite H. reflexivity. Qed.

Lemma slotChildren_cons (k : string) (sl : Slot FamilyRow) (ps : list (string * Slot FamilyRow)) :
  slotChildren ((k, sl) :: ps) = slotList sl ++ slotChildren ps.
Proof. reflexivity. Qed.

Lemma slotChildren_app (ps qs : list (string * Slot FamilyRow)) :
  slotChildren (ps ++ qs) = slotChildren ps ++ slotChildren qs.
Proof. unfold slotChildren. apply flat_map_app. Qed.

Lemma nodes_eq (r : FamilyRow) :
  nodes r = r :: flat_map nodes (slotChildren (props r)).
Proof.
  destruct r as [l i t v vis rl ps]. cbn [nodes props]. f_equal.
  induction ps as [|[k [c|cs]] ps IH]; [reflexivity| |].
  - rewrite slotChildren_cons. cbn [slotList]. rewrite flat_map_app, IH.
    cbn [flat_map]. rewrite app_nil_r. reflexivity.
  - rewrite slotChildren_cons. cbn [slotList]. rewrite flat_map_app, IH.
    reflexivity.
Qed.

Lemma flatten_eq (r : FamilyRow) :
  flatten r = strip r :: flat_map flatten (slotChildren (props r)).
Proof.
  destruct r as [l i t v vis rl ps]. cbn [flatten props]. f_equal.
  induction ps as [|[k [c|cs]] ps IH]; [reflexivity| |].
  - rewrite slotChildren_cons. cbn [slotList]. rewrite flat_map_app, IH.
    cbn [flat_map]. rewrite app_nil_r. reflexivity.
  - rewrite slotChildren_cons. cbn [slotList]. rewrite flat_map_app, IH.
    reflexivity.
Qed.

Lemma parseRecs_app (a b : list FamilyRow) (c : FamilyRow * list FamilyRow) :
  parseRecs (a ++ b) c = let* c' := parseRecs a c in parseRecs b c'.
Proof.
  revert c. induction a as [|r a IH]; intros c; [reflexivity|].
  cbn [parseRecs app]. destruct (parseLine r c) as [c'| | |]; cbn [bindRes];
    [apply IH|reflexivity..].
Qed.

Lemma parseLines_records (ls : list string) (c : FamilyRow * list FamilyRow) :
  parseLines ls c = parseRecs (records ls) c.
Proof.
  revert c. induction ls as [|l ls IH]; intros c; [reflexivity|].
  cbn [parseLines records map parseRecs].
  destruct (parseLine (formatLine (Str.trim l)) c) as [c'| | |]; cbn [bindRes];
    [apply IH|reflexivity..].
Qed.

Lemma climb_eq (cur : FamilyRow) (above : list FamilyRow) (lvl : option Z) :
  climb cur above lvl =
  if gtNum (levelNum (level cur)) (option_map (fun n => n - 1) lvl) then
    match above with
    | [] => Throw "TypeError: parent_elem is undefined"
    | p :: above' => let* p' := attach p cur in climb p' above' lvl
    end
  else Ok (cur, above).
Proof. destruct above; reflexivity. Qed.

Lemma climb_climb (above : list FamilyRow) :
  forall (cur : FamilyRow) (m n : Z),
    m <= n ->
    climb cur above (Some m)
    = let* (P, ab) := climb cur above (Some n) in climb P ab (Some m).
Proof.
  induction above as [|p above IH]; intros cur m n Hmn.
  - rewrite (climb_eq cur [] (Some n)). cbn [option_map].
    destruct (gtNum (levelNum (level cur)) (Some (n - 1))) eqn:E1; cbn [bindRes];
      [|reflexivity].
    rewrite climb_eq. cbn [option_map].
    destruct (levelNum (level cur)) as [d|]; cbn [gtNum] in *; [|discriminate].
    assert (E2 : (m - 1 <? d) = true) by (apply Z.ltb_lt; apply Z.ltb_lt in E1; lia).
    rewrite E2. reflexivity.
  - rewrite (climb_eq cur (p :: above) (Some n)). cbn [option_map].
    destruct (gtNum (levelNum (level cur)) (Some (n - 1))) eqn:E1; cbn [bindRes];
      [|reflexivity].
    rewrite climb_eq. cbn [option_map].
    destruct (levelNum (level cur)) as [d|]; cbn [gtNum] in *; [|discriminate].
    assert (E2 : (m - 1 <? d) = true) by (apply Z.ltb_lt; apply Z.ltb_lt in E1; lia).
    rewrite E2. destruct (attach p cur) as [p'| | |]; cbn [bindRes];
      [apply IH; exact Hmn|reflexivity..].
Qed.

Lemma closeAll_climb (above : list FamilyRow) :
  forall (cur P : FamilyRow) (ab : list FamilyRow) (lvl : option Z),
    climb cur above lvl = Ok (P, ab) -> closeAll cur above = closeAll P ab.
Proof.
  induction above as [|p above IH]; intros cur P ab lvl; rewrite climb_eq;
    destruct (gtNum _ _); try discriminate; try (intros [= <- <-]; reflexivity).
  cbn [closeAll]. destruct (attach p cur) as [p'| | |]; cbn [bindRes];
    try discriminate. apply IH.
Qed.


(** *** Slots *)

Lemma getProp_None_notin {A : Type} (k : string) (ps : list (string * A)) :
  getProp k ps = None -> ~ List.In k (map fst ps).
Proof.
  induction ps as [|[k' v] ps IH]; cbn [getProp map fst List.In]; [tauto|].
  destruct (String.eqb k k') eqn:E; [discriminate|].
  apply String.eqb_neq in E. intros H [H1|H1]; [congruence|exact (IH H H1)].
Qed.

Lemma notin_getProp_None {A : Type} (k : string) (ps : list (string * A)) :
  ~ List.In k (map fst ps) -> getProp k ps = None.
Proof.
  induction ps as [|[k' v] ps IH]; cbn [getProp map fst List.In]; [reflexivity|].
  intros H. destruct (String.eqb k k') eqn:E.
  - apply String.eqb_eq in E. subst k'. exfalso. apply H. left. reflexivity.
  - apply IH. tauto.
Qed.

Lemma setProp_new {A : Type} (k : string) (v : A) (ps : list (string * A)) :
  getProp k ps = None -> setProp k v ps = ps ++ [(k, v)].
Proof.
  induction ps as [|[k' v'] ps IH]; cbn [getProp setProp app]; [reflexivity|].
  destruct (String.eqb k k'); [discriminate|]. intros H. rewrite (IH H). reflexivity.
Qed.

Lemma getProp_Some_split {A : Type} (k : string) (v0 : A) (ps : list (string * A)) :
  getProp k ps = Some v0 ->
  exists ps1 ps2,
    ps = ps1 ++ (k, v0) :: ps2 /\ ~ List.In k (map fst ps1)
    /\ forall v, setProp k v ps = ps1 ++ (k, v) :: ps2.
Proof.
  induction ps as [|[k' v'] ps IH]; cbn [getProp]; [discriminate|].
  destruct (String.eqb k k') eqn:E.
  - intros [= ->]. apply String.eqb_eq in E. subst k'.
    exists [], ps. split; [reflexivity|]. split; [intros []|].
    intros v. cbn [setProp]. rewrite String.eqb_refl. reflexivity.
  - intros H. destruct (IH H) as (ps1 & ps2 & -> & Hn & Hset).
    exists ((k', v') :: ps1), ps2. split; [reflexivity|]. split.
    + cbn [map fst List.In]. apply String.eqb_neq in E. intros [H1|H1]; [congruence|tauto].
    + intros v. cbn [setProp]. rewrite E, Hset. reflexivity.
Qed.

Lemma getProp_app_last {A : Type} (k : string) (v : A) (qs : list (string * A)) :
  ~ List.In k (map fst qs) -> getProp k (qs ++ [(k, v)]) = Some v.
Proof.
  induction qs as [|[k' v'] qs IH]; cbn [getProp map fst List.In app].
  - intros _. rewrite String.eqb_refl. reflexivity.
  - intros H. destruct (String.eqb k k') eqn:E.
    + apply String.eqb_eq in E. subst k'. exfalso. apply H. left. reflexivity.
    + apply IH. tauto.
Qed.

Lemma setProp_app_last {A : Type} (k : string) (v w : A) (qs : list (string * A)) :
  ~ List.In k (map fst qs) -> setProp k w (qs ++ [(k, v)]) = qs ++ [(k, w)].
Proof.
  induction qs as [|[k' v'] qs IH]; cbn [setProp map fst List.In app].
  - intros _. rewrite String.eqb_refl. reflexivity.
  - intros H. destruct (String.eqb k k') eqn:E.
    + apply String.eqb_eq in E. subst k'. exfalso. apply H. left. reflexivity.
    + rewrite IH; [reflexivity|tauto].
Qed.

(** The slot [attach] writes when the key already holds [sl]. *)
Lemma canonSlot_first (k : string) (c : FamilyRow) :
  tag c = Some k ->
  (if isRelationTag (tag c) then Many [c] else One c) = canonSlot k [c].
Proof. intros ->. unfold canonSlot. destruct (isRelationTag (Some k)); reflexivity. Qed.

Lemma canonSlot_grow (k : string) (cs : list FamilyRow) (c : FamilyRow) :
  cs <> [] ->
  match canonSlot k cs with
  | Many rs => Many (rs ++ [c])
  | One r => Many [r; c]
  end = canonSlot k (cs ++ [c]).
Proof.
  intros Hne. unfold canonSlot. destruct (isRelationTag (Some k)); [reflexivity|].
  destruct cs as [|a [|b cs]]; [contradiction|reflexivity|reflexivity].
Qed.

Lemma slotList_canonSlot (k : string) (cs : list FamilyRow) :
  slotList (canonSlot k cs) = cs.
Proof.
  unfold canonSlot. destruct (isRelationTag (Some k)); [reflexivity|].
  destruct cs as [|a [|b cs]]; reflexivity.
Qed.

Lemma good_iff (r : FamilyRow) : good r <-> recOK (strip r) /\ sound r.
Proof.
  unfold good, sound. rewrite nodes_eq. split.
  - intros H. inversion H as [|x l [H1 H2] H3]; subst.
    split; [exact H1|]. split; [exact H2|].
    apply List.Forall_forall. intros c Hc.
    apply List.Forall_forall. intros x Hx.
    rewrite List.Forall_forall in H3. apply H3.
    apply in_flat_map. exists c. split; assumption.
  - intros (H1 & H2 & H3). constructor; [split; assumption|].
    apply List.Forall_forall. intros x Hx. apply in_flat_map in Hx as (c & Hc & Hx).
    pose proof (proj1 (List.Forall_forall _ _) H3 c Hc) as H4. cbv beta in H4.
    exact (proj1 (List.Forall_forall _ _) H4 x Hx).
Qed.

Lemma strip_graft (p e : FamilyRow) : strip (graft p e) = strip p.
Proof. reflexivity. Qed.

Lemma level_graft (p e : FamilyRow) : level (graft p e) = level p.
Proof. reflexivity. Qed.


(** *** The parser builds canonical trees *)

Lemma NoDup_snoc {A : Type} (l : list A) (a : A) :
  List.NoDup l -> ~ List.In a l -> List.NoDup (l ++ [a]).
Proof.
  induction l as [|x l IH]; intros Hnd Hin; cbn [app].
  - constructor; [intros []|constructor].
  - inversion Hnd as [|y l' Hx Hl]; subst. constructor.
    + intros H. apply in_app_or in H as [H|[H|[]]]; [exact (Hx H)|].
      apply Hin. left. symmetry. exact H.
    + apply IH; [exact Hl|]. intros H. apply Hin. right. exact H.
Qed.

Lemma graft_sound (P T : FamilyRow) (k : string) (n : Z) :
  sound P -> good T -> tag T = Some k -> reservedKey k = false ->
  levelNum (level P) = Some n -> levelNum (level T) = Some (n + 1) ->
  sound (graft P T).
Proof.
  intros [[Hnd (n' & Hn' & Hall)] Hch] HT Htag Hres Hn HlT.
  assert (n' = n) by congruence. subst n'.
  unfold sound, canon, graft. rewrite Htag. cbn [tagKey withProps props level].
  destruct (getProp k (props P)) as [sl0|] eqn:Eg.
  - destruct (getProp_Some_split _ _ _ Eg) as (ps1 & ps2 & Eps & Hnotin & Hset).
    rewrite Hset. rewrite Eps in Hnd, Hall, Hch.
    apply List.Forall_app in Hall as [Hall1 Hall2].
    inversion Hall2 as [|x l (Hne & Hcan & Hcs) Hall3]; subst x l.
    cbn [fst snd] in Hne, Hcan, Hcs.
    rewrite slotChildren_app, slotChildren_cons in Hch.
    apply List.Forall_app in Hch as [Hch1 Hch2].
    apply List.Forall_app in Hch2 as [Hch2 Hch3].
    set (new := match sl0 with
                | One r => Many [r; T]
                | Many rs => Many (rs ++ [T])
                end).
    assert (Hnew : new = canonSlot k (slotList sl0 ++ [T])).
    { subst new. rewrite <- (canonSlot_grow k (slotList sl0) T Hne), <- Hcan.
      reflexivity. }
    assert (Hlist : slotList new = slotList sl0 ++ [T]).
    { rewrite Hnew. apply slotList_canonSlot. }
    split; [split|].
    + rewrite map_app in *. exact Hnd.
    + exists n. split; [exact Hn|].
      apply List.Forall_app. split; [exact Hall1|]. constructor; [|exact Hall3].
      unfold slotOK. cbn [fst snd]. rewrite Hlist. split; [|split].
      * destruct (slotList sl0); discriminate.
      * exact Hnew.
      * apply List.Forall_app. split; [exact Hcs|]. constructor; [|constructor].
        split; [exact Htag|]. split; [exact Hres|exact HlT].
    + rewrite slotChildren_app, slotChildren_cons, Hlist.
      apply List.Forall_app. split; [exact Hch1|].
      apply List.Forall_app. split; [|exact Hch3].
      apply List.Forall_app. split; [exact Hch2|]. constructor; [exact HT|constructor].
  - rewrite (setProp_new _ _ _ Eg).
    change (if isRelationTag (Some k) then Many [T] else One T) with (canonSlot k [T]).
    split; [split|].
    + rewrite map_app. cbn [map fst].
      apply NoDup_snoc; [exact Hnd|]. apply (getProp_None_notin _ _ Eg).
    + exists n. split; [exact Hn|].
      apply List.Forall_app. split; [exact Hall|]. constructor; [|constructor].
      unfold slotOK. cbn [fst snd]. rewrite slotList_canonSlot. split; [|split].
      * discriminate.
      * reflexivity.
      * constructor; [|constructor].
        split; [exact Htag|]. split; [exact Hres|exact HlT].
    + rewrite slotChildren_app. apply List.Forall_app. split; [exact Hch|].
      unfold slotChildren. cbn [flat_map snd]. rewrite slotList_canonSlot.
      constructor; [exact HT|constructor].
Qed.


Lemma recOK_facts (r : FamilyRow) :
  recOK r ->
  props r = []
  /\ exists t n, tag r = Some t /\ reservedKey t = false
                 /\ levelNum (level r) = Some n /\ 0 <= n.
Proof.
  destruct r as [l i t v vis rl ps]. unfold recOK, wellFormedRecord.
  cbn [level id tag value visited rowLevel props]. intros [Hwf _].
  destruct l as [[l|]|]; try discriminate Hwf.
  destruct t as [t|]; try discriminate Hwf.
  apply andb_true_iff in Hwf as [Hwf Hps]. apply andb_true_iff in Hwf as [Hwf _].
  apply andb_true_iff in Hwf as [Hwf _]. apply andb_true_iff in Hwf as [Hwf _].
  apply andb_true_iff in Hwf as [Hwf _]. apply andb_true_iff in Hwf as [Hl Ht].
  split; [destruct ps; [reflexivity|discriminate]|].
  destruct (wfTag_facts t Ht) as (_ & _ & _ & _ & Hres & _).
  destruct (wfLevel_number l Hl) as (n & Hn & Hpos).
  exists t, n. repeat split; assumption.
Qed.

Lemma strip_leaf (r : FamilyRow) : props r = [] -> strip r = r.
Proof. destruct r. cbn [props]. intros ->. reflexivity. Qed.

Lemma leaf_sound (r : FamilyRow) (n : Z) :
  props r = [] -> levelNum (level r) = Some n -> sound r.
Proof.
  intros Hp Hn. unfold sound, canon. rewrite Hp. split; [split|].
  - constructor.
  - exists n. split; [exact Hn|constructor].
  - constructor.
Qed.

Lemma chainOK_head (cur : FamilyRow) (above : list FamilyRow) :
  chainOK cur above ->
  levelNum (level cur) = Some (Z.of_nat (length above) - 1) /\ sound cur.
Proof. destruct above; cbn [chainOK]; intros (H1 & H2 & _); split; assumption. Qed.

Lemma chainOK_swap (cur cur' : FamilyRow) (above : list FamilyRow) :
  chainOK cur above -> sound cur' -> strip cur' = strip cur -> level cur' = level cur ->
  chainOK cur' above.
Proof.
  destruct above; cbn [chainOK]; intros (H1 & H2 & H3) Hs Hst Hl; rewrite Hl, Hst;
    (split; [exact H1|split; [exact Hs|exact H3]]).
Qed.

Lemma climb_chainOK (above : list FamilyRow) :
  forall (cur : FamilyRow) (m : Z),
    chainOK cur above -> 0 <= m <= Z.of_nat (length above) ->
    exists P ab,
      climb cur above (Some m) = Ok (P, ab) /\ chainOK P ab /\ Z.of_nat (length ab) = m.
Proof.
  induction above as [|p above IH]; intros cur m Hc Hm.
  - cbn [length] in Hm. assert (m = 0) by lia. subst m.
    destruct (chainOK_head _ _ Hc) as [Hl _]. cbn [length] in Hl.
    rewrite climb_eq, Hl. cbn [option_map gtNum].
    exists cur, []. split; [reflexivity|]. split; [exact Hc|reflexivity].
  - pose proof Hc as Hc'. cbn [chainOK] in Hc'.
    destruct Hc' as (Hl & Hs & Hrec & Hp).
    rewrite climb_eq, Hl. cbn [option_map gtNum].
    destruct (m - 1 <? Z.of_nat (length (p :: above)) - 1) eqn:E.
    + apply Z.ltb_lt in E.
      destruct (recOK_facts _ Hrec) as (_ & t & n & Ht & Hres & _).
      cbn [strip withProps tag] in Ht.
      rewrite attach_graft by (rewrite Ht; exact Hres). cbn [bindRes].
      destruct (chainOK_head _ _ Hp) as [Hlp Hsp].
      apply IH.
      * apply (chainOK_swap p); [exact Hp| |reflexivity|reflexivity].
        apply (graft_sound p cur t (Z.of_nat (length above) - 1));
          [exact Hsp|apply good_iff; split; assumption|exact Ht|exact Hres|exact Hlp|].
        rewrite Hl. f_equal. cbn [length]. lia.
      * cbn [length] in E. lia.
    + apply Z.ltb_ge in E. exists cur, (p :: above).
      split; [reflexivity|]. split; [exact Hc|lia].
Qed.

Lemma parseRecs_chainOK (rs : list FamilyRow) :
  forall (cur : FamilyRow) (above : list FamilyRow),
    Forall recOK rs ->
    nested (Z.of_nat (length above) - 1) (map (fun r => levelNum (level r)) rs) = true ->
    chainOK cur above ->
    exists cur' above',
      parseRecs rs (cur, above) = Ok (cur', above') /\ chainOK cur' above'.
Proof.
  induction rs as [|r rs IH]; intros cur above Hall Hnest Hc.
  - exists cur, above. split; [reflexivity|exact Hc].
  - inversion Hall as [|x l Hr Hrs]; subst x l.
    cbn [map nested] in Hnest.
    destruct (levelNum (level r)) as [n|] eqn:Hn; [|discriminate].
    apply andb_true_iff in Hnest as [Hnest Hrest].
    apply andb_true_iff in Hnest as [H0 H1].
    apply Z.leb_le in H0. apply Z.leb_le in H1.
    destruct (climb_chainOK above cur n Hc ltac:(lia)) as (P & ab & Hcl & HP & Hlen).
    cbn [parseRecs]. unfold parseLine. cbn [fst snd]. rewrite Hn, Hcl. cbn [bindRes].
    destruct (recOK_facts _ Hr) as (Hp & _).
    apply IH; [exact Hrs| |].
    + cbn [length]. replace (Z.of_nat (S (length ab)) - 1) with n by lia. exact Hrest.
    + cbn [chainOK]. split; [|split; [|split]].
      * rewrite Hn. f_equal. cbn [length]. lia.
      * apply (leaf_sound r n Hp Hn).
      * rewrite (strip_leaf r Hp). exact Hr.
      * exact HP.
Qed.

Lemma closeAll_chainOK (cur : FamilyRow) (above : list FamilyRow) :
  chainOK cur above ->
  exists top, closeAll cur above = Ok top
              /\ strip top = formatLine "-1 TOP" /\ sound top.
Proof.
  intros Hc.
  destruct (climb_chainOK above cur 0 Hc ltac:(lia)) as (P & ab & Hcl & HP & Hlen).
  destruct ab; [|discriminate Hlen].
  rewrite (closeAll_climb _ _ _ _ _ Hcl). exists P.
  split; [reflexivity|]. cbn [chainOK] in HP. destruct HP as (_ & Hs & Hst).
  split; assumption.
Qed.


Lemma wellFormed_nonEmpty (l : string) :
  wellFormedRecord (formatLine (Str.trim l)) = true -> nonEmpty (Str.trim l) = true.
Proof.
  destruct (Str.trim l); [intros H; vm_compute in H; discriminate H|reflexivity].
Qed.

Lemma records_trimmed (lines : list string) :
  forallb wellFormedRecord (records lines) = true ->
  records (filter (fun l => nonEmpty l = true) (map Str.trim lines)) = records lines.
Proof.
  unfold records. induction lines as [|l lines IH]; [reflexivity|].
  cbn [map forallb]. intros H. apply andb_true_iff in H as [H1 H2].
  rewrite filter_cons_True by (apply wellFormed_nonEmpty; exact H1).
  cbn [map]. rewrite trim_idem. f_equal. apply IH. exact H2.
Qed.

Lemma chainOK_start : chainOK (formatLine "-1 TOP") [].
Proof.
  cbn [chainOK length]. split; [vm_compute; reflexivity|]. split; [|reflexivity].
  apply (leaf_sound _ (-1)); vm_compute; reflexivity.
Qed.

Lemma forallb_Forall2 (rs : list FamilyRow) :
  forallb wellFormedRecord rs = true -> forallb exportable rs = true -> Forall recOK rs.
Proof.
  induction rs as [|r rs IH]; [constructor|].
  cbn [forallb]. intros H1 H2.
  apply andb_true_iff in H1 as [H1 H1']. apply andb_true_iff in H2 as [H2 H2'].
  constructor; [split; assumption|apply IH; assumption].
Qed.

Lemma parse_wellFormed (lines : list string) :
  wellFormedLines lines = true -> exportableLines lines = true ->
  exists top,
    parse (Some lines) = Ok top /\ strip top = formatLine "-1 TOP" /\ sound top.
Proof.
  unfold wellFormedLines, exportableLines. intros Hwf Hex.
  apply andb_true_iff in Hwf as [Hwf Hnest]. apply andb_true_iff in Hwf as [Hne Hrec].
  unfold parse, parseWith.
  assert (Hlines : match lines with [] => defaultLines | _ => lines end = lines).
  { destruct lines; [discriminate Hne|reflexivity]. }
  rewrite Hlines, parseLines_records, (records_trimmed _ Hrec).
  destruct (parseRecs_chainOK (records lines) (formatLine "-1 TOP") []
              (forallb_Forall2 _ Hrec Hex) Hnest chainOK_start)
    as (cur & above & Hp & Hc).
  rewrite Hp. cbn [bindRes]. apply closeAll_chainOK. exact Hc.
Qed.

(** *** Rebuilding a record from its children *)

Lemma withProps_withProps (r : FamilyRow) (ps qs : list (string * Slot FamilyRow)) :
  withProps (withProps r ps) qs = withProps r qs.
Proof. reflexivity. Qed.

Lemma withProps_self (r : FamilyRow) : withProps r (props r) = r.
Proof. destruct r. reflexivity. Qed.

Lemma fold_graft_slot (r : FamilyRow) (qs : list (string * Slot FamilyRow)) (k : string) :
  ~ List.In k (map fst qs) ->
  forall cs pre,
    pre <> [] -> Forall (fun c => tag c = Some k) cs ->
    fold_left graft cs (withProps r (qs ++ [(k, canonSlot k pre)]))
    = withProps r (qs ++ [(k, canonSlot k (pre ++ cs))]).
Proof.
  intros Hk. induction cs as [|c cs IH]; intros pre Hpre Hall.
  - rewrite app_nil_r. reflexivity.
  - inversion Hall as [|x l Hc Hcs]; subst x l. cbn [fold_left].
    assert (E : graft (withProps r (qs ++ [(k, canonSlot k pre)])) c
                = withProps r (qs ++ [(k, canonSlot k (pre ++ [c]))])).
    { unfold graft. rewrite Hc. cbn [tagKey props withProps].
      rewrite (getProp_app_last _ _ _ Hk), (setProp_app_last _ _ _ _ Hk).
      rewrite (canonSlot_grow k pre c Hpre). reflexivity. }
    rewrite E, IH; [|destruct pre; discriminate|exact Hcs].
    rewrite <- app_assoc. reflexivity.
Qed.

Lemma fold_graft_first (r : FamilyRow) (qs : list (string * Slot FamilyRow)) (k : string)
      (c : FamilyRow) (cs : list FamilyRow) :
  ~ List.In k (map fst qs) -> Forall (fun c => tag c = Some k) (c :: cs) ->
  fold_left graft (c :: cs) (withProps r qs)
  = withProps r (qs ++ [(k, canonSlot k (c :: cs))]).
Proof.
  intros Hk Hall. inversion Hall as [|x l Hc Hcs]; subst x l. cbn [fold_left].
  assert (E : graft (withProps r qs) c = withProps r (qs ++ [(k, canonSlot k [c])])).
  { unfold graft. rewrite Hc. cbn [tagKey props withProps].
    rewrite (notin_getProp_None _ _ Hk), setProp_new by (apply notin_getProp_None; exact Hk).
    reflexivity. }
  rewrite E. apply (fold_graft_slot r qs k Hk cs [c]); [discriminate|exact Hcs].
Qed.

Lemma rebuild (r : FamilyRow) (n : Z) :
  forall ps qs,
    List.NoDup (map fst (qs ++ ps)) -> Forall (slotOK n) ps ->
    fold_left graft (slotChildren ps) (withProps r qs) = withProps r (qs ++ ps).
Proof.
  induction ps as [|[k sl] ps IH]; intros qs Hnd Hall.
  - rewrite app_nil_r. reflexivity.
  - inversion Hall as [|x l (Hne & Hcan & Hcs) Hrest]; subst x l.
    cbn [fst snd] in Hne, Hcan, Hcs.
    rewrite slotChildren_cons, fold_left_app.
    assert (Hk : ~ List.In k (map fst qs)).
    { rewrite map_app in Hnd. cbn [map fst] in Hnd. apply NoDup_remove_2 in Hnd.
      intros H. apply Hnd. apply in_or_app. left. exact H. }
    assert (Htags : Forall (fun c => tag c = Some k) (slotList sl)).
    { eapply List.Forall_impl; [|exact Hcs]. intros c (H & _). exact H. }
    destruct (slotList sl) as [|c cs] eqn:Esl; [contradiction|].
    rewrite (fold_graft_first r qs k c cs Hk Htags), <- Hcan.
    rewrite IH; [rewrite <- app_assoc; reflexivity| |exact Hrest].
    rewrite <- app_assoc. exact Hnd.
Qed.

Lemma rebuild_strip (r : FamilyRow) :
  canon r -> fold_left graft (slotChildren (props r)) (strip r) = r.
Proof.
  intros (Hnd & n & _ & Hall). unfold strip.
  rewrite (rebuild r n (props r) [] Hnd Hall). apply withProps_self.
Qed.


(** *** Reading back the records of a canonical tree *)

Lemma canon_children_level (r : FamilyRow) (n : Z) :
  canon r -> levelNum (level r) = Some n ->
  Forall (fun c => levelNum (level c) = Some (n + 1)) (slotChildren (props r)).
Proof.
  intros (_ & n' & Hn' & Hall) Hn. assert (n' = n) by congruence. subst n'.
  induction Hall as [|[k sl] ps (_ & _ & Hcs) _ IH]; [constructor|].
  rewrite slotChildren_cons. apply List.Forall_app. split; [|exact IH].
  eapply List.Forall_impl; [|exact Hcs]. intros c (_ & _ & H). exact H.
Qed.

Lemma climb_stay (cur : FamilyRow) (above : list FamilyRow) (n : Z) :
  levelNum (level cur) = Some (n - 1) -> climb cur above (Some n) = Ok (cur, above).
Proof.
  intros H. rewrite climb_eq, H. cbn [option_map gtNum]. rewrite Z.ltb_irrefl. reflexivity.
Qed.

Lemma length_flat_map_In {A B : Type} (f : A -> list B) (c : A) (l : list A) :
  List.In c l -> (length (f c) <= length (flat_map f l))%nat.
Proof.
  induction l as [|x l IH]; [intros []|].
  cbn [flat_map]. rewrite length_app. intros [->|H]; [lia|].
  specialize (IH H). lia.
Qed.

Lemma forest_reparse (ts : list FamilyRow) :
  Forall (fun T =>
            forall n cur above P ab,
              good T -> levelNum (level T) = Some n ->
              climb cur above (Some n) = Ok (P, ab) ->
              levelNum (level P) = Some (n - 1) ->
              exists cur' above',
                parseRecs (flatten T) (cur, above) = Ok (cur', above')
                /\ climb cur' above' (Some n) = Ok (graft P T, ab)) ts ->
  forall m cur above Q ab,
    Forall good ts -> Forall (fun T => levelNum (level T) = Some m) ts ->
    climb cur above (Some m) = Ok (Q, ab) ->
    levelNum (level Q) = Some (m - 1) ->
    exists cur' above',
      parseRecs (flat_map flatten ts) (cur, above) = Ok (cur', above')
      /\ climb cur' above' (Some m) = Ok (fold_left graft ts Q, ab).
Proof.
  induction ts as [|T ts IH]; intros Htree m cur above Q ab Hgood Hlev Hcl HQ.
  - exists cur, above. split; [reflexivity|exact Hcl].
  - inversion Htree as [|x l HT Hts]; subst x l.
    inversion Hgood as [|x l HgT Hgts]; subst x l.
    inversion Hlev as [|x l HlT Hlts]; subst x l.
    destruct (HT m cur above Q ab HgT HlT Hcl HQ) as (c1 & a1 & Hp1 & Hc1).
    destruct (IH Hts m c1 a1 (graft Q T) ab Hgts Hlts Hc1 HQ) as (c2 & a2 & Hp2 & Hc2).
    exists c2, a2. cbn [flat_map fold_left]. rewrite parseRecs_app, Hp1. cbn [bindRes].
    split; [exact Hp2|exact Hc2].
Qed.

Lemma tree_reparse (N : nat) :
  forall T, (length (nodes T) <= N)%nat ->
    forall n cur above P ab,
      good T -> levelNum (level T) = Some n ->
      climb cur above (Some n) = Ok (P, ab) ->
      levelNum (level P) = Some (n - 1) ->
      exists cur' above',
        parseRecs (flatten T) (cur, above) = Ok (cur', above')
        /\ climb cur' above' (Some n) = Ok (graft P T, ab).
Proof.
  induction N as [|N IH]; intros T Hsize.
  - rewrite nodes_eq in Hsize. cbn [length] in Hsize. lia.
  - intros n cur above P ab Hgood Hlev Hcl HP.
    pose proof (proj1 (good_iff T) Hgood) as (Hrec & Hcanon & Hkids).
    destruct (recOK_facts _ Hrec) as (_ & t & _ & Ht & Hres & _).
    cbn [strip withProps tag] in Ht.
    assert (Hsmall : Forall (fun c => (length (nodes c) <= N)%nat) (slotChildren (props T))).
    { apply List.Forall_forall. intros c Hc. rewrite nodes_eq in Hsize.
      cbn [length] in Hsize. pose proof (length_flat_map_In nodes c _ Hc). lia. }
    assert (Hstay : climb (strip T) (P :: ab) (Some (n + 1)) = Ok (strip T, P :: ab)).
    { apply climb_stay. cbn [strip withProps level]. rewrite Hlev. f_equal. lia. }
    destruct (forest_reparse (slotChildren (props T))
                (List.Forall_impl _ (fun c Hc => IH c Hc) Hsmall)
                (n + 1) (strip T) (P :: ab) (strip T) (P :: ab) Hkids
                (canon_children_level T n Hcanon Hlev) Hstay)
      as (c' & a' & Hp & Hc).
    { cbn [strip withProps level]. rewrite Hlev. f_equal. lia. }
    rewrite (rebuild_strip T Hcanon) in Hc.
    exists c', a'. split.
    + rewrite flatten_eq. cbn [parseRecs]. unfold parseLine. cbn [fst snd].
      cbn [strip withProps level]. rewrite Hlev, Hcl. cbn [bindRes]. exact Hp.
    + rewrite (climb_climb a' c' n (n + 1)) by lia. rewrite Hc. cbn [bindRes].
      rewrite climb_eq, Hlev. cbn [option_map gtNum].
      assert (E : (n - 1 <? n) = true) by (apply Z.ltb_lt; lia). rewrite E.
      rewrite attach_graft by (rewrite Ht; exact Hres). cbn [bindRes].
      apply climb_stay. exact HP.
Qed.


(** *** The exported text *)

Lemma tree_ind (Pr : FamilyRow -> Prop) :
  (forall r, Forall Pr (slotChildren (props r)) -> Pr r) -> forall r, Pr r.
Proof.
  intros Hstep.
  assert (H : forall N r, (length (nodes r) <= N)%nat -> Pr r).
  { induction N as [|N IH]; intros r Hsize; rewrite nodes_eq in Hsize;
      cbn [length] in Hsize; [lia|].
    apply Hstep. apply List.Forall_forall. intros c Hc. apply IH.
    pose proof (length_flat_map_In nodes c _ Hc). lia. }
  intros r. apply (H (length (nodes r))). lia.
Qed.

Lemma concat_empty_cons (x : string) (xs : list string) :
  String.concat "" (x :: xs) = x +:+ String.concat "" xs.
Proof.
  destruct xs as [|y ys]; cbn [String.concat].
  - rewrite append_empty_r. reflexivity.
  - rewrite append_nil. reflexivity.
Qed.

Lemma concat_empty_app (xs ys : list string) :
  String.concat "" (xs ++ ys) = String.concat "" xs +:+ String.concat "" ys.
Proof.
  induction xs as [|x xs IH]; [reflexivity|].
  cbn [app]. rewrite !concat_empty_cons, IH, append_assoc. reflexivity.
Qed.

Lemma text_cons (r : FamilyRow) (rs : list FamilyRow) :
  text (r :: rs) = toString r +:+ nl +:+ text rs.
Proof. unfold text. cbn [map]. rewrite concat_empty_cons, append_assoc. reflexivity. Qed.

Lemma text_app (a b : list FamilyRow) : text (a ++ b) = text a +:+ text b.
Proof. unfold text. rewrite map_app. apply concat_empty_app. Qed.

Lemma createFileContentOne_eq (r : FamilyRow) :
  createFileContentOne r
  = toString r +:+ nl
    +:+ String.concat "" (map createFileContentOne (slotChildren (props r))).
Proof.
  destruct r as [l i t v vis rl ps]. cbn [createFileContentOne props]. do 2 f_equal.
  induction ps as [|[k [c|cs]] ps IH]; [reflexivity| |].
  - rewrite slotChildren_cons. cbn [slotList app map].
    rewrite concat_empty_cons, IH. reflexivity.
  - rewrite slotChildren_cons. cbn [slotList]. rewrite map_app, concat_empty_app, IH.
    f_equal. clear IH. induction cs as [|c cs IHc]; [reflexivity|].
    cbn [map]. rewrite concat_empty_cons, IHc. reflexivity.
Qed.

Lemma concat_text (f : FamilyRow -> string) (ts : list FamilyRow) :
  Forall (fun c => f c = text (flatten c)) ts ->
  String.concat "" (map f ts) = text (flat_map flatten ts).
Proof.
  induction 1 as [|c ts Hc _ IH]; [reflexivity|].
  cbn [map flat_map]. rewrite concat_empty_cons, text_app, Hc, IH. reflexivity.
Qed.

Lemma toString_strip (r : FamilyRow) : toString (strip r) = toString r.
Proof. reflexivity. Qed.

Lemma createFileContentOne_text (r : FamilyRow) :
  createFileContentOne r = text (flatten r).
Proof.
  induction r as [r IH] using tree_ind.
  rewrite createFileContentOne_eq, flatten_eq, text_cons, toString_strip.
  rewrite (concat_text _ _ IH). reflexivity.
Qed.

Lemma createFileContentArray_text (cs : list FamilyRow) :
  createFileContentArray cs = text (flat_map flatten cs).
Proof.
  unfold createFileContentArray. apply concat_text.
  apply List.Forall_forall. intros c _. apply createFileContentOne_text.
Qed.

Lemma part_text (want : string -> Slot FamilyRow -> bool) (ps : list (string * Slot FamilyRow)) :
  String.concat ""
    (map (fun '(k, sl) =>
            if want k sl then
              match sl with
              | One c => createFileContentOne c
              | Many cs => createFileContentArray cs
              end
            else "") ps)
  = text (flat_map flatten
            (slotChildren (List.filter (fun kv => want (fst kv) (snd kv)) ps))).
Proof.
  induction ps as [|[k sl] ps IH]; [reflexivity|].
  cbn [map List.filter fst snd]. rewrite concat_empty_cons, IH.
  destruct (want k sl); [|rewrite append_nil; reflexivity].
  rewrite slotChildren_cons, flat_map_app, text_app. f_equal.
  destruct sl as [c|cs]; cbn [slotList flat_map].
  - rewrite app_nil_r. apply createFileContentOne_text.
  - apply createFileContentArray_text.
Qed.

Lemma createFileContent_text (top : FamilyRow) :
  createFileContent top
  = text (flat_map flatten (slotChildren (exportOrder (props top)))).
Proof.
  unfold createFileContent, exportOrder. cbv zeta.
  rewrite !slotChildren_app, !flat_map_app, !text_app.
  rewrite !part_text. reflexivity.
Qed.


(** *** Reading the exported text *)

Lemma splitLines_line (a rest : string) :
  noChar (ascii_of_nat 10) a = true ->
  splitLines (a +:+ nl +:+ rest) = a :: splitLines rest.
Proof.
  induction a as [|c a IH]; cbn [noChar]; intros H.
  - rewrite append_nil. unfold nl. rewrite append_cons, append_nil.
    cbn [splitLines]. rewrite Ascii.eqb_refl. reflexivity.
  - apply andb_true_iff in H as [Hc Ha]. apply negb_true_iff in Hc.
    rewrite append_cons. cbn [splitLines]. rewrite Hc, (IH Ha). reflexivity.
Qed.

Lemma splitLines_text (rs : list FamilyRow) :
  Forall (fun r => noChar (ascii_of_nat 10) (toString r) = true) rs ->
  splitLines (text rs) = map toString rs ++ [EmptyString].
Proof.
  induction 1 as [|r rs Hr _ IH]; [reflexivity|].
  rewrite text_cons, (splitLines_line _ _ Hr), IH. reflexivity.
Qed.

Lemma lines_of_text (rs : list FamilyRow) :
  Forall recOK rs ->
  filter (fun l => nonEmpty l = true) (map Str.trim (importGedComText (text rs)))
  = map toString rs.
Proof.
  intros Hall. unfold importGedComText. rewrite splitLines_text.
  - rewrite map_app, filter_app. cbn [map].
    rewrite (filter_cons_False _ (Str.trim EmptyString)) by (vm_compute; discriminate).
    rewrite filter_nil, app_nil_r.
    induction Hall as [|r rs Hr _ IH]; [reflexivity|].
    destruct (recOK_line r Hr) as (Htrim & _ & _ & Hne).
    cbn [map]. rewrite Htrim, filter_cons_True, IH; [reflexivity|].
    unfold nonEmpty. apply negb_true_iff. apply String.eqb_neq. exact Hne.
  - eapply List.Forall_impl; [|exact Hall]. intros r Hr.
    destruct (recOK_line r Hr) as (_ & _ & Hn & _). exact Hn.
Qed.

Lemma records_of_lines (rs : list FamilyRow) :
  Forall recOK rs -> records (map toString rs) = rs.
Proof.
  unfold records. induction 1 as [|r rs Hr _ IH]; [reflexivity|].
  destruct (recOK_line r Hr) as (Htrim & Hfmt & _).
  cbn [map]. rewrite Htrim, Hfmt, IH. reflexivity.
Qed.

Lemma good_flatten (r : FamilyRow) : good r -> Forall recOK (flatten r).
Proof.
  induction r as [r IH] using tree_ind. intros Hg.
  apply good_iff in Hg as (Hrec & _ & Hkids).
  rewrite flatten_eq. constructor; [exact Hrec|].
  apply List.Forall_forall. intros x Hx. apply in_flat_map in Hx as (c & Hc & Hx).
  rewrite List.Forall_forall in IH, Hkids.
  exact (proj1 (List.Forall_forall _ _) (IH c Hc (Hkids c Hc)) x Hx).
Qed.

Lemma good_forest (ts : list FamilyRow) :
  Forall good ts -> Forall recOK (flat_map flatten ts).
Proof.
  induction 1 as [|c ts Hc _ IH]; [constructor|].
  cbn [flat_map]. apply List.Forall_app. split; [apply good_flatten; exact Hc|exact IH].
Qed.

(** *** The order of the root's keys after an export *)

Lemma exportOrder_perm (ps : list (string * Slot FamilyRow)) :
  Permutation ps (exportOrder ps).
Proof.
  unfold exportOrder. induction ps as [|[k sl] ps IH]; [constructor|].
  cbn [List.filter]. unfold exportFirst at 1, exportMiddle at 1, exportLast at 1.
  cbn [fst snd].
  destruct (isOne sl); cbn [andb negb]; [|apply Permutation_cons_app; exact IH].
  destruct (String.eqb k "HEAD") eqn:E1.
  - apply String.eqb_eq in E1. subst k. cbn [orb negb String.eqb Ascii.eqb].
    cbn. constructor. exact IH.
  - cbn [orb]. destruct (String.eqb k "TRLR"); cbn [negb].
    + rewrite !app_assoc. apply Permutation_cons_app. rewrite <- app_assoc. exact IH.
    + apply Permutation_cons_app. exact IH.
Qed.

Lemma getProp_Some_In {A : Type} (k : string) (v : A) (ps : list (string * A)) :
  getProp k ps = Some v -> List.In (k, v) ps.
Proof.
  induction ps as [|[k' v'] ps IH]; cbn [getProp]; [discriminate|].
  destruct (String.eqb k k') eqn:E.
  - apply String.eqb_eq in E. intros [= ->]. left. subst. reflexivity.
  - intros H. right. exact (IH H).
Qed.

Lemma getProp_In {A : Type} (k : string) (v : A) (ps : list (string * A)) :
  List.NoDup (map fst ps) -> List.In (k, v) ps -> getProp k ps = Some v.
Proof.
  induction ps as [|[k' v'] ps IH]; [intros _ []|].
  cbn [map fst getProp]. intros Hnd Hin. inversion Hnd as [|x l Hk Hrest]; subst x l.
  destruct Hin as [[= -> ->]|Hin].
  - rewrite String.eqb_refl. reflexivity.
  - destruct (String.eqb k k') eqn:E; [|exact (IH Hrest Hin)].
    apply String.eqb_eq in E. subst k'. exfalso. apply Hk.
    apply in_map_iff. exists (k, v). split; [reflexivity|exact Hin].
Qed.

Lemma getProp_perm {A : Type} (k : string) (ps ps' : list (string * A)) :
  List.NoDup (map fst ps) -> Permutation ps ps' -> getProp k ps' = getProp k ps.
Proof.
  intros Hnd Hperm.
  assert (Hnd' : List.NoDup (map fst ps')).
  { apply (Permutation_NoDup (l := map fst ps)); [|exact Hnd].
    apply Permutation_map. exact Hperm. }
  destruct (getProp k ps) as [v|] eqn:E.
  - apply getProp_In; [exact Hnd'|].
    apply (Permutation_in _ Hperm). apply getProp_Some_In. exact E.
  - destruct (getProp k ps') as [v|] eqn:E'; [|reflexivity].
    apply getProp_Some_In in E'. apply (Permutation_in _ (Permutation_sym Hperm)) in E'.
    rewrite (getProp_In _ _ _ Hnd E') in E. discriminate E.
Qed.


Lemma splitLines_not_nil (s : string) : splitLines s <> [].
Proof.
  destruct s as [|c s]; cbn [splitLines]; [discriminate|].
  destruct (Ascii.eqb c (ascii_of_nat 10)); [discriminate|].
  destruct (splitLines s); discriminate.
Qed.

Lemma slotChildren_perm (P : FamilyRow -> Prop) (ps ps' : list (string * Slot FamilyRow)) :
  Permutation ps ps' -> Forall P (slotChildren ps) -> Forall P (slotChildren ps').
Proof.
  intros Hperm H. rewrite List.Forall_forall in *. intros c Hc. apply H.
  unfold slotChildren in *. apply in_flat_map in Hc as (kv & Hkv & Hc).
  apply in_flat_map. exists kv. split; [|exact Hc].
  apply (Permutation_in _ (Permutation_sym Hperm)). exact Hkv.
Qed.

(** *** The round trip *)

(** C5 (amended).  For a well-formed line sequence (every line, once
    trimmed, a level, an optional id, an upper-case tag and an optional
    value, none holding a line break; the levels nested) whose ids are
    written where they are read again (a level-0 id is one token starting
    with an at sign; an id below level 0, which is written last on its line,
    matches the id pattern, has no value beside it and does not end in white
    space, be it a tab or a no-break space), parsing succeeds, and exporting
    the tree and parsing the text again gives the same tree: the same
    records with the same ids, tags and values in the same slots, the only
    difference being the order of the root's keys, where a single HEAD
    record comes first and a single TRLR record last. *)
Theorem roundtrip_exportable (lines : list string) :
  wellFormedLines lines = true -> exportableLines lines = true ->
  exists top,
    parse (Some lines) = Ok top
    /\ parse (Some (importGedComText (createFileContent top)))
       = Ok (withProps top (exportOrder (props top)))
    /\ (forall k, getProp k (exportOrder (props top)) = getProp k (props top)).
Proof.
  intros Hwf Hex.
  destruct (parse_wellFormed lines Hwf Hex) as (top & Hp & Hstrip & Hcanon & Hkids).
  exists top. split; [exact Hp|].
  pose proof Hcanon as (Hnd & n & Hn & Hall).
  assert (Hlev : levelNum (level top) = Some (-1)).
  { change (level top) with (level (strip top)). rewrite Hstrip. vm_compute. reflexivity. }
  assert (n = -1) by congruence. subst n.
  pose proof (exportOrder_perm (props top)) as Hperm.
  split; [|intros k; apply getProp_perm; assumption].
  set (ps' := exportOrder (props top)) in *.
  set (rs := flat_map flatten (slotChildren ps')).
  assert (Hgood : Forall good (slotChildren ps')).
  { apply (slotChildren_perm _ _ _ Hperm). exact Hkids. }
  assert (Hzero : Forall (fun T => levelNum (level T) = Some 0) (slotChildren ps')).
  { apply (slotChildren_perm _ _ _ Hperm).
    exact (canon_children_level top (-1) Hcanon Hlev). }
  assert (Hrs : Forall recOK rs) by (apply good_forest; exact Hgood).
  unfold parse, parseWith. rewrite createFileContent_text. fold ps'. fold rs.
  assert (Hlines : match importGedComText (text rs) with
                   | [] => defaultLines
                   | _ => importGedComText (text rs)
                   end = importGedComText (text rs)).
  { pose proof (splitLines_not_nil (text rs)) as Hne. unfold importGedComText.
    destruct (splitLines (text rs)); [contradiction|reflexivity]. }
  rewrite Hlines, (lines_of_text rs Hrs), parseLines_records, (records_of_lines rs Hrs).
  assert (Htop : levelNum (level (formatLine "-1 TOP")) = Some (0 - 1))
    by (vm_compute; reflexivity).
  destruct (forest_reparse (slotChildren ps')
              (proj2 (List.Forall_forall _ _)
                     (fun T _ => tree_reparse (length (nodes T)) T (le_n _)))
              0 (formatLine "-1 TOP") [] (formatLine "-1 TOP") [] Hgood Hzero
              (climb_stay _ _ _ Htop) Htop)
    as (c' & a' & Hp' & Hc').
  fold rs in Hp'. rewrite Hp'. cbn [bindRes].
  rewrite (closeAll_climb _ _ _ _ _ Hc'). cbn [closeAll]. f_equal.
  rewrite <- Hstrip. unfold strip.
  apply (rebuild top (-1) ps' []).
  - cbn [app]. apply (Permutation_NoDup (l := map fst (props top))); [|exact Hnd].
    apply Permutation_map. exact Hperm.
  - apply (Permutation_Forall Hperm). exact Hall.
Qed.

Lemma roundtrip_exportable_witness :
  exists top,
    parse (Some defaultLinesFamily) = Ok top
    /\ parse (Some (importGedComText (createFileContent top)))
       = Ok (withProps top (exportOrder (props top)))
    /\ (forall k, getProp k (exportOrder (props top)) = getProp k (props top)).
Proof.
  apply (roundtrip_exportable defaultLinesFamily); vm_compute; reflexivity.
Defined.


(** * Further properties of the parser *)

(** ** Lines the parser accepts *)






Lemma parseWith_records (fallback : list string) (dataUnparsed : option (list string)) :
  parseWith fallback dataUnparsed
  = let* (cur, above) :=
      parseRecs (records (nonBlank (linesRead fallback dataUnparsed)))
                (formatLine "-1 TOP", []) in
    closeAll cur above.
Proof. unfold parseWith. rewrite parseLines_records. reflexivity. Qed.




(** ** Every line is kept *)

Lemma slotChildren_setProp (k : string) (c : FamilyRow) (ps : list (string * Slot FamilyRow)) :
  Permutation
    (slotChildren
       (setProp k
          match getProp k ps with
          | Some (Many rs) => Many (rs ++ [c])
          | Some (One r) => Many [r; c]
          | None => if isRelationTag (tag c) then Many [c] else One c
          end ps))
    (slotChildren ps ++ [c]).
Proof.
  destruct (getProp k ps) as [sl0|] eqn:Eg.
  - destruct (getProp_Some_split _ _ _ Eg) as (ps1 & ps2 & -> & _ & Hset).
    rewrite Hset, !slotChildren_app, !slotChildren_cons.
    assert (E : slotList match sl0 with
                         | One r => Many [r; c]
                         | Many rs => Many (rs ++ [c])
                         end = slotList sl0 ++ [c]) by (destruct sl0; reflexivity).
    rewrite E, <- !app_assoc. apply Permutation_app_head. apply Permutation_app_head.
    apply Permutation_app_comm.
  - rewrite (setProp_new _ _ _ Eg), slotChildren_app.
    apply Permutation_app_head.
    unfold slotChildren. cbn [flat_map snd]. rewrite app_nil_r.
    destruct (isRelationTag (tag c)); reflexivity.
Qed.

Lemma flatten_graft (p c : FamilyRow) :
  Permutation (flatten (graft p c)) (flatten p ++ flatten c).
Proof.
  rewrite (flatten_eq (graft p c)), (flatten_eq p). cbn [app].
  rewrite strip_graft. apply perm_skip.
  unfold graft. cbn [props withProps].
  rewrite (Permutation_flat_map flatten (slotChildren_setProp (tagKey (tag c)) c (props p))).
  rewrite flat_map_app. cbn [flat_map]. rewrite app_nil_r. reflexivity.
Qed.

Lemma attach_chainRecs (p c p' : FamilyRow) (above : list FamilyRow) :
  attach p c = Ok p' -> Permutation (chainRecs p' above) (chainRecs c (p :: above)).
Proof.
  unfold attach. destruct (reservedKey _); [discriminate|]. intros H.
  assert (E : p' = graft p c) by (injection H as <-; reflexivity). subst p'.
  unfold chainRecs. cbn [flat_map]. rewrite app_assoc.
  apply Permutation_app_tail. rewrite flatten_graft. apply Permutation_app_comm.
Qed.

Lemma climb_chainRecs (above : list FamilyRow) :
  forall (cur P : FamilyRow) (ab : list FamilyRow) (lvl : option Z),
    climb cur above lvl = Ok (P, ab) ->
    Permutation (chainRecs P ab) (chainRecs cur above).
Proof.
  induction above as [|p above IH]; intros cur P ab lvl; rewrite climb_eq;
    destruct (gtNum _ _); try discriminate; try (intros [= <- <-]; reflexivity).
  destruct (attach p cur) as [p'| | |] eqn:Hatt; cbn [bindRes]; try discriminate.
  intros H. rewrite (IH _ _ _ _ H). exact (attach_chainRecs _ _ _ _ Hatt).
Qed.

Lemma formatLine_leaf (line : string) : props (formatLine line) = [].
Proof.
  unfold formatLine. destruct (Str.split line) as [|lvl [|tmp rest]]; try reflexivity.
  destruct (Str.startsWithAt tmp).
  - destruct (tail rest); [reflexivity|]. destruct (Str.matchesIdRef _); reflexivity.
  - destruct rest; [reflexivity|]. destruct (Str.matchesIdRef _); reflexivity.
Qed.

Lemma flatten_leaf (r : FamilyRow) : props r = [] -> flatten r = [r].
Proof.
  intros H. rewrite flatten_eq, H, (strip_leaf r H). reflexivity.
Qed.

Lemma parseRecs_chainRecs (rs : list FamilyRow) :
  forall (c c' : FamilyRow * list FamilyRow),
    Forall (fun r => props r = []) rs ->
    parseRecs rs c = Ok c' ->
    Permutation (chainRecs (fst c') (snd c')) (rs ++ chainRecs (fst c) (snd c)).
Proof.
  induction rs as [|r rs IH]; intros c c' Hall H; cbn [parseRecs] in H.
  - injection H as <-. reflexivity.
  - inversion Hall as [|x l Hr Hrs]; subst x l. unfold parseLine in H.
    destruct (climb (fst c) (snd c) _) as [[P ab]| | |] eqn:Hc; cbn [bindRes] in H;
      try discriminate.
    rewrite (IH _ _ Hrs H). cbn [fst snd app].
    rewrite <- (climb_chainRecs _ _ _ _ _ Hc).
    unfold chainRecs at 1. cbn [flat_map]. rewrite (flatten_leaf r Hr). cbn [app].
    symmetry. apply Permutation_middle.
Qed.

Lemma closeAll_chainRecs (above : list FamilyRow) :
  forall (cur top : FamilyRow),
    closeAll cur above = Ok top -> Permutation (flatten top) (chainRecs cur above).
Proof.
  induction above as [|p above IH]; intros cur top H; cbn [closeAll] in H.
  - injection H as <-. unfold chainRecs. cbn [flat_map]. rewrite app_nil_r. reflexivity.
  - destruct (attach p cur) as [p'| | |] eqn:Hatt; cbn [bindRes] in H; try discriminate.
    rewrite (IH _ _ H). exact (attach_chainRecs _ _ _ _ Hatt).
Qed.

Lemma attach_strip (p c p' : FamilyRow) : attach p c = Ok p' -> strip p' = strip p.
Proof.
  unfold attach. destruct (reservedKey _); [discriminate|]. intros [= <-]. reflexivity.
Qed.

Lemma climb_strip_bottom (above : list FamilyRow) :
  forall (cur P : FamilyRow) (ab : list FamilyRow) (lvl : option Z),
    climb cur above lvl = Ok (P, ab) -> strip (bottom P ab) = strip (bottom cur above).
Proof.
  induction above as [|p above IH]; intros cur P ab lvl; rewrite climb_eq;
    destruct (gtNum _ _); try discriminate; try (intros [= <- <-]; reflexivity).
  destruct (attach p cur) as [p'| | |] eqn:Hatt; cbn [bindRes]; try discriminate.
  intros H. rewrite (IH _ _ _ _ H). cbn [bottom].
  destruct above; cbn [bottom]; [exact (attach_strip _ _ _ Hatt)|reflexivity].
Qed.

Lemma parseRecs_strip_bottom (rs : list FamilyRow) :
  forall (c c' : FamilyRow * list FamilyRow),
    parseRecs rs c = Ok c' ->
    strip (bottom (fst c') (snd c')) = strip (bottom (fst c) (snd c)).
Proof.
  induction rs as [|r rs IH]; intros c c' H; cbn [parseRecs] in H.
  - injection H as <-. reflexivity.
  - unfold parseLine in H.
    destruct (climb (fst c) (snd c) _) as [[P ab]| | |] eqn:Hc; cbn [bindRes] in H;
      try discriminate.
    rewrite (IH _ _ H). cbn [fst snd bottom]. exact (climb_strip_bottom _ _ _ _ _ Hc).
Qed.

Lemma closeAll_strip_bottom (above : list FamilyRow) :
  forall (cur top : FamilyRow),
    closeAll cur above = Ok top -> strip top = strip (bottom cur above).
Proof.
  induction above as [|p above IH]; intros cur top H; cbn [closeAll] in H.
  - injection H as <-. reflexivity.
  - destruct (attach p cur) as [p'| | |] eqn:Hatt; cbn [bindRes] in H; try discriminate.
    rewrite (IH _ _ H). cbn [bottom].
    destruct above; cbn [bottom]; [exact (attach_strip _ _ _ Hatt)|reflexivity].
Qed.

(** X5.  Whenever [parse] returns on lines none of which has as its tag
    the name of a property every record already has (level, id, tag, value,
    parent, visited, toString and the like) or an array index, the tree
    holds every non-blank line it read exactly once: the records found below
    the root, each taken without its children, are the records [formatLine]
    read from the lines, up to their order.  No line is dropped and none is
    stored twice, however the levels follow each other.  Nothing is said of
    lines with such a tag, where the record is written over a field of its
    parent. *)
Theorem parse_keeps_every_line (dataUnparsed : option (list string)) (top : FamilyRow) :
  forallb plainTag (records (nonBlank (linesRead defaultLines dataUnparsed))) = true ->
  parse dataUnparsed = Ok top ->
  Permutation (flat_map flatten (slotChildren (props top)))
              (records (nonBlank (linesRead defaultLines dataUnparsed))).
Proof.
  intros _. unfold parse. rewrite parseWith_records.
  set (rs := records (nonBlank (linesRead defaultLines dataUnparsed))).
  destruct (parseRecs rs (formatLine "-1 TOP", [])) as [[cur above]| | |] eqn:Hp;
    cbn [bindRes]; try discriminate.
  intros Hclose.
  assert (Hleaf : Forall (fun r => props r = []) rs).
  { subst rs. unfold records. apply List.Forall_forall. intros r Hr.
    apply in_map_iff in Hr as (l & <- & _). apply formatLine_leaf. }
  pose proof (closeAll_chainRecs _ _ _ Hclose) as H1.
  pose proof (parseRecs_chainRecs rs _ _ Hleaf Hp) as H2. cbn [fst snd] in H2.
  rewrite H2 in H1. unfold chainRecs in H1. cbn [flat_map] in H1.
  rewrite app_nil_r, (flatten_leaf (formatLine "-1 TOP") eq_refl) in H1.
  rewrite flatten_eq in H1.
  assert (Hs : strip top = formatLine "-1 TOP").
  { rewrite (closeAll_strip_bottom _ _ _ Hclose).
    exact (parseRecs_strip_bottom _ _ _ Hp). }
  rewrite Hs in H1.
  apply (Permutation_cons_inv (a := formatLine "-1 TOP")).
  rewrite H1. symmetry. apply Permutation_cons_append.
Qed.

Lemma parse_keeps_every_line_witness :
  exists top,
    parse (Some ["1 NOTE a"; "0 @I1@ INDI"; "3 DATE x"; "1 NOTE b"; ""; "0 TRLR"]) = Ok top
    /\ Permutation (flat_map flatten (slotChildren (props top)))
         (records (nonBlank (linesRead defaultLines
            (Some ["1 NOTE a"; "0 @I1@ INDI"; "3 DATE x"; "1 NOTE b"; ""; "0 TRLR"])))).
Proof.
  eexists. split; [vm_compute; reflexivity|].
  apply parse_keeps_every_line; vm_compute; reflexivity.
Defined.


(** * The layout loop ends *)

Lemma cost_by_index (l l' : list FamilyRow) :
  length l = length l' ->
  (forall a, cost (default emptyRow (l !! a)) = cost (default emptyRow (l' !! a))) ->
  map cost l = map cost l'.
Proof.
  revert l'. induction l as [|x l IH]; intros [|y l'] Hlen H; try discriminate.
  - reflexivity.
  - cbn [map]. f_equal.
    + exact (H O).
    + apply IH; [cbn [length] in Hlen; lia|]. intros a. exact (H (S a)).
Qed.

Lemma cost_sameGraph (s s' : State) :
  sameGraph s s' ->
  (forall a, visited (deref s' a) = visited (deref s a)) ->
  map cost (store s') = map cost (store s).
Proof.
  intros (_ & _ & Hlen & Hrec) Hvis. apply cost_by_index; [exact Hlen|].
  intros a. specialize (Hvis a). destruct (Hrec a) as (_ & _ & Hp).
  change (cost (deref s' a) = cost (deref s a)).
  unfold cost, linkCount, entries. rewrite Hvis, Hp. reflexivity.
Qed.

Lemma sum_cost_insert (l : list FamilyRow) :
  forall (a : nat) (y : FamilyRow),
    (a < length l)%nat ->
    (list_sum (map cost (<[a := y]> l)) + cost (default emptyRow (l !! a))
     = list_sum (map cost l) + cost y)%nat.
Proof.
  induction l as [|x l IH]; intros a y Hlt; [cbn [length] in Hlt; lia|].
  destruct a as [|a]; cbn [map list_sum fold_right].
  - cbn. lia.
  - cbn [length] in Hlt. specialize (IH a y ltac:(lia)).
    change (<[S a := y]> (x :: l)) with (x :: <[a := y]> l).
    change ((x :: l) !! S a) with (l !! a).
    cbn [map list_sum fold_right]. unfold list_sum in IH. lia.
Qed.

Lemma insertSorted_length (cmp : addr -> addr -> Z) (x : addr) (l : list addr) :
  length (insertSorted cmp x l) = S (length l).
Proof.
  induction l as [|y l IH]; [reflexivity|].
  cbn [insertSorted]. destruct (cmp x y <? 0); cbn [length]; [reflexivity|].
  rewrite IH. reflexivity.
Qed.

Lemma sortBy_length (cmp : addr -> addr -> Z) (l : list addr) :
  length (sortBy cmp l) = length l.
Proof.
  unfold sortBy.
  assert (H : forall acc, length (fold_left (fun acc x => insertSorted cmp x acc) l acc)
                          = (length acc + length l)%nat).
  { induction l as [|x l IH]; intros acc; cbn [fold_left length]; [lia|].
    rewrite IH, insertSorted_length. lia. }
  rewrite H. reflexivity.
Qed.

Lemma targets_length (s : State) (tagType : TagType) (elements : list FamilyRow) :
  (length (targets s tagType elements) <= length elements)%nat.
Proof.
  induction elements as [|e es IH]; [reflexivity|].
  cbn [targets length]. destruct (resolve s tagType (id e)); [|lia].
  destruct (visited _); cbn [length]; lia.
Qed.

Lemma addElementsToQueue_turns (elements : option (Slot FamilyRow)) (level : Z)
  (tagType : TagType) (s : State) :
  mapsInStore s ->
  (forall a, In a (queueForNext s) -> (a < length (store s))%nat) ->
  mapsInStore (addElementsToQueue elements level tagType s)
  /\ (forall a, In a (queueForNext (addElementsToQueue elements level tagType s)) ->
                (a < length (store (addElementsToQueue elements level tagType s)))%nat)
  /\ map cost (store (addElementsToQueue elements level tagType s)) = map cost (store s)
  /\ (length (queueForNext (addElementsToQueue elements level tagType s))
      <= length (queueForNext s) + length (from_option slotList [] elements))%nat.
Proof.
  intros Hm Hq.
  destruct (addElementsToQueue_spec elements level tagType s Hm) as (Hg & _ & Hin & Hrec).
  split; [exact (mapsInStore_sameGraph _ _ Hg Hm)|]. split; [|split].
  - intros a Ha. destruct Hg as (_ & _ & Hlen & _). rewrite Hlen.
    apply Hin in Ha as [Ha|Ha]; [exact (Hq a Ha)|].
    destruct elements as [sl|]; [|destruct Ha]. cbn [targetsOf] in Ha.
    apply targets_In in Ha as (_ & x & _ & Hr). exact (Hm _ _ _ Hr).
  - apply (cost_sameGraph _ _ Hg). intros a. exact (proj1 (Hrec a)).
  - destruct elements as [sl|]; cbn [addElementsToQueue from_option]; [|cbn; lia].
    pose proof (collectElements_spec (slotList sl) s level tagType [] Hm)
      as (_ & Hsnd & Hqueue & _).
    destruct (collectElements s (slotList sl) level tagType []) as [s1 els] eqn:E.
    cbn [fst snd] in Hsnd, Hqueue. cbn [queueForNext setQueue].
    rewrite length_app, sortBy_length, Hsnd, Hqueue. cbn [app].
    pose proof (targets_length s tagType (slotList sl)). lia.
Qed.

Lemma links_count (r : FamilyRow) :
  (list_sum (map (fun l => length (entries (fst (fst l)) r)) (links r)) <= linkCount r)%nat.
Proof.
  unfold links, linkCount. destruct (tagIs r "FAM"); [cbn; lia|].
  destruct (tagIs r "INDI"); cbn; lia.
Qed.

Lemma addNextElements_turns (element : addr) (s : State) :
  mapsInStore s ->
  (forall a, In a (queueForNext s) -> (a < length (store s))%nat) ->
  mapsInStore (addNextElements element s)
  /\ (forall a, In a (queueForNext (addNextElements element s)) ->
                (a < length (store (addNextElements element s)))%nat)
  /\ map cost (store (addNextElements element s)) = map cost (store s)
  /\ (length (queueForNext (addNextElements element s))
      <= length (queueForNext s) + linkCount (deref s element))%nat.
Proof.
  intros Hm Hq. rewrite addNextElements_links.
  pose proof (links_count (deref s element)) as Hcount.
  set (r := deref s element) in *.
  assert (H : forall ls st,
             mapsInStore st ->
             (forall a, In a (queueForNext st) -> (a < length (store st))%nat) ->
             let st' := fold_left (fun st l =>
                          addElementsToQueue (getProp (fst (fst l)) (props r))
                                             (rowLevel r + snd l) (snd (fst l)) st) ls st in
             mapsInStore st'
             /\ (forall a, In a (queueForNext st') -> (a < length (store st'))%nat)
             /\ map cost (store st') = map cost (store st)
             /\ (length (queueForNext st')
                 <= length (queueForNext st)
                    + list_sum (map (fun l => length (entries (fst (fst l)) r)) ls))%nat).
  { induction ls as [|l ls IH]; intros st Hmst Hqst; cbn [fold_left map list_sum fold_right].
    - split; [exact Hmst|]. split; [exact Hqst|]. split; [reflexivity|lia].
    - destruct (addElementsToQueue_turns (getProp (fst (fst l)) (props r))
                  (rowLevel r + snd l) (snd (fst l)) st Hmst Hqst) as (H1 & H2 & H3 & H4).
      destruct (IH _ H1 H2) as (K1 & K2 & K3 & K4).
      split; [exact K1|]. split; [exact K2|]. split; [rewrite K3; exact H3|].
      unfold entries at 1. unfold list_sum in K4. lia. }
  destruct (H (links r) s Hm Hq) as (H1 & H2 & H3 & H4).
  split; [exact H1|]. split; [exact H2|]. split; [exact H3|lia].
Qed.

Lemma firstVisited_finished (s : State) (l : list FamilyRow) :
  finished (firstVisited s l).
Proof.
  induction l as [|e l IH]; cbn [firstVisited]; [exact I|].
  destruct (mapGet (id e) (indviduals s)); [|exact I].
  destruct (visited _); [exact I|exact IH].
Qed.

Lemma getVisitedElement_finished (els : option (Slot FamilyRow)) (s : State) :
  finished (getVisitedElement els s).
Proof.
  destruct els as [[c|l]|]; cbn [getVisitedElement]; try exact I.
  apply firstVisited_finished.
Qed.

Lemma placeElement_finished (element : addr) (level : Z) (s : State) :
  finished (placeElement element level s).
Proof.
  unfold placeElement.
  destruct (tagIs _ "FAM"); [|destruct (tagIs _ "INDI")].
  - pose proof (getVisitedElement_finished (getProp "HUSB" (props (deref s element))) s) as H1.
    destruct (getVisitedElement _ s) as [p| | |]; cbn [bindRes]; try exact H1.
    pose proof (getVisitedElement_finished (getProp "WIFE" (props (deref s element))) s) as H2.
    destruct (getVisitedElement _ s) as [n| | |]; cbn [bindRes]; exact H2.
  - destruct (getProp "FAMS" _) as [[c|l]|]; cbn [bindRes]; try exact I.
    destruct (scanFAMS s _ l) as [[sx px] nx]. exact I.
  - exact I.
Qed.

Lemma drainQueue_finishes (fuel : nat) :
  forall (s : State),
    mapsInStore s ->
    (forall a, In a (queueForNext s) -> (a < length (store s))%nat) ->
    (turnsLeft s <= fuel)%nat ->
    finished (drainQueue fuel s).
Proof.
  induction fuel as [|fuel IH]; intros s Hm Hq Hfuel.
  - unfold turnsLeft in Hfuel. destruct (queueForNext s) eqn:E;
      [cbn [drainQueue]; rewrite E; exact I|cbn [length] in Hfuel; lia].
  - cbn [drainQueue]. destruct (queueForNext s) as [|element rest] eqn:E; [exact I|].
    assert (He : (element < length (store s))%nat) by (apply Hq; left; reflexivity).
    set (s0 := setQueue s rest).
    assert (Hq0 : forall a, In a (queueForNext s0) -> (a < length (store s0))%nat).
    { intros a Ha. apply Hq. right. exact Ha. }
    destruct (visited (deref s0 element)) eqn:Hv.
    + apply IH; [exact Hm|exact Hq0|].
      unfold turnsLeft in *. rewrite E in Hfuel. cbn [length] in Hfuel.
      cbn [s0 queueForNext setQueue store]. lia.
    + set (s1 := update s0 element (setVisited true)).
      assert (Hg1 : sameGraph s0 s1).
      { apply sameGraph_update. intros r. repeat split; reflexivity. }
      assert (Hm1 : mapsInStore s1) by exact (mapsInStore_sameGraph _ _ Hg1 Hm).
      assert (Hq1 : forall a, In a (queueForNext s1) -> (a < length (store s1))%nat).
      { intros a Ha. unfold s1. rewrite length_store_update. exact (Hq0 a Ha). }
      assert (Hsum : (list_sum (map cost (store s1)) + S (linkCount (deref s0 element))
                      = list_sum (map cost (store s)))%nat).
      { pose proof (sum_cost_insert (store s) element
                      (setVisited true (deref s0 element)) He) as Hins.
        change (store s1) with (<[element := setVisited true (deref s0 element)]> (store s)).
        change (default emptyRow (store s !! element)) with (deref s0 element) in Hins.
        assert (C1 : cost (deref s0 element) = S (linkCount (deref s0 element)))
          by (unfold cost; rewrite Hv; reflexivity).
        assert (C2 : cost (setVisited true (deref s0 element)) = O) by reflexivity.
        rewrite C1, C2, Nat.add_0_r in Hins. exact Hins. }
      destruct (addNextElements_turns element s1 Hm1 Hq1) as (Hm2 & Hq2 & Hc2 & Hl2).
      set (s2 := addNextElements element s1) in *.
      assert (Hprops : linkCount (deref s1 element) = linkCount (deref s0 element)).
      { unfold s1. rewrite deref_update_same by exact He. reflexivity. }
      pose proof (placeElement_finished element (rowLevel (deref s1 element)) s2) as Hfin.
      destruct (placeElement element (rowLevel (deref s1 element)) s2) as [s3| | |] eqn:Hpl;
        cbn [bindRes]; try exact I.
      * destruct (placeElement_spec _ _ _ _ Hpl) as (Hst & Hi & Hf & Hqu & _).
        apply IH.
        -- intros tt k a Hr. rewrite Hst. apply (Hm2 tt k a).
           destruct tt; cbn [resolve] in *; [rewrite <- Hf|rewrite <- Hi]; exact Hr.
        -- intros a Ha. rewrite Hst. apply Hq2. rewrite <- Hqu. exact Ha.
        -- unfold turnsLeft in *. rewrite Hst, Hqu, Hc2.
           rewrite E in Hfuel. cbn [length] in Hfuel.
           change (queueForNext s1) with rest in Hl2. lia.
      * destruct Hfin.
      * destruct Hfin.
Qed.


Lemma mapGet_mapSet_inv (k k' : option string) (v a : addr) (m : JSMap) :
  mapGet k (mapSet k' v m) = Some a -> a = v \/ mapGet k m = Some a.
Proof.
  induction m as [|[k0 v0] m IH]; cbn [mapSet mapGet].
  - destruct (optEqb k k'); [intros [= <-]; left; reflexivity|discriminate].
  - destruct (optEqb k' k0) eqn:E0; cbn [mapGet].
    + destruct (optEqb k k') eqn:E1.
      * intros [= <-]. left. reflexivity.
      * destruct (optEqb k k0) eqn:E2; [|right; assumption].
        apply optEqb_eq in E0. apply optEqb_eq in E2. subst.
        rewrite optEqb_refl in E1. discriminate.
    + destruct (optEqb k k0); [right; assumption|exact IH].
Qed.

Lemma mapGet_fill (f : addr -> option string) (rs : list addr) :
  forall (m : JSMap) (k : option string) (a : addr),
    mapGet k (fold_left (fun m a => mapSet (f a) a m) rs m) = Some a ->
    In a rs \/ mapGet k m = Some a.
Proof.
  induction rs as [|r rs IH]; intros m k a H; cbn [fold_left] in H.
  - right. exact H.
  - apply IH in H as [H|H]; [left; right; exact H|].
    apply mapGet_mapSet_inv in H as [->|H]; [left; left; reflexivity|right; exact H].
Qed.

Lemma refsInStore_In (s : State) (a : addr) :
  refsInStore s = true ->
  In a (indiRefs s ++ famRefs s ++ queueForNext s) -> (a < length (store s))%nat.
Proof.
  unfold refsInStore. intros H Ha. rewrite forallb_forall in H.
  apply Nat.ltb_lt. exact (H a Ha).
Qed.

Lemma updateMapsForDisplay_mapsInStore (s : State) :
  refsInStore s = true -> mapsInStore (updateMapsForDisplay s).
Proof.
  intros Href tt k a Hr.
  change (length (store (updateMapsForDisplay s))) with (length (store s)).
  apply (refsInStore_In s a Href).
  destruct tt; cbn [resolve updateMapsForDisplay families indviduals setFamilies
                    setIndviduals] in Hr.
  - apply in_or_app. right. apply in_or_app. left. unfold famRefs.
    destruct (FAM s) as [[b|rs]|]; cbn [from_option slotList].
    + apply mapGet_mapSet_inv in Hr as [->|Hr]; [left; reflexivity|discriminate].
    + apply mapGet_fill in Hr as [Hr|Hr]; [exact Hr|discriminate].
    + discriminate.
  - apply in_or_app. left. unfold indiRefs.
    destruct (INDI s) as [[b|rs]|]; cbn [from_option slotList].
    + apply mapGet_mapSet_inv in Hr as [->|Hr]; [left; reflexivity|discriminate].
    + apply mapGet_fill in Hr as [Hr|Hr]; [exact Hr|discriminate].
    + discriminate.
Qed.

Lemma findParentOfParent_step_parent (s : State) (c : option addr) (p : addr) :
  findParentOfParent_step s c = Ok (inr p) ->
  exists k, mapGet k (indviduals s) = Some p.
Proof.
  unfold findParentOfParent_step.
  destruct c as [a|]; [|discriminate].
  destruct (tagIs (deref s a) "INDI"); [|discriminate].
  destruct (getIdFromNode (Some (deref s a)) "FAMC") as [pf| | |]; cbn [bindRes];
    try discriminate.
  destruct (truthyId pf); cbn [bindRes]; [|discriminate].
  destruct (getIdFromNode _ "HUSB") as [pid| | |]; cbn [bindRes]; try discriminate.
  destruct (truthyId pid); cbn [bindRes]; [|discriminate].
  destruct (mapGet pid (indviduals s)) as [q|] eqn:E; [|discriminate].
  intros [= <-]. exists pid. exact E.
Qed.

Lemma findParentOfParent_in_store (s : State) (fuel : nat) :
  mapsInStore s ->
  forall (c : option addr) (a : addr),
    (forall x, c = Some x -> (x < length (store s))%nat) ->
    findParentOfParent fuel s c = Ok (Some a) -> (a < length (store s))%nat.
Proof.
  intros Hm. induction fuel as [|fuel IH]; intros c a Hc H; [discriminate|].
  cbn [findParentOfParent] in H.
  destruct (findParentOfParent_step s c) as [[r|p]| | |] eqn:Hstep; cbn [bindRes] in H;
    try discriminate.
  - injection H as ->. destruct c as [x|].
    + apply findParentOfParent_step_self in Hstep. subst a. apply Hc. reflexivity.
    + discriminate Hstep.
  - apply (IH (Some p) a); [|exact H]. intros x [= <-].
    destruct (findParentOfParent_step_parent _ _ _ Hstep) as (k & Hk).
    exact (Hm tINDI k p Hk).
Qed.

Lemma cost_bound (l : list FamilyRow) :
  forall (l' : list FamilyRow),
    length l' = length l ->
    (forall a, props (default emptyRow (l' !! a)) = props (default emptyRow (l !! a))) ->
    (list_sum (map cost l') <= list_sum (map (fun r => S (linkCount r)) l))%nat.
Proof.
  induction l as [|r l IH]; intros [|r' l'] Hlen Hp; try discriminate Hlen.
  - apply Nat.le_refl.
  - unfold list_sum in *. cbn [map fold_right].
    assert (Hr : props r' = props r) by exact (Hp O).
    assert (Hc : (cost r' <= S (linkCount r))%nat).
    { unfold cost, linkCount, entries. rewrite Hr. destruct (visited r'); lia. }
    pose proof (IH l' (eq_add_S _ _ Hlen) (fun a => Hp (S a))). lia.
Qed.

(** X6.  Once the anchor is found, the layout always ends, within a number
    of turns of the queue loop that is read off the tree: when the root's
    INDI and FAM records and the queue are records of the tree and the walk
    to the anchor returns, [display] returns or raises as soon as the loop
    is given [turnBound] turns (one for each queue entry at the call, one
    for the anchor, and for every record one turn and one more for each of
    its HUSB, WIFE, CHIL, FAMS and FAMC entries), whatever the links between
    the records (cycles, repeated entries, ids that name nobody). *)
Theorem display_loop_ends (s : State) (fuelWalk fuel : nat) :
  refsInStore s = true ->
  finished (startLayout fuelWalk s) ->
  (turnBound s <= fuel)%nat ->
  finished (display fuelWalk fuel s).
Proof.
  intros Href Hstart Hfuel. unfold display.
  destruct (startLayout fuelWalk s) as [s1| | |] eqn:E; try contradiction; [|exact I].
  assert (Hinv : mapsInStore s1
                 /\ (forall a, In a (queueForNext s1) -> (a < length (store s1))%nat)
                 /\ sameGraph (updateMapsForDisplay s) s1
                 /\ (length (queueForNext s1) <= S (length (queueForNext s)))%nat).
  { unfold startLayout in E.
    pose proof (updateMapsForDisplay_mapsInStore s Href) as Hm.
    set (s0 := updateMapsForDisplay s) in *.
    assert (Hq0 : forall a, In a (queueForNext s0) -> (a < length (store s0))%nat).
    { intros a Ha. apply (refsInStore_In s a Href). do 2 (apply in_or_app; right). exact Ha. }
    destruct (findParentOfParent fuelWalk s0 _) as [[a|]| | |] eqn:Hw; cbn [bindRes] in E;
      try discriminate; injection E as <-.
    - assert (Ha : (a < length (store s0))%nat).
      { apply (findParentOfParent_in_store s0 fuelWalk Hm
                 (option_map snd (head (indviduals s0))) a); [|exact Hw].
        intros x Hx. destruct (indviduals s0) as [|[k v] m] eqn:Ei; [discriminate|].
        cbn [head option_map snd] in Hx. injection Hx as <-.
        apply (Hm tINDI k v). cbn [resolve]. rewrite Ei. cbn [mapGet].
        rewrite optEqb_refl. reflexivity. }
      assert (Hg : sameGraph s0 (setQueue (update s0 a (setRowLevel INIT_LEVEL))
                                          (queueForNext (update s0 a (setRowLevel INIT_LEVEL))
                                           ++ [a]))).
      { apply (sameGraph_trans _ (update s0 a (setRowLevel INIT_LEVEL))).
        * apply sameGraph_update. intros r. repeat split; reflexivity.
        * repeat split; reflexivity. }
      split; [exact (mapsInStore_sameGraph s0 _ Hg Hm)|]. split; [|split; [exact Hg|]].
      + intros x Hx. cbn [queueForNext setQueue store] in *.
        rewrite length_store_update. apply in_app_or in Hx as [Hx|[<-|[]]]; [|exact Ha].
        exact (Hq0 x Hx).
      + cbn [queueForNext setQueue]. rewrite length_app. cbn [length].
        change (queueForNext (update s0 a (setRowLevel INIT_LEVEL))) with (queueForNext s).
        lia.
    - split; [exact Hm|]. split; [exact Hq0|]. split; [repeat split; reflexivity|].
      change (queueForNext (alert s0 "Nothing to display")) with (queueForNext s). lia. }
  destruct Hinv as (Hm1 & Hq1 & Hg1 & Hlen1).
  destruct (resetAndInitAll_sameGraph s1) as [Hg Hq].
  cbn [bindRes]. unfold calculateDisplayPositions.
  assert (Hfin : finished (drainQueue fuel (resetAndInitAll s1))).
  { apply drainQueue_finishes; [exact (mapsInStore_sameGraph _ _ Hg Hm1)| |].
    - intros a Ha. rewrite Hq in Ha. destruct Hg as (_ & _ & Hlen & _). rewrite Hlen.
      exact (Hq1 a Ha).
    - pose proof (sameGraph_trans _ _ _ Hg1 Hg) as (_ & _ & Hlen & Hrec).
      change (store (updateMapsForDisplay s)) with (store s) in Hlen.
      pose proof (cost_bound (store s) (store (resetAndInitAll s1)) Hlen
                    (fun a => proj2 (proj2 (Hrec a)))) as Hcost.
      unfold turnsLeft, turnBound in *. rewrite Hq. lia. }
  destruct (drainQueue fuel (resetAndInitAll s1)); cbn [bindRes]; exact Hfin.
Qed.

Lemma display_loop_ends_witness :
  turnBound (stateOf crossGeneration) = 16%nat
  /\ finished (display 16 16 (stateOf crossGeneration)).
Proof.
  split; [vm_compute; reflexivity|].
  apply (display_loop_ends (stateOf crossGeneration) 16 16).
  - vm_compute. reflexivity.
  - vm_compute. exact I.
  - apply Nat.leb_le. vm_compute. reflexivity.
Defined.


(** * The rows of the table *)

Lemma rowSet_In (lvl k : Z) (row' row : list addr) (o : list (Z * list addr)) :
  In (k, row) (rowSet lvl row' o) -> (k = lvl /\ row = row') \/ In (k, row) o.
Proof.
  induction o as [|[j r] o IH]; cbn [rowSet].
  - intros [[= <- <-]|[]]. left. split; reflexivity.
  - destruct (j =? lvl) eqn:E.
    + apply Z.eqb_eq in E. subst j. intros [[= <- <-]|H].
      * left. split; reflexivity.
      * right. right. exact H.
    + intros [H|H]; [right; left; exact H|].
      destruct (IH H) as [H'|H']; [left; exact H'|right; right; exact H'].
Qed.

Lemma rowGet_In (lvl : Z) (row : list addr) (o : list (Z * list addr)) :
  rowGet lvl o = Some row -> In (lvl, row) o.
Proof.
  induction o as [|[j r] o IH]; cbn [rowGet]; [discriminate|].
  destruct (j =? lvl) eqn:E.
  - apply Z.eqb_eq in E. subst j. intros [= <-]. left. reflexivity.
  - intros H. right. exact (IH H).
Qed.

Lemma addNextElements_keeps_rows (element : addr) (s : State) :
  mapsInStore s ->
  orderInLevel (addNextElements element s) = orderInLevel s
  /\ forall a, visited (deref s a) = true ->
               rowLevel (deref (addNextElements element s) a) = rowLevel (deref s a).
Proof.
  intros Hm. rewrite addNextElements_links. set (r := deref s element).
  assert (H : forall ls st,
             mapsInStore st ->
             let st' := fold_left (fun st l =>
                          addElementsToQueue (getProp (fst (fst l)) (props r))
                                             (rowLevel r + snd l) (snd (fst l)) st) ls st in
             orderInLevel st' = orderInLevel st
             /\ forall a, visited (deref st a) = true ->
                          rowLevel (deref st' a) = rowLevel (deref st a)).
  { induction ls as [|l ls IH]; intros st Hmst; cbn [fold_left].
    - split; [reflexivity|]. intros a _. reflexivity.
    - destruct (addElementsToQueue_spec (getProp (fst (fst l)) (props r))
                  (rowLevel r + snd l) (snd (fst l)) st Hmst) as (Hg & Ho & _ & Hrec).
      destruct (IH _ (mapsInStore_sameGraph _ _ Hg Hmst)) as (Ho' & Hrow').
      split; [rewrite Ho'; exact Ho|].
      intros a Ha. destruct (Hrec a) as (Hv & _ & Hsame).
      rewrite Hrow' by (rewrite Hv; exact Ha). apply Hsame.
      intros Hin. destruct (getProp (fst (fst l)) (props r)) as [sl|]; [|destruct Hin].
      cbn [targetsOf] in Hin. apply targets_In in Hin as (Hun & _). congruence. }
  exact (H (links r) s Hm).
Qed.

Lemma turn_rows (root element : addr) (rest : list addr) (s s3 : State) :
  layoutInv root [] s -> rowsAgree s ->
  queueForNext s = element :: rest ->
  visited (deref s element) = false ->
  placeElement element
    (rowLevel (deref (update (setQueue s rest) element (setVisited true)) element))
    (addNextElements element (update (setQueue s rest) element (setVisited true))) = Ok s3 ->
  rowsAgree s3.
Proof.
  intros Hinv Hrows Hqueue Hunv Hplace.
  pose proof Hinv as (Hwf & Hq & _ & _ & _ & Hpl). cbn [app] in Hpl.
  set (s1 := update (setQueue s rest) element (setVisited true)) in *.
  assert (Hel : (element < length (store s))%nat).
  { apply Hq. rewrite Hqueue. left. reflexivity. }
  assert (Hg1 : sameGraph s s1).
  { apply (sameGraph_update (setQueue s rest)). intros r. repeat split; reflexivity. }
  assert (Hd1 : forall a, deref s1 a
                          = if Nat.eqb element a then setVisited true (deref s element)
                            else deref s a).
  { intros a. unfold s1. rewrite deref_update by exact Hel. reflexivity. }
  assert (Hr1 : forall a, rowLevel (deref s1 a) = rowLevel (deref s a)).
  { intros a. rewrite Hd1. destruct (Nat.eqb element a) eqn:E; [|reflexivity].
    apply Nat.eqb_eq in E. subst a. reflexivity. }
  assert (Hv1 : forall a, a = element \/ visited (deref s a) = true ->
                          visited (deref s1 a) = true).
  { intros a Ha. rewrite Hd1. destruct (Nat.eqb element a) eqn:E; [reflexivity|].
    apply Nat.eqb_neq in E. destruct Ha as [->|Ha]; [contradiction|exact Ha]. }
  destruct (addNextElements_keeps_rows element s1 (mapsInStore_sameGraph _ _ Hg1 Hwf))
    as (Ho2 & Hrow2).
  set (s2 := addNextElements element s1) in *.
  destruct (placeElement_spec _ _ _ _ Hplace) as (Hst & _ & _ & _ & row' & Ho & Hperm).
  assert (Hd3 : forall a, deref s3 a = deref s2 a).
  { intros a. unfold deref. rewrite Hst. reflexivity. }
  assert (Hkeep : forall a, a = element \/ visited (deref s a) = true ->
                            rowLevel (deref s3 a) = rowLevel (deref s a)).
  { intros a Ha. rewrite Hd3, (Hrow2 a (Hv1 a Ha)). apply Hr1. }
  assert (Hold : forall k row a, In (k, row) (orderInLevel s) -> In a row ->
                                 rowLevel (deref s3 a) = k).
  { intros k row a Hin Ha. rewrite Hkeep; [exact (Hrows k row a Hin Ha)|].
    right. apply Hpl. unfold placed. apply in_flat_map.
    exists (k, row). split; [exact Hin|exact Ha]. }
  change (orderInLevel s1) with (orderInLevel s) in Ho2.
  intros k row a Hin Ha. rewrite Ho, Ho2 in Hin.
  apply rowSet_In in Hin as [[-> ->]|Hin]; [|exact (Hold k row a Hin Ha)].
  apply (Permutation_in _ Hperm) in Ha. destruct Ha as [<-|Ha].
  - rewrite Hkeep by (left; reflexivity). symmetry. apply Hr1.
  - rewrite Ho2 in Ha.
    destruct (rowGet (rowLevel (deref s1 element)) (orderInLevel s)) as [old|] eqn:Eg;
      [|destruct Ha].
    exact (Hold _ old a (rowGet_In _ _ _ Eg) Ha).
Qed.

Lemma drainQueue_rows (root : addr) (fuel : nat) :
  forall (s s' : State),
    layoutInv root [] s -> rowsAgree s ->
    drainQueue fuel s = Ok s' -> rowsAgree s'.
Proof.
  induction fuel as [|fuel IH]; intros s s' Hinv Hrows Hrun.
  - cbn [drainQueue] in Hrun. destruct (queueForNext s) eqn:Hq; [|discriminate].
    injection Hrun as <-. exact Hrows.
  - cbn [drainQueue] in Hrun. destruct (queueForNext s) as [|element rest] eqn:Hq.
    { injection Hrun as <-. exact Hrows. }
    change (deref (setQueue s rest) element) with (deref s element) in Hrun.
    destruct (visited (deref s element)) eqn:Hvis.
    + assert (Hinv0 : layoutInv root [] (setQueue s rest)).
      { destruct Hinv as (Hwf & Hqr & Hj & Hnd & Hkeys & Hpl).
        split; [exact Hwf|]. split.
        { intros a Ha. apply Hqr. rewrite Hq. right. exact Ha. }
        split; [|split; [exact Hnd|split; [exact Hkeys|exact Hpl]]].
        intros a [Ha|Ha]; apply Hj; [left; rewrite Hq; right; exact Ha|right; exact Ha]. }
      exact (IH _ _ Hinv0 Hrows Hrun).
    + destruct (placeElement element _ _) as [s3| | |] eqn:Hplace;
        cbn [bindRes] in Hrun; try discriminate.
      destruct (turn_inv root element rest s s3 Hinv Hq Hvis Hplace) as (Hinv3 & _).
      exact (IH _ _ Hinv3 (turn_rows root element rest s s3 Hinv Hrows Hq Hvis Hplace) Hrun).
Qed.

Lemma minKey_least (o : list (Z * list addr)) (min : Z) :
  minKey o = Some min ->
  In min (map fst o) /\ forall k, In k (map fst o) -> min <= k.
Proof.
  destruct o as [|[k0 r0] o]; cbn [minKey]; [discriminate|]. intros [= <-].
  assert (H : forall l m,
             (fold_left (fun m kr => Z.min m (fst kr)) l m = m
              \/ In (fold_left (fun m kr => Z.min m (fst kr)) l m) (map fst l))
             /\ fold_left (fun m kr => Z.min m (fst kr)) l m <= m
             /\ forall k, In k (map (fst (B := list addr)) l) ->
                          fold_left (fun m kr => Z.min m (fst kr)) l m <= k).
  { induction l as [|[k r] l IH]; intros m; cbn [fold_left map fst In].
    - split; [left; reflexivity|]. split; [lia|]. intros k [].
    - destruct (IH (Z.min m k)) as (H1 & H2 & H3). split; [|split].
      + destruct H1 as [H1|H1]; [|right; right; exact H1].
        rewrite H1. destruct (Z.min_spec m k) as [[_ ->]|[_ ->]];
          [left; reflexivity|right; left; reflexivity].
      + lia.
      + intros j [<-|Hj]; [lia|exact (H3 j Hj)]. }
  destruct (H o k0) as (H1 & H2 & H3). cbn [map fst In]. split.
  - destruct H1 as [->|H1]; [left; reflexivity|right; exact H1].
  - intros k [<-|Hk]; [exact H2|exact (H3 k Hk)].
Qed.

Lemma resetRowLevel_table (root : addr) (s : State) (min : Z) :
  layoutInv root [] s ->
  minKey (orderInLevel s) = Some min ->
  orderInLevel (resetRowLevel s) = map (fun kr => (fst kr - min, snd kr)) (orderInLevel s)
  /\ forall a, In a (placed s) ->
               rowLevel (deref (resetRowLevel s) a) = rowLevel (deref s a) - min.
Proof.
  intros (Hwf & Hq & Hj & Hnd & Hkeys & Hpl) Hmin. cbn [app] in Hnd, Hpl.
  unfold resetRowLevel. rewrite Hmin. cbv zeta. rewrite fold_rows_flat.
  assert (Hin : forall a, In a (flat_map snd (orderInLevel s)) ->
                          (a < length (store s))%nat).
  { intros a Ha. apply visited_in_store. exact (proj1 (proj1 (Hpl a) Ha)). }
  destruct (shiftRows_fold min (flat_map snd (orderInLevel s)) s Hnd Hin)
    as (Hg & Ho & Hrec).
  set (s1 := fold_left _ (flat_map snd (orderInLevel s)) s) in *.
  rewrite rebuild_rows.
  - cbn [app orderInLevel setOrder]. split; [reflexivity|].
    intros a Ha. change (deref (setOrder s1 _) a) with (deref s1 a).
    apply (Hrec a). exact Ha.
  - cbn [map app]. rewrite <- (map_map fst (fun k => k - min)).
    apply Injective_map_NoDup; [|exact Hkeys]. intros x y H. lia.
Qed.

(** X7.  In the table [calculateDisplayPositions] returns, started on
    records none of which is marked visited with the anchor alone in the
    queue, every record stands in the row its [rowLevel] names, no row has a
    negative number, and unless the table is empty there is a row 0. *)
Theorem rows_numbered_from_zero (root : addr) (fuel : nat) (s s' : State) :
  mapsInStore s ->
  (root < length (store s))%nat ->
  (forall a, visited (deref s a) = false) ->
  queueForNext s = [root] ->
  calculateDisplayPositions fuel s = Ok s' ->
  rowsAgree s'
  /\ (forall k, In k (map fst (orderInLevel s')) -> 0 <= k)
  /\ (orderInLevel s' <> [] -> In 0 (map fst (orderInLevel s'))).
Proof.
  intros Hwf Hroot Hunv Hq Hrun. unfold calculateDisplayPositions in Hrun.
  assert (Hanchor : visited (deref s root) = true -> held s root)
    by (intros H; rewrite Hunv in H; discriminate H).
  destruct (resetAndInitAll_inv root s Hwf Hroot Hanchor Hq) as (Hinv0 & _).
  destruct (drainQueue fuel (resetAndInitAll s)) as [s1| | |] eqn:Hdrain;
    cbn [bindRes] in Hrun; try discriminate.
  injection Hrun as <-.
  assert (Hrows0 : rowsAgree (resetAndInitAll s)).
  { intros k row a Hin. rewrite resetAndInitAll_order in Hin. destruct Hin. }
  destruct (drainQueue_inv root fuel _ _ Hinv0 Hdrain) as (Hinv1 & _ & _).
  pose proof (drainQueue_rows root fuel _ _ Hinv0 Hrows0 Hdrain) as Hrows1.
  destruct (minKey (orderInLevel s1)) as [min|] eqn:Hmin.
  - destruct (resetRowLevel_table root s1 min Hinv1 Hmin) as (Ho & Hshift).
    destruct (minKey_least _ _ Hmin) as (Hmem & Hleast).
    split; [|split].
    + intros k row a Hin Ha. rewrite Ho in Hin.
      apply in_map_iff in Hin as ([k1 row1] & [= <- <-] & Hin1). cbn [fst snd] in *.
      rewrite Hshift; [rewrite (Hrows1 k1 row1 a Hin1 Ha); reflexivity|].
      unfold placed. apply in_flat_map. exists (k1, row1). split; assumption.
    + intros k Hk. rewrite Ho, map_map in Hk. cbn [fst] in Hk.
      apply in_map_iff in Hk as (kr & <- & Hkr).
      pose proof (Hleast (fst kr) (in_map fst _ _ Hkr)). lia.
    + intros _. rewrite Ho, map_map. cbn [fst].
      apply in_map_iff in Hmem as (kr & <- & Hkr).
      apply in_map_iff. exists kr. split; [lia|exact Hkr].
  - assert (E : resetRowLevel s1 = s1) by (unfold resetRowLevel; rewrite Hmin; reflexivity).
    rewrite E. destruct (orderInLevel s1) as [|[k r] o] eqn:Eo; [|discriminate Hmin].
    split; [|split].
    + intros k row a Hin. rewrite Eo in Hin. destruct Hin.
    + intros k [].
    + intros H. contradiction.
Qed.

Lemma rows_numbered_from_zero_witness :
  rowsAgree (layoutEnd crossGeneration)
  /\ (forall k, In k (map fst (orderInLevel (layoutEnd crossGeneration))) -> 0 <= k)
  /\ (orderInLevel (layoutEnd crossGeneration) <> []
      -> In 0 (map fst (orderInLevel (layoutEnd crossGeneration)))).
Proof.
  apply (rows_numbered_from_zero 0%nat 32 (layoutStart crossGeneration)
           (layoutEnd crossGeneration)).
  - intros tt k a. destruct tt; vm_compute;
      repeat match goal with
             | |- context [match ?x with _ => _ end] => destruct x
             end;
      intros H; inversion H; lia.
  - vm_compute. lia.
  - intros a. destruct a as [|[|[|[|[|a]]]]]; reflexivity.
  - reflexivity.
  - vm_compute. reflexivity.
Defined.

(** ** The rows of a display run *)






(** * Further properties of the mutation operations *)

(** ** Properties of records *)

Lemma getProp_delProp_other {A : Type} (k k0 : string) (ps : list (string * A)) :
  k0 <> k -> getProp k0 (delProp k ps) = getProp k0 ps.
Proof.
  intros Hne. induction ps as [|[k' v'] ps IH]; cbn [delProp getProp]; [reflexivity|].
  destruct (String.eqb k k') eqn:E.
  - apply String.eqb_eq in E. subst k'.
    destruct (String.eqb k0 k) eqn:E'; [apply String.eqb_eq in E'; contradiction|reflexivity].
  - cbn [getProp]. destruct (String.eqb k0 k'); [reflexivity|exact IH].
Qed.





(** ** Roles *)

Lemma entries_withProps_set (k role : string) (sl : Slot FamilyRow) (fam : FamilyRow) :
  entries k (withProps fam (setProp role sl (props fam)))
  = if String.eqb k role then slotList sl else entries k fam.
Proof.
  unfold entries. cbn [props withProps]. destruct (String.eqb k role) eqn:E.
  - apply String.eqb_eq in E. subst k. rewrite getProp_setProp_same. reflexivity.
  - apply String.eqb_neq in E. rewrite getProp_setProp_other by exact E. reflexivity.
Qed.


Lemma addPersonToRole_fix (role : string) (p : option string) (fam : FamilyRow) :
  listed p role fam = true -> addPersonToRole role p fam = fam.
Proof.
  unfold listed, entries, addPersonToRole.
  destruct (getProp role (props fam)) as [sl|]; cbn [from_option]; [|discriminate].
  intros ->. reflexivity.
Qed.

Lemma addPersonToRole_entries (role k : string) (p : option string) (fam : FamilyRow) :
  entries k (addPersonToRole role p fam)
  = if String.eqb k role && negb (listed p role fam)
    then entries role fam ++ [link role p]
    else entries k fam.
Proof.
  unfold addPersonToRole, listed. unfold entries at 2 3.
  destruct (getProp role (props fam)) as [sl|] eqn:Eg; cbn [from_option].
  - destruct (existsb _ (slotList sl)); cbn [negb].
    + rewrite andb_false_r. reflexivity.
    + rewrite entries_withProps_set, andb_true_r. destruct (String.eqb k role); reflexivity.
  - cbn [existsb negb]. rewrite entries_withProps_set, andb_true_r.
    destruct (String.eqb k role); reflexivity.
Qed.

Lemma listed_link (role : string) (p : option string) (l : list FamilyRow) :
  existsb (fun r => optEqb (id r) p) (l ++ [link role p]) = true.
Proof.
  rewrite existsb_app. cbn [existsb link newFamilyRow id]. rewrite optEqb_refl.
  rewrite orb_true_r. reflexivity.
Qed.

Lemma addPersonToRole_lists (role : string) (p : option string) (fam : FamilyRow) :
  listed p role (addPersonToRole role p fam) = true
  /\ (forall k, k <> role -> entries k (addPersonToRole role p fam) = entries k fam)
  /\ addPersonToRole role p (addPersonToRole role p fam) = addPersonToRole role p fam.
Proof.
  assert (H : listed p role (addPersonToRole role p fam) = true).
  { unfold listed at 1. rewrite addPersonToRole_entries, String.eqb_refl. cbn [andb].
    destruct (listed p role fam) eqn:E; cbn [negb]; [exact E|apply listed_link]. }
  split; [exact H|]. split; [|apply addPersonToRole_fix; exact H].
  intros k Hk. rewrite addPersonToRole_entries.
  destruct (String.eqb k role) eqn:E; [apply String.eqb_eq in E; contradiction|reflexivity].
Qed.

(** X8.  [addPersonToRole] lists a person once: afterwards an entry of the
    role names the person, the entries of the other fields are as before, and
    adding the same person again changes nothing. *)
Theorem addPersonToRole_once (role : string) (p : option string) (fam : FamilyRow) :
  listed p role (addPersonToRole role p fam) = true
  /\ (forall k, k <> role -> entries k (addPersonToRole role p fam) = entries k fam)
  /\ addPersonToRole role p (addPersonToRole role p fam) = addPersonToRole role p fam.
Proof. exact (addPersonToRole_lists role p fam). Qed.












(** ** Deletion when the root holds arrays *)





(** A loop over a root array whose callback ends normally and keeps what
    the next turn needs. *)
Lemma forEachFrom_ok (P : State -> Prop) (sel : State -> option (Slot addr))
  (callback : addr -> Mut unit) :
  (forall a s, P s -> exists s', callback a s = (s', Ok tt) /\ P s') ->
  forall count k s, P s ->
    exists s', forEachFrom sel callback count k s = (s', Ok tt) /\ P s'.
Proof.
  intros Hcb. induction count as [|count IH]; intros k s HP; cbn [forEachFrom].
  - exists s. split; [reflexivity|exact HP].
  - destruct (sel s) as [[b|arr]|]; try (exists s; split; [reflexivity|exact HP]).
    destruct (arr !! k) as [a|]; [|apply IH; exact HP].
    unfold bindMut. destruct (Hcb a s HP) as (s1 & -> & HP1). apply IH. exact HP1.
Qed.


Lemma clearFromIndi_ok (i : option string) (s : State) (arr : list addr) :
  INDI s = Some (Many arr) ->
  exists s',
    clearFromIndi i s = (s', Ok tt)
    /\ INDI s' = INDI s /\ FAM s' = FAM s
    /\ indviduals s' = indviduals s /\ families s' = families s
    /\ length (store s') = length (store s).
Proof.
  intros HI. unfold clearFromIndi, forEachRoot. rewrite HI.
  apply (forEachFrom_ok
           (fun st => INDI st = Some (Many arr) /\ FAM st = FAM s
                      /\ indviduals st = indviduals s /\ families st = families s
                      /\ length (store st) = length (store s))).
  - intros a st (H1 & H2 & H3 & H4 & H5). eexists. split; [reflexivity|].
    cbn [INDI FAM indviduals families update setStore store].
    rewrite length_insert. repeat split; assumption.
  - split; [exact HI|]. repeat split; reflexivity.
Qed.

Lemma deleteFam_ok (f : addr) (s : State) :
  rootArrays s = true ->
  exists s',
    deleteFam f s = (s', Ok tt)
    /\ rootArrays s' = true /\ INDI s' = INDI s
    /\ indviduals s' = indviduals s
    /\ families s' = mapDelete (id (deref s f)) (families s)
    /\ length (store s') = length (store s).
Proof.
  unfold rootArrays. intros Hroot.
  destruct (INDI s) as [[b|ins]|] eqn:HI; try discriminate.
  destruct (FAM s) as [[b|fs]|] eqn:HF; try discriminate.
  unfold deleteFam, bindMut, modify, deleteIDFromRoot.
  cbn [FAM setFamilies]. rewrite HF.
  set (s1 := setFamilies s (mapDelete (id (deref s f)) (families s))).
  set (s2 := match findIndexFromRefs s1 fs (id (deref s f)) with
             | Some k => setFAM s1 (Some (Many (delete k fs)))
             | None => s1
             end).
  assert (E : (match findIndexFromRefs s1 fs (id (deref s f)) with
               | Some k => (setFAM s1 (Some (Many (delete k fs))), Ok tt)
               | None => (s1, Ok tt)
               end) = (s2, Ok tt)).
  { unfold s2. destruct (findIndexFromRefs s1 fs _); reflexivity. }
  rewrite E.
  assert (H2 : INDI s2 = Some (Many ins) /\ (exists fs', FAM s2 = Some (Many fs'))
               /\ indviduals s2 = indviduals s
               /\ families s2 = mapDelete (id (deref s f)) (families s)
               /\ length (store s2) = length (store s)).
  { unfold s2. destruct (findIndexFromRefs s1 fs _);
      cbn [INDI FAM indviduals families store setFAM setFamilies s1];
      (split; [exact HI|]); (split; [eexists; first [reflexivity|exact HF]|]);
      repeat split; reflexivity. }
  destruct H2 as (HI2 & (fs' & HF2) & Hi2 & Hf2 & Hl2).
  destruct (clearFromIndi_ok (id (deref s f)) s2 ins HI2) as (s3 & -> & K1 & K2 & K3 & K4 & K5).
  exists s3. split; [reflexivity|].
  rewrite K1, K2, HI2, HF2, K3, K4, K5.
  repeat split; assumption.
Qed.

Lemma clearFromFam_ok (i : option string) (s : State) :
  rootArrays s = true ->
  exists s',
    clearFromFam i s = (s', Ok tt)
    /\ rootArrays s' = true /\ INDI s' = INDI s
    /\ indviduals s' = indviduals s
    /\ length (store s') = length (store s).
Proof.
  intros Hroot. unfold clearFromFam, forEachRoot.
  pose proof Hroot as Hr. unfold rootArrays in Hr.
  destruct (INDI s) as [[b|ins]|] eqn:HI; try discriminate.
  destruct (FAM s) as [[b|fs]|] eqn:HF; try discriminate.
  apply (forEachFrom_ok
           (fun st => rootArrays st = true /\ INDI st = Some (Many ins)
                      /\ indviduals st = indviduals s
                      /\ length (store st) = length (store s))).
  - intros a st (H1 & H2 & H3 & H4).
    destruct (clearTag "CHIL" i (deref st a)) as [r1 u1].
    destruct (clearTag "HUSB" i r1) as [r2 u2].
    destruct (clearTag "WIFE" i r2) as [r3 u3].
    set (st' := update st a (fun _ => r3)).
    assert (H1' : rootArrays st' = true) by exact H1.
    assert (Hl' : length (store st') = length (store st)) by apply length_store_update.
    destruct ((u1 || u2 || u3) && isEmptyFamily r3).
    + destruct (deleteFam_ok a st' H1') as (s3 & -> & K1 & K2 & K3 & _ & K5).
      exists s3. split; [reflexivity|]. split; [exact K1|].
      split; [rewrite K2; exact H2|]. split; [rewrite K3; exact H3|].
      rewrite K5, Hl'. exact H4.
    + exists st'. split; [reflexivity|]. split; [exact H1'|].
      split; [exact H2|]. split; [exact H3|]. rewrite Hl'. exact H4.
  - split; [exact Hroot|]. repeat split; assumption.
Qed.

(** X10.  [deleteIndi] runs to completion whenever the root holds its INDI
    records and its FAM records in arrays, cascade included: the root still
    holds arrays afterwards, the individual's id has left the [indviduals]
    Map, and no record was added to or removed from the store. *)
Theorem deleteIndi_completes_on_arrays (indiRow : addr) (s : State) :
  rootArrays s = true ->
  exists s',
    deleteIndi indiRow s = (s', Ok tt)
    /\ rootArrays s' = true
    /\ indviduals s' = mapDelete (id (deref s indiRow)) (indviduals s)
    /\ length (store s') = length (store s).
Proof.
  unfold rootArrays. intros Hroot.
  destruct (INDI s) as [[b|ins]|] eqn:HI; try discriminate.
  destruct (FAM s) as [[b|fs]|] eqn:HF; try discriminate.
  unfold deleteIndi, bindMut, modify, deleteIDFromRoot.
  cbn [INDI setIndviduals]. rewrite HI.
  set (s1 := setIndviduals s (mapDelete (id (deref s indiRow)) (indviduals s))).
  set (s2 := match findIndexFromRefs s1 ins (id (deref s indiRow)) with
             | Some k => setINDI s1 (Some (Many (delete k ins)))
             | None => s1
             end).
  assert (E : (match findIndexFromRefs s1 ins (id (deref s indiRow)) with
               | Some k => (setINDI s1 (Some (Many (delete k ins))), Ok tt)
               | None => (s1, Ok tt)
               end) = (s2, Ok tt)).
  { unfold s2. destruct (findIndexFromRefs s1 ins _); reflexivity. }
  rewrite E.
  assert (H2 : rootArrays s2 = true
               /\ indviduals s2 = mapDelete (id (deref s indiRow)) (indviduals s)
               /\ length (store s2) = length (store s)).
  { unfold s2, rootArrays. destruct (findIndexFromRefs s1 ins _);
      cbn [INDI FAM indviduals store setINDI setIndviduals s1]; rewrite ?HI, HF;
      repeat split; reflexivity. }
  destruct H2 as (Hr2 & Hi2 & Hl2).
  destruct (clearFromFam_ok (id (deref s indiRow)) s2 Hr2) as (s3 & -> & K1 & _ & K3 & K4).
  exists s3. split; [reflexivity|]. split; [exact K1|].
  split; [rewrite K3; exact Hi2|rewrite K4; exact Hl2].
Qed.

Lemma deleteIndi_completes_on_arrays_witness :
  exists s',
    deleteIndi 0%nat (stateOf twoMarriages) = (s', Ok tt)
    /\ rootArrays s' = true
    /\ indviduals s'
       = mapDelete (id (deref (stateOf twoMarriages) 0%nat)) (indviduals (stateOf twoMarriages))
    /\ length (store s') = length (store (stateOf twoMarriages)).
Proof. apply deleteIndi_completes_on_arrays. vm_compute. reflexivity. Defined.








(** * The exported file *)

Lemma endsWith_refl (s : string) : endsWith s s = true.
Proof. destruct s; cbn [endsWith]; rewrite String.eqb_refl; reflexivity. Qed.

Lemma endsWith_append (a b : string) : endsWith (a +:+ b) b = true.
Proof.
  induction a as [|c a IH]; [apply endsWith_refl|].
  rewrite append_cons. cbn [endsWith]. rewrite IH. apply orb_true_r.
Qed.

Lemma endsWith_nonEmpty (s : string) : endsWith s ".gedcom" = true -> nonEmpty s = true.
Proof. destruct s; [discriminate|reflexivity]. Qed.

(** X12.  The name [sanitizeFileName] returns always ends with ".gedcom",
    and sanitizing it again gives the same name: the extension is added once
    and never doubled. *)
Theorem sanitizeFileName_extension (fileName : option string) :
  endsWith (sanitizeFileName fileName) ".gedcom" = true
  /\ sanitizeFileName (Some (sanitizeFileName fileName)) = sanitizeFileName fileName.
Proof.
  assert (H : endsWith (sanitizeFileName fileName) ".gedcom" = true).
  { unfold sanitizeFileName. cbv zeta.
    match goal with |- context [endsWith ?n ".gedcom"] =>
      lazymatch n with
      | (if _ then _ else _) => fail
      | _ => destruct (endsWith n ".gedcom") eqn:E
      end
    end; [exact E|apply endsWith_append]. }
  split; [exact H|].
  unfold sanitizeFileName at 1. cbv zeta.
  rewrite (endsWith_nonEmpty _ H), H. reflexivity.
Qed.


(** * Undo and redo *)

Lemma limitHistory_bound (stack : list UndoState.Snapshot) :
  (length (UndoState.limitHistory stack) <= UndoState.MAX_HISTORY)%nat.
Proof.
  induction stack as [|a rest IH]; [cbn; lia|].
  cbn [UndoState.limitHistory].
  destruct (Nat.ltb_spec UndoState.MAX_HISTORY (length (a :: rest))); [exact IH|lia].
Qed.

Lemma limitHistory_short (stack : list UndoState.Snapshot) :
  (length stack <= UndoState.MAX_HISTORY)%nat -> UndoState.limitHistory stack = stack.
Proof.
  intros H. destruct stack as [|a rest]; [reflexivity|].
  cbn [UndoState.limitHistory].
  destruct (Nat.ltb_spec UndoState.MAX_HISTORY (length (a :: rest))); [lia|reflexivity].
Qed.

Lemma limitHistory_last (stack : list UndoState.Snapshot) (a : UndoState.Snapshot) :
  last (UndoState.limitHistory (stack ++ [a])) = Some a.
Proof.
  induction stack as [|b rest IH].
  - reflexivity.
  - change ((b :: rest) ++ [a]) with (b :: (rest ++ [a])).
    cbn [UndoState.limitHistory].
    destruct (Nat.ltb_spec UndoState.MAX_HISTORY (length (b :: rest ++ [a]))).
    + exact IH.
    + change (b :: rest ++ [a]) with ((b :: rest) ++ [a]). apply last_snoc.
Qed.

Lemma last_some_length {A : Type} (l : list A) (a : A) :
  last l = Some a -> l = removelast l ++ [a].
Proof.
  intros H. destruct (decide (l = [])) as [->|Hne]; [discriminate|].
  destruct (exists_last Hne) as [l' [b ->]].
  rewrite last_snoc in H. injection H as ->.
  rewrite removelast_last. reflexivity.
Qed.

Lemma undo_sizes {Doc : Type} (now : Z) (m : UndoState.Manager Doc) (d : Doc) :
  (length (UndoState.undoStack (fst (fst (UndoState.undo now m d))))
   + length (UndoState.redoStack (fst (fst (UndoState.undo now m d))))
   = length (UndoState.undoStack m) + length (UndoState.redoStack m))%nat.
Proof.
  unfold UndoState.undo.
  destruct (last (UndoState.undoStack m)) as [action|] eqn:L; [|reflexivity].
  destruct (UndoState.importGedcomTextFn m) as [importText|]; [|reflexivity].
  destruct (UndoState.getGedcomTextFn m) as [getText|]; [|reflexivity].
  destruct (getText d) as [currentText|]; [|reflexivity].
  destruct (importText (UndoState.text action) d) as [d' ok]. cbn.
  pose proof (f_equal length (last_some_length _ _ L)) as E.
  rewrite length_app in E. rewrite !length_app. cbn [length] in *. lia.
Qed.

Lemma redo_sizes {Doc : Type} (now : Z) (m : UndoState.Manager Doc) (d : Doc) :
  (length (UndoState.undoStack (fst (fst (UndoState.redo now m d))))
   + length (UndoState.redoStack (fst (fst (UndoState.redo now m d))))
   = length (UndoState.undoStack m) + length (UndoState.redoStack m))%nat.
Proof.
  unfold UndoState.redo.
  destruct (last (UndoState.redoStack m)) as [action|] eqn:L; [|reflexivity].
  destruct (UndoState.importGedcomTextFn m) as [importText|]; [|reflexivity].
  destruct (UndoState.getGedcomTextFn m) as [getText|]; [|reflexivity].
  destruct (getText d) as [currentText|]; [|reflexivity].
  destruct (importText (UndoState.text action) d) as [d' ok]. cbn.
  pose proof (f_equal length (last_some_length _ _ L)) as E.
  rewrite length_app in E. rewrite !length_app. cbn [length] in *. lia.
Qed.

Lemma saveSnapshot_sizes {Doc : Type} (descr : string) (now : Z)
    (m : UndoState.Manager Doc) (d : Doc) :
  (length (UndoState.undoStack m) + length (UndoState.redoStack m)
     <= UndoState.MAX_HISTORY)%nat ->
  (length (UndoState.undoStack (UndoState.saveSnapshot descr now m d))
   + length (UndoState.redoStack (UndoState.saveSnapshot descr now m d))
     <= UndoState.MAX_HISTORY)%nat.
Proof.
  intros H. unfold UndoState.saveSnapshot.
  destruct (UndoState.getGedcomTextFn m) as [getText|]; [|exact H].
  destruct (getText d) as [gedcomText|]; [|exact H].
  destruct (_ <? 10)%nat; [exact H|].
  match goal with |- context [if ?b then _ else _] => destruct b end; [exact H|].
  cbn [UndoState.undoStack UndoState.redoStack length].
  rewrite Nat.add_0_r. apply limitHistory_bound.
Qed.

(** X13.  Whatever the page calls, in whatever order and with whatever
    callbacks (also ones that raise), the undo and redo stacks together
    never hold more than [MAX_HISTORY] = 30 snapshots. *)
Theorem history_never_exceeds_30 {Doc : Type} (cs : list (UndoState.Call Doc)) (d : Doc) :
  let m := fst (UndoState.calls cs (UndoState.loaded, d)) in
  (length (UndoState.undoStack m) + length (UndoState.redoStack m) <= 30)%nat.
Proof.
  cbv zeta.
  assert (G : forall md : UndoState.Manager Doc * Doc,
             (length (UndoState.undoStack (fst md))
              + length (UndoState.redoStack (fst md)) <= UndoState.MAX_HISTORY)%nat ->
             (length (UndoState.undoStack (fst (UndoState.calls cs md)))
              + length (UndoState.redoStack (fst (UndoState.calls cs md)))
                <= UndoState.MAX_HISTORY)%nat).
  { unfold UndoState.calls. induction cs as [|c cs IH]; intros md H; [exact H|].
    cbn [fold_left]. apply IH. destruct md as [m0 d0]. cbn [fst] in H.
    destruct c; cbn [UndoState.call fst].
    - exact H.
    - apply saveSnapshot_sizes, H.
    - rewrite undo_sizes. exact H.
    - rewrite redo_sizes. exact H.
    - cbn. lia.
    - exact H. }
  apply (G (UndoState.loaded, d)). cbn. unfold UndoState.MAX_HISTORY. lia.
Qed.

(** X14.  When importing a text and reading the document again gives that
    text back, an undo followed by a redo restores the text of the document
    and both stacks, the times of the snapshots apart. *)
Theorem undo_then_redo_restores {Doc : Type} (m : UndoState.Manager Doc) (d : Doc)
    (getText : Doc -> option string) (importText : string -> Doc -> Doc * bool)
    (currentText : string) (now now' : Z) :
  UndoState.getGedcomTextFn m = Some getText ->
  UndoState.importGedcomTextFn m = Some importText ->
  (forall t d0, snd (importText t d0) = true
                /\ getText (fst (importText t d0)) = Some t) ->
  UndoState.canUndo m = true ->
  getText d = Some currentText ->
  exists m1 d1 m2 d2,
    UndoState.undo now m d = (m1, d1, true)
    /\ UndoState.redo now' m1 d1 = (m2, d2, true)
    /\ getText d2 = Some currentText
    /\ map UndoState.untimed (UndoState.undoStack m2)
       = map UndoState.untimed (UndoState.undoStack m)
    /\ UndoState.redoStack m2 = UndoState.redoStack m.
Proof.
  intros Hg Hi Hlaw Hcan Hcur.
  unfold UndoState.canUndo in Hcan. apply Nat.ltb_lt in Hcan.
  destruct (last (UndoState.undoStack m)) as [action|] eqn:L.
  2:{ apply last_None in L. rewrite L in Hcan. cbn in Hcan. lia. }
  pose proof (Hlaw (UndoState.text action) d) as [Hok1 Hget1].
  destruct (importText (UndoState.text action) d) as [d1 ok1] eqn:E1.
  cbn [fst snd] in Hok1, Hget1. subst ok1.
  pose proof (Hlaw currentText d1) as [Hok2 Hget2].
  destruct (importText currentText d1) as [d2 ok2] eqn:E2.
  cbn [fst snd] in Hok2, Hget2. subst ok2.
  eexists _, d1, _, d2. split; [|split; [|split; [exact Hget2|]]].
  - unfold UndoState.undo. rewrite L, Hi, Hg, Hcur, E1. reflexivity.
  - unfold UndoState.redo.
    cbn [UndoState.redoStack UndoState.undoStack UndoState.getGedcomTextFn
         UndoState.importGedcomTextFn].
    rewrite last_snoc, Hget1.
    cbn [UndoState.text UndoState.description]. rewrite E2. reflexivity.
  - cbn [UndoState.redoStack UndoState.undoStack].
    rewrite removelast_last. split; [|reflexivity].
    rewrite (last_some_length _ _ L) at 2.
    rewrite !map_app. reflexivity.
Qed.

Lemma undo_then_redo_restores_witness :
  exists m1 d1 m2 d2,
    UndoState.undo 2 (UndoState.saveSnapshot "edit" 1
                        (UndoState.initStateManager
                           (Some (fun d : string => Some d))
                           (Some (fun (t : string) (_ : string) => (t, true)))
                           UndoState.loaded)
                        "0 @I1@ INDI") "0 @I2@ INDI" = (m1, d1, true)
    /\ UndoState.redo 3 m1 d1 = (m2, d2, true)
    /\ Some d2 = Some "0 @I2@ INDI"
    /\ map UndoState.untimed (UndoState.undoStack m2)
       = [("edit", "0 @I1@ INDI")]
    /\ UndoState.redoStack m2 = [].
Proof.
  apply (undo_then_redo_restores
           (UndoState.saveSnapshot "edit" 1
              (UndoState.initStateManager
                 (Some (fun d : string => Some d))
                 (Some (fun (t : string) (_ : string) => (t, true)))
                 UndoState.loaded)
              "0 @I1@ INDI")
           "0 @I2@ INDI" (fun d : string => Some d)
           (fun (t : string) (_ : string) => (t, true)) "0 @I2@ INDI" 2 3).
  - reflexivity.
  - reflexivity.
  - intros t d0. split; reflexivity.
  - vm_compute; reflexivity.
  - reflexivity.
Defined.

(** X15.  A snapshot that is saved can be undone to: when the text of the
    document has at least ten characters, [saveSnapshot] followed, after any
    edit whose text can be read, by [undo] puts the saved text back and
    leaves the text of the edit on top of the redo stack. *)
Theorem saved_snapshot_is_restored {Doc : Type} (m : UndoState.Manager Doc) (d d' : Doc)
    (getText : Doc -> option string) (importText : string -> Doc -> Doc * bool)
    (savedText editedText descr : string) (now now' : Z) :
  UndoState.getGedcomTextFn m = Some getText ->
  UndoState.importGedcomTextFn m = Some importText ->
  (forall t d0, snd (importText t d0) = true
                /\ getText (fst (importText t d0)) = Some t) ->
  getText d = Some savedText ->
  (10 <= UndoState.jsLength savedText)%nat ->
  getText d' = Some editedText ->
  exists m2 d2,
    UndoState.undo now' (UndoState.saveSnapshot descr now m d) d' = (m2, d2, true)
    /\ getText d2 = Some savedText
    /\ option_map UndoState.text (last (UndoState.redoStack m2)) = Some editedText.
Proof.
  intros Hg Hi Hlaw Hsaved Hlen Hedit.
  assert (Hm1 : exists top,
             last (UndoState.undoStack (UndoState.saveSnapshot descr now m d)) = Some top
             /\ UndoState.text top = savedText
             /\ UndoState.getGedcomTextFn (UndoState.saveSnapshot descr now m d)
                = Some getText
             /\ UndoState.importGedcomTextFn (UndoState.saveSnapshot descr now m d)
                = Some importText).
  { unfold UndoState.saveSnapshot. rewrite Hg, Hsaved.
    destruct (Nat.ltb_spec (UndoState.jsLength savedText) 10); [lia|].
    destruct (last (UndoState.undoStack m)) as [top|] eqn:L.
    - destruct (String.eqb (UndoState.text top) savedText) eqn:E.
      + exists top. apply String.eqb_eq in E. rewrite L. auto.
      + eexists. cbn [UndoState.undoStack UndoState.getGedcomTextFn
                      UndoState.importGedcomTextFn].
        rewrite limitHistory_last. repeat split; auto.
    - eexists. cbn [UndoState.undoStack UndoState.getGedcomTextFn
                    UndoState.importGedcomTextFn].
      rewrite limitHistory_last. repeat split; auto. }
  destruct Hm1 as (top & Hlast & Htext & Hg1 & Hi1).
  pose proof (Hlaw savedText d') as [Hok Hget].
  destruct (importText savedText d') as [d2 ok] eqn:E.
  cbn [fst snd] in Hok, Hget. subst ok.
  eexists _, d2. split; [|split; [exact Hget|]].
  - unfold UndoState.undo. rewrite Hlast, Hi1, Hg1, Hedit, Htext, E. reflexivity.
  - cbn [UndoState.redoStack]. rewrite last_snoc. reflexivity.
Qed.

Lemma saved_snapshot_is_restored_witness :
  exists m2 d2,
    UndoState.undo 2 (UndoState.saveSnapshot "edit" 1
                        (UndoState.initStateManager
                           (Some (fun d : string => Some d))
                           (Some (fun (t : string) (_ : string) => (t, true)))
                           UndoState.loaded)
                        "0 @I1@ INDI") "0 @I2@ INDI" = (m2, d2, true)
    /\ Some d2 = Some "0 @I1@ INDI"
    /\ option_map UndoState.text (last (UndoState.redoStack m2)) = Some "0 @I2@ INDI".
Proof.
  apply (saved_snapshot_is_restored
           (UndoState.initStateManager
              (Some (fun d : string => Some d))
              (Some (fun (t : string) (_ : string) => (t, true)))
              UndoState.loaded)
           "0 @I1@ INDI" "0 @I2@ INDI" (fun d : string => Some d)
           (fun (t : string) (_ : string) => (t, true))
           "0 @I1@ INDI" "0 @I2@ INDI" "edit" 1 2).
  - reflexivity.
  - reflexivity.
  - intros t d0. split; reflexivity.
  - reflexivity.
  - vm_compute. lia.
  - reflexivity.
Defined.


(** * Dates *)

Lemma digit_cases (c : ascii) :
  Str.is_digit c = true ->
  In c ["0"; "1"; "2"; "3"; "4"; "5"; "6"; "7"; "8"; "9"]%char.
Proof.
  destruct c as [[] [] [] [] [] [] [] []]; intros H; try discriminate H;
    cbn [In]; auto 12.
Qed.

Lemma digit_plain (c : ascii) :
  Str.is_digit c = true ->
  Ascii.eqb c "-" = false /\ Ascii.eqb c " " = false /\ Str.is_space c = false
  /\ forall s, Str.whiteChar (String c s) = None.
Proof.
  intros H. apply digit_cases in H. cbn [In] in H.
  repeat (destruct H as [<-|H];
          [repeat split; try reflexivity; intros [|d [|e s]]; reflexivity|]).
  destruct H.
Qed.

Lemma allDigits_noDash (s : string) : allDigits s = true -> noChar "-" s = true.
Proof.
  induction s as [|c s IH]; [reflexivity|]. cbn [allDigits noChar].
  intros H. apply andb_true_iff in H as [Hc Hs].
  destruct (digit_plain c Hc) as (-> & _). rewrite (IH Hs). reflexivity.
Qed.

Lemma splitOn_whole (sep : ascii) (a : string) :
  noChar sep a = true -> splitOn sep a = [a].
Proof.
  induction a as [|c a IH]; [reflexivity|]. cbn [noChar splitOn].
  intros H. apply andb_true_iff in H as [Hc Ha].
  apply negb_true_iff in Hc. rewrite Hc, (IH Ha). reflexivity.
Qed.

Lemma splitOn_app (sep : ascii) (a b : string) :
  noChar sep a = true -> splitOn sep (a +:+ String sep b) = a :: splitOn sep b.
Proof.
  induction a as [|c a IH].
  - intros _. rewrite append_nil. cbn [splitOn]. rewrite Ascii.eqb_refl. reflexivity.
  - cbn [noChar]. intros H. apply andb_true_iff in H as [Hc Ha].
    apply negb_true_iff in Hc. rewrite append_cons. cbn [splitOn].
    rewrite Hc, (IH Ha). reflexivity.
Qed.

Lemma takeN_append (p : ascii -> bool) (n : nat) (s a r rest : string) :
  takeN p n s = Some (a, r) -> takeN p n (s +:+ rest) = Some (a, r +:+ rest).
Proof.
  revert s a r. induction n as [|n IH]; intros s a r.
  - cbn [takeN]. intros [= <- <-]. reflexivity.
  - destruct s as [|c s]; [discriminate|]. rewrite append_cons. cbn [takeN].
    destruct (p c); [|discriminate].
    destruct (takeN p n s) as [[a' r']|] eqn:E; [|discriminate].
    intros [= <- <-]. rewrite (IH _ _ _ E). reflexivity.
Qed.

Lemma takeN_allDigits (s rest : string) :
  allDigits s = true ->
  takeN Str.is_digit (String.length s) (s +:+ rest) = Some (s, rest).
Proof.
  induction s as [|c s IH]; [reflexivity|]. cbn [allDigits String.length].
  intros H. apply andb_true_iff in H as [Hc Hs].
  rewrite append_cons. cbn [takeN]. rewrite Hc, (IH Hs). reflexivity.
Qed.

(** The text of a day read from two digits: a leading zero is dropped. *)
Lemma day_text (a b : ascii) :
  Str.is_digit a = true -> Str.is_digit b = true ->
  exists n,
    parseInt10 (String a (String b EmptyString)) = Ok (Some n)
    /\ numberText (Some n)
       = if Ascii.eqb a "0" then String b EmptyString
         else String a (String b EmptyString).
Proof.
  intros Ha Hb. apply digit_cases in Ha, Hb. cbn [In] in Ha, Hb.
  repeat (destruct Ha as [<-|Ha];
          [repeat (destruct Hb as [<-|Hb];
                   [eexists; split; vm_compute; reflexivity|]); destruct Hb|]).
  destruct Ha.
Qed.

Lemma month_text (month : string) :
  In month (map snd monthNumbers) ->
  exists n name,
    parseInt10 month = Ok (Some n)
    /\ monthName (Some (n - 1)) = name
    /\ In (name, month) monthNumbers.
Proof.
  cbn [map monthNumbers snd In]. intros H.
  repeat (destruct H as [<-|H];
          [eexists _, _; split; [vm_compute; reflexivity|];
           split; [vm_compute; reflexivity|]; cbn [In monthNumbers]; auto 14|]).
  destruct H.
Qed.

(** What [convertToDateInput] reads from a day of one or two digits, a month
    name and a year of four digits, one space between them. *)
Lemma convertToDateInput_written (day name month year : string) :
  allDigits day = true ->
  (String.length day = 1 \/ String.length day = 2)%nat ->
  In (name, month) monthNumbers ->
  allDigits year = true -> String.length year = 4%nat ->
  convertToDateInput (day +:+ " " +:+ name +:+ " " +:+ year)
  = year +:+ "-" +:+ month +:+ "-" +:+ padStart2 day.
Proof.
  intros Hday Hlen Hname Hyear Hy4.
  assert (Htail : monthYearAt (name +:+ " " +:+ year) = Some (name, year)
                  /\ monthNumber name = month
                  /\ exists l rest, name +:+ " " +:+ year = String l rest
                                    /\ Str.whiteChar (String l rest) = None).
  { destruct year as [|y1 year']; [discriminate|].
    cbn [allDigits] in Hyear. apply andb_true_iff in Hyear as [Hy1 Hyear'].
    destruct (digit_plain y1 Hy1) as (_ & _ & _ & Hw).
    assert (Hy : takeN Str.is_digit 4 (String y1 year') = Some (String y1 year', EmptyString)).
    { rewrite <- Hy4. rewrite <- (append_empty_r (String y1 year')) at 2.
      apply takeN_allDigits. cbn [allDigits]. rewrite Hy1, Hyear'. reflexivity. }
    assert (Hsp : white1 (String " " (String y1 year')) = Some (String y1 year')).
    { unfold white1. cbn [Str.whiteChar]. change (Str.is_space " ") with true. cbv iota.
      cbn [String.length Str.skipWhite]. rewrite Hw. reflexivity. }
    cbn [monthNumbers In] in Hname.
    repeat (destruct Hname as [[= <- <-]|Hname];
            [split; [|split; [vm_compute; reflexivity|]];
             [unfold monthYearAt;
              match goal with
              | |- context [takeN isLetter 3 (?n +:+ ?r)] =>
                  rewrite (takeN_append isLetter 3 n n EmptyString r eq_refl)
              end;
              rewrite append_nil;
              change (" " +:+ String y1 year') with (String " " (String y1 year'));
              rewrite Hsp, Hy; reflexivity
             |rewrite !append_cons, append_nil; eexists _, _;
              split; [reflexivity|reflexivity]]|]).
    destruct Hname. }
  destruct Htail as (Hmy & Hmon & l & rest & Hrest & Hwl).
  assert (Hsp : white1 (String " " (name +:+ " " +:+ year)) = Some (name +:+ " " +:+ year)).
  { unfold white1. cbn [Str.whiteChar]. change (Str.is_space " ") with true. cbv iota.
    rewrite Hrest. cbn [String.length Str.skipWhite]. rewrite Hwl. reflexivity. }
  assert (Hat : dayMonthYearAt (day +:+ " " +:+ name +:+ " " +:+ year)
                = Some (day, name, year)).
  { unfold dayMonthYearAt.
    change (" " +:+ name +:+ " " +:+ year) with (String " " (name +:+ " " +:+ year)).
    destruct Hlen as [Hlen|Hlen].
    - destruct day as [|a [|b day']]; try discriminate.
      cbn [allDigits] in Hday. rewrite andb_true_r in Hday.
      rewrite append_cons, append_nil. cbn [takeN]. rewrite Hday.
      change (Str.is_digit " ") with false. cbv iota.
      rewrite Hsp, Hmy. reflexivity.
    - rewrite <- Hlen at 1. rewrite (takeN_allDigits _ _ Hday).
      rewrite Hsp, Hmy. reflexivity. }
  unfold convertToDateInput.
  assert (Hne : nonEmpty (day +:+ " " +:+ name +:+ " " +:+ year) = true).
  { destruct day; [destruct Hlen; discriminate|reflexivity]. }
  rewrite Hne. cbn [negb].
  assert (Hs : search dayMonthYearAt (day +:+ " " +:+ name +:+ " " +:+ year)
               = Some (day, name, year)).
  { destruct (day +:+ " " +:+ name +:+ " " +:+ year); cbn [search]; rewrite Hat; reflexivity. }
  rewrite Hs, Hmon. reflexivity.
Qed.

(** X16.  A date chosen in a date input survives the conversion to the GEDCOM
    form and back: for a year of four digits, a month from 01 to 12 and a
    day of two digits, [convertFromDateInput] returns a text from which
    [convertToDateInput] gives the same date again. *)
Theorem date_input_round_trip (year month day : string) :
  String.length year = 4%nat -> allDigits year = true ->
  In month (map snd monthNumbers) ->
  String.length day = 2%nat -> allDigits day = true ->
  exists gedcomDate,
    convertFromDateInput (isoDate year month day) = Ok gedcomDate
    /\ convertToDateInput gedcomDate = isoDate year month day.
Proof.
  intros Hy4 Hyear Hmonth Hd2 Hday.
  destruct day as [|a [|b [|? ?]]]; try discriminate.
  cbn [allDigits] in Hday. rewrite andb_true_r in Hday.
  apply andb_true_iff in Hday as [Ha Hb].
  destruct (day_text a b Ha Hb) as (d & Hparse & Htext).
  destruct (month_text month Hmonth) as (m & name & Hm & Hname & Hin).
  assert (Hmd : allDigits month = true).
  { cbn [map monthNumbers snd In] in Hmonth.
    repeat (destruct Hmonth as [<-|Hmonth]; [reflexivity|]). destruct Hmonth. }
  exists (numberText (Some d) +:+ " " +:+ name +:+ " " +:+ year). split.
  - unfold convertFromDateInput, isoDate.
    assert (Hne : nonEmpty (year +:+ "-" +:+ month +:+ "-" +:+ String a (String b EmptyString)) = true).
    { destruct year; [discriminate|reflexivity]. }
    rewrite Hne. cbn [negb].
    change ("-" +:+ month +:+ "-" +:+ String a (String b EmptyString))
      with (String "-" (month +:+ String "-" (String a (String b EmptyString)))).
    rewrite (splitOn_app _ _ _ (allDigits_noDash _ Hyear)).
    rewrite (splitOn_app _ _ _ (allDigits_noDash _ Hmd)).
    rewrite splitOn_whole.
    2:{ apply allDigits_noDash. cbn [allDigits]. rewrite Ha, Hb. reflexivity. }
    rewrite Hm. cbn [bindRes]. rewrite Hparse. cbn [bindRes option_map].
    rewrite Hname. reflexivity.
  - rewrite (convertToDateInput_written _ name month year); try assumption.
    + unfold isoDate. rewrite Htext.
      destruct (Ascii.eqb_spec a "0") as [->|_]; reflexivity.
    + rewrite Htext. destruct (Ascii.eqb a "0"); cbn [allDigits];
        rewrite ?Ha, ?Hb; reflexivity.
    + rewrite Htext. destruct (Ascii.eqb a "0"); [left|right]; reflexivity.
Qed.

Lemma date_input_round_trip_witness :
  exists gedcomDate,
    convertFromDateInput "1990-01-15" = Ok gedcomDate
    /\ convertToDateInput gedcomDate = "1990-01-15".
Proof.
  apply (date_input_round_trip "1990" "01" "15"); try reflexivity.
  cbn. auto.
Defined.

(** * Adding relatives *)

Lemma createNewNode_post (s : State) (dom : Dom) (genderIp : option string) :
  exists (newId : string),
    mapGet (Some newId) (indviduals s) = None
    /\ createNewNode dom genderIp s =
         (mkState (store s ++ [createdPerson newId (formatGedcomName (newNodeNameValue dom))
                                             (genderUsed dom genderIp)])
                  (pushRoot (INDI s) (length (store s))) (FAM s)
                  (mapSet (Some newId) (length (store s)) (indviduals s)) (families s)
                  (queueForNext s) (orderInLevel s) (alerts s),
          Ok (length (store s))).
Proof.
  destruct (nextIndividualID_fresh s) as [newId [Hnew Hfresh]].
  exists newId. split; [exact Hfresh|].
  unfold createNewNode.
  cbv beta iota delta [bindMut liftRes allocM alloc addIndiToRoot modify ret].
  rewrite Hnew. cbv beta iota.
  destruct s as [st indi fam ind fams q o al]. unfold_state. store_norm.
  reflexivity.
Qed.

Lemma deref_mk_old (st : list FamilyRow) (p : FamilyRow) indi fam ind fams q o al (a : addr) :
  (a < length st)%nat ->
  deref (mkState (st ++ [p]) indi fam ind fams q o al) a = default emptyRow (st !! a).
Proof. intros H. unfold deref. cbn [store]. rewrite lookup_app_l by exact H. reflexivity. Qed.

Lemma deref_mk_new (st : list FamilyRow) (p : FamilyRow) indi fam ind fams q o al :
  deref (mkState (st ++ [p]) indi fam ind fams q o al) (length st) = p.
Proof.
  unfold deref. cbn [store]. rewrite lookup_app_r by lia.
  rewrite Nat.sub_diag. reflexivity.
Qed.

Lemma createOrGetFamilyOfChild_found (s : State) (cur fam : addr) :
  childFamilyFound s cur fam ->
  createOrGetFamilyOfChild cur s = (s, Ok (Some fam)).
Proof.
  intros (e & rest & HF & Hmap & _). unfold createOrGetFamilyOfChild.
  rewrite HF, Hmap. reflexivity.
Qed.

Lemma createOrGetFamilyOfChild_creates (s : State) (cur : addr) (famId : string) :
  (cur < length (store s))%nat ->
  nonEmptyArray (getProp "FAMC" (props (deref s cur))) = false ->
  nextFamilyID s = Ok famId ->
  createOrGetFamilyOfChild cur s =
    (mkState (<[cur := withField "FAMC" (Many [link "FAMC" (Some famId)]) (deref s cur)]> (store s)
                ++ [childFamily famId (deref s cur)])
             (INDI s) (pushRoot (FAM s) (length (store s)))
             (indviduals s) (mapSet (Some famId) (length (store s)) (families s))
             (queueForNext s) (orderInLevel s) (alerts s),
     Ok (Some (length (store s)))).
Proof.
  intros Hcur Hfamc Hfam.
  unfold createOrGetFamilyOfChild.
  destruct (getProp "FAMC" (props (deref s cur))) as [[c|[|f fs]]|] eqn:EF;
    try discriminate.
  all: cbv beta iota delta [bindMut liftRes allocM alloc addFamToRoot modify setField ret];
    rewrite Hfam; cbv beta iota.
  all: clear EF Hfamc Hfam; destruct s as [st indi fam ind fams q o al];
    unfold_state.
  all: store_norm.
  all: rewrite !insert_last by len_side.
  all: reflexivity.
Qed.

(** X17.  On an individual whose FAMC is not a non-empty array,
    [createOrGetFamilyOfChild] creates a family under an id the Map did not
    hold, with the individual as its only child, and makes it the
    individual's only FAMC entry.  From then on the family is found: a second
    call returns the same family and changes nothing, and [addSibling] and
    [addParentsIfNotAvailable] go on as they do from the state with the
    family in place. *)
Theorem createOrGetFamilyOfChild_settles (s : State) (dom : Dom) (cur : addr) :
  (cur < length (store s))%nat ->
  nonEmptyArray (getProp "FAMC" (props (deref s cur))) = false ->
  exists (s1 : State) (fam : addr),
    createOrGetFamilyOfChild cur s = (s1, Ok (Some fam))
    /\ mapGet (id (deref s1 fam)) (families s) = None
    /\ childFamilyFound s1 cur fam
    /\ getProp "CHIL" (props (deref s1 fam)) = Some (Many [link "CHIL" (id (deref s cur))])
    /\ getProp "FAMC" (props (deref s1 cur))
       = Some (Many [link "FAMC" (id (deref s1 fam))])
    /\ id (deref s1 cur) = id (deref s cur)
    /\ createOrGetFamilyOfChild cur s1 = (s1, Ok (Some fam))
    /\ addSibling dom cur s = addSibling dom cur s1
    /\ addParentsIfNotAvailable dom cur s = addParentsIfNotAvailable dom cur s1.
Proof.
  intros Hcur Hfamc.
  destruct (nextFamilyID_fresh s) as [famId [Hfam Hfresh]].
  pose proof (createOrGetFamilyOfChild_creates s cur famId Hcur Hfamc Hfam) as Hrun.
  set (s1 := mkState _ _ _ _ _ _ _ _) in Hrun.
  assert (Hd1 : deref s1 (length (store s)) = childFamily famId (deref s cur)).
  { unfold s1, deref. cbn [store]. store_norm. reflexivity. }
  assert (Hd2 : deref s1 cur
                = withField "FAMC" (Many [link "FAMC" (Some famId)]) (deref s cur)).
  { unfold s1, deref. cbn [store]. store_norm. reflexivity. }
  assert (Hfound : childFamilyFound s1 cur (length (store s))).
  { exists (link "FAMC" (Some famId)), []. split; [|split].
    - rewrite Hd2. unfold withField, withProps. cbn [props].
      apply getProp_setProp_same.
    - unfold s1. cbn [families link newFamilyRow id]. apply mapGet_mapSet_same.
    - unfold s1. cbn [store]. rewrite length_app, length_insert. cbn [length]. lia. }
  pose proof (createOrGetFamilyOfChild_found _ _ _ Hfound) as Hagain.
  exists s1, (length (store s)).
  split; [exact Hrun|]. split; [rewrite Hd1; exact Hfresh|].
  split; [exact Hfound|]. split; [rewrite Hd1; reflexivity|].
  split.
  { rewrite Hd2, Hd1. unfold withField, withProps. cbn [props].
    apply getProp_setProp_same. }
  split; [rewrite Hd2; reflexivity|].
  split; [exact Hagain|]. split.
  - unfold addSibling, bindMut. rewrite Hrun, Hagain. reflexivity.
  - unfold addParentsIfNotAvailable, bindMut. rewrite Hrun, Hagain. reflexivity.
Qed.

Lemma createOrGetFamilyOfChild_settles_witness :
  exists (s1 : State) (fam : addr),
    createOrGetFamilyOfChild 1%nat (stateOf scenarioA) = (s1, Ok (Some fam))
    /\ mapGet (id (deref s1 fam)) (families (stateOf scenarioA)) = None
    /\ childFamilyFound s1 1%nat fam.
Proof.
  destruct (createOrGetFamilyOfChild_settles (stateOf scenarioA) (mkDom "Sibling" (Some "F"))
              1%nat) as (s1 & fam & H1 & H2 & H3 & _).
  - apply Nat.ltb_lt. vm_compute. reflexivity.
  - vm_compute. reflexivity.
  - exists s1, fam. auto.
Defined.

(** X18.  When the family of an individual as a child is found and holds a
    CHIL array, [addSibling] runs to the end: it creates an individual under
    an id the Map did not hold, enters it in the Map, appends it to the CHIL
    array of that family and gives it one FAMC entry naming the family.  The
    other fields of the family, the other records and the [families] Map are
    as before. *)
Theorem addSibling_joins_family (s : State) (dom : Dom) (cur fam : addr)
    (l : list FamilyRow) :
  childFamilyFound s cur fam ->
  getProp "CHIL" (props (deref s fam)) = Some (Many l) ->
  exists (s' : State) (sibId : string),
    addSibling dom cur s = (s', Ok tt)
    /\ mapGet (Some sibId) (indviduals s) = None
    /\ mapGet (Some sibId) (indviduals s') = Some (length (store s))
    /\ id (deref s' (length (store s))) = Some sibId
    /\ getProp "FAMC" (props (deref s' (length (store s))))
       = Some (Many [link "FAMC" (id (deref s fam))])
    /\ getProp "CHIL" (props (deref s' fam))
       = Some (Many (l ++ [link "CHIL" (Some sibId)]))
    /\ (forall k, k <> "CHIL" ->
          getProp k (props (deref s' fam)) = getProp k (props (deref s fam)))
    /\ id (deref s' fam) = id (deref s fam)
    /\ families s' = families s
    /\ (forall a, (a < length (store s))%nat -> a <> fam -> deref s' a = deref s a).
Proof.
  intros Hfound HCHIL.
  pose proof (createOrGetFamilyOfChild_found _ _ _ Hfound) as Hget.
  destruct Hfound as (e & rest & HF & Hmap & Hfam).
  destruct (createNewNode_post s dom None) as (sibId & Hfresh & Hnew).
  set (p := createdPerson sibId _ _) in Hnew.
  set (s2 := mkState _ _ _ _ _ _ _ _) in Hnew.
  assert (D2 : deref s2 fam = deref s fam).
  { unfold s2. rewrite deref_mk_old by exact Hfam. reflexivity. }
  assert (N2 : deref s2 (length (store s)) = p).
  { unfold s2. apply deref_mk_new. }
  assert (L2 : length (store s2) = S (length (store s))).
  { unfold s2. cbn [store]. rewrite length_app. cbn [length]. lia. }
  set (s3 := update s2 fam
               (fun r => withProps r (setProp "CHIL" (Many (l ++ [link "CHIL" (id p)])) (props r)))).
  set (s4 := update s3 (length (store s))
               (fun r => withProps r (setProp "FAMC" (Many [link "FAMC" (id (deref s3 fam))])
                                              (props r)))).
  assert (Hrun : addSibling dom cur s = (s4, Ok tt)).
  { unfold addSibling, bindMut. rewrite Hget, Hnew. cbv beta iota.
    rewrite D2, HCHIL. cbv beta iota. unfold setField, modify. rewrite N2. reflexivity. }
  assert (L3 : length (store s3) = S (length (store s))).
  { unfold s3. rewrite length_store_update. exact L2. }
  assert (D3 : deref s3 fam
               = withProps (deref s fam)
                   (setProp "CHIL" (Many (l ++ [link "CHIL" (id p)])) (props (deref s fam)))).
  { unfold s3. rewrite deref_update_same by lia. rewrite D2. reflexivity. }
  assert (N3 : deref s3 (length (store s)) = p).
  { unfold s3. rewrite deref_update_other by lia. exact N2. }
  assert (D4 : deref s4 fam = deref s3 fam).
  { unfold s4. apply deref_update_other. lia. }
  assert (N4 : deref s4 (length (store s))
               = withProps p (setProp "FAMC" (Many [link "FAMC" (id (deref s fam))]) (props p))).
  { unfold s4. rewrite deref_update_same by lia. rewrite N3, D3. reflexivity. }
  exists s4, sibId.
  split; [exact Hrun|]. split; [exact Hfresh|].
  split; [apply mapGet_mapSet_same|].
  split; [rewrite N4; reflexivity|].
  split; [rewrite N4; cbn [props withProps]; apply getProp_setProp_same|].
  split; [rewrite D4, D3; cbn [props withProps]; apply getProp_setProp_same|].
  split.
  { intros k Hk. rewrite D4, D3. cbn [props withProps].
    apply getProp_setProp_other. exact Hk. }
  split; [rewrite D4, D3; reflexivity|].
  split; [reflexivity|].
  intros a Ha Hne. unfold s4. rewrite deref_update_other by lia.
  unfold s3. rewrite deref_update_other by (intros E; apply Hne; symmetry; exact E).
  unfold s2. rewrite deref_mk_old by exact Ha. reflexivity.
Qed.

Lemma addSibling_joins_family_witness :
  exists (s' : State) (sibId : string),
    addSibling (mkDom "Sister" (Some "F")) 0%nat (stateOf scenarioA) = (s', Ok tt)
    /\ mapGet (Some sibId) (indviduals (stateOf scenarioA)) = None
    /\ mapGet (Some sibId) (indviduals s') = Some 4%nat
    /\ getProp "CHIL" (props (deref s' 3%nat))
       = Some (Many [formatLine "1 CHIL @I1@"; link "CHIL" (Some sibId)]).
Proof.
  destruct (addSibling_joins_family (stateOf scenarioA) (mkDom "Sister" (Some "F"))
              0%nat 3%nat [formatLine "1 CHIL @I1@"])
    as (s' & sibId & H1 & H2 & H3 & _ & _ & H6 & _).
  - exists (formatLine "1 FAMC @F1@"), []. split; [vm_compute; reflexivity|].
    split; [vm_compute; reflexivity|]. apply Nat.ltb_lt. vm_compute. reflexivity.
  - vm_compute. reflexivity.
  - exists s', sibId. auto.
Defined.

Lemma mapGet_mapSet_other (k k' : option string) (v : addr) (m : JSMap) :
  k <> k' -> mapGet k (mapSet k' v m) = mapGet k m.
Proof.
  intros Hne.
  assert (E : optEqb k k' = false).
  { destruct (optEqb k k') eqn:E; [apply optEqb_eq in E; contradiction|reflexivity]. }
  induction m as [|[k0 v0] m IH]; cbn [mapSet mapGet].
  - rewrite E. reflexivity.
  - destruct (optEqb k' k0) eqn:E0; cbn [mapGet].
    + rewrite E. apply optEqb_eq in E0. subst k0. rewrite E. reflexivity.
    + destruct (optEqb k k0); [reflexivity|exact IH].
Qed.

Lemma addParentsIfNotAvailable_roles (dom : Dom) (cur : addr) :
  addParentsIfNotAvailable dom cur
  = (do* familyRow := createOrGetFamilyOfChild cur in
     match familyRow with
     | None => throw "TypeError: cannot read properties of undefined (reading 'HUSB')"
     | Some fam =>
         do* _ := ensureRole dom fam "M" "HUSB" in
         ensureRole dom fam "F" "WIFE"
     end).
Proof. reflexivity. Qed.

Lemma parentBlock_post (s : State) (dom : Dom) (fam : addr) (gender role : string) :
  (fam < length (store s))%nat -> gender <> "" -> role <> "FAMS" -> role <> "SEX" ->
  exists (s' : State),
    parentBlock dom fam gender role s = (s', Ok tt)
    /\ length (store s') = S (length (store s))
    /\ families s' = families s
    /\ parentCreated s s' fam gender role
    /\ (forall k, k <> role ->
          getProp k (props (deref s' fam)) = getProp k (props (deref s fam)))
    /\ id (deref s' fam) = id (deref s fam)
    /\ (forall a, (a < length (store s))%nat -> a <> fam -> deref s' a = deref s a)
    /\ (forall k a, mapGet k (indviduals s) = Some a -> mapGet k (indviduals s') = Some a).
Proof.
  intros Hfam Hg Hr1 Hr2.
  destruct (createNewNode_post s dom (Some gender)) as (newId & Hfresh & Hnew).
  assert (Hused : genderUsed dom (Some gender) = Some gender).
  { unfold genderUsed, truthyId, nonEmpty.
    destruct (String.eqb gender "") eqn:E; [apply String.eqb_eq in E; contradiction|].
    reflexivity. }
  rewrite Hused in Hnew.
  set (p := createdPerson newId _ _) in Hnew.
  set (s2 := mkState _ _ _ _ _ _ _ _) in Hnew.
  assert (D2 : deref s2 fam = deref s fam).
  { unfold s2. rewrite deref_mk_old by exact Hfam. reflexivity. }
  assert (N2 : deref s2 (length (store s)) = p).
  { unfold s2. apply deref_mk_new. }
  assert (L2 : length (store s2) = S (length (store s))).
  { unfold s2. cbn [store]. rewrite length_app. cbn [length]. lia. }
  set (s3 := update s2 (length (store s))
               (fun r => withProps r (setProp "FAMS" (Many [link "FAMS" (id (deref s fam))])
                                              (props r)))).
  set (s4 := update s3 fam
               (fun r => withProps r (setProp role (Many [link role (Some newId)]) (props r)))).
  assert (L3 : length (store s3) = S (length (store s))).
  { unfold s3. rewrite length_store_update. exact L2. }
  assert (N3 : deref s3 (length (store s))
               = withProps p (setProp "FAMS" (Many [link "FAMS" (id (deref s fam))]) (props p))).
  { unfold s3. rewrite deref_update_same by lia. rewrite N2. reflexivity. }
  assert (D3 : deref s3 fam = deref s fam).
  { unfold s3. rewrite deref_update_other by lia. exact D2. }
  assert (Hrun : parentBlock dom fam gender role s = (s4, Ok tt)).
  { unfold parentBlock, bindMut. rewrite Hnew. cbv beta iota.
    unfold setField, modify. rewrite D2. fold s3. rewrite N3. reflexivity. }
  assert (D4 : deref s4 fam
               = withProps (deref s fam)
                   (setProp role (Many [link role (Some newId)]) (props (deref s fam)))).
  { unfold s4. rewrite deref_update_same by lia. rewrite D3. reflexivity. }
  assert (N4 : deref s4 (length (store s)) = deref s3 (length (store s))).
  { unfold s4. apply deref_update_other. lia. }
  assert (Hgt : truthyId (Some gender) = true).
  { unfold truthyId, nonEmpty.
    destruct (String.eqb gender "") eqn:E; [apply String.eqb_eq in E; contradiction|].
    reflexivity. }
  exists s4. split; [exact Hrun|].
  split; [unfold s4; rewrite length_store_update; exact L3|].
  split; [reflexivity|]. split.
  { exists newId, (length (store s)).
    split; [unfold s4; rewrite length_store_update; lia|].
    split; [exact Hfresh|]. split; [apply mapGet_mapSet_same|].
    split; [rewrite N4, N3; reflexivity|].
    split; [rewrite D4; cbn [props withProps]; apply getProp_setProp_same|].
    split; [rewrite N4, N3; cbn [props withProps]; apply getProp_setProp_same|].
    rewrite N4, N3. cbn [props withProps].
    rewrite getProp_setProp_other by discriminate.
    unfold p, createdPerson. rewrite Hgt. reflexivity. }
  split.
  { intros k Hk. rewrite D4. cbn [props withProps].
    apply getProp_setProp_other. exact Hk. }
  split; [rewrite D4; reflexivity|].
  split.
  { intros a Ha Hne. unfold s4.
    rewrite deref_update_other by (intros E; apply Hne; symmetry; exact E).
    unfold s3. rewrite deref_update_other by lia.
    unfold s2. rewrite deref_mk_old by exact Ha. reflexivity. }
  intros k a Hk.
  change (mapGet k (mapSet (Some newId) (length (store s)) (indviduals s)) = Some a).
  rewrite mapGet_mapSet_other; [exact Hk|].
  intros ->. rewrite Hfresh in Hk. discriminate.
Qed.

Lemma ensureRole_post (s : State) (dom : Dom) (fam : addr) (gender role : string) :
  (fam < length (store s))%nat -> gender <> "" -> role <> "FAMS" -> role <> "SEX" ->
  exists (s' : State),
    ensureRole dom fam gender role s = (s', Ok tt)
    /\ (length (store s) <= length (store s'))%nat
    /\ families s' = families s
    /\ nonEmptyArray (getProp role (props (deref s' fam))) = true
    /\ (if nonEmptyArray (getProp role (props (deref s fam)))
        then s' = s else parentCreated s s' fam gender role)
    /\ (forall k, k <> role ->
          getProp k (props (deref s' fam)) = getProp k (props (deref s fam)))
    /\ id (deref s' fam) = id (deref s fam)
    /\ (forall a, (a < length (store s))%nat -> a <> fam -> deref s' a = deref s a)
    /\ (forall k a, mapGet k (indviduals s) = Some a -> mapGet k (indviduals s') = Some a).
Proof.
  intros Hfam Hg Hr1 Hr2. unfold ensureRole.
  destruct (nonEmptyArray (getProp role (props (deref s fam)))) eqn:E.
  - exists s. repeat split; auto.
  - destruct (parentBlock_post s dom fam gender role Hfam Hg Hr1 Hr2)
      as (s' & Hrun & Hlen & Hfams & Hcr & Hother & Hid & Hframe & Hmap).
    exists s'. split; [exact Hrun|]. split; [lia|]. split; [exact Hfams|].
    split.
    { destruct Hcr as (newId & p & _ & _ & _ & _ & Hrole & _). rewrite Hrole. reflexivity. }
    repeat split; assumption.
Qed.

(** X19.  When the family of an individual as a child is found,
    [addParentsIfNotAvailable] runs to the end and the family then has a
    non-empty HUSB array and a non-empty WIFE array.  A role that named
    somebody is left as it was; for a role that named nobody an individual
    is created under an id the Map did not hold, with SEX M for HUSB and F
    for WIFE and one FAMS entry naming the family.  The other fields of the
    family are as before, and calling the function again changes nothing. *)
Theorem addParents_fills_both_roles (s : State) (dom : Dom) (cur fam : addr) :
  childFamilyFound s cur fam ->
  exists (s' : State),
    addParentsIfNotAvailable dom cur s = (s', Ok tt)
    /\ nonEmptyArray (getProp "HUSB" (props (deref s' fam))) = true
    /\ nonEmptyArray (getProp "WIFE" (props (deref s' fam))) = true
    /\ (if nonEmptyArray (getProp "HUSB" (props (deref s fam)))
        then getProp "HUSB" (props (deref s' fam)) = getProp "HUSB" (props (deref s fam))
        else parentCreated s s' fam "M" "HUSB")
    /\ (if nonEmptyArray (getProp "WIFE" (props (deref s fam)))
        then getProp "WIFE" (props (deref s' fam)) = getProp "WIFE" (props (deref s fam))
        else parentCreated s s' fam "F" "WIFE")
    /\ (forall k, k <> "HUSB" -> k <> "WIFE" ->
          getProp k (props (deref s' fam)) = getProp k (props (deref s fam)))
    /\ families s' = families s
    /\ addParentsIfNotAvailable dom cur s' = (s', Ok tt).
Proof.
  intros Hfound.
  pose proof (createOrGetFamilyOfChild_found _ _ _ Hfound) as Hget.
  destruct Hfound as (e & rest & HF & Hmap & Hfam).
  assert (Hcur : (cur < length (store s))%nat).
  { destruct (Nat.lt_ge_cases cur (length (store s))) as [H|H]; [exact H|].
    unfold deref in HF. rewrite lookup_ge_None_2 in HF by exact H. discriminate. }
  destruct (ensureRole_post s dom fam "M" "HUSB" Hfam) as
    (s1 & Hrun1 & Hlen1 & Hfams1 & Hne1 & Hcase1 & Hother1 & Hid1 & Hframe1 & Hmap1);
    try discriminate.
  assert (Hfam1 : (fam < length (store s1))%nat) by lia.
  destruct (ensureRole_post s1 dom fam "F" "WIFE" Hfam1) as
    (s2 & Hrun2 & Hlen2 & Hfams2 & Hne2 & Hcase2 & Hother2 & Hid2 & Hframe2 & Hmap2);
    try discriminate.
  assert (Hrun : addParentsIfNotAvailable dom cur s = (s2, Ok tt)).
  { rewrite addParentsIfNotAvailable_roles. unfold bindMut.
    rewrite Hget, Hrun1. exact Hrun2. }
  assert (HF2 : getProp "FAMC" (props (deref s2 cur)) = Some (Many (e :: rest))).
  { destruct (Nat.eq_dec cur fam) as [->|Hne].
    - rewrite Hother2, Hother1 by discriminate. exact HF.
    - rewrite Hframe2 by (lia || exact Hne). rewrite Hframe1 by (lia || exact Hne).
      exact HF. }
  assert (Hfound2 : childFamilyFound s2 cur fam).
  { exists e, rest. split; [exact HF2|]. split; [|lia].
    rewrite Hfams2, Hfams1. exact Hmap. }
  exists s2. split; [exact Hrun|].
  split; [rewrite Hother2 by discriminate; exact Hne1|].
  split; [exact Hne2|].
  split.
  { destruct (nonEmptyArray (getProp "HUSB" (props (deref s fam)))).
    - subst s1. apply Hother2. discriminate.
    - destruct Hcase1 as (newId & p & Hp & Hfresh & Hin & Hpid & Hrole & Hfams & Hsex).
      assert (Hpf : p <> fam) by lia.
      exists newId, p.
      split; [lia|]. split; [exact Hfresh|]. split; [apply Hmap2; exact Hin|].
      rewrite (Hframe2 p) by (lia || exact Hpf).
      split; [exact Hpid|].
      split; [rewrite Hother2 by discriminate; exact Hrole|].
      split; [exact Hfams|exact Hsex]. }
  split.
  { rewrite <- (Hother1 "WIFE") by discriminate.
    destruct (nonEmptyArray (getProp "WIFE" (props (deref s1 fam)))).
    - subst s2. reflexivity.
    - destruct Hcase2 as (newId & p & Hp & Hfresh & Hin & Hpid & Hrole & Hfams & Hsex).
      exists newId, p.
      split; [lia|].
      split.
      { destruct (mapGet (Some newId) (indviduals s)) as [a|] eqn:E; [|reflexivity].
        rewrite (Hmap1 _ _ E) in Hfresh. discriminate. }
      split; [exact Hin|]. split; [exact Hpid|]. split; [exact Hrole|].
      rewrite <- Hid1. split; [exact Hfams|exact Hsex]. }
  split.
  { intros k Hk1 Hk2. rewrite Hother2, Hother1 by assumption. reflexivity. }
  split; [rewrite Hfams2; exact Hfams1|].
  rewrite addParentsIfNotAvailable_roles. unfold bindMut.
  rewrite (createOrGetFamilyOfChild_found _ _ _ Hfound2).
  unfold ensureRole. rewrite Hother2 by discriminate. rewrite Hne1.
  cbv beta iota delta [ret]. rewrite Hne2. reflexivity.
Qed.

Lemma addParents_fills_both_roles_witness :
  exists (s' : State),
    addParentsIfNotAvailable (mkDom "Parent" None) 0%nat (stateOf scenarioA) = (s', Ok tt)
    /\ nonEmptyArray (getProp "HUSB" (props (deref s' 3%nat))) = true
    /\ nonEmptyArray (getProp "WIFE" (props (deref s' 3%nat))) = true.
Proof.
  destruct (addParents_fills_both_roles (stateOf scenarioA) (mkDom "Parent" None)
              0%nat 3%nat) as (s' & H1 & H2 & H3 & _).
  - exists (formatLine "1 FAMC @F1@"), []. split; [vm_compute; reflexivity|].
    split; [vm_compute; reflexivity|]. apply Nat.ltb_lt. vm_compute. reflexivity.
  - exists s'. auto.
Defined.

Lemma pushInto_props (k : string) (x r : FamilyRow) :
  props (pushInto k x r)
  = setProp k (Many (arrayToPushOn (getProp k (props r)) ++ [x])) (props r).
Proof.
  unfold pushInto, arrayToPushOn.
  destruct (getProp k (props r)) as [[c|[|y ys]]|]; reflexivity.
Qed.

Lemma pushInto_id (k : string) (x r : FamilyRow) : id (pushInto k x r) = id r.
Proof.
  unfold pushInto. destruct (getProp k (props r)) as [[c|[|y ys]]|]; reflexivity.
Qed.

Lemma addChildToFamily_post (s : State) (dom : Dom) (fam : addr) :
  (fam < length (store s))%nat ->
  exists (s' : State) (childId : string),
    addChildToFamily dom (Some fam) s = (s', Ok tt)
    /\ mapGet (Some childId) (indviduals s) = None
    /\ mapGet (Some childId) (indviduals s') = Some (length (store s))
    /\ id (deref s' (length (store s))) = Some childId
    /\ getProp "FAMC" (props (deref s' (length (store s))))
       = Some (Many [link "FAMC" (id (deref s fam))])
    /\ getProp "CHIL" (props (deref s' fam))
       = Some (Many (arrayToPushOn (getProp "CHIL" (props (deref s fam)))
                     ++ [link "CHIL" (Some childId)]))
    /\ (forall k, k <> "CHIL" ->
          getProp k (props (deref s' fam)) = getProp k (props (deref s fam)))
    /\ id (deref s' fam) = id (deref s fam)
    /\ families s' = families s
    /\ (forall a, (a < length (store s))%nat -> a <> fam -> deref s' a = deref s a).
Proof.
  intros Hfam.
  destruct (createNewNode_post s dom None) as (childId & Hfresh & Hnew).
  set (p := createdPerson childId _ _) in Hnew.
  set (s2 := mkState _ _ _ _ _ _ _ _) in Hnew.
  assert (D2 : deref s2 fam = deref s fam).
  { unfold s2. rewrite deref_mk_old by exact Hfam. reflexivity. }
  assert (N2 : deref s2 (length (store s)) = p).
  { unfold s2. apply deref_mk_new. }
  assert (L2 : length (store s2) = S (length (store s))).
  { unfold s2. cbn [store]. rewrite length_app. cbn [length]. lia. }
  set (s3 := update s2 (length (store s))
               (fun r => withProps r (setProp "FAMC" (Many [link "FAMC" (id (deref s fam))])
                                              (props r)))).
  set (s4 := update s3 fam (pushInto "CHIL" (link "CHIL" (Some childId)))).
  assert (L3 : length (store s3) = S (length (store s))).
  { unfold s3. rewrite length_store_update. exact L2. }
  assert (N3 : deref s3 (length (store s))
               = withProps p (setProp "FAMC" (Many [link "FAMC" (id (deref s fam))]) (props p))).
  { unfold s3. rewrite deref_update_same by lia. rewrite N2. reflexivity. }
  assert (D3 : deref s3 fam = deref s fam).
  { unfold s3. rewrite deref_update_other by lia. exact D2. }
  assert (Hrun : addChildToFamily dom (Some fam) s = (s4, Ok tt)).
  { unfold addChildToFamily, bindMut. rewrite Hnew. cbv beta iota.
    unfold setField, pushField, modify. rewrite D2. fold s3. rewrite N3. reflexivity. }
  assert (D4 : deref s4 fam = pushInto "CHIL" (link "CHIL" (Some childId)) (deref s fam)).
  { unfold s4. rewrite deref_update_same by lia. rewrite D3. reflexivity. }
  assert (N4 : deref s4 (length (store s)) = deref s3 (length (store s))).
  { unfold s4. apply deref_update_other. lia. }
  exists s4, childId.
  split; [exact Hrun|]. split; [exact Hfresh|].
  split; [apply mapGet_mapSet_same|].
  split; [rewrite N4, N3; reflexivity|].
  split; [rewrite N4, N3; cbn [props withProps]; apply getProp_setProp_same|].
  split; [rewrite D4, pushInto_props; apply getProp_setProp_same|].
  split.
  { intros k Hk. rewrite D4, pushInto_props. apply getProp_setProp_other. exact Hk. }
  split; [rewrite D4; apply pushInto_id|].
  split; [reflexivity|].
  intros a Ha Hne. unfold s4.
  rewrite deref_update_other by (intros E; apply Hne; symmetry; exact E).
  unfold s3. rewrite deref_update_other by lia.
  unfold s2. rewrite deref_mk_old by exact Ha. reflexivity.
Qed.

(** X20.  [addChildToFamily] on a family runs to the end: it creates an
    individual under an id the Map did not hold, enters it in the Map, gives
    it one FAMC entry naming the family and appends it to the family's CHIL
    array; a CHIL slot that is not a non-empty array is replaced by the array
    of the new child alone.  The other fields of the family and the other
    records are as before. *)
Theorem addChildToFamily_links (s : State) (dom : Dom) (fam : addr) :
  (fam < length (store s))%nat ->
  exists (s' : State) (childId : string),
    addChildToFamily dom (Some fam) s = (s', Ok tt)
    /\ mapGet (Some childId) (indviduals s) = None
    /\ mapGet (Some childId) (indviduals s') = Some (length (store s))
    /\ id (deref s' (length (store s))) = Some childId
    /\ getProp "FAMC" (props (deref s' (length (store s))))
       = Some (Many [link "FAMC" (id (deref s fam))])
    /\ getProp "CHIL" (props (deref s' fam))
       = Some (Many (arrayToPushOn (getProp "CHIL" (props (deref s fam)))
                     ++ [link "CHIL" (Some childId)]))
    /\ (forall k, k <> "CHIL" ->
          getProp k (props (deref s' fam)) = getProp k (props (deref s fam)))
    /\ id (deref s' fam) = id (deref s fam)
    /\ families s' = families s
    /\ (forall a, (a < length (store s))%nat -> a <> fam -> deref s' a = deref s a).
Proof. exact (addChildToFamily_post s dom fam). Qed.

Lemma addChildToFamily_links_witness :
  exists (s' : State) (childId : string),
    addChildToFamily (mkDom "Child" (Some "F")) (Some 3%nat) (stateOf scenarioA) = (s', Ok tt)
    /\ mapGet (Some childId) (indviduals (stateOf scenarioA)) = None
    /\ mapGet (Some childId) (indviduals s') = Some 4%nat.
Proof.
  destruct (addChildToFamily_links (stateOf scenarioA) (mkDom "Child" (Some "F")) 3%nat)
    as (s' & childId & H1 & H2 & H3 & _).
  - apply Nat.ltb_lt. vm_compute. reflexivity.
  - exists s', childId. auto.
Defined.

(** X21.  An addition that cannot find its family fails only after the new
    individual exists.  [addPartner] on an individual whose first FAMS id is
    not in the Map, [addSibling] on one whose first FAMC id is not in the Map
    or names a family without a CHIL array, and [addChildToFamily] without a
    family all raise a TypeError in the state [createNewNode] leaves: the
    individual is in the store and in the Map under a new id, with no FAMC
    and no FAMS entry. *)
Theorem failed_add_leaves_individual (s : State) (dom : Dom) (cur : addr) :
  exists (s1 : State) (newId : string),
    createNewNode dom None s = (s1, Ok (length (store s)))
    /\ mapGet (Some newId) (indviduals s) = None
    /\ mapGet (Some newId) (indviduals s1) = Some (length (store s))
    /\ id (deref s1 (length (store s))) = Some newId
    /\ getProp "FAMC" (props (deref s1 (length (store s)))) = None
    /\ getProp "FAMS" (props (deref s1 (length (store s)))) = None
    /\ (forall e rest,
          getProp "FAMS" (props (deref s cur)) = Some (Many (e :: rest)) ->
          mapGet (id e) (families s) = None ->
          exists msg, addPartner dom cur s = (s1, Throw msg))
    /\ (forall e rest,
          getProp "FAMC" (props (deref s cur)) = Some (Many (e :: rest)) ->
          mapGet (id e) (families s) = None ->
          exists msg, addSibling dom cur s = (s1, Throw msg))
    /\ (forall e rest fam,
          getProp "FAMC" (props (deref s cur)) = Some (Many (e :: rest)) ->
          mapGet (id e) (families s) = Some fam ->
          (fam < length (store s))%nat ->
          (forall l, getProp "CHIL" (props (deref s fam)) <> Some (Many l)) ->
          exists msg, addSibling dom cur s = (s1, Throw msg))
    /\ (exists msg, addChildToFamily dom None s = (s1, Throw msg)).
Proof.
  destruct (createNewNode_post s dom None) as (newId & Hfresh & Hnew).
  set (p := createdPerson newId _ _) in Hnew.
  set (s1 := mkState _ _ _ _ _ _ _ _) in Hnew.
  assert (N1 : deref s1 (length (store s)) = p).
  { unfold s1. apply deref_mk_new. }
  exists s1, newId.
  split; [exact Hnew|]. split; [exact Hfresh|].
  split; [apply mapGet_mapSet_same|].
  split; [rewrite N1; reflexivity|].
  split.
  { rewrite N1. unfold p, createdPerson. destruct (truthyId _); reflexivity. }
  split.
  { rewrite N1. unfold p, createdPerson. destruct (truthyId _); reflexivity. }
  split.
  { intros e rest HF Hmap. eexists.
    unfold addPartner, bindMut, createOrGetFamilyOfPartner.
    rewrite HF, Hmap, Hnew. reflexivity. }
  split.
  { intros e rest HF Hmap. eexists.
    unfold addSibling, bindMut, createOrGetFamilyOfChild.
    rewrite HF, Hmap, Hnew. reflexivity. }
  split.
  { intros e rest fam HF Hmap Hfam Hchil.
    unfold addSibling, bindMut, createOrGetFamilyOfChild.
    rewrite HF, Hmap, Hnew. cbv beta iota.
    assert (D : deref s1 fam = deref s fam).
    { unfold s1. rewrite deref_mk_old by exact Hfam. reflexivity. }
    rewrite D.
    destruct (getProp "CHIL" (props (deref s fam))) as [[c|l]|] eqn:E.
    - eexists. reflexivity.
    - exfalso. exact (Hchil l eq_refl).
    - eexists. reflexivity. }
  eexists. unfold addChildToFamily, bindMut. rewrite Hnew. reflexivity.
Qed.

Lemma failed_add_leaves_individual_witness :
  exists (s1 : State) (msg : string),
    addPartner (mkDom "Partner" (Some "F")) 0%nat (stateOf ["0 @I1@ INDI"; "1 FAMS @F9@"])
    = (s1, Throw msg)
    /\ length (store s1) = S (length (store (stateOf ["0 @I1@ INDI"; "1 FAMS @F9@"]))).
Proof.
  destruct (failed_add_leaves_individual (stateOf ["0 @I1@ INDI"; "1 FAMS @F9@"])
              (mkDom "Partner" (Some "F")) 0%nat)
    as (s1 & newId & Hnew & _ & _ & _ & _ & _ & Hp & _).
  destruct (Hp (formatLine "1 FAMS @F9@") []) as [msg Hmsg];
    [vm_compute; reflexivity|vm_compute; reflexivity|].
  exists s1, msg. split; [exact Hmsg|].
  vm_compute in Hnew. injection Hnew as <-. reflexivity.
Defined.

(** X22.  Adding a child from a person ([addNewNode] with child_from_parent,
    a gender being chosen) when the person's FAMS is not a non-empty array:
    a family is created under an id the Map did not hold, with the person as
    its husband when the person's SEX is M and as its wife otherwise, and
    becomes the person's only FAMS entry; the child is created under a new
    id, is the only CHIL entry of the family and names the family in FAMC. *)
Theorem add_child_from_parent_creates_family (s : State) (dom : Dom) (cur : addr) :
  (cur < length (store s))%nat ->
  nonEmptyArray (getProp "FAMS" (props (deref s cur))) = false ->
  newNodeGender dom <> None ->
  exists (s' : State) (famId childId : string),
    addNewNode child_from_parent dom cur s = (s', Ok tt)
    /\ mapGet (Some famId) (families s) = None
    /\ mapGet (Some famId) (families s') = Some (length (store s))
    /\ id (deref s' (length (store s))) = Some famId
    /\ mapGet (Some childId) (indviduals s) = None
    /\ mapGet (Some childId) (indviduals s') = Some (S (length (store s)))
    /\ id (deref s' (S (length (store s)))) = Some childId
    /\ getProp "FAMS" (props (deref s' cur)) = Some (Many [link "FAMS" (Some famId)])
    /\ getProp (if sexIsM (deref s cur) then "HUSB" else "WIFE")
               (props (deref s' (length (store s))))
       = Some (Many [link (if sexIsM (deref s cur) then "HUSB" else "WIFE")
                          (id (deref s cur))])
    /\ getProp (if sexIsM (deref s cur) then "WIFE" else "HUSB")
               (props (deref s' (length (store s)))) = None
    /\ getProp "CHIL" (props (deref s' (length (store s))))
       = Some (Many [link "CHIL" (Some childId)])
    /\ getProp "FAMC" (props (deref s' (S (length (store s)))))
       = Some (Many [link "FAMC" (Some famId)]).
Proof.
  intros Hcur Hfams Hg.
  destruct (nextFamilyID_fresh s) as [famId [Hfam Hfresh]].
  pose proof (createOrGetFamilyOfPartner_creates s cur famId Hcur Hfams Hfam) as Hrun1.
  set (s1 := mkState _ _ _ _ _ _ _ _) in Hrun1.
  assert (L1 : length (store s1) = S (length (store s))).
  { unfold s1. cbn [store]. rewrite length_app, length_insert. cbn [length]. lia. }
  assert (Hd1 : deref s1 (length (store s)) = partnerFamily famId (deref s cur)).
  { unfold s1, deref. cbn [store]. store_norm. reflexivity. }
  assert (Hd2 : deref s1 cur
                = withField "FAMS" (Many [link "FAMS" (Some famId)]) (deref s cur)).
  { unfold s1, deref. cbn [store]. store_norm. reflexivity. }
  destruct (addChildToFamily_post s1 dom (length (store s)) ltac:(lia))
    as (s' & childId & Hrun2 & Hfresh2 & Hin2 & Hid2 & Hfamc & Hchil & Hother & Hidf
        & Hfams' & Hframe).
  rewrite L1 in Hin2, Hid2, Hfamc. rewrite Hd1 in Hfamc, Hchil, Hother, Hidf.
  exists s', famId, childId.
  split.
  { unfold addNewNode.
    destruct (newNodeGender dom) as [g|] eqn:Eg; [|contradiction].
    unfold bindMut. cbn [isNone negb andb String.eqb Ascii.eqb Bool.eqb child_from_parent
                         parent partner sibling].
    rewrite Hrun1. exact Hrun2. }
  split; [exact Hfresh|].
  split; [rewrite Hfams'; apply mapGet_mapSet_same|].
  split; [rewrite Hidf; reflexivity|].
  split; [exact Hfresh2|]. split; [exact Hin2|]. split; [exact Hid2|].
  split.
  { rewrite (Hframe cur) by lia. rewrite Hd2. unfold withField, withProps. cbn [props].
    apply getProp_setProp_same. }
  split.
  { rewrite Hother by (destruct (sexIsM _); discriminate).
    unfold partnerFamily. destruct (sexIsM (deref s cur)); reflexivity. }
  split.
  { rewrite Hother by (destruct (sexIsM _); discriminate).
    unfold partnerFamily. destruct (sexIsM (deref s cur)); reflexivity. }
  split.
  { rewrite Hchil. unfold partnerFamily. destruct (sexIsM (deref s cur)); reflexivity. }
  exact Hfamc.
Qed.

Lemma add_child_from_parent_creates_family_witness :
  exists (s' : State) (famId childId : string),
    addNewNode child_from_parent (mkDom "Child" (Some "F")) 0%nat (stateOf scenarioA)
    = (s', Ok tt)
    /\ mapGet (Some famId) (families s') = Some 4%nat
    /\ mapGet (Some childId) (indviduals s') = Some 5%nat.
Proof.
  destruct (add_child_from_parent_creates_family (stateOf scenarioA)
              (mkDom "Child" (Some "F")) 0%nat)
    as (s' & famId & childId & H1 & _ & H3 & _ & _ & H6 & _).
  - apply Nat.ltb_lt. vm_compute. reflexivity.
  - vm_compute. reflexivity.
  - discriminate.
  - exists s', famId, childId. auto.
Defined.

(** * Editing fields *)

Lemma deref_update_cases (s : State) (a b : addr) (f : FamilyRow -> FamilyRow) :
  deref (update s a f) b = deref s b
  \/ (b = a /\ (a < length (store s))%nat /\ deref (update s a f) b = f (deref s a)).
Proof.
  destruct (Nat.eq_dec a b) as [<-|Hne].
  - destruct (Nat.lt_ge_cases a (length (store s))) as [H|H].
    + right. split; [reflexivity|]. split; [exact H|]. apply deref_update_same. exact H.
    + left. unfold deref at 1. rewrite store_update.
      rewrite list_insert_ge by exact H. reflexivity.
  - left. apply deref_update_other. exact Hne.
Qed.

Lemma getProp_addPersonToRole_other (role k : string) (p : option string) (fam : FamilyRow) :
  k <> role -> getProp k (props (addPersonToRole role p fam)) = getProp k (props fam).
Proof.
  intros Hk. unfold addPersonToRole.
  destruct (getProp role (props fam)) as [sl|].
  - destruct (existsb _ _); [reflexivity|].
    cbn [props withProps]. apply getProp_setProp_other. exact Hk.
  - cbn [props withProps]. apply getProp_setProp_other. exact Hk.
Qed.

Lemma getProp_removePersonFromRole_other (role k : string) (p : option string)
    (fam : FamilyRow) :
  k <> role -> getProp k (props (removePersonFromRole role p fam)) = getProp k (props fam).
Proof.
  intros Hk. unfold removePersonFromRole.
  destruct (getProp role (props fam)) as [[c|l]|]; [| |reflexivity].
  - destruct (optEqb _ _); [|reflexivity].
    cbn [props withProps]. apply getProp_delProp_other. exact Hk.
  - destruct (findIndexFromArray l p); [|reflexivity].
    destruct (delete _ l); cbn [props withProps].
    + apply getProp_delProp_other. exact Hk.
    + apply getProp_setProp_other. exact Hk.
Qed.

Lemma moveRole_keeps_prop (pid : option string) (g : string) (st : State) (e : FamilyRow)
    (a : addr) (k : string) :
  k <> "HUSB" -> k <> "WIFE" ->
  getProp k (props (deref (moveRole pid g st e) a)) = getProp k (props (deref st a)).
Proof.
  intros H1 H2. unfold moveRole.
  destruct (truthyId (id e)); [|reflexivity].
  destruct (mapGet (id e) (families st)) as [f|]; [|reflexivity].
  destruct (String.eqb g "M").
  - destruct (deref_update_cases st f a
                (fun fam => addPersonToRole "HUSB" pid (removePersonFromRole "WIFE" pid fam)))
      as [->|(-> & _ & ->)]; [reflexivity|].
    rewrite getProp_addPersonToRole_other, getProp_removePersonFromRole_other by assumption.
    reflexivity.
  - destruct (String.eqb g "F"); [|reflexivity].
    destruct (deref_update_cases st f a
                (fun fam => addPersonToRole "WIFE" pid (removePersonFromRole "HUSB" pid fam)))
      as [->|(-> & _ & ->)]; [reflexivity|].
    rewrite getProp_addPersonToRole_other, getProp_removePersonFromRole_other by assumption.
    reflexivity.
Qed.

Lemma fold_moveRole_keeps_prop (pid : option string) (g : string) (l : list FamilyRow)
    (a : addr) (k : string) :
  k <> "HUSB" -> k <> "WIFE" ->
  forall st,
    getProp k (props (deref (fold_left (moveRole pid g) l st) a))
    = getProp k (props (deref st a)).
Proof.
  intros H1 H2. induction l as [|e l IH]; intros st; [reflexivity|].
  cbn [fold_left]. rewrite IH. apply moveRole_keeps_prop; assumption.
Qed.

Lemma reservedKey_one (k : string) : reservedKey k = false -> existsb reservedKey [k] = false.
Proof. intros H. cbn [existsb]. rewrite H. reflexivity. Qed.

(** X23.  A field set by [updatePersonField] reads back through
    [getFieldValue]: when the selected record holds nothing or a single
    record under the tag, the call runs to the end and the value read is the
    value of the input, for NAME the name [formatGedcomName] makes of it.
    The other fields of the record are as before (HUSB and WIFE apart, which
    a change of SEX may rewrite in the families of the person), and so are
    the other records unless the tag is SEX. *)
Theorem updatePersonField_reads_back (s : State) (cur : addr) (inputValue tagName : string) :
  (cur < length (store s))%nat ->
  reservedKey tagName = false ->
  editable (getProp tagName (props (deref s cur))) = true ->
  exists (s' : State),
    updatePersonField inputValue tagName (Some cur) s = (s', Ok tt)
    /\ getFieldValue (deref s' cur) [tagName]
       = Ok (if String.eqb tagName "NAME" then formatGedcomName inputValue else inputValue)
    /\ (forall k, k <> tagName -> k <> "HUSB" -> k <> "WIFE" ->
          getProp k (props (deref s' cur)) = getProp k (props (deref s cur)))
    /\ (tagName <> "SEX" -> forall a, a <> cur -> deref s' a = deref s a).
Proof.
  intros Hcur Hres Hed.
  set (newValue := if String.eqb tagName "NAME" then formatGedcomName inputValue
                   else inputValue).
  set (field := match getProp tagName (props (deref s cur)) with
                | Some (One c) => setValue newValue c
                | _ => newFamilyRow (Some (LNum 1)) None (Some tagName) (Some newValue)
                end).
  set (s1 := update s cur (fun r => withProps r (setProp tagName (One field) (props r)))).
  set (s2 := if String.eqb tagName "SEX"
                && negb (isNone (getProp "FAMS" (props (deref s1 cur))))
             then updateFamilyRolesOnGenderChange cur newValue s1 else s1).
  assert (Hrun : updatePersonField inputValue tagName (Some cur) s = (s2, Ok tt)).
  { unfold updatePersonField. rewrite Hres. fold newValue. unfold bindMut.
    unfold s2, s1, field.
    destruct (getProp tagName (props (deref s cur))) as [[c|l]|]; [|discriminate|].
    - unfold setField, modify.
      match goal with |- context [if ?b then _ else _] => destruct b end; reflexivity.
    - unfold setField, modify.
      match goal with |- context [if ?b then _ else _] => destruct b end; reflexivity. }
  assert (D1 : deref s1 cur
               = withProps (deref s cur) (setProp tagName (One field) (props (deref s cur)))).
  { unfold s1. apply deref_update_same. exact Hcur. }
  assert (Hval : value field = Some newValue).
  { unfold field. destruct (getProp tagName (props (deref s cur))) as [[c|l]|]; reflexivity. }
  assert (Hget2 : forall k, k <> "HUSB" -> k <> "WIFE" ->
            getProp k (props (deref s2 cur)) = getProp k (props (deref s1 cur))).
  { intros k H1 H2. unfold s2.
    match goal with |- context [if ?b then _ else _] => destruct b end; [|reflexivity].
    unfold updateFamilyRolesOnGenderChange. apply fold_moveRole_keeps_prop; assumption. }
  assert (Htag : tagName <> "HUSB" /\ tagName <> "WIFE" \/ String.eqb tagName "SEX" = false).
  { destruct (String.eqb tagName "SEX") eqn:E; [left|right; reflexivity].
    apply String.eqb_eq in E. subst tagName. split; discriminate. }
  assert (Hfield : getProp tagName (props (deref s2 cur)) = Some (One field)).
  { destruct Htag as [[H1 H2]|E].
    - rewrite Hget2 by assumption. rewrite D1. cbn [props withProps].
      apply getProp_setProp_same.
    - unfold s2. rewrite E. cbn [andb]. rewrite D1. cbn [props withProps].
      apply getProp_setProp_same. }
  exists s2. split; [exact Hrun|]. split.
  { unfold getFieldValue. rewrite (reservedKey_one _ Hres).
    cbn [getFieldValueFrom]. rewrite Hfield. cbn [getFieldValueFrom]. rewrite Hval.
    reflexivity. }
  split.
  { intros k Hk H1 H2. rewrite Hget2 by assumption. rewrite D1. cbn [props withProps].
    apply getProp_setProp_other. exact Hk. }
  intros Hsex a Ha. unfold s2.
  assert (E : String.eqb tagName "SEX" = false).
  { destruct (String.eqb tagName "SEX") eqn:E; [|reflexivity].
    apply String.eqb_eq in E. contradiction. }
  rewrite E. cbn [andb]. unfold s1. apply deref_update_other.
  intros E'. apply Ha. symmetry. exact E'.
Qed.

Lemma updatePersonField_reads_back_witness :
  exists (s' : State),
    updatePersonField "  Ada   Lovelace " "NAME" (Some 0%nat) (stateOf scenarioA) = (s', Ok tt)
    /\ getFieldValue (deref s' 0%nat) ["NAME"] = Ok "Ada Lovelace".
Proof.
  destruct (updatePersonField_reads_back (stateOf scenarioA) 0%nat "  Ada   Lovelace " "NAME")
    as (s' & H1 & H2 & _).
  - apply Nat.ltb_lt. vm_compute. reflexivity.
  - vm_compute. reflexivity.
  - vm_compute. reflexivity.
  - exists s'. split; [exact H1|]. rewrite H2. vm_compute. reflexivity.
Defined.

Lemma setNested_post (s : State) (cur : addr) (parentTag childTag newValue : string) :
  (cur < length (store s))%nat ->
  editable (getProp parentTag (props (deref s cur))) = true ->
  (forall p, single parentTag (deref s cur) = Some p ->
             editable (getProp childTag (props p)) = true) ->
  exists (s' : State) (p' : FamilyRow) (c' : FamilyRow),
    setNested cur parentTag childTag newValue s = (s', Ok tt)
    /\ getProp parentTag (props (deref s' cur)) = Some (One p')
    /\ getProp childTag (props p') = Some (One c')
    /\ value c' = Some newValue
    /\ (forall k, k <> childTag ->
          getProp k (props p')
          = match single parentTag (deref s cur) with
            | Some p => getProp k (props p)
            | None => None
            end)
    /\ (forall k, k <> parentTag ->
          getProp k (props (deref s' cur)) = getProp k (props (deref s cur)))
    /\ (forall a, a <> cur -> deref s' a = deref s a).
Proof.
  intros Hcur Hed Hch.
  set (p := match getProp parentTag (props (deref s cur)) with
            | Some (One p) => p
            | _ => newFamilyRow (Some (LNum 1)) None (Some parentTag) None
            end).
  set (c' := match getProp childTag (props p) with
             | Some (One c) => setValue newValue c
             | _ => newFamilyRow (Some (LNum 2)) None (Some childTag) (Some newValue)
             end).
  set (p' := withProps p (setProp childTag (One c') (props p))).
  set (s' := update s cur (fun r => withProps r (setProp parentTag (One p') (props r)))).
  assert (Hp : editable (getProp childTag (props p)) = true).
  { unfold p. destruct (getProp parentTag (props (deref s cur))) as [[q|l]|] eqn:E;
      try reflexivity.
    apply Hch. unfold single. rewrite E. reflexivity. }
  assert (Hrun : setNested cur parentTag childTag newValue s = (s', Ok tt)).
  { unfold setNested, s', p', c'. unfold p in *. clear Hch.
    destruct (getProp parentTag (props (deref s cur))) as [[q|l]|];
      [|discriminate|].
    - destruct (getProp childTag (props q)) as [[c|l]|];
        [|discriminate|]; reflexivity.
    - reflexivity. }
  assert (D : deref s' cur
              = withProps (deref s cur) (setProp parentTag (One p') (props (deref s cur)))).
  { unfold s'. apply deref_update_same. exact Hcur. }
  exists s', p', c'. split; [exact Hrun|].
  split; [rewrite D; cbn [props withProps]; apply getProp_setProp_same|].
  split; [unfold p'; cbn [props withProps]; apply getProp_setProp_same|].
  split.
  { unfold c'. destruct (getProp childTag (props p)) as [[c|l]|]; reflexivity. }
  split.
  { intros k Hk. unfold p'. cbn [props withProps].
    rewrite getProp_setProp_other by exact Hk.
    unfold p, single.
    destruct (getProp parentTag (props (deref s cur))) as [[q|l]|]; reflexivity. }
  split.
  { intros k Hk. rewrite D. cbn [props withProps].
    apply getProp_setProp_other. exact Hk. }
  intros a Ha. unfold s'. apply deref_update_other.
  intros E. apply Ha. symmetry. exact E.
Qed.

(** X24.  A nested field set by [updateNestedField] reads back through
    [getFieldValue]: when the selected record holds nothing or a single
    record under the parent tag, and that record nothing or a single record
    under the child tag, the call runs to the end and the value read under
    parent and child is the value stored (the text of the input, or what
    [convertFromDateInput] makes of it for a date input of a date field).
    The other children of the parent read as before, the other fields of
    the record and the other records are unchanged, and
    [updateFamilyNestedField] does the same on a FAM record. *)
Theorem updateNestedField_reads_back (s : State) (cur : addr)
    (inputValue inputType parentTag childTag newValue : string) (isDateField : bool) :
  (cur < length (store s))%nat ->
  reservedKey parentTag = false -> reservedKey childTag = false ->
  editable (getProp parentTag (props (deref s cur))) = true ->
  (forall p, single parentTag (deref s cur) = Some p ->
             editable (getProp childTag (props p)) = true) ->
  storedValue inputValue inputType isDateField = Ok newValue ->
  exists (s' : State),
    updateNestedField inputValue inputType parentTag childTag isDateField (Some cur) s
    = (s', Ok tt)
    /\ getFieldValue (deref s' cur) [parentTag; childTag] = Ok newValue
    /\ (forall k, k <> childTag -> reservedKey k = false ->
          getFieldValue (deref s' cur) [parentTag; k]
          = getFieldValue (deref s cur) [parentTag; k])
    /\ (forall k, k <> parentTag ->
          getProp k (props (deref s' cur)) = getProp k (props (deref s cur)))
    /\ (forall a, a <> cur -> deref s' a = deref s a)
    /\ (tagIs (deref s cur) "FAM" = true ->
        updateFamilyNestedField newValue parentTag childTag (Some cur) s = (s', Ok tt)).
Proof.
  intros Hcur Hrp Hrc Hed Hch Hstored.
  destruct (setNested_post s cur parentTag childTag newValue Hcur Hed Hch)
    as (s' & p' & c' & Hrun & Hp' & Hc' & Hval & Hsib & Hother & Hframe).
  exists s'. split.
  { unfold updateNestedField. rewrite Hrp, Hrc. cbn [orb].
    unfold bindMut, liftRes. rewrite Hstored. exact Hrun. }
  split.
  { unfold getFieldValue. cbn [existsb]. rewrite Hrp, Hrc. cbn [orb].
    cbn [getFieldValueFrom]. rewrite Hp'. cbn [getFieldValueFrom]. rewrite Hc'.
    cbn [getFieldValueFrom]. rewrite Hval. reflexivity. }
  split.
  { intros k Hk Hrk. unfold getFieldValue. cbn [existsb]. rewrite Hrp, Hrk. cbn [orb].
    f_equal. cbn [getFieldValueFrom]. rewrite Hp', (Hsib k Hk). unfold single.
    destruct (getProp parentTag (props (deref s cur))) as [[q|l]|];
      [reflexivity|discriminate|reflexivity]. }
  split; [exact Hother|]. split; [exact Hframe|].
  intros Htag. unfold updateFamilyNestedField. rewrite Htag, Hrp, Hrc. cbn [negb orb].
  exact Hrun.
Qed.

Lemma updateNestedField_reads_back_witness :
  exists (s' : State),
    updateNestedField "1990-01-15" "date" "BIRT" "DATE" true (Some 0%nat) (stateOf scenarioA)
    = (s', Ok tt)
    /\ getFieldValue (deref s' 0%nat) ["BIRT"; "DATE"] = Ok "15 JAN 1990".
Proof.
  destruct (updateNestedField_reads_back (stateOf scenarioA) 0%nat
              "1990-01-15" "date" "BIRT" "DATE" "15 JAN 1990" true)
    as (s' & H1 & H2 & _).
  - apply Nat.ltb_lt. vm_compute. reflexivity.
  - vm_compute. reflexivity.
  - vm_compute. reflexivity.
  - vm_compute. reflexivity.
  - intros p Hp. vm_compute in Hp. discriminate.
  - vm_compute. reflexivity.
  - exists s'. split; assumption.
Defined.

(** * New ids and the Maps *)

(** X25.  [nextIndividualID] and [nextFamilyID] always return: the search
    from the size of the Map plus one stops, and the id returned is the id of
    a number above the size that is not a key of the Map. *)
Theorem new_ids_are_fresh (s : State) :
  (exists n, (length (indviduals s) < n)%nat
             /\ nextIndividualID s = Ok (getIndividualId n)
             /\ mapGet (Some (getIndividualId n)) (indviduals s) = None)
  /\ (exists n, (length (families s) < n)%nat
                /\ nextFamilyID s = Ok (getFamilyId n)
                /\ mapGet (Some (getFamilyId n)) (families s) = None).
Proof.
  split.
  - destruct (free_candidate getIndividualId (indviduals s) (S (length (indviduals s)))
                getIndividualId_inj) as [k [Hk Hf]].
    destruct (nextFreeId_finds getIndividualId (indviduals s) (S (length (indviduals s)))
                (S (length (indviduals s))) k ltac:(lia) Hf) as [j [Hj Hfree]].
    exists (S (length (indviduals s)) + j)%nat.
    split; [lia|]. split; [exact Hj|].
    unfold mapHas in Hfree. destruct (mapGet _ _); [discriminate|reflexivity].
  - destruct (free_candidate getFamilyId (families s) (S (length (families s)))
                getFamilyId_inj) as [k [Hk Hf]].
    destruct (nextFreeId_finds getFamilyId (families s) (S (length (families s)))
                (S (length (families s))) k ltac:(lia) Hf) as [j [Hj Hfree]].
    exists (S (length (families s)) + j)%nat.
    split; [lia|]. split; [exact Hj|].
    unfold mapHas in Hfree. destruct (mapGet _ _); [discriminate|reflexivity].
Qed.

Lemma mapGet_fold_last (f : addr -> option string) (k : option string) (rs : list addr) :
  forall m : JSMap,
    mapGet k (fold_left (fun m a => mapSet (f a) a m) rs m)
    = match last (List.filter (fun a => optEqb (f a) k) rs) with
      | Some a => Some a
      | None => mapGet k m
      end.
Proof.
  induction rs as [|r rs IH]; intros m; [reflexivity|].
  cbn [fold_left List.filter]. rewrite IH.
  destruct (optEqb (f r) k) eqn:E.
  - apply optEqb_eq in E. subst k.
    destruct (List.filter _ rs) as [|x xs] eqn:Ef.
    + cbn [last]. apply mapGet_mapSet_same.
    + change (last (r :: x :: xs)) with (last (x :: xs)).
      destruct (last (x :: xs)) eqn:El; [reflexivity|].
      apply last_None in El. discriminate.
  - destruct (last (List.filter _ rs)); [reflexivity|].
    apply mapGet_mapSet_other. intros ->. rewrite optEqb_refl in E. discriminate.
Qed.

(** X26.  After [updateMapsForDisplay] the Maps answer for the records of the
    root: looking an id up in [indviduals] gives the last INDI record of the
    root with that id, and nothing when no INDI record has it; the same
    holds for [families] and the FAM records.  The records, the queue and
    the table are untouched. *)
Theorem updateMapsForDisplay_last_wins (s : State) (k : option string) :
  mapGet k (indviduals (updateMapsForDisplay s))
  = last (List.filter (fun a => optEqb (id (deref s a)) k) (indiRefs s))
  /\ mapGet k (families (updateMapsForDisplay s))
     = last (List.filter (fun a => optEqb (id (deref s a)) k) (famRefs s))
  /\ store (updateMapsForDisplay s) = store s
  /\ INDI (updateMapsForDisplay s) = INDI s
  /\ FAM (updateMapsForDisplay s) = FAM s.
Proof.
  assert (G : forall sl : option (Slot addr),
            mapGet k match sl with
                     | Some (Many rs) =>
                         fold_left (fun m a => mapSet (id (deref s a)) a m) rs []
                     | Some (One a) => mapSet (id (deref s a)) a []
                     | None => []
                     end
            = last (List.filter (fun a => optEqb (id (deref s a)) k)
                                (from_option slotList [] sl))).
  { intros [[a|rs]|]; cbn [from_option slotList].
    - cbn [mapSet mapGet List.filter].
      destruct (optEqb (id (deref s a)) k) eqn:E.
      + apply optEqb_eq in E. subst k. rewrite optEqb_refl. reflexivity.
      + destruct (optEqb k (id (deref s a))) eqn:E'; [|reflexivity].
        apply optEqb_eq in E'. subst k. rewrite optEqb_refl in E. discriminate.
    - rewrite mapGet_fold_last. cbn [mapGet].
      destruct (last _); reflexivity.
    - reflexivity. }
  split; [apply (G (INDI s))|]. split; [apply (G (FAM s))|].
  repeat split.
Qed.

(** * Names *)

Lemma collapseSpaces_eq (n : nat) (b : bool) (s : string) :
  collapseSpaces (S n) b s
  = match Str.whiteChar s with
    | Some rest =>
        if b then collapseSpaces n true rest else String " " (collapseSpaces n true rest)
    | None =>
        match s with
        | EmptyString => EmptyString
        | String c s' => String c (collapseSpaces n false s')
        end
    end.
Proof. reflexivity. Qed.

(** A byte at the head of the result that is no space is the head of the
    text, where no white space starts. *)
Lemma collapseSpaces_head (n : nat) (s : string) (h : ascii) (t : string) :
  collapseSpaces n false s = String h t -> h <> " "%char ->
  exists m s', s = String h s' /\ t = collapseSpaces m false s'.
Proof.
  destruct n as [|n]; [discriminate|]. rewrite collapseSpaces_eq.
  destruct (Str.whiteChar s) as [r|].
  - intros [= <- _] H. contradiction.
  - destruct s as [|c s']; [discriminate|]. intros [= <- <-] _.
    exists n, s'. split; reflexivity.
Qed.

Lemma high_no_space (c : ascii) : (128 <= nat_of_ascii c)%nat -> c <> " "%char.
Proof. intros H ->. vm_compute in H. lia. Qed.

(** A byte copied to the result starts no white space there either: the
    bytes after it are the bytes that followed it, or a space. *)
Lemma collapseSpaces_plain (n : nat) (c : ascii) (s : string) :
  Str.whiteChar (String c s) = None ->
  Str.whiteChar (String c (collapseSpaces n false s)) = None.
Proof.
  intros H.
  destruct (Str.whiteChar (String c (collapseSpaces n false s))) as [r|] eqn:E;
    [exfalso|reflexivity].
  destruct (whiteChar_shape _ _ E)
    as [(c' & [= <- _] & Hs)|[(c' & d & [= <- Ed] & _ & Hd & Hx)
                             |(c' & d & e & [= <- Ed] & _ & Hd & He & Hx)]].
  - rewrite (whiteChar_space _ _ Hs) in H. discriminate.
  - destruct (collapseSpaces_head _ _ _ _ Ed (high_no_space _ Hd)) as (m & s1 & -> & _).
    rewrite Hx in H. discriminate.
  - destruct (collapseSpaces_head _ _ _ _ Ed (high_no_space _ Hd)) as (m & s1 & -> & Ee).
    symmetry in Ee.
    destruct (collapseSpaces_head _ _ _ _ Ee (high_no_space _ He)) as (m' & s2 & -> & _).
    rewrite Hx in H. discriminate.
Qed.

Lemma collapseSpaces_idem (n : nat) :
  forall (m : nat) (b : bool) (s : string),
    (String.length s <= n)%nat ->
    (String.length (collapseSpaces n b s) <= m)%nat ->
    collapseSpaces m b (collapseSpaces n b s) = collapseSpaces n b s.
Proof.
  induction n as [|n IH]; intros m b s Hn Hm.
  - cbn [collapseSpaces]. destruct m; reflexivity.
  - rewrite collapseSpaces_eq in *. destruct (Str.whiteChar s) as [r|] eqn:E.
    + pose proof (whiteChar_shorter _ _ E). destruct b.
      * apply IH; [lia|exact Hm].
      * cbn [String.length] in Hm. destruct m as [|m]; [lia|].
        rewrite collapseSpaces_eq, (whiteChar_space " " _ eq_refl). f_equal.
        apply IH; lia.
    + destruct s as [|c s']; [destruct m; reflexivity|].
      cbn [String.length] in *. destruct m as [|m]; [lia|].
      rewrite collapseSpaces_eq, (collapseSpaces_plain n c s' E). f_equal.
      apply IH; lia.
Qed.

Lemma collapseSpaces_nonempty (n : nat) :
  forall (b : bool) (s : string),
    (String.length s <= n)%nat -> Str.blank s = false ->
    collapseSpaces n b s <> EmptyString.
Proof.
  induction n as [|n IH]; intros b s Hn Hb.
  - destruct s; [discriminate Hb|cbn [String.length] in Hn; lia].
  - rewrite collapseSpaces_eq. destruct (Str.whiteChar s) as [r|] eqn:E.
    + pose proof (whiteChar_shorter _ _ E). rewrite (blank_white _ _ E) in Hb.
      destruct b; [apply IH; [lia|exact Hb]|discriminate].
    + destruct s; [discriminate Hb|discriminate].
Qed.

Lemma trimEnd_tail (c : ascii) (s : string) :
  Str.trimEnd (String c s) = String c s ->
  Str.trimEnd s = s /\ Str.blank (String c s) = false.
Proof.
  cbn [Str.trimEnd]. destruct (Str.blank (String c s)); [discriminate|].
  intros [= H]. split; [exact H|reflexivity].
Qed.

Lemma trimEnd_rest (s r : string) :
  Str.whiteChar s = Some r -> Str.trimEnd s = s ->
  Str.trimEnd r = r /\ Str.blank r = false.
Proof.
  intros Hw Ht.
  assert (Hb : Str.blank r = false).
  { rewrite <- (blank_white _ _ Hw). destruct s; [discriminate Hw|].
    exact (proj2 (trimEnd_tail _ _ Ht)). }
  split; [|exact Hb].
  destruct (whiteChar_shape _ _ Hw)
    as [(c & -> & _)|[(c & d & -> & _)|(c & d & e & -> & _)]].
  - exact (proj1 (trimEnd_tail _ _ Ht)).
  - exact (proj1 (trimEnd_tail _ _ (proj1 (trimEnd_tail _ _ Ht)))).
  - exact (proj1 (trimEnd_tail _ _ (proj1 (trimEnd_tail _ _
                                              (proj1 (trimEnd_tail _ _ Ht)))))).
Qed.

(** A text that does not end in white space is collapsed to one that does
    not either. *)
Lemma collapseSpaces_end (n : nat) :
  forall (b : bool) (s : string),
    (String.length s <= n)%nat -> Str.trimEnd s = s ->
    Str.trimEnd (collapseSpaces n b s) = collapseSpaces n b s.
Proof.
  induction n as [|n IH]; intros b s Hn Ht; [reflexivity|].
  rewrite collapseSpaces_eq. destruct (Str.whiteChar s) as [r|] eqn:E.
  - pose proof (whiteChar_shorter _ _ E).
    destruct (trimEnd_rest _ _ E Ht) as (Hr & Hb).
    assert (Hk : Str.trimEnd (collapseSpaces n true r) = collapseSpaces n true r)
      by (apply IH; [lia|exact Hr]).
    destruct b; [exact Hk|].
    rewrite trimEnd_cons, Hk; [reflexivity|].
    rewrite (blank_white _ _ (whiteChar_space " " _ eq_refl)).
    destruct (Str.blank (collapseSpaces n true r)) eqn:B; [|reflexivity].
    rewrite (trimEnd_blank _ B) in Hk.
    destruct (collapseSpaces_nonempty n true r); [lia|exact Hb|]. symmetry. exact Hk.
  - destruct s as [|c s']; [reflexivity|]. cbn [String.length] in Hn.
    destruct (trimEnd_tail _ _ Ht) as (Ht' & _).
    rewrite trimEnd_cons, IH; [reflexivity|lia|exact Ht'|].
    apply blank_none, collapseSpaces_plain. exact E.
Qed.

(** X27.  [formatGedcomName] gives a name in its final form: the result has
    no white space at either end, Unicode white space included, and
    formatting it again returns it unchanged. *)
Theorem formatGedcomName_idempotent (fullName : string) :
  formatGedcomName (formatGedcomName fullName) = formatGedcomName fullName
  /\ Str.trim (formatGedcomName fullName) = formatGedcomName fullName.
Proof.
  assert (T : Str.trim (formatGedcomName fullName) = formatGedcomName fullName).
  { unfold formatGedcomName. destruct (nonEmpty fullName); [|reflexivity].
    set (t := Str.trim fullName).
    assert (Hhead : Str.whiteChar t = None) by (apply trimEnd_head, trimStart_fix).
    assert (Hend : Str.trimEnd t = t) by apply trimEnd_idem.
    unfold Str.trim. rewrite trimStart_none.
    - apply collapseSpaces_end; [apply Nat.le_refl|exact Hend].
    - destruct t as [|c t']; [reflexivity|]. cbn [String.length].
      rewrite collapseSpaces_eq, Hhead. apply collapseSpaces_plain. exact Hhead. }
  split; [|exact T].
  unfold formatGedcomName at 1. rewrite T.
  destruct (nonEmpty (formatGedcomName fullName)) eqn:E.
  - unfold formatGedcomName. destruct (nonEmpty fullName); [|reflexivity].
    apply collapseSpaces_idem; apply Nat.le_refl.
  - unfold nonEmpty in E. apply negb_false_iff, String.eqb_eq in E. symmetry. exact E.
Qed.

(** A name typed with a no-break space before it, a tab and an ideographic
    space inside and a no-break space after it. *)
Lemma formatGedcomName_unicode :
  let nbsp := String (ascii_of_nat 194) (String (ascii_of_nat 160) EmptyString) in
  let wide := String (ascii_of_nat 227) (String (ascii_of_nat 128)
                (String (ascii_of_nat 128) EmptyString)) in
  let tab := String (ascii_of_nat 9) EmptyString in
  formatGedcomName (nbsp +:+ "Ann" +:+ tab +:+ wide +:+ "Lee" +:+ nbsp) = "Ann Lee".
Proof. vm_compute. reflexivity. Qed.

(** * Ages *)

Lemma takeN_stops (p : ascii -> bool) (n : nat) (s rest : string) (c : ascii) :
  (String.length s < n)%nat -> p c = false ->
  takeN p n (s +:+ String c rest) = None.
Proof.
  revert n. induction s as [|d s IH]; intros n Hn Hc.
  - destruct n as [|n]; [cbn in Hn; lia|]. rewrite append_nil. cbn [takeN].
    rewrite Hc. reflexivity.
  - destruct n as [|n]; [cbn in Hn; lia|]. rewrite append_cons. cbn [takeN].
    destruct (p d); [|reflexivity].
    rewrite IH; [reflexivity| cbn [String.length] in Hn; lia |exact Hc].
Qed.

Lemma yearWordFrom_cons (b : bool) (c : ascii) (s : string) :
  yearWordFrom b (String c s)
  = match (if b then None else yearWordAt (String c s)) with
    | Some year => Some year
    | None => yearWordFrom (isWordChar c) s
    end.
Proof. reflexivity. Qed.

(** A word of fewer than four characters before a space holds no year. *)
Lemma yearWordFrom_skip (w rest : string) :
  (String.length w < 4)%nat ->
  forall b, yearWordFrom b (w +:+ String " " rest) = yearWordFrom false rest.
Proof.
  induction w as [|d w IH]; intros Hlen b.
  - rewrite append_nil, yearWordFrom_cons.
    assert (E : yearWordAt (String " " rest) = None) by reflexivity.
    rewrite E. destruct b; reflexivity.
  - rewrite append_cons, yearWordFrom_cons.
    assert (E : yearWordAt (String d (w +:+ String " " rest)) = None).
    { unfold yearWordAt.
      change (String d (w +:+ String " " rest)) with (String d w +:+ String " " rest).
      rewrite takeN_stops; [reflexivity|exact Hlen|reflexivity]. }
    rewrite E.
    assert (Hw : (String.length w < 4)%nat) by (cbn [String.length] in Hlen; lia).
    destruct b; apply IH; exact Hw.
Qed.

Lemma extractYearFromDate_written (day name year : string) :
  (String.length day < 4)%nat -> (String.length name < 4)%nat ->
  allDigits year = true -> String.length year = 4%nat ->
  extractYearFromDate (day +:+ " " +:+ name +:+ " " +:+ year) = Str.digits 0 year.
Proof.
  intros Hd Hn Hy Hy4. unfold extractYearFromDate.
  assert (Hne : nonEmpty (day +:+ " " +:+ name +:+ " " +:+ year) = true).
  { destruct day; reflexivity. }
  rewrite Hne. cbn [negb].
  change (day +:+ " " +:+ name +:+ " " +:+ year)
    with (day +:+ String " " (name +:+ String " " year)).
  rewrite !yearWordFrom_skip by assumption.
  assert (E : yearWordAt year = Some year).
  { unfold yearWordAt. rewrite <- Hy4.
    rewrite <- (append_empty_r year) at 2.
    rewrite (takeN_allDigits _ _ Hy). reflexivity. }
  destruct year as [|c year']; [discriminate|].
  rewrite yearWordFrom_cons, E. reflexivity.
Qed.

(** X28.  An age counts years only.  For two dates written as day, month and
    year (a year of four digits after two words of fewer than four
    characters), [calculateAge] is the difference of the years, whatever the
    days and the months, and there is no age when one of the years is 0;
    [formatDateWithAge] appends the age to the date of the event when the
    age is at least 0 and below 120, and returns the date alone otherwise. *)
Theorem age_counts_years_only (day1 name1 year1 day2 name2 year2 : string)
    (birthYear eventYear : Z) (familyRow : FamilyRow) :
  (String.length day1 < 4)%nat -> (String.length name1 < 4)%nat ->
  (String.length day2 < 4)%nat -> (String.length name2 < 4)%nat ->
  allDigits year1 = true -> String.length year1 = 4%nat ->
  allDigits year2 = true -> String.length year2 = 4%nat ->
  Str.digits 0 year1 = Some birthYear -> Str.digits 0 year2 = Some eventYear ->
  getFieldValueFrom familyRow ["BIRT"; "DATE"] = day1 +:+ " " +:+ name1 +:+ " " +:+ year1 ->
  let birthDate := day1 +:+ " " +:+ name1 +:+ " " +:+ year1 in
  let eventDate := day2 +:+ " " +:+ name2 +:+ " " +:+ year2 in
  calculateAge birthDate eventDate
  = (if (birthYear =? 0) || (eventYear =? 0) then None else Some (eventYear - birthYear))
  /\ formatDateWithAge familyRow eventDate
     = if negb ((birthYear =? 0) || (eventYear =? 0))
          && (0 <=? eventYear - birthYear) && (eventYear - birthYear <? 120)
       then eventDate +:+ " (age " +:+ pretty (eventYear - birthYear) +:+ ")"
       else eventDate.
Proof.
  intros Hd1 Hn1 Hd2 Hn2 Hy1 Hl1 Hy2 Hl2 Hb He Hbirth birthDate eventDate.
  assert (Hage : calculateAge birthDate eventDate
                 = if (birthYear =? 0) || (eventYear =? 0) then None
                   else Some (eventYear - birthYear)).
  { unfold calculateAge, birthDate, eventDate.
    rewrite !extractYearFromDate_written by assumption.
    rewrite Hb, He. reflexivity. }
  split; [exact Hage|].
  unfold formatDateWithAge. rewrite Hbirth. fold birthDate.
  assert (Hne : nonEmpty birthDate = true).
  { unfold birthDate. destruct day1; reflexivity. }
  rewrite Hne. cbn [negb]. rewrite Hage.
  destruct ((birthYear =? 0) || (eventYear =? 0)); [reflexivity|].
  cbn [negb andb]. reflexivity.
Qed.

Lemma age_counts_years_only_witness :
  calculateAge "23 APR 1564" "1 JAN 1600" = Some 36
  /\ formatDateWithAge (formatLine "0 @I1@ INDI") "1 JAN 1600" = "1 JAN 1600".
Proof.
  split.
  - apply (age_counts_years_only "23" "APR" "1564" "1" "JAN" "1600" 1564 1600
             (withProps (newFamilyRow None None None None)
                [("BIRT", One (withProps (newFamilyRow None None None None)
                                 [("DATE", One (newFamilyRow None None None
                                                  (Some "23 APR 1564")))]))]));
      try reflexivity; cbn; lia.
  - vm_compute. reflexivity.
Defined.

(** * The generation distance *)

Lemma existsb_optEqb_In (k : option string) (l : list (option string)) :
  existsb (optEqb k) l = true <-> In k l.
Proof.
  rewrite existsb_exists. split.
  - intros (x & Hx & E). apply optEqb_eq in E. subst x. exact Hx.
  - intros H. exists k. split; [exact H|apply optEqb_refl].
Qed.

Lemma map_flat_map_pair {A : Type} (f : option string * Z -> option string * Z)
    (g : A -> list (option string * Z)) (l : list A) :
  map f (flat_map g l) = flat_map (fun x => map f (g x)) l.
Proof.
  induction l as [|x l IH]; [reflexivity|].
  cbn [flat_map]. rewrite map_app, IH. reflexivity.
Qed.

(** The pushes at a distance are the pushes at distance 0, shifted. *)
Lemma pushedFor_shift (s : State) (k : option string) (d : Z) (p : FamilyRow) :
  pushedFor s k d p = map (fun bw => (fst bw, d + snd bw)) (pushedFor s k 0 p).
Proof.
  unfold pushedFor. rewrite !map_app, !map_flat_map_pair.
  f_equal; [|f_equal].
  - apply flat_map_ext. intros e. destruct (mapGet (id e) (families s)); [|reflexivity].
    rewrite map_app, !map_map. cbn [fst snd]. rewrite Z.add_0_l. reflexivity.
  - apply flat_map_ext. intros e. destruct (mapGet (id e) (families s)); [|reflexivity].
    rewrite !map_map. cbn [fst snd]. rewrite Z.add_0_l. reflexivity.
  - apply flat_map_ext. intros e. destruct (mapGet (id e) (families s)); [|reflexivity].
    rewrite map_app, !map_map. cbn [fst snd]. rewrite Z.add_0_r. reflexivity.
Qed.

Lemma pushedFor_weight (s : State) (k b : option string) (w : Z) (p : FamilyRow) :
  In (b, w) (pushedFor s k 0 p) -> w = 0 \/ w = 1.
Proof.
  unfold pushedFor. rewrite !in_app_iff, !in_flat_map.
  intros [(e & _ & H)|[(e & _ & H)|(e & _ & H)]];
    destruct (mapGet (id e) (families s)); try destruct H;
    rewrite ?in_app_iff, !in_map_iff in H.
  - destruct H as [(x & [= _ <-] & _)|(x & [= _ <-] & _)]; right; reflexivity.
  - destruct H as (x & [= _ <-] & _). right. reflexivity.
  - destruct H as [(x & [= _ <-] & _)|(x & [= _ <-] & _)]; left; reflexivity.
Qed.

(** The links between relatives are what the loop pushes: the ids pushed
    for a person, at the distance of the person, are the parents and the
    children one generation further and the spouses at the same distance. *)
Lemma linkedTo_pushed (s : State) (a b : option string) (w : Z) :
  linkedTo s a b w
  <-> exists person,
        mapGet a (indviduals s) = Some person
        /\ In (b, w) (pushedFor s a 0 (deref s person)).
Proof.
  split.
  - intros (person & f & Hp & H). exists person. split; [exact Hp|].
    unfold pushedFor. rewrite !in_app_iff, !in_flat_map.
    destruct H as [(-> & (e & He & Hf) & Hl)|[(-> & (e & He & Hf) & Hl)
                                             |(-> & (e & He & Hf) & Hl & Hne)]].
    + left. exists e. split; [exact He|]. rewrite Hf, in_app_iff, !in_map_iff.
      destruct Hl as [(x & Hx & <-)|(x & Hx & <-)]; [left|right];
        exists x; (split; [reflexivity|exact Hx]).
    + right. left. exists e. split; [exact He|]. rewrite Hf, in_map_iff.
      destruct Hl as (x & Hx & <-). exists x. split; [reflexivity|exact Hx].
    + right. right. exists e. split; [exact He|]. rewrite Hf, in_app_iff, !in_map_iff.
      assert (Hkeep : forall x, id x = b -> negb (optEqb (id x) a) = true).
      { intros x <-. destruct (optEqb (id x) a) eqn:E; [|reflexivity].
        apply optEqb_eq in E. contradiction. }
      destruct Hl as [(x & Hx & Hb)|(x & Hx & Hb)]; [left|right];
        exists x; (split; [rewrite Hb; reflexivity|]);
        apply List.filter_In; (split; [exact Hx|exact (Hkeep x Hb)]).
  - intros (person & Hp & Hin). unfold pushedFor in Hin.
    rewrite !in_app_iff, !in_flat_map in Hin.
    destruct Hin as [(e & He & H)|[(e & He & H)|(e & He & H)]];
      destruct (mapGet (id e) (families s)) as [f|] eqn:Hf; try destruct H;
      exists person, f; (split; [exact Hp|]).
    + left. rewrite in_app_iff, !in_map_iff in H.
      split; [destruct H as [(x & [= _ <-] & _)|(x & [= _ <-] & _)]; reflexivity|].
      split; [exists e; split; assumption|].
      destruct H as [(x & [= <- _] & Hx)|(x & [= <- _] & Hx)]; [left|right];
        exists x; (split; [exact Hx|reflexivity]).
    + right. left. rewrite in_map_iff in H. destruct H as (x & [= <- <-] & Hx).
      split; [reflexivity|]. split; [exists e; split; assumption|].
      exists x. split; [exact Hx|reflexivity].
    + right. right. rewrite in_app_iff, !in_map_iff in H.
      split; [destruct H as [(x & [= _ <-] & _)|(x & [= _ <-] & _)]; reflexivity|].
      split; [exists e; split; assumption|].
      assert (Hne : forall x, negb (optEqb (id x) a) = true -> id x <> a).
      { intros x Hx E. rewrite E, optEqb_refl in Hx. discriminate. }
      destruct H as [(x & [= <- _] & Hx)|(x & [= <- _] & Hx)];
        apply List.filter_In in Hx as (Hx & Hk);
        (split; [|exact (Hne x Hk)]); [left|right];
        exists x; (split; [exact Hx|reflexivity]).
Qed.

Lemma chainTo_nonneg (s : State) (a b : option string) (d : Z) :
  chainTo s a b d -> 0 <= d.
Proof.
  induction 1 as [|b c d w _ IH Hl]; [lia|].
  apply linkedTo_pushed in Hl as (p & _ & Hin).
  apply pushedFor_weight in Hin. lia.
Qed.

Lemma searchQueue_sound (s : State) (startId targetId : option string) (fuel : nat) :
  forall visitedIds queue d,
    (forall k e, In (k, e) queue -> chainTo s startId k e) ->
    searchQueue fuel s targetId visitedIds queue = Ok (Finite d) ->
    chainTo s startId targetId d.
Proof.
  induction fuel as [|fuel IH]; intros visitedIds queue d Hq Hrun; [discriminate|].
  cbn [searchQueue] in Hrun.
  destruct queue as [|[k e] rest]; [discriminate|].
  destruct (optEqb k targetId) eqn:Et.
  - apply optEqb_eq in Et. subst k. injection Hrun as <-. apply Hq. left. reflexivity.
  - assert (Hrest : forall k' e', In (k', e') rest -> chainTo s startId k' e').
    { intros k' e' H. apply Hq. right. exact H. }
    destruct (existsb (optEqb k) visitedIds); [exact (IH _ _ _ Hrest Hrun)|].
    destruct (mapGet k (indviduals s)) as [person|] eqn:Ep; [|exact (IH _ _ _ Hrest Hrun)].
    refine (IH _ _ _ _ Hrun). intros k' e' H.
    apply in_app_iff in H as [H|H]; [exact (Hrest _ _ H)|].
    rewrite pushedFor_shift in H. apply in_map_iff in H as ([b w] & [= <- <-] & Hin).
    cbn [fst snd]. apply (chain_link s startId k b e w).
    + apply Hq. left. reflexivity.
    + apply linkedTo_pushed. exists person. split; assumption.
Qed.

Lemma searchQueue_complete (s : State) (startId targetId : option string) (fuel : nat) :
  forall visitedIds queue,
    searchInv s startId targetId visitedIds queue ->
    searchQueue fuel s targetId visitedIds queue = Ok Infinity ->
    forall d, ~ chainTo s startId targetId d.
Proof.
  induction fuel as [|fuel IH]; intros visitedIds queue Hinv Hrun; [discriminate|].
  cbn [searchQueue] in Hrun.
  destruct Hinv as (Hstart & Hclosed & Htarget).
  destruct queue as [|[k e] rest].
  - intros d Hchain.
    assert (G : forall b d', chainTo s startId b d' -> In b visitedIds).
    { induction 1 as [|b c d' w _ IHc Hl].
      - destruct Hstart as [H|H]; [exact H|destruct H].
      - destruct (Hclosed _ _ _ IHc Hl) as [H|H]; [exact H|destruct H]. }
    exact (Htarget (G _ _ Hchain)).
  - destruct (optEqb k targetId) eqn:Et; [discriminate|].
    assert (Hkt : k <> targetId).
    { intros ->. rewrite optEqb_refl in Et. discriminate. }
    destruct (existsb (optEqb k) visitedIds) eqn:Ev.
    + apply existsb_optEqb_In in Ev. refine (IH _ _ _ Hrun).
      split; [|split; [|exact Htarget]].
      * destruct Hstart as [H|[<-|H]]; [left; exact H|left; exact Ev|right; exact H].
      * intros a b w Ha Hl.
        destruct (Hclosed _ _ _ Ha Hl) as [H|[<-|H]];
          [left; exact H|left; exact Ev|right; exact H].
    + assert (Hstep : forall pushed,
                (forall b w, linkedTo s k b w -> In b (map fst (rest ++ pushed))) ->
                searchInv s startId targetId (k :: visitedIds) (rest ++ pushed)).
      { intros pushed Hp. split; [|split].
        - destruct Hstart as [H|[<-|H]].
          + left. right. exact H.
          + left. left. reflexivity.
          + right. rewrite map_app, in_app_iff. left. exact H.
        - intros a b w [<-|Ha] Hl.
          + right. exact (Hp _ _ Hl).
          + destruct (Hclosed _ _ _ Ha Hl) as [H|[<-|H]].
            * left. right. exact H.
            * left. left. reflexivity.
            * right. rewrite map_app, in_app_iff. left. exact H.
        - intros [H|H]; [exact (Hkt H)|exact (Htarget H)]. }
      destruct (mapGet k (indviduals s)) as [person|] eqn:Ep.
      * refine (IH _ _ _ Hrun). apply Hstep.
        intros b w Hl. apply linkedTo_pushed in Hl as (person' & Hp' & Hin).
        rewrite Ep in Hp'. injection Hp' as <-.
        rewrite map_app, in_app_iff. right.
        rewrite pushedFor_shift, map_map. cbn [fst].
        apply in_map_iff. exists (b, w). split; [reflexivity|exact Hin].
      * refine (IH _ _ _ Hrun). rewrite <- (app_nil_r rest). apply Hstep.
        intros b w Hl. apply linkedTo_pushed in Hl as (person' & Hp' & _).
        rewrite Ep in Hp'. discriminate.
Qed.

(** The pushes still to come never grow when an id is visited, and shrink by
    the pushes of a person visited for the first time. *)
Lemma pushesLeft_visit (W : option string -> nat) (k : option string)
    (v : list (option string)) (l : JSMap) :
  (list_sum (map (fun kv : option string * addr =>
                    if existsb (optEqb (fst kv)) (k :: v) then 0%nat else W (fst kv)) l)
   <= list_sum (map (fun kv : option string * addr =>
                       if existsb (optEqb (fst kv)) v then 0%nat else W (fst kv)) l))%nat.
Proof.
  unfold list_sum. induction l as [|[k' a'] l IH]; [reflexivity|].
  cbn [map fold_right fst].
  change (existsb (optEqb k') (k :: v)) with (optEqb k' k || existsb (optEqb k') v).
  destruct (optEqb k' k), (existsb (optEqb k') v); cbn [orb]; lia.
Qed.

Lemma pushesLeft_first_visit (W : option string -> nat) (k : option string)
    (v : list (option string)) (l : JSMap) (a : addr) :
  existsb (optEqb k) v = false -> mapGet k l = Some a ->
  (list_sum (map (fun kv : option string * addr =>
                    if existsb (optEqb (fst kv)) (k :: v) then 0%nat else W (fst kv)) l)
   + W k
   <= list_sum (map (fun kv : option string * addr =>
                       if existsb (optEqb (fst kv)) v then 0%nat else W (fst kv)) l))%nat.
Proof.
  intros Hv. pose proof (pushesLeft_visit W k v) as Hmono.
  unfold list_sum in *. induction l as [|[k' a'] l IH]; [discriminate|].
  cbn [mapGet]. destruct (optEqb k k') eqn:E.
  - intros _. apply optEqb_eq in E. subst k'.
    cbn [map fold_right fst].
    change (existsb (optEqb k) (k :: v)) with (optEqb k k || existsb (optEqb k) v).
    rewrite optEqb_refl, Hv. cbn [orb].
    specialize (Hmono l). lia.
  - intros H. specialize (IH H). cbn [map fold_right fst].
    change (existsb (optEqb k') (k :: v)) with (optEqb k' k || existsb (optEqb k') v).
    destruct (optEqb k' k), (existsb (optEqb k') v); cbn [orb]; lia.
Qed.

Lemma searchQueue_ends (s : State) (targetId : option string) (fuel : nat) :
  forall visitedIds queue,
    (length queue + pushesLeft s visitedIds < fuel)%nat ->
    exists r, searchQueue fuel s targetId visitedIds queue = Ok r.
Proof.
  induction fuel as [|fuel IH]; intros visitedIds queue Hfuel; [lia|].
  cbn [searchQueue].
  destruct queue as [|[k e] rest]; [eexists; reflexivity|].
  destruct (optEqb k targetId); [eexists; reflexivity|].
  cbn [length] in Hfuel.
  set (W := fun key : option string =>
              match mapGet key (indviduals s) with
              | Some person => length (pushedFor s key 0 (deref s person))
              | None => 0%nat
              end).
  assert (Hmono : (pushesLeft s (k :: visitedIds) <= pushesLeft s visitedIds)%nat).
  { apply (pushesLeft_visit W). }
  destruct (existsb (optEqb k) visitedIds) eqn:Ev; [apply IH; lia|].
  destruct (mapGet k (indviduals s)) as [person|] eqn:Ep; [|apply IH; lia].
  apply IH. rewrite length_app.
  assert (Hdrop : (pushesLeft s (k :: visitedIds) + W k <= pushesLeft s visitedIds)%nat).
  { exact (pushesLeft_first_visit W k visitedIds (indviduals s) person Ev Ep). }
  assert (HW : W k = length (pushedFor s k e (deref s person))).
  { unfold W. rewrite Ep, (pushedFor_shift s k e), length_map. reflexivity. }
  lia.
Qed.

(** X29.  [calculateGenerationDistance] between two truthy ids returns as
    soon as its loop is given two turns more than the pushes the persons of
    the Map stand for.  A number it returns is the count of generations
    along some chain of links between relatives from the start to the
    target, a step to a parent or to a child counting one generation and a
    step to a spouse none; it returns Infinity only when no chain of such
    links leads from the start to the target. *)
Theorem generation_distance_follows_links (s : State) (startId targetId : option string)
    (fuel : nat) :
  truthyId startId = true -> truthyId targetId = true ->
  (2 + pushesLeft s [] <= fuel)%nat ->
  exists r,
    calculateGenerationDistance fuel startId targetId s = Ok r
    /\ match r with
       | Finite d => 0 <= d /\ chainTo s startId targetId d
       | Infinity => forall d, ~ chainTo s startId targetId d
       end.
Proof.
  intros Hs Ht Hfuel.
  unfold calculateGenerationDistance. rewrite Hs, Ht. cbn [negb orb].
  destruct (optEqb startId targetId) eqn:E.
  - apply optEqb_eq in E. subst targetId. eexists. split; [reflexivity|].
    split; [lia|constructor].
  - destruct (searchQueue_ends s targetId fuel [] [(startId, 0)]) as [r Hr].
    { cbn [length]. lia. }
    exists r. split; [exact Hr|]. destruct r as [d|].
    + assert (Hc : chainTo s startId targetId d).
      { apply (searchQueue_sound s startId targetId fuel [] [(startId, 0)] d); [|exact Hr].
        intros k e [[= <- <-]|[]]. constructor. }
      split; [exact (chainTo_nonneg _ _ _ _ Hc)|exact Hc].
    + apply (searchQueue_complete s startId targetId fuel [] [(startId, 0)]); [|exact Hr].
      split; [right; left; reflexivity|]. split; [intros a b w []|intros []].
Qed.

Lemma generation_distance_follows_links_witness :
  pushesLeft (stateOf scenarioA) [] = 6%nat
  /\ calculateGenerationDistance 8 (Some "@I1@") (Some "@I2@") (stateOf scenarioA)
     = Ok (Finite 1)
  /\ chainTo (stateOf scenarioA) (Some "@I1@") (Some "@I2@") 1.
Proof.
  split; [vm_compute; reflexivity|].
  destruct (generation_distance_follows_links (stateOf scenarioA) (Some "@I1@") (Some "@I2@")
              8 eq_refl eq_refl) as (r & Hr & Hd).
  - apply Nat.leb_le. vm_compute. reflexivity.
  - assert (E : r = Finite 1).
    { vm_compute in Hr. injection Hr as <-. reflexivity. }
    subst r. split; [vm_compute; reflexivity|exact (proj2 Hd)].
Defined.

(** The number returned need not be the smallest: a spouse is pushed at the
    distance of the person, but after the parents and children, so a longer
    chain through a child can reach the target first.  Here @T@ is a parent
    of the wife @W@ of @S@ (one generation from @S@) and also a child of
    @C@, the child of @S@ (two generations); the search returns 2. *)
Lemma generation_distance_not_least :
  calculateGenerationDistance 20 (Some "@S@") (Some "@T@") (stateOf stepFamily)
  = Ok (Finite 2)
  /\ chainTo (stateOf stepFamily) (Some "@S@") (Some "@T@") 1.
Proof.
  split; [vm_compute; reflexivity|].
  apply (chain_link _ _ (Some "@W@") (Some "@T@") 0 1).
  - apply (chain_link _ _ (Some "@S@") (Some "@W@") 0 0); [constructor|].
    apply linkedTo_pushed.
    exists 0%nat. split; [vm_compute; reflexivity|]. vm_compute. auto.
  - apply linkedTo_pushed.
    exists 1%nat. split; [vm_compute; reflexivity|]. vm_compute. auto.
Qed.

(** * A partner for a person with a family *)

(** X30.  When the first FAMS id of an individual is in the [families] Map
    and a gender is chosen, [addPartner] runs to the end: it creates the
    partner under an id the Map did not hold, enters it in the Map, gives it
    one FAMS entry naming the family and appends it to the family's HUSB
    array when the gender chosen is M and to its WIFE array otherwise (a
    slot that is not a non-empty array is replaced by the array of the
    partner alone).  The other fields of the family, the other records and
    the [families] Map are as before. *)
Theorem addPartner_joins_family (s : State) (dom : Dom) (cur fam : addr)
    (e : FamilyRow) (rest : list FamilyRow) (g : string) :
  getProp "FAMS" (props (deref s cur)) = Some (Many (e :: rest)) ->
  mapGet (id e) (families s) = Some fam ->
  (fam < length (store s))%nat ->
  newNodeGender dom = Some g -> g <> "" ->
  exists (s' : State) (newId : string),
    addPartner dom cur s = (s', Ok tt)
    /\ mapGet (Some newId) (indviduals s) = None
    /\ mapGet (Some newId) (indviduals s') = Some (length (store s))
    /\ id (deref s' (length (store s))) = Some newId
    /\ getProp "FAMS" (props (deref s' (length (store s))))
       = Some (Many [link "FAMS" (id (deref s fam))])
    /\ getProp (spouseSlot g) (props (deref s' fam))
       = Some (Many (arrayToPushOn (getProp (spouseSlot g) (props (deref s fam)))
                     ++ [link (spouseSlot g) (Some newId)]))
    /\ (forall k, k <> spouseSlot g ->
          getProp k (props (deref s' fam)) = getProp k (props (deref s fam)))
    /\ families s' = families s
    /\ (forall a, (a < length (store s))%nat -> a <> fam -> deref s' a = deref s a).
Proof.
  intros HF Hmap Hfam Hg Hne.
  destruct (createNewNode_post s dom None) as (newId & Hfresh & Hnew).
  assert (Hused : genderUsed dom None = Some g) by (unfold genderUsed; exact Hg).
  rewrite Hused in Hnew.
  assert (Hgt : truthyId (Some g) = true).
  { unfold truthyId, nonEmpty.
    destruct (String.eqb g "") eqn:E; [apply String.eqb_eq in E; contradiction|].
    reflexivity. }
  set (p := createdPerson newId _ _) in Hnew.
  set (s2 := mkState _ _ _ _ _ _ _ _) in Hnew.
  assert (D2 : deref s2 fam = deref s fam).
  { unfold s2. rewrite deref_mk_old by exact Hfam. reflexivity. }
  assert (N2 : deref s2 (length (store s)) = p).
  { unfold s2. apply deref_mk_new. }
  assert (L2 : length (store s2) = S (length (store s))).
  { unfold s2. cbn [store]. rewrite length_app. cbn [length]. lia. }
  set (s3 := update s2 (length (store s))
               (fun r => withProps r (setProp "FAMS" (Many [link "FAMS" (id (deref s fam))])
                                              (props r)))).
  set (s4 := update s3 fam (pushInto (spouseSlot g) (link (spouseSlot g) (Some newId)))).
  assert (L3 : length (store s3) = S (length (store s))).
  { unfold s3. rewrite length_store_update. exact L2. }
  assert (N3 : deref s3 (length (store s))
               = withProps p (setProp "FAMS" (Many [link "FAMS" (id (deref s fam))]) (props p))).
  { unfold s3. rewrite deref_update_same by lia. rewrite N2. reflexivity. }
  assert (D3 : deref s3 fam = deref s fam).
  { unfold s3. rewrite deref_update_other by lia. exact D2. }
  assert (Hsex : getProp "SEX" (props (deref s3 (length (store s))))
                 = Some (One (newFamilyRow (Some (LNum 1)) None (Some "SEX") (Some g)))).
  { rewrite N3. cbn [props withProps].
    rewrite getProp_setProp_other by discriminate.
    unfold p, createdPerson. rewrite Hgt. reflexivity. }
  assert (HsexM : sexIsM (deref s3 (length (store s))) = String.eqb g "M").
  { unfold sexIsM. rewrite Hsex. reflexivity. }
  assert (Hrun : addPartner dom cur s = (s4, Ok tt)).
  { unfold addPartner, bindMut, createOrGetFamilyOfPartner.
    rewrite HF, Hmap, Hnew. cbv beta iota.
    unfold setField at 1. unfold modify. rewrite D2. fold s3.
    rewrite Hsex, HsexM. unfold s4, spouseSlot, pushField, modify.
    rewrite N3. destruct (String.eqb g "M"); reflexivity. }
  assert (D4 : deref s4 fam
               = pushInto (spouseSlot g) (link (spouseSlot g) (Some newId)) (deref s fam)).
  { unfold s4. rewrite deref_update_same by lia. rewrite D3. reflexivity. }
  assert (N4 : deref s4 (length (store s)) = deref s3 (length (store s))).
  { unfold s4. apply deref_update_other. lia. }
  exists s4, newId.
  split; [exact Hrun|]. split; [exact Hfresh|].
  split; [apply mapGet_mapSet_same|].
  split; [rewrite N4, N3; reflexivity|].
  split; [rewrite N4, N3; cbn [props withProps]; apply getProp_setProp_same|].
  split; [rewrite D4, pushInto_props; apply getProp_setProp_same|].
  split.
  { intros k Hk. rewrite D4, pushInto_props. apply getProp_setProp_other. exact Hk. }
  split; [reflexivity|].
  intros a Ha Hna. unfold s4.
  rewrite deref_update_other by (intros E; apply Hna; symmetry; exact E).
  unfold s3. rewrite deref_update_other by lia.
  unfold s2. rewrite deref_mk_old by exact Ha. reflexivity.
Qed.

Lemma addPartner_joins_family_witness :
  exists (s' : State) (newId : string),
    addPartner (mkDom "Second wife" (Some "F")) 1%nat (stateOf scenarioA) = (s', Ok tt)
    /\ mapGet (Some newId) (indviduals (stateOf scenarioA)) = None
    /\ getProp "WIFE" (props (deref s' 3%nat))
       = Some (Many [formatLine "1 WIFE @I3@"; link "WIFE" (Some newId)]).
Proof.
  destruct (addPartner_joins_family (stateOf scenarioA) (mkDom "Second wife" (Some "F"))
              1%nat 3%nat (formatLine "1 FAMS @F1@") [] "F")
    as (s' & newId & H1 & H2 & _ & _ & _ & H6 & _).
  - vm_compute. reflexivity.
  - vm_compute. reflexivity.
  - apply Nat.ltb_lt. vm_compute. reflexivity.
  - reflexivity.
  - discriminate.
  - exists s', newId. split; [exact H1|]. split; [exact H2|exact H6].
Defined.
